(* ===== verification/_CoqProject ===== *)
-Q . S2P
Prelude.v
ExternalLibs.v
ExternalModels.v
StepLog.v
CircularBuffer.v
ConnectionQuality.v
UpdateQuality.v
GameState.v
Participants.v
LocalParty.v
ParticipantConnection.v
TransportConnection.v
LocalParties.v
Game.v
StepFormat.v
AuthoritativeSteps.v
Session.v
StepRequest.v
ServerState.v
ConnectRequest.v
JoinRequest.v
StateDownload.v
Server.v
Silence.v
Connecting.v
Isolation.v
HostMigration.v
