(* ===== verification/Prelude.v ===== *)
(** * Verification of nimble-server-lib

    nimble-server-lib is the server of a deterministic lock-step game. Clients
    predict the steps (inputs) of their players and send them in datagrams; the
    server composes the steps of all participants into one authoritative step
    for every tick, and sends the authoritative steps to all clients. A client
    connects, joins with a party of participants, downloads the state of the
    game, and then exchanges steps; a party whose client falls silent waits for
    it, and is dissolved when it does not come back.

    This file holds what all files share: machine integers, the [outcome] monad
    of computations that may stop the program, the predicate [sat] for their
    correctness, loops, lemmas on lists, and the tactic [run].

    ** How C is modelled

    - A C integer is a [Z]; where the code can wrap or truncate, [u8], [u16],
      [u32], [u64], [s8] and [s32] say so.
    - An array is a list and a pointer into it is a position; NULL is [None].
      [load] and [store] stop with [OutOfBounds] outside the array, [deref] with
      [NullPointer], [initialized] with [UninitializedRead] where something is used
      that was not set, and says what it was ([variable]). Objects that point to each other (participants,
      parties, connections) are kept in their arrays, and the functions take the
      arrays they reach, so that aliasing is as in the code.
    - [CLOG_ASSERT] and [CLOG_ERROR] follow the build: class [Clog] says whether
      they stop the program. Theorems hold for every build unless [checks_on]
      is a hypothesis, the build in which both stop it. Most theorems on the whole
      server have it: where errors do not stop the program, an array can be left,
      and the place of another client be taken. Soft errors and log
      messages have no effect and are left out.
    - A [for] loop is [for_loop] or [for_each] with its bound. The two [while]
      loops have fuel: [compose_fuel] rounds for composing (half the window of
      the authoritative steps, the limit of the code, and one), and one round
      more than the datagram has octets for feeding (every round reads at least
      one). The theorems show that the fuel is never used up.

    ** The files

    - [ExternalLibs]: interfaces (classes) of the libraries the server calls,
      with the laws it relies on; [ExternalModels]: small executable instances,
      for the witnesses. [StepLog]: the abstract specification of the steps of a
      game, a log that is only appended to.
    - [CircularBuffer] (circular_buffer.c), [ConnectionQuality]
      (connection_quality.c, delayed_quality.c), [UpdateQuality]
      (update_quality.c), [GameState] (game_state.c): the leaves.
    - [Participants] (participant.c, participants.c, participant_references.c):
      the pool of participants, its invariant [pool_wf] and free list.
    - [LocalParty] (local_party.c), [TransportConnection]
      (transport_connection.c), [LocalParties] (local_parties.c): parties, their
      ticks, the reading of predicted steps, creation and search.
    - [ParticipantConnection] (participant_connection.c, forced_step.c): the
      forerunner of the party, in the repository but not in the build.
    - [Game] (game.c), [StepFormat] (the octets of an authoritative step, with a
      decoder), [AuthoritativeSteps] (authoritative_steps.c).
    - [Session]: the invariant [session_ok] of parties, participants and steps
      together: references are valid, and every party in use owns its
      participants. [StepRequest] (req_step.c, incoming_predicted_steps.c,
      send_authoritative_steps.c, transport_connection_stats.c): the handler of
      steps on it.
    - [ServerState] (server.h): the server, the world around it (clock, random
      numbers, application, datagrams sent and to be received), and the invariant
      [server_ok]; [ConnectRequest] (req_connect.c), [JoinRequest]
      (req_game_join.c), [StateDownload] (req_game_state.c,
      req_game_state_ack.c): the other handlers; [Server] (server.c): feeding,
      updating, initialisation, notifications; [HostMigration] (server.c): a
      client that becomes the host.
    - On the whole server: [Silence], a party over the updates when its client
      sends nothing; [Connecting], connecting and feeding together; [Isolation],
      what a datagram leaves alone.

    ** What is shown

    - Memory safety and termination of the whole, in the build with checks: from
      cleared memory through any sequence of updates and datagrams, the program is
      only stopped by its own checks, or by the use of one of four things that
      were not set ([checked_halt]; each is reached in
      [Server.datagrams_stop_server], but for a player missing in a request), and
      never leaves an array or follows NULL
      ([Server.session_safe], [Server.feed_safe], [Server.update_keeps_running],
      [Server.init_starts_session]); the invariants are kept by every handler
      ([StepRequest.req_game_step_keeps_session], ...). No datagram frees a
      party, unless it stops the server ([Server.datagram_never_ends_party]); none
      changes a connection in use for another transport connection
      ([Isolation.datagram_leaves_others_alone]).
    - Agreement of the clients: whatever the server does, the authoritative
      steps are a log that is appended to, so that two clients that are sent a
      step with the same id are sent the same octets
      ([Server.authoritative_steps_agree]).
    - The composition of steps: what is written is the encoding of one record
      for every participant, which the decoder of [StepFormat] reads back, as it
      does the part of one participant
      ([AuthoritativeSteps.participant_step_roundtrip]); when the server
      composes, and that composing ends; and that composing as many steps as
      possible is the abstract lock-step game
      ([AuthoritativeSteps.compose_steps_lock_step]).
    - The handlers: the answer on every branch, and that a client that repeats a
      request is answered the same way (connecting, joining, downloading).
    - Returning: a party that waits is taken over by a client that names its id
      ([JoinRequest.rejoin_takes_party]), also after the host has migrated
      ([HostMigration.host_migration_correct]).
    - Parties: a tick, all ticks, creation, and the search for the party of a
      connection. A party whose client falls silent is gone after an exact number
      of updates of the server, and not before
      ([Silence.silent_client_loses_party]; for the party on its own,
      [LocalParty.party_given_up_eventually]).
    - Participant connections: every reachable one is well typed
      ([ParticipantConnection.connection_reachable_typed]); missing steps are
      filled with forced ones
      ([ParticipantConnection.predicted_steps_fill_gap]); and it is given up
      exactly when a party would be
      ([ParticipantConnection.connection_runs_as_party]).
    - Refinements: the ring is a bounded queue, a game state holds the newest
      state offered, the delayed quality is a walk that is reflected at zero.
    - What goes wrong: misuse of the ring, a leaving participant that stops the
      server, a count of the steps ahead that is one too high
      ([AuthoritativeSteps.should_advance_correct]), a search that misses a party, requests to join that read outside
      an array or an unset pointer, a return with other participants that stops
      the server, a restart that keeps the count of parties, a disconnection
      that is not counted, announced connections that are refused, a client
      that locks out another by connecting
      ([Connecting.connecting_locks_out]), and one that stops the server
      ([Connecting.connecting_own_place_stops_server]), downloads that are
      reported as errors ([Connecting.download_reported_as_error]), each shown on
      the code as it is.

    ** What is not modelled

    The example daemon is a main loop of input and output, written for an earlier
    interface of the library; the tests only call the library, and the one of the
    migration of the host is evaluated ([HostMigration.verifyHostMigration]).
    Formatting of texts, log output, and the contents of allocators are left out; the libraries
    are parameters. The struct of a participant connection is declared in a header
    that is not in the repository: its fields are those the code uses, and the
    width of its counters of warnings is a parameter. The laws of the step buffers
    say that a consistent buffer has a step or is empty for it; what composing
    does with any other error of a read is [AuthoritativeSteps.corrupt_step],
    and the other theorems do not meet it. nimbleServerHostMigration and
    nimbleServerConnectionDisconnected are modelled but not part of
    [server_calls]: the second breaks the invariant, for it frees a party
    without counting it out. *)

From stdpp Require Export prelude list numbers option.

#[global] Open Scope Z_scope.

(** ** Machine integers

    Every C integer is a [Z] kept in the range of its type; the
    truncations of the code are written out with the functions below. *)

Definition u8 (z : Z) : Z := z mod 256.
Definition u16 (z : Z) : Z := z mod 65536.
Definition u32 (z : Z) : Z := z mod 4294967296.
Definition u64 (z : Z) : Z := z mod 18446744073709551616.
Definition s8 (z : Z) : Z := (z + 128) mod 256 - 128.
Definition s32 (z : Z) : Z := (z + 2147483648) mod 4294967296 - 2147483648.

#[global] Arguments u8 : simpl never.
#[global] Arguments u16 : simpl never.
#[global] Arguments u32 : simpl never.
#[global] Arguments u64 : simpl never.
#[global] Arguments s8 : simpl never.
#[global] Arguments s32 : simpl never.

(** [wrap_lia] decides linear goals about the truncations. *)
Ltac wrap_lia :=
  unfold u8, u16, u32, u64, s8, s32 in *; Z.div_mod_to_equations; lia.

Lemma u8_small z : 0 <= z < 256 -> u8 z = z.
Proof. apply Z.mod_small. Qed.
Lemma u32_small z : 0 <= z < 4294967296 -> u32 z = z.
Proof. apply Z.mod_small. Qed.
Lemma u64_small z : 0 <= z < 18446744073709551616 -> u64 z = z.
Proof. apply Z.mod_small. Qed.
Lemma u8_range z : 0 <= u8 z < 256.
Proof. by apply Z.mod_pos_bound. Qed.
Lemma u32_range z : 0 <= u32 z < 4294967296.
Proof. by apply Z.mod_pos_bound. Qed.
Lemma u64_range z : 0 <= u64 z < 18446744073709551616.
Proof. by apply Z.mod_pos_bound. Qed.
Lemma s32_small z : -2147483648 <= z < 2147483648 -> s32 z = z.
Proof. intros. unfold s32. rewrite Z.mod_small; lia. Qed.

Lemma lor_128 z : 0 <= z < 128 -> Z.lor 128 z = 128 + z.
Proof.
  intros Hz. rewrite <- Z.lxor_lor, Z.add_nocarry_lxor; [done|..].
  all: apply Z.bits_inj'; intros n Hn; rewrite Z.land_spec, Z.bits_0;
    change 128 with (2 ^ 7); rewrite Z.pow2_bits_eqb by lia;
    destruct (Z.eqb_spec 7 n) as [<-|]; [|done]; apply (Z.bits_above_log2 z 7); [lia|];
    destruct (Z.eq_dec z 0) as [->|]; [done|apply Z.log2_lt_pow2; lia].
Qed.

(** ** Outcomes of C code

    A C function either returns ([Ret]) or stops the program: a failed
    [CLOG_ASSERT], a [CLOG_ERROR] in a build where it stops the program, or
    an access the C standard leaves undefined. *)

(** What may be used before it is set: a number that a datagram was too short
    for, a player that a request to join counts but does not hold, the pointer
    to a party that joining did not set, the blob stream of a connection that no
    transfer was started on, and local variables. *)
Inductive variable :=
  | NumberOfDatagram
  | PlayerOfRequest
  | PartyOfRequest
  | TransferOfConnection
  | LocalVariable.

Inductive halt :=
  | AssertionFailed
  | ErrorLogged
  | OutOfBounds
  | NullPointer
  | UninitializedRead (what : variable)
  | OutOfFuel.

Inductive outcome (A : Type) :=
  | Ret (a : A)
  | Halt (h : halt).
Arguments Ret {A} a.
Arguments Halt {A} h.

#[export] Instance outcome_ret : MRet outcome := fun A a => Ret a.
#[export] Instance outcome_bind : MBind outcome := fun A B f m =>
  match m with
  | Ret a => f a
  | Halt h => Halt h
  end.

#[export] Instance variable_eq_dec : EqDecision variable.
Proof. solve_decision. Defined.
#[export] Instance halt_eq_dec : EqDecision halt.
Proof. solve_decision. Defined.

(** The clog library: whether assertions are compiled in, and whether
    [CLOG_ERROR] stops the program. Every theorem holds for both builds
    unless it says otherwise. *)
Class Clog := {
  assertions_enabled : bool;
  errors_halt : bool;
}.

Definition CLOG_ASSERT `{Clog} (condition : bool) : outcome unit :=
  if condition then Ret tt
  else if assertions_enabled then Halt AssertionFailed else Ret tt.

Definition CLOG_ERROR `{Clog} : outcome unit :=
  if errors_halt then Halt ErrorLogged else Ret tt.

(** Memory: an array is a list, a pointer into it is a position. *)
Definition load {A} (l : list A) (p : nat) : outcome A :=
  match l !! p with
  | Some a => Ret a
  | None => Halt OutOfBounds
  end.

Definition store {A} (l : list A) (p : nat) (a : A) : outcome (list A) :=
  match l !! p with
  | Some _ => Ret (<[p := a]> l)
  | None => Halt OutOfBounds
  end.

(** The use of a variable that may not have been set. *)
Definition initialized {A} (what : variable) (o : option A) : outcome A :=
  match o with
  | Some a => Ret a
  | None => Halt (UninitializedRead what)
  end.

Definition deref {A} (p : option A) : outcome A :=
  match p with
  | Some a => Ret a
  | None => Halt NullPointer
  end.

(** Why a computation stopped, if it did. *)
Definition halted {A} (m : outcome A) : option halt :=
  match m with
  | Ret _ => None
  | Halt h => Some h
  end.

(** ** Correctness of a computation

    [sat E m Q]: [m] returns and what it returns satisfies [Q], or it stops
    for a reason that [E] allows. [runs m Q] is total correctness: [m] does
    return. *)
Definition sat {A} (E : halt -> Prop) (m : outcome A) (Q : A -> Prop) : Prop :=
  match m with
  | Ret a => Q a
  | Halt h => E h
  end.

Abbreviation runs := (sat (fun _ => False)).

Section Sat.
Context {E : halt -> Prop}.

Lemma runs_ret {A} (a : A) (Q : A -> Prop) : Q a -> sat E (Ret a) Q.
Proof. done. Qed.

Lemma runs_bind {A B} (m : outcome A) (f : A -> outcome B) (Q : B -> Prop) :
  sat E m (fun a => sat E (f a) Q) -> sat E (m ≫= f) Q.
Proof. by destruct m. Qed.

Lemma runs_mono {A} (m : outcome A) (P Q : A -> Prop) :
  sat E m P -> (forall a, P a -> Q a) -> sat E m Q.
Proof. destruct m; simpl; auto. Qed.

Lemma runs_bind_mono {A B} (m : outcome A) (f : A -> outcome B)
    (P : A -> Prop) (Q : B -> Prop) :
  sat E m P -> (forall a, P a -> sat E (f a) Q) -> sat E (m ≫= f) Q.
Proof. intros Hm Hf. apply runs_bind. by eapply runs_mono. Qed.

Lemma runs_and {A} (m : outcome A) (P Q : A -> Prop) :
  sat E m P -> sat E m Q -> sat E m (fun a => P a /\ Q a).
Proof. by destruct m; simpl. Qed.

Lemma runs_weaken {A} (m : outcome A) (Q : A -> Prop) : runs m Q -> sat E m Q.
Proof. by destruct m. Qed.

Lemma runs_assert `{Clog} (b : bool) (Q : unit -> Prop) :
  b = true -> Q tt -> sat E (CLOG_ASSERT b) Q.
Proof. intros ->. done. Qed.

Lemma runs_load {A} (l : list A) p a (Q : A -> Prop) :
  l !! p = Some a -> Q a -> sat E (load l p) Q.
Proof. unfold load. by intros ->. Qed.

Lemma runs_store {A} (l : list A) p a (Q : list A -> Prop) :
  (p < length l)%nat -> Q (<[p := a]> l) -> sat E (store l p a) Q.
Proof.
  intros Hp HQ. unfold store.
  by destruct (lookup_lt_is_Some_2 l p Hp) as [x ->].
Qed.

Lemma runs_initialized {A} what (o : option A) a (Q : A -> Prop) :
  o = Some a -> Q a -> sat E (initialized what o) Q.
Proof. by intros ->. Qed.

Lemma runs_guard {A B} (b : bool) (m : outcome A) (k : A -> outcome B) a (Q : B -> Prop) :
  b = false -> sat E (k a) Q -> sat E ((if b then m else Ret a) ≫= k) Q.
Proof. by intros ->. Qed.

Lemma sat_weaken {A} (E' : halt -> Prop) (m : outcome A) (Q : A -> Prop) :
  (forall h, E' h -> E h) -> sat E' m Q -> sat E m Q.
Proof. destruct m; simpl; auto. Qed.

(** A stream read whose failure leaves the target unwritten. *)
Lemma runs_read_or_halt {A} what (o : option A) (Q : A -> Prop) :
  E (UninitializedRead what) -> (forall a, o = Some a -> Q a) -> sat E (initialized what o) Q.
Proof. destruct o; simpl; auto. Qed.
End Sat.

(** Two facts about one run. *)
Lemma sat_both {A} (E E' : halt -> Prop) (m : outcome A) (P Q : A -> Prop) :
  sat E m P -> sat E' m Q -> sat E m (fun a => P a /\ Q a).
Proof. by destruct m; simpl. Qed.

(** Partial correctness: what holds if the computation returns. *)
Abbreviation returns := (sat (fun _ => True)).

Lemma returns_bind {A B} (m : outcome A) (f : A -> outcome B) (Q : B -> Prop) :
  (forall a, returns (f a) Q) -> returns (m ≫= f) Q.
Proof. by destruct m; simpl. Qed.

Lemma returns_load {A B} (l : list A) p (k : A -> outcome B) (Q : B -> Prop) :
  (forall a, l !! p = Some a -> returns (k a) Q) -> returns (load l p ≫= k) Q.
Proof. unfold load. destruct (l !! p); simpl; auto. Qed.

Lemma returns_store {A B} (l : list A) p a (k : list A -> outcome B) (Q : B -> Prop) :
  returns (k (<[p := a]> l)) Q -> returns (store l p a ≫= k) Q.
Proof. unfold store. by destruct (l !! p). Qed.

Lemma sat_returns {E} {A} (m : outcome A) (Q : A -> Prop) : sat E m Q -> returns m Q.
Proof. by apply sat_weaken. Qed.

Lemma runs_inv {A} (m : outcome A) (Q : A -> Prop) :
  runs m Q -> exists a, m = Ret a /\ Q a.
Proof. destruct m; simpl; [eauto | done]. Qed.

(** [run_step] runs one statement whose outcome the context determines;
    [run] runs as many as it can. *)
Ltac run_step :=
  lazymatch goal with
  | |- sat _ ((if _ then CLOG_ERROR else Ret _) ≫= _) _ =>
      apply runs_guard; [solve [done | by apply negb_false_iff | apply Z.leb_gt; simpl; lia | simpl; lia]|]
  | |- sat _ (_ ≫= _) _ => apply runs_bind
  | |- sat _ (CLOG_ASSERT _) _ =>
      apply runs_assert;
        [solve [done | apply Z.leb_le; lia | apply Z.ltb_lt; lia | by apply Z.eqb_eq
               | by apply bool_decide_true]|]
  | H : ?l !! ?i = Some _ |- sat _ (load ?l ?i) _ => apply (runs_load _ _ _ _ H)
  | H : ?l !! ?i = Some _ |- sat _ (store ?l ?i _) _ =>
      apply runs_store; [by apply (lookup_lt_Some _ _ _ H)|]
  | H : ?o = Some _ |- sat _ (initialized _ ?o) _ => apply (runs_initialized _ _ _ _ H)
  | |- sat _ (initialized _ (Some ?a)) _ => apply (runs_initialized _ _ a _ eq_refl)
  | |- sat _ (Ret _) _ => apply runs_ret
  | |- sat _ (mret _) _ => apply runs_ret
  end.
Ltac run := cbn beta iota; repeat (run_step; cbn beta iota).

(** ** Loops

    [for_loop n i body s] runs [body i], [body (i+1)], ... at most [n]
    times; the body goes on with a new state or returns from the function. *)
Inductive flow (St R : Type) :=
  | Continue (s : St)
  | Return (r : R).
Arguments Continue {St R} s.
Arguments Return {St R} r.

Fixpoint for_loop {St R} (n i : nat) (body : nat -> St -> outcome (flow St R))
    (s : St) : outcome (flow St R) :=
  match n with
  | O => Ret (Continue s)
  | S n' =>
      f ← body i s;
      match f with
      | Continue s' => for_loop n' (S i) body s'
      | Return r => Ret (Return r)
      end
  end.

Definition flow_post {St R} (I : St -> Prop) (Q : R -> Prop) (f : flow St R) : Prop :=
  match f with
  | Continue s => I s
  | Return r => Q r
  end.

Lemma runs_for {E} {St R} (I : nat -> St -> Prop) (Q : R -> Prop) n body : forall i s,
  I i s ->
  (forall j s', (i <= j < i + n)%nat -> I j s' ->
     sat E (body j s') (flow_post (I (S j)) Q)) ->
  sat E (for_loop n i body s) (flow_post (I (i + n)%nat) Q).
Proof.
  induction n as [|n IH]; intros i s HI Hbody; simpl.
  - by rewrite Nat.add_0_r.
  - apply runs_bind. eapply runs_mono; [apply Hbody; [lia|done]|].
    intros [s'|r] Hf; simpl in *; [|done].
    replace (i + S n)%nat with (S i + n)%nat by lia.
    apply IH; [done|]. intros j s'' Hj. apply Hbody. lia.
Qed.

(** A loop without [return]. *)
Fixpoint for_each {St} (n i : nat) (body : nat -> St -> outcome St) (s : St) : outcome St :=
  match n with
  | O => Ret s
  | S n' => s' ← body i s; for_each n' (S i) body s'
  end.

Lemma runs_for_each {E} {St} (I : nat -> St -> Prop) n body : forall i s,
  I i s ->
  (forall j s', (i <= j < i + n)%nat -> I j s' -> sat E (body j s') (I (S j))) ->
  sat E (for_each n i body s) (I (i + n)%nat).
Proof.
  induction n as [|n IH]; intros i s HI Hbody; simpl.
  - by rewrite Nat.add_0_r.
  - apply runs_bind. eapply runs_mono; [apply Hbody; [lia|done]|].
    intros s' Hs'. replace (i + S n)%nat with (S i + n)%nat by lia.
    apply IH; [done|]. intros j s'' Hj. apply Hbody. lia.
Qed.

(** A [while] loop with fuel. A theorem [runs (while_loop ...) Q] states
    that the fuel is enough. *)
Fixpoint while_loop {St R} (fuel : nat) (body : St -> outcome (flow St R)) (s : St) :
    outcome R :=
  match fuel with
  | O => Halt OutOfFuel
  | S fuel' =>
      f ← body s;
      match f with
      | Return r => Ret r
      | Continue s' => while_loop fuel' body s'
      end
  end.

Lemma runs_while {E} {St R} (I : St -> Prop) (m : St -> nat) (Q : R -> Prop) body : forall fuel s,
  I s -> (m s < fuel)%nat ->
  (forall s', I s' ->
     sat E (body s') (flow_post (fun s'' => I s'' /\ (m s'' < m s')%nat) Q)) ->
  sat E (while_loop fuel body s) Q.
Proof.
  induction fuel as [|fuel IH]; intros s HI Hm Hbody; [lia|]; simpl.
  eapply runs_bind_mono; [by apply Hbody|].
  intros [s'|r]; simpl; [|done]. intros [HI' Hm'].
  apply IH; [done|lia|done].
Qed.

Lemma returns_while {St R} (I : St -> Prop) (Q : R -> Prop) body : forall fuel s,
  I s -> (forall s', I s' -> returns (body s') (flow_post I Q)) ->
  returns (while_loop fuel body s) Q.
Proof.
  induction fuel as [|fuel IH]; intros s HI Hbody; simpl; [done|].
  eapply runs_bind_mono; [by apply Hbody|]. intros [s'|r]; simpl; auto.
Qed.

(** ** Lists *)
Lemma alter_insert {A} (f : A -> A) (l : list A) i x :
  l !! i = Some x -> alter f i l = <[i := f x]> l.
Proof.
  revert i. induction l as [|y l IH]; intros [|i] Hi; simplify_eq/=; [done|].
  f_equal. by apply IH.
Qed.

Lemma foldr_max_nonneg l : 0 <= foldr Z.max 0 l.
Proof. induction l as [|x l IH]; simpl; lia. Qed.

Lemma foldr_max_app l1 l2 :
  foldr Z.max 0 (l1 ++ l2) = Z.max (foldr Z.max 0 l1) (foldr Z.max 0 l2).
Proof. induction l1 as [|x l1 IH]; simpl; pose proof (foldr_max_nonneg l2); lia. Qed.

Lemma foldr_max_gt n l : 0 <= n -> n < foldr Z.max 0 l <-> exists x, x ∈ l /\ n < x.
Proof.
  intros Hn. induction l as [|y l IH]; simpl.
  - split; [lia|]. intros (x & Hx & _). by apply elem_of_nil in Hx.
  - rewrite Z.max_lt_iff, IH. setoid_rewrite elem_of_cons. split.
    + intros [?|(x & Hx & ?)]; [exists y; auto|exists x; auto].
    + intros (x & [->|Hx] & ?); [auto|right; by exists x].
Qed.

(** A loop that updates every element of an array. *)
Lemma runs_for_array {E} {A} (f : nat -> A -> A) (l : list A) (Q : list A -> Prop) :
  Q (imap f l) ->
  sat E (for_each (length l) 0 (fun i l => x ← load l i; store l i (f i x)) l) Q.
Proof.
  intros HQ. eapply runs_mono; [apply (runs_for_each (fun j l' =>
    length l' = length l /\ forall i, l' !! i =
      if decide (i < j)%nat then f i <$> l !! i else l !! i))|].
  - split; [done|]. intros i. by rewrite decide_False by lia.
  - intros j l' Hj [Hlen Hl']. destruct (lookup_lt_is_Some_2 l j) as [x Hx]; [lia|].
    pose proof (Hl' j) as Hx'. rewrite decide_False, Hx in Hx' by lia. run.
    split; [by rewrite length_insert|]. intros i. destruct (decide (i = j)) as [->|Hne].
    + rewrite list_lookup_insert_eq, decide_True, Hx by lia. done.
    + rewrite list_lookup_insert_ne, Hl' by done.
      destruct (decide (i < j)%nat), (decide (i < S j)%nat); done || lia.
  - intros l' [Hlen Hl']. simpl in Hl'. replace l' with (imap f l); [done|].
    apply list_eq. intros i. rewrite list_lookup_imap, Hl'.
    destruct (decide (i < length l)%nat); [done|]. by rewrite (lookup_ge_None_2 l) by lia.
Qed.

(** The number of elements a test accepts. *)
Fixpoint count_if {A} (f : A -> bool) (l : list A) : Z :=
  match l with
  | [] => 0
  | x :: l => Z.b2z (f x) + count_if f l
  end.

Lemma count_if_range {A} (f : A -> bool) l : 0 <= count_if f l <= Z.of_nat (length l).
Proof. induction l as [|x l IH]; simpl; [lia|]. destruct (f x); simpl; lia. Qed.

(** Where all elements of a prefix count. *)
Lemma count_if_prefix {A} (f : A -> bool) l : forall i,
  (i <= length l)%nat -> (forall j x, (j < i)%nat -> l !! j = Some x -> f x = true) ->
  Z.of_nat i <= count_if f l.
Proof.
  induction l as [|y l IH]; intros [|i] Hi Hall; simpl in *; try lia.
  - specialize (IH 0%nat ltac:(lia)). pose proof (IH ltac:(intros; lia)). destruct (f y); simpl; lia.
  - rewrite (Hall 0%nat y) by (done || lia). simpl.
    specialize (IH i ltac:(lia) ltac:(intros j x Hj Hx; apply (Hall (S j) x); [lia|done])). lia.
Qed.

Lemma count_if_insert {A} (f : A -> bool) l i x y : l !! i = Some x ->
  count_if f (<[i := y]> l) = count_if f l - Z.b2z (f x) + Z.b2z (f y).
Proof.
  revert i. induction l as [|z l IH]; intros [|i] Hi; simplify_eq/=; [lia|].
  rewrite (IH i Hi). lia.
Qed.

Lemma count_if_app {A} (f : A -> bool) l1 l2 :
  count_if f (l1 ++ l2) = count_if f l1 + count_if f l2.
Proof. induction l1 as [|x l1 IH]; simpl; lia. Qed.

Lemma count_if_all {A} (f : A -> bool) l : count_if f l = Z.of_nat (length l) ->
  Forall (fun x => f x = true) l.
Proof.
  induction l as [|x l IH]; simpl; [done|]. pose proof (count_if_range f l).
  destruct (f x) eqn:E; simpl; intros; [|lia]. constructor; [done|]. apply IH. lia.
Qed.

Lemma count_if_zero {A} (f : A -> bool) l :
  count_if f l = 0 <-> Forall (fun x => f x = false) l.
Proof.
  induction l as [|x l IH]; simpl; [done|]. rewrite Forall_cons_iff, <- IH.
  pose proof (count_if_range f l). destruct (f x); simpl; [|by intuition].
  split; [lia|by intros []].
Qed.

Lemma count_if_pos {A} (f : A -> bool) l i x : l !! i = Some x -> f x = true ->
  0 < count_if f l.
Proof.
  intros Hi Hx. pose proof (count_if_range f (<[i := x]> l)).
  revert i Hi H. induction l as [|z l IH]; intros [|i] Hi; simplify_eq/=.
  - rewrite Hx. simpl. pose proof (count_if_range f l). lia.
  - intros _. pose proof (IH i Hi (count_if_range f (<[i := x]> l))). destruct (f z); simpl; lia.
Qed.

Create HintDb nimble.
Create Rewrite HintDb nimble.
#[export] Hint Resolve u8_range u32_range u64_range : nimble.
#[export] Hint Rewrite @length_insert : nimble.
