(* ===== verification/ExternalLibs.v ===== *)
(** * Interfaces of the libraries the server calls

    None of the code below is part of this repository. Each class lists the
    types, constants and functions of one library that the server uses, as
    parameters of the model; an in/out pointer argument becomes an argument and
    a component of the result, and a C function that returns a code and fills
    out parameters returns the code next to what it stored. The [...Laws]
    classes state what the server relies on; only the theorems that need a law
    take it. [ExternalModels] gives one concrete instance of everything. *)

From S2P Require Import Prelude.

(** ** flood: octet streams *)
Class Flood := {
  FldInStream : Type;
  fldInStreamInit : list Z -> FldInStream;
  in_pos : FldInStream -> Z;
  in_size : FldInStream -> Z;
  set_readDebugInfo : bool -> FldInStream -> FldInStream;
  (** [None]: the read failed and the target was not written. *)
  fldInStreamReadUInt8 : FldInStream -> FldInStream * option Z;
  fldInStreamReadUInt16 : FldInStream -> FldInStream * option Z;
  FldOutStream : Type;
  (** A stream over a buffer of the given size. *)
  fldOutStreamInit : Z -> FldOutStream;
  out_pos : FldOutStream -> Z;
  (** The first [out_pos] octets of the buffer. *)
  out_octets : FldOutStream -> list Z;
  set_writeDebugInfo : bool -> FldOutStream -> FldOutStream;
  fldOutStreamWriteUInt8 : FldOutStream -> Z -> FldOutStream * Z;
  fldOutStreamWriteUInt16 : FldOutStream -> Z -> FldOutStream * Z;
  fldOutStreamWriteOctets : FldOutStream -> list Z -> FldOutStream * Z;
}.

(** An out stream appends what fits and refuses the rest with a negative code. *)
Class FldOutLaws `{Flood} := {
  out_size : FldOutStream -> Z;
  (** The stream writes plain octets, without type tags for debugging. *)
  out_raw : FldOutStream -> Prop;
  out_init n : 0 <= n ->
    out_octets (fldOutStreamInit n) = [] /\ out_size (fldOutStreamInit n) = n /\
    out_raw (fldOutStreamInit n);
  out_pos_octets s : out_pos s = Z.of_nat (length (out_octets s));
  out_write_u8 s v : out_raw s -> 0 <= v < 256 -> out_pos s + 1 <= out_size s ->
    let r := fldOutStreamWriteUInt8 s v in
    out_octets r.1 = out_octets s ++ [v] /\ out_size r.1 = out_size s /\
    out_raw r.1 /\ 0 <= r.2;
  out_write_u8_full s v : out_raw s -> out_size s < out_pos s + 1 ->
    (fldOutStreamWriteUInt8 s v).1 = s /\ (fldOutStreamWriteUInt8 s v).2 < 0;
  out_write_octets s l : out_raw s -> out_pos s + Z.of_nat (length l) <= out_size s ->
    let r := fldOutStreamWriteOctets s l in
    out_octets r.1 = out_octets s ++ l /\ out_size r.1 = out_size s /\
    out_raw r.1 /\ 0 <= r.2;
  out_write_octets_full s l : out_raw s -> out_size s < out_pos s + Z.of_nat (length l) ->
    (fldOutStreamWriteOctets s l).1 = s /\ (fldOutStreamWriteOctets s l).2 < 0;
}.

(** Reading moves on in the octets, or stays, and never leaves them. *)
Definition forward `{Flood} (s s' : FldInStream) : Prop :=
  in_size s' = in_size s /\
  (in_pos s <= in_size s -> in_pos s <= in_pos s' /\ in_pos s' <= in_size s').

#[export] Instance forward_preorder `{Flood} : PreOrder forward.
Proof.
  split; [intros s; unfold forward; lia|]. intros s1 s2 s3. unfold forward. lia.
Qed.

(** An in stream holds a number of octets that does not change, and a position
    that never leaves it; reading an octet moves on by one, or fails at the end. *)
Class FldInLaws `{Flood} := {
  in_init l : in_pos (fldInStreamInit l) = 0 /\
              in_size (fldInStreamInit l) = Z.of_nat (length l);
  in_debug b s : in_pos (set_readDebugInfo b s) = in_pos s /\
                 in_size (set_readDebugInfo b s) = in_size s;
  in_read_u8 s : in_pos s < in_size s ->
    exists v, (fldInStreamReadUInt8 s).2 = Some v /\ 0 <= v < 256 /\
    in_pos (fldInStreamReadUInt8 s).1 = in_pos s + 1 /\
    in_size (fldInStreamReadUInt8 s).1 = in_size s;
  in_read_u8_end s : in_size s <= in_pos s -> (fldInStreamReadUInt8 s).2 = None;
  in_read_u8_forward s : forward s (fldInStreamReadUInt8 s).1;
  in_read_u16_forward s : forward s (fldInStreamReadUInt16 s).1;
}.

(** ** tiny-libc *)
Class TinyLibc := {
  tc_convert_uint8_t_from_ssize : Z -> outcome Z;
}.
Class TinyLibcLaws `{TinyLibc} := {
  tc_convert_in_range v : 0 <= v < 256 -> tc_convert_uint8_t_from_ssize v = Ret v;
}.

(** ** nimble-steps: the buffers of steps

    [StepId] is a 32-bit unsigned integer. *)
Class NimbleSteps := {
  NbsSteps : Type;
  stepsCount : NbsSteps -> Z;
  expectedWriteId : NbsSteps -> Z;
  expectedReadId : NbsSteps -> Z;
  NBS_WINDOW_SIZE : Z;
  NimbleStepMaxSingleStepOctetCount : Z;
  NimbleStepErrCollectionIsEmpty : Z;
  (** The allocation for steps of at most the given number of octets. *)
  nbsStepsInit : Z -> NbsSteps;
  nbsStepsReInit : NbsSteps -> Z -> NbsSteps;
  (** New buffer, octet count or negative code, octets stored in the target. *)
  nbsStepsReadExactStepId : NbsSteps -> Z -> Z -> NbsSteps * Z * list Z;
  nbsStepsWrite : NbsSteps -> Z -> list Z -> NbsSteps * Z;
  nbsStepsDropped : NbsSteps -> Z -> Z;
  nbsStepsDiscardCount : NbsSteps -> Z -> NbsSteps * Z;
}.

Class NimbleStepsLaws `{NimbleSteps} := {
  (** The consistency of a buffer, and the octet count it was allocated for:
      both kept by every operation. *)
  steps_wf : NbsSteps -> Prop;
  steps_max : NbsSteps -> Z;
  (** The octets of the steps that a buffer holds, the oldest first. *)
  steps_log : NbsSteps -> list (list Z);
  steps_log_count s : steps_wf s -> Z.of_nat (length (steps_log s)) = stepsCount s;
  window_size : 0 < NBS_WINDOW_SIZE < 4294967296;
  steps_count_range s : steps_wf s -> 0 <= stepsCount s <= NBS_WINDOW_SIZE;
  steps_write_id_range s : steps_wf s -> 0 <= expectedWriteId s < 4294967296;
  steps_init n : 0 <= n ->
    let s := nbsStepsInit n in steps_wf s /\ steps_max s = n;
  steps_reinit s id : steps_wf s -> 0 <= id < 4294967296 ->
    let s' := nbsStepsReInit s id in
    steps_wf s' /\ steps_max s' = steps_max s /\
    stepsCount s' = 0 /\ expectedWriteId s' = id /\ expectedReadId s' = id;
  (** A consistent buffer has the step, or has nothing to offer for it. The code
      treats any other error as a corrupt buffer. *)
  steps_read s id n : steps_wf s ->
    let '(s', code, octets) := nbsStepsReadExactStepId s id n in
    steps_wf s' /\ steps_max s' = steps_max s /\ expectedWriteId s' = expectedWriteId s /\
    ((0 <= code <= steps_max s /\ code = Z.of_nat (length octets)) \/
     (code = NimbleStepErrCollectionIsEmpty /\ octets = []));
  steps_empty_code : NimbleStepErrCollectionIsEmpty < 0;
  steps_write s octets : steps_wf s ->
    let r := nbsStepsWrite s (expectedWriteId s) octets in
    0 <= r.2 -> steps_wf r.1 /\ stepsCount r.1 = stepsCount s + 1 /\
                expectedWriteId r.1 = u32 (expectedWriteId s + 1) /\
                steps_log r.1 = steps_log s ++ [octets];
  steps_write_fails s id octets : steps_wf s ->
    (nbsStepsWrite s id octets).2 < 0 -> (nbsStepsWrite s id octets).1 = s;
  steps_discard s n : steps_wf s -> 0 <= n <= stepsCount s ->
    let r := nbsStepsDiscardCount s n in
    steps_wf r.1 /\ 0 <= r.2 /\ stepsCount r.1 = stepsCount s - n /\
    expectedWriteId r.1 = expectedWriteId s /\
    steps_log r.1 = drop (Z.to_nat n) (steps_log s);
}.

(** ** nimble-steps-serialize *)
Record NbsPendingRange := mkRange { range_startId : Z; range_count : Z }.

Class NimbleStepsSerialize `{Flood} `{NimbleSteps} := {
  nbsStepsOutSerializeCalculateCombinedSize : Z -> Z -> Z;
  (** Code, first step id, number of steps that follow. *)
  nbsStepsInSerializeHeader : FldInStream -> FldInStream * Z * (Z * Z);
  (** New stream, new buffer, number of steps added or negative code. *)
  nbsStepsInSerializeSinglePredictedStep :
    FldInStream -> Z -> NbsSteps -> FldInStream * NbsSteps * Z;
  (** Code, the step id the client waits for, its receive mask. *)
  nbsPendingStepsInSerializeHeader : FldInStream -> FldInStream * Z * (Z * Z);
  (** Count or negative code, and the ranges found. *)
  nbsPendingStepsRanges : Z -> Z -> Z -> Z -> Z -> Z * list NbsPendingRange;
  nbsPendingStepsSerializeOutRanges :
    FldOutStream -> NbsSteps -> list NbsPendingRange -> FldOutStream * Z;
}.

Class NimbleStepsSerializeLaws `{NimbleStepsSerialize} `{!NimbleStepsLaws} := {
  combined_size n m : 0 <= n -> 0 <= m ->
    0 <= nbsStepsOutSerializeCalculateCombinedSize n m;
  predicted_step s id steps : steps_wf steps ->
    let '(s', steps', code) := nbsStepsInSerializeSinglePredictedStep s id steps in
    steps_wf steps' /\ steps_max steps' = steps_max steps;
  header_forward s : forward s (nbsStepsInSerializeHeader s).1.1;
  predicted_forward s id steps :
    forward s (nbsStepsInSerializeSinglePredictedStep s id steps).1.1;
  pending_header_forward s : forward s (nbsPendingStepsInSerializeHeader s).1.1;
  (** A step id is a 32-bit number. *)
  pending_header s :
    let '(_, _, (waitingFor, _)) := nbsPendingStepsInSerializeHeader s in
    0 <= waitingFor < 4294967296;
  pending_ranges w e m maxRanges maxSteps : 0 <= maxRanges ->
    let '(code, ranges) := nbsPendingStepsRanges w e m maxRanges maxSteps in
    0 <= code -> code <= maxRanges /\ code = Z.of_nat (length ranges);
}.

(** ** stats *)
Class Stats := {
  StatsInt : Type;
  statsIntInit : Z -> StatsInt;
  statsIntAdd : StatsInt -> Z -> StatsInt;
  avgIsSet : StatsInt -> bool;
  avg : StatsInt -> Z;
  StatsIntPerSecond : Type;
  statsIntPerSecondInit : Z -> Z -> StatsIntPerSecond;
  statsIntPerSecondAdd : StatsIntPerSecond -> Z -> StatsIntPerSecond;
  statsIntPerSecondUpdate : StatsIntPerSecond -> Z -> StatsIntPerSecond;
}.

(** ** nimble-serialize: requests and replies *)
Inductive NimbleSerializeStepType :=
  | NimbleSerializeStepTypeNormal
  | NimbleSerializeStepTypeJoined
  | NimbleSerializeStepTypeLeft
  | NimbleSerializeStepTypeWaitingForReJoin
  | NimbleSerializeStepTypeStepNotProvidedInTime.
#[export] Instance step_type_eq_dec : EqDecision NimbleSerializeStepType.
Proof. solve_decision. Defined.

Inductive NimbleSerializeJoinGameType :=
  | NimbleSerializeJoinGameTypeNoSecret
  | NimbleSerializeJoinGameTypePartySecret.

Record NimbleSerializeJoinGameRequestPlayer := mkJoinPlayer { player_localIndex : Z }.

Record NimbleSerializeJoinGameRequest := mkJoinRequest {
  joinGameType : NimbleSerializeJoinGameType;
  request_partyId : Z;
  request_sessionSecret : Z;
  playerCount : Z;
  players : list NimbleSerializeJoinGameRequestPlayer;
  nonce : Z;
}.

Record NimbleSerializeJoinGameResponse := mkJoinResponse {
  response_partyId : Z;
  response_sessionSecret : Z;
  (** Participant id and local index of every joined participant. *)
  response_participants : list (Z * Z);
}.

Record NimbleSerializeLocalPartyInfo := mkPartyInfo {
  info_participantCount : Z;
  info_participantIds : list Z;
}.

Class NimbleSerialize `{Flood} := {
  stepTypeCode : NimbleSerializeStepType -> Z;
  NIMBLE_SERIALIZE_MAX_LOCAL_PLAYERS : Z;
  NimbleSerializeCmdConnectRequest : Z;
  NimbleSerializeCmdGameStep : Z;
  NimbleSerializeCmdJoinGameRequest : Z;
  NimbleSerializeCmdDownloadGameStateRequest : Z;
  NimbleSerializeCmdClientOutBlobStream : Z;
  NimbleSerializeCmdServerOutBlobStream : Z;
  NimbleSerializeVersion : Type;
  nimbleSerializeVersionIsEqual : NimbleSerializeVersion -> NimbleSerializeVersion -> bool;
  (** Code; version, client request id, use of debug streams. *)
  nimbleSerializeServerInConnectRequest :
    FldInStream -> FldInStream * Z * (NimbleSerializeVersion * Z * bool);
  (** Use of debug streams, connection id, client request id. *)
  nimbleSerializeServerOutConnectResponse :
    FldOutStream -> bool -> Z -> Z -> FldOutStream * Z;
  nimbleSerializeServerInJoinGameRequest :
    FldInStream -> FldInStream * Z * NimbleSerializeJoinGameRequest;
  nimbleSerializeServerOutJoinGameResponse :
    FldOutStream -> NimbleSerializeJoinGameResponse -> FldOutStream * Z;
  nimbleSerializeServerOutJoinGameOutOfParticipantSlotsResponse :
    FldOutStream -> Z -> FldOutStream * Z;
  (** Last received step id, steps in the buffer, delta to the authoritative steps. *)
  nimbleSerializeServerOutStepHeader : FldOutStream -> Z -> Z -> Z -> FldOutStream * Z;
  (** Step id, game state octets, client request id, transfer id. *)
  nimbleSerializeServerOutGameStateResponse :
    FldOutStream -> Z -> list Z -> Z -> Z -> FldOutStream * Z;
  nimbleSerializeWriteCommand : FldOutStream -> Z -> FldOutStream;
}.

Class NimbleSerializeLaws `{NimbleSerialize} := {
  step_type_code_range t : 0 <= stepTypeCode t < 256;
  step_type_code_inj t1 t2 : stepTypeCode t1 = stepTypeCode t2 -> t1 = t2;
  max_local_players : 1 <= NIMBLE_SERIALIZE_MAX_LOCAL_PLAYERS;
  connect_request_forward s : forward s (nimbleSerializeServerInConnectRequest s).1.1;
  join_request_forward s : forward s (nimbleSerializeServerInJoinGameRequest s).1.1;
  (** A party id is one octet. *)
  join_request_party_id s :
    0 <= request_partyId (nimbleSerializeServerInJoinGameRequest s).2 < 256;
}.

(** ** nimble-steps-serialize: the combined steps of local participants *)
Record LocalParticipantStep := mkLocalStep {
  local_participantId : Z;
  local_stepType : NimbleSerializeStepType;
  local_payload : list Z;
}.

Class LocalParticipantsSerialize `{Flood} `{NimbleSteps} := {
  (** The places of the array in NimbleStepsOutSerializeLocalParticipants. *)
  localParticipantsCapacity : Z;
  (** The combined step of the participants, into a target of the given size:
      number of octets or negative code, octets stored. *)
  nbsStepsOutSerializeStep : list LocalParticipantStep -> Z -> Z * list Z;
  (** First step id, number of steps that follow; new stream, new buffer, number
      of steps added or negative code. *)
  nbsStepsInSerialize : FldInStream -> NbsSteps -> Z -> Z -> FldInStream * NbsSteps * Z;
}.

Class LocalParticipantsSerializeLaws `{LocalParticipantsSerialize} `{!NimbleStepsLaws}
    `{!NimbleStepsSerialize} := {
  local_participants_capacity : 0 <= localParticipantsCapacity;
  out_serialize_step ps n :
    let '(code, octets) := nbsStepsOutSerializeStep ps n in
    (0 <= code /\ code = Z.of_nat (length octets) /\ code <= n) \/ -2147483648 <= code < 0;
  (** Steps are only added behind the last one. *)
  in_serialize s steps id n : steps_wf steps ->
    let '(s', steps', code) := nbsStepsInSerialize s steps id n in
    steps_wf steps' /\ exists new,
      steps_log steps' = steps_log steps ++ new /\
      expectedWriteId steps' = u32 (expectedWriteId steps + Z.of_nat (length new)) /\
      (0 <= code -> code = Z.of_nat (length new));
  (** The number of steps between the last one and the step [id]. *)
  steps_dropped steps id : steps_wf steps -> 0 <= id < 4294967296 ->
    nbsStepsDropped steps id = Z.max 0 (id - expectedWriteId steps);
  (** A step id is a 32-bit number. *)
  steps_header s : 0 <= (nbsStepsInSerializeHeader s).2.1 < 4294967296;
}.

(** ** ordered-datagram: the sequence numbers of the datagrams *)
Class OrderedDatagram `{Flood} := {
  OrderedDatagramInLogic : Type;
  orderedDatagramInLogicInit : OrderedDatagramInLogic;
  orderedDatagramInLogicReceive :
    OrderedDatagramInLogic -> FldInStream -> OrderedDatagramInLogic * FldInStream * Z;
  set_hasReceivedInitialDatagram : bool -> OrderedDatagramInLogic -> OrderedDatagramInLogic;
  OrderedDatagramOutLogic : Type;
  orderedDatagramOutLogicInit : OrderedDatagramOutLogic;
  orderedDatagramOutLogicPrepare : OrderedDatagramOutLogic -> FldOutStream -> FldOutStream;
  orderedDatagramOutLogicCommit : OrderedDatagramOutLogic -> OrderedDatagramOutLogic;
}.

Class OrderedDatagramLaws `{OrderedDatagram} := {
  ordered_receive_forward l s : forward s (orderedDatagramInLogicReceive l s).1.2;
}.

(** ** blob-stream: the transfer of large blobs in chunks *)
Class BlobStream `{Flood} := {
  BlobStreamOut : Type;
  BlobStreamLogicOut : Type;
  BlobStreamOutEntry : Type;
  BLOB_STREAM_CHUNK_SIZE : Z;
  blobStreamOutInit : list Z -> Z -> BlobStreamOut;
  blobStreamLogicOutInit : BlobStreamOut -> Z -> BlobStreamLogicOut;
  transferId : BlobStreamLogicOut -> Z;
  (** The increment of a BlobStreamTransferId; its width is the library's. *)
  nextTransferId : Z -> Z;
  blobStreamLogicOutStartTransfer :
    BlobStreamLogicOut -> FldOutStream -> BlobStreamLogicOut * FldOutStream * Z;
  blobStreamLogicOutReceive :
    BlobStreamLogicOut -> FldInStream -> BlobStreamLogicOut * FldInStream * Z;
  (** Time, maximum number of entries; the entries to send now. *)
  blobStreamLogicOutPrepareSend :
    BlobStreamLogicOut -> Z -> nat -> BlobStreamLogicOut * list BlobStreamOutEntry;
  blobStreamLogicOutSendEntry : FldOutStream -> BlobStreamOutEntry -> Z -> FldOutStream;
}.

Class BlobStreamLaws `{BlobStream} := {
  blob_receive_forward l s : forward s (blobStreamLogicOutReceive l s).1.2;
}.

(** ** datagram-transport *)
Class DatagramTransport := {
  DATAGRAM_TRANSPORT_MAX_SIZE : Z;
  datagramTransportMaxSize : Z;
}.

(** ** monotonic-time and secure-random: the n-th reading of each *)
Class Environment := {
  monotonicTimeMsNow : nat -> Z;
  secureRandomUInt64 : nat -> Z;
}.

(** The clock does not go back. *)
Class EnvironmentLaws `{Environment} := {
  clock_monotonic n m : (n <= m)%nat -> monotonicTimeMsNow n <= monotonicTimeMsNow m;
}.

(** ** imprint: memory as the allocator returns it, not cleared *)
Class ImprintAllocator := {
  alloc_octets : Z -> list Z;
  alloc_octets_length n : 0 <= n -> Z.of_nat (length (alloc_octets n)) = n;
}.
