(* ===== verification/ExternalModels.v ===== *)
(** * A concrete instance of the external interfaces

    Small executable stand-ins for the libraries, used by the witnesses to show
    that the laws of [ExternalLibs] can hold together and to run the server on
    concrete inputs. They are not claimed to be the libraries' code. *)

From S2P Require Import Prelude.
From S2P Require Import ExternalLibs.

(** Two builds: without and with the checks of clog. *)
Definition quiet_build : Clog := {| assertions_enabled := false; errors_halt := false |}.
Definition debug_build : Clog := {| assertions_enabled := true; errors_halt := true |}.

Module Models.

Record in_stream := mkIn { i_octets : list Z; i_pos : nat }.
Record out_stream := mkOut { o_octets : list Z; o_size : Z }.

Definition read_u8 (s : in_stream) : in_stream * option Z :=
  match i_octets s !! i_pos s with
  | Some v => (mkIn (i_octets s) (S (i_pos s)), Some (u8 v))
  | None => (s, None)
  end.

Definition read_u16 (s : in_stream) : in_stream * option Z :=
  let '(s1, a) := read_u8 s in
  let '(s2, b) := read_u8 s1 in
  match a, b with
  | Some a, Some b => (s2, Some (a * 256 + b))
  | _, _ => (s, None)
  end.

Definition write_octets (s : out_stream) (l : list Z) : out_stream * Z :=
  if Z.of_nat (length (o_octets s)) + Z.of_nat (length l) <=? o_size s
  then (mkOut (o_octets s ++ l) (o_size s), 0)
  else (s, -1).

#[export] Instance flood_model : Flood := {
  FldInStream := in_stream;
  fldInStreamInit l := mkIn l 0;
  in_pos s := Z.of_nat (i_pos s);
  in_size s := Z.of_nat (length (i_octets s));
  set_readDebugInfo _ s := s;
  fldInStreamReadUInt8 := read_u8;
  fldInStreamReadUInt16 := read_u16;
  FldOutStream := out_stream;
  fldOutStreamInit n := mkOut [] n;
  out_pos s := Z.of_nat (length (o_octets s));
  out_octets := o_octets;
  set_writeDebugInfo _ s := s;
  fldOutStreamWriteUInt8 s v := write_octets s [v];
  fldOutStreamWriteUInt16 s v := write_octets s [v / 256; v mod 256];
  fldOutStreamWriteOctets := write_octets;
}.

#[export, refine] Instance flood_model_out : FldOutLaws := {
  out_size := o_size;
  out_raw _ := True;
}.
Proof.
  all: simpl; intros; unfold write_octets; simpl; try done; cbn [length] in *.
  - rewrite (proj2 (Z.leb_le _ _)) by lia. simpl. repeat split; lia.
  - rewrite (proj2 (Z.leb_gt _ _)) by lia. simpl. split; [done|lia].
  - rewrite (proj2 (Z.leb_le _ _)) by lia. simpl. repeat split; lia.
  - rewrite (proj2 (Z.leb_gt _ _)) by lia. simpl. split; [done|lia].
Defined.

Lemma read_u8_forward s : forward s (read_u8 s).1.
Proof.
  unfold forward, read_u8. simpl. destruct (i_octets s !! i_pos s) eqn:E; simpl; [|lia].
  apply lookup_lt_Some in E. lia.
Qed.

Lemma read_u16_forward s : forward s (read_u16 s).1.
Proof.
  unfold read_u16. pose proof (read_u8_forward s) as H1.
  destruct (read_u8 s) as [s1 [a|]]; simpl in H1.
  - pose proof (read_u8_forward s1) as H2. destruct (read_u8 s1) as [s2 [b|]]; simpl in *; [|done].
    by etrans.
  - by destruct (read_u8 s1) as [s2 o].
Qed.

#[export, refine] Instance flood_model_in : FldInLaws := {}.
Proof.
  all: simpl; intros; unfold read_u8; try done.
  - destruct (lookup_lt_is_Some_2 (i_octets s) (i_pos s)) as [v Hv]; [lia|].
    rewrite Hv. exists (u8 v). simpl. split; [done|]. pose proof (u8_range v). lia.
  - rewrite lookup_ge_None_2; [done|lia].
  - apply read_u8_forward.
  - apply read_u16_forward.
Defined.

#[export] Instance tiny_model : TinyLibc := {
  tc_convert_uint8_t_from_ssize v :=
    if (0 <=? v) && (v <? 256) then Ret v else Halt AssertionFailed;
}.
#[export, refine] Instance tiny_model_laws : TinyLibcLaws := {}.
Proof. intros v Hv. simpl. by rewrite (proj2 (Z.leb_le _ _)), (proj2 (Z.ltb_lt _ _)) by lia. Defined.

(** ** Steps: a queue of numbered steps *)
Record steps := mkSteps {
  s_items : list (Z * list Z);
  s_write : Z;
  s_read : Z;
  s_max : Z;
}.

Fixpoint skip_older (id : Z) (l : list (Z * list Z)) : list (Z * list Z) :=
  match l with
  | (i, o) :: l' => if i <? id then skip_older id l' else l
  | [] => []
  end.

Definition steps_read_exact (s : steps) (id max : Z) : steps * Z * list Z :=
  match skip_older id (s_items s) with
  | (i, o) :: l' =>
      if i =? id
      then (mkSteps l' (s_write s) (u32 (id + 1)) (s_max s), Z.of_nat (length o), o)
      else (mkSteps ((i, o) :: l') (s_write s) i (s_max s), -1, [])
  | [] => (mkSteps [] (s_write s) (s_read s) (s_max s), -1, [])
  end.

Definition steps_do_write (s : steps) (id : Z) (o : list Z) : steps * Z :=
  if (Z.of_nat (length (s_items s)) <? 120) && (Z.of_nat (length o) <=? s_max s)
     && (id =? s_write s)
  then (mkSteps (s_items s ++ [(id, o)]) (u32 (id + 1)) (s_read s) (s_max s),
        Z.of_nat (length o))
  else (s, -2).

Definition steps_do_discard (s : steps) (n : Z) : steps * Z :=
  if (0 <=? n) && (n <=? Z.of_nat (length (s_items s)))
  then (mkSteps (drop (Z.to_nat n) (s_items s)) (s_write s) (u32 (s_read s + n)) (s_max s), 0)
  else (s, -3).

#[export] Instance steps_model : NimbleSteps := {
  NbsSteps := steps;
  stepsCount s := Z.of_nat (length (s_items s));
  expectedWriteId := s_write;
  expectedReadId := s_read;
  NBS_WINDOW_SIZE := 120;
  NimbleStepMaxSingleStepOctetCount := 24;
  NimbleStepErrCollectionIsEmpty := -1;
  nbsStepsInit n := mkSteps [] 0 0 n;
  nbsStepsReInit s id := mkSteps [] id id (s_max s);
  nbsStepsReadExactStepId := steps_read_exact;
  nbsStepsWrite := steps_do_write;
  nbsStepsDropped s id := if s_write s <? id then id - s_write s else 0;
  nbsStepsDiscardCount := steps_do_discard;
}.

Record steps_model_wf (s : steps) : Prop := {
  smw_count : (length (s_items s) <= 120)%nat;
  smw_items : Forall (fun i => Z.of_nat (length i.2) <= s_max s) (s_items s);
  smw_write : 0 <= s_write s < 4294967296;
  smw_max : 0 <= s_max s;
}.

Lemma skip_older_sublist id l :
  (length (skip_older id l) <= length l)%nat /\ forall P, Forall P l -> Forall P (skip_older id l).
Proof.
  induction l as [|[i o] l [IH1 IH2]]; simpl; [done|]. destruct (i <? id); [|done].
  split; [lia|]. intros P HP. inversion HP; auto.
Qed.

Lemma steps_model_read s id n : steps_model_wf s ->
  let '(s', code, octets) := steps_read_exact s id n in
  steps_model_wf s' /\ s_max s' = s_max s /\ s_write s' = s_write s /\
  ((0 <= code <= s_max s /\ code = Z.of_nat (length octets)) \/ (code = -1 /\ octets = [])).
Proof.
  intros [Hc Hi Hw Hm]. unfold steps_read_exact.
  destruct (skip_older_sublist id (s_items s)) as [Hl HP].
  specialize (HP _ Hi). revert HP Hl.
  destruct (skip_older id (s_items s)) as [|[i o] l']; intros HP Hl.
  - split; [split; simpl; auto; lia|auto].
  - simpl in Hl. inversion HP as [|? ? Ho Hrest]; subst. simpl in Ho.
    destruct (Z.eqb_spec i id).
    + split; [split; simpl; auto; lia|]. simpl. split; [done|]. split; [done|]. left. lia.
    + split; [split; simpl; auto; lia|]. simpl. auto.
Qed.

#[export, refine] Instance steps_model_laws : NimbleStepsLaws := {
  steps_wf := steps_model_wf;
  steps_max := s_max;
  steps_log s := (s_items s).*2;
}.
Proof.
  - intros s _. simpl. by rewrite length_fmap.
  - simpl. lia.
  - intros s []. simpl. lia.
  - by intros s [].
  - intros n Hn. split; [|done]. split; simpl; try lia. constructor.
  - intros s id [] Hid. split; [|done]. split; simpl; try lia. constructor.
  - intros s id n Hs. by apply steps_model_read.
  - simpl. lia.
  - simpl. intros s o [Hc Hi Hw Hm]. unfold steps_do_write.
    destruct (Z.ltb_spec (Z.of_nat (length (s_items s))) 120);
      destruct (Z.leb_spec (Z.of_nat (length o)) (s_max s)); simpl; try lia.
    rewrite Z.eqb_refl. simpl. intros _. rewrite length_app. simpl.
    split; [|split; [lia|split; [done|by rewrite fmap_app]]]. split; simpl; auto.
    + rewrite length_app. simpl. lia.
    + apply Forall_app; auto.
    + apply u32_range.
  - simpl. intros s id o _. unfold steps_do_write. destruct (_ && _); simpl; [lia|done].
  - simpl. intros s n [Hc Hi Hw Hm] Hn. unfold steps_do_discard.
    rewrite (proj2 (Z.leb_le 0 n)), (proj2 (Z.leb_le n _)) by lia. simpl.
    rewrite length_drop. split; [|repeat split; [lia..|by rewrite fmap_drop]].
    split; simpl; auto; [rewrite length_drop; lia|by apply Forall_drop].
Defined.

(** ** Serialization: every number is one octet *)
Fixpoint read_many (n : nat) (s : in_stream) : in_stream * option (list Z) :=
  match n with
  | O => (s, Some [])
  | S n' =>
      match read_u8 s with
      | (s1, Some v) =>
          match read_many n' s1 with
          | (s2, Some l) => (s2, Some (v :: l))
          | (s2, None) => (s2, None)
          end
      | (s1, None) => (s1, None)
      end
  end.

Lemma read_many_octets n : forall s s' l, read_many n s = (s', Some l) ->
  Forall (fun v => 0 <= v < 256) l.
Proof.
  induction n as [|n IH]; intros s s' l; simpl; [by intros [= _ <-]|].
  unfold read_u8. destruct (i_octets s !! i_pos s) as [v|]; [|done].
  destruct (read_many n _) as [s2 [l2|]] eqn:E; [|done]. intros [= _ <-].
  constructor; [apply u8_range|by eapply IH].
Qed.

Lemma read_many_forward n : forall s, forward s (read_many n s).1.
Proof.
  induction n as [|n IH]; intros s; simpl; [done|]. pose proof (read_u8_forward s) as H1.
  destruct (read_u8 s) as [s1 [v|]]; simpl in *; [|done]. specialize (IH s1).
  destruct (read_many n s1) as [s2 [l|]]; simpl in *; by etrans.
Qed.

Definition read_two (s : in_stream) : in_stream * Z * (Z * Z) :=
  match read_many 2 s with
  | (s', Some [a; b]) => (s', 0, (a, b))
  | (s', _) => (s', -1, (0, 0))
  end.

Lemma read_two_forward s : forward s (read_two s).1.1.
Proof.
  pose proof (read_many_forward 2 s) as H1. unfold read_two.
  destruct (read_many 2 s) as [s' [[|a [|b [|c l]]]|]]; exact H1.
Qed.

Definition read_step (s : in_stream) (id : Z) (b : steps) : in_stream * steps * Z :=
  match read_u8 s with
  | (s1, Some n) =>
      match read_many (Z.to_nat n) s1 with
      | (s2, Some o) =>
          if id =? s_write b
          then let '(b', code) := steps_do_write b id o in
               (s2, b', if code <? 0 then code else 1)
          else (s2, b, 0)
      | (s2, None) => (s2, b, -1)
      end
  | (s1, None) => (s1, b, -1)
  end.

#[export] Instance steps_serialize_model : NimbleStepsSerialize := {
  nbsStepsOutSerializeCalculateCombinedSize n m := 1 + n * (4 + m);
  nbsStepsInSerializeHeader := read_two;
  nbsStepsInSerializeSinglePredictedStep := read_step;
  nbsPendingStepsInSerializeHeader := read_two;
  nbsPendingStepsRanges w e m maxRanges maxSteps := (0, []);
  nbsPendingStepsSerializeOutRanges s b ranges :=
    write_octets s (Z.of_nat (length ranges) ::
      (r ← ranges; [u8 (range_startId r); u8 (range_count r)]));
}.

#[export, refine] Instance steps_serialize_model_laws : NimbleStepsSerializeLaws := {}.
Proof.
  - simpl. lia.
  - simpl. intros s id b Hb. unfold read_step.
    destruct (read_u8 s) as [s1 [n|]]; [|done].
    destruct (read_many (Z.to_nat n) s1) as [s2 [o|]]; [|done].
    destruct (Z.eqb_spec id (s_write b)) as [->|]; [|done].
    destruct (steps_do_write b (s_write b) o) as [b' code] eqn:E.
    destruct (Z.ltb_spec code 0).
    + pose proof (steps_write_fails b (s_write b) o Hb) as Hf. simpl in Hf. rewrite E in Hf.
      simpl in Hf. by rewrite Hf by done.
    + pose proof (steps_write b o Hb) as Hw. simpl in Hw. rewrite E in Hw. simpl in Hw.
      split; [by apply Hw|]. revert E. unfold steps_do_write.
      destruct (_ && _ && _); by intros [= <- <-].
  - apply read_two_forward.
  - simpl. intros s id b. unfold read_step. pose proof (read_u8_forward s) as H1.
    destruct (read_u8 s) as [s1 [n|]]; simpl in *; [|done].
    pose proof (read_many_forward (Z.to_nat n) s1) as H2.
    destruct (read_many (Z.to_nat n) s1) as [s2 [o|]]; simpl in *; [|by etrans].
    destruct (id =? s_write b); [|by etrans].
    destruct (steps_do_write b id o); by etrans.
  - apply read_two_forward.
  - simpl. intros s. unfold read_two, read_many, read_u8.
    destruct (i_octets s !! i_pos s) as [a|]; simpl; [|lia].
    destruct (i_octets s !! S (i_pos s)) as [b|]; simpl; [|lia].
    pose proof (u8_range a). lia.
  - simpl. intros. lia.
Defined.

#[export] Instance serialize_model : NimbleSerialize := {
  stepTypeCode t := match t with
    | NimbleSerializeStepTypeNormal => 0
    | NimbleSerializeStepTypeJoined => 1
    | NimbleSerializeStepTypeLeft => 2
    | NimbleSerializeStepTypeWaitingForReJoin => 3
    | NimbleSerializeStepTypeStepNotProvidedInTime => 4
    end;
  NIMBLE_SERIALIZE_MAX_LOCAL_PLAYERS := 8;
  NimbleSerializeCmdConnectRequest := 1;
  NimbleSerializeCmdGameStep := 2;
  NimbleSerializeCmdJoinGameRequest := 3;
  NimbleSerializeCmdDownloadGameStateRequest := 4;
  NimbleSerializeCmdClientOutBlobStream := 5;
  NimbleSerializeCmdServerOutBlobStream := 6;
  NimbleSerializeVersion := Z;
  nimbleSerializeVersionIsEqual := Z.eqb;
  nimbleSerializeServerInConnectRequest s :=
    match read_many 3 s with
    | (s', Some [v; id; dbg]) => (s', 0, (v, id, dbg =? 1))
    | (s', _) => (s', -1, (0, 0, false))
    end;
  nimbleSerializeServerOutConnectResponse s dbg id req :=
    write_octets s [1; if dbg then 1 else 0; id; req];
  (** Type, party id, secret, nonce, number of players, local indices. *)
  nimbleSerializeServerInJoinGameRequest s :=
    match read_many 5 s with
    | (s', Some [t; p; sec; nc; n]) =>
        match read_many (Z.to_nat n) s' with
        | (s'', Some l) =>
            (s'', 0, mkJoinRequest
               (if t =? 0 then NimbleSerializeJoinGameTypeNoSecret
                else NimbleSerializeJoinGameTypePartySecret)
               p sec n (mkJoinPlayer <$> l) nc)
        | (s'', None) => (s'', -1, mkJoinRequest NimbleSerializeJoinGameTypeNoSecret 0 0 0 [] 0)
        end
    | (s', _) => (s', -1, mkJoinRequest NimbleSerializeJoinGameTypeNoSecret 0 0 0 [] 0)
    end;
  nimbleSerializeServerOutJoinGameResponse s r :=
    write_octets s ([3; response_partyId r; u8 (response_sessionSecret r);
                     Z.of_nat (length (response_participants r))]
                    ++ (p ← response_participants r; [p.1; p.2]));
  nimbleSerializeServerOutJoinGameOutOfParticipantSlotsResponse s n := write_octets s [4; n];
  nimbleSerializeServerOutStepHeader s id n d := write_octets s [2; u8 id; u8 n; u8 d];
  nimbleSerializeServerOutGameStateResponse s id st req tid :=
    write_octets s [5; u8 id; u8 (Z.of_nat (length st)); req; tid];
  nimbleSerializeWriteCommand s c := (write_octets s [c]).1;
}.

#[local] Arguments read_many : simpl never.

#[export, refine] Instance serialize_model_laws : NimbleSerializeLaws := {}.
Proof.
  - by intros [].
  - by intros [] [].
  - simpl. lia.
  - intros s. simpl.
    pose proof (read_many_forward 3 s) as H1.
    by destruct (read_many 3 s) as [s' [[|a [|b [|c [|d l]]]]|]].
  - intros s. simpl.
    pose proof (read_many_forward 5 s) as H1.
    destruct (read_many 5 s) as [s' [[|a [|b [|c [|d [|n [|e l]]]]]]|]]; try exact H1.
    pose proof (read_many_forward (Z.to_nat n) s') as H2.
    destruct (read_many (Z.to_nat n) s') as [s'' [m|]]; simpl in *; by etrans.
  - intros s. simpl.
    destruct (read_many 5 s) as [s' [[|a [|b [|c [|d [|n [|e l]]]]]]|]] eqn:E; simpl; try lia.
    destruct (read_many (Z.to_nat n) s') as [s'' [m|]]; simpl; [|lia].
    apply read_many_octets in E. exact (Forall_lookup_1 _ _ 1%nat b E eq_refl).
Defined.

Fixpoint read_steps (n : nat) (s : in_stream) (b : steps) (id added : Z) :
    in_stream * steps * Z :=
  match n with
  | O => (s, b, added)
  | S n' =>
      let '(s, b, code) := read_step s id b in
      if code <? 0 then (s, b, code) else read_steps n' s b (u32 (id + 1)) (added + code)
  end.

(** A step is appended, or nothing changes. *)
Lemma read_step_appends s id b : steps_model_wf b ->
  let '(s', b', code) := read_step s id b in
  steps_model_wf b' /\ exists new, (s_items b').*2 = (s_items b).*2 ++ new /\
  s_write b' = u32 (s_write b + Z.of_nat (length new)) /\
  (0 <= code -> code = Z.of_nat (length new)).
Proof.
  intros Hb.
  assert (Hsame : forall code, code <= 0 -> steps_model_wf b /\ exists new,
    (s_items b).*2 = (s_items b).*2 ++ new /\
    s_write b = u32 (s_write b + Z.of_nat (length new)) /\
    (0 <= code -> code = Z.of_nat (length new))).
  { intros code Hcode. split; [done|]. exists []. destruct Hb. simpl.
    rewrite app_nil_r, Z.add_0_r, u32_small by done. repeat split. lia. }
  unfold read_step. destruct (read_u8 s) as [s1 [n|]]; [|by apply Hsame].
  destruct (read_many (Z.to_nat n) s1) as [s2 [o|]]; [|by apply Hsame].
  destruct (Z.eqb_spec id (s_write b)) as [->|]; [|by apply Hsame].
  pose proof (steps_write b o Hb) as Hw. pose proof (steps_write_fails b (s_write b) o Hb) as Hf.
  simpl in Hw, Hf. destruct (steps_do_write b (s_write b) o) as [b' code]. simpl in Hw, Hf.
  destruct (Z.ltb_spec code 0) as [Hneg|Hpos].
  - rewrite (Hf Hneg). apply Hsame. lia.
  - destruct (Hw Hpos) as (Hwf & _ & Hid & Hlog). split; [done|]. by exists [o].
Qed.

Lemma read_steps_appends n : forall s b id added, steps_model_wf b -> 0 <= added ->
  let '(s', b', code) := read_steps n s b id added in
  steps_model_wf b' /\ exists new, (s_items b').*2 = (s_items b).*2 ++ new /\
  s_write b' = u32 (s_write b + Z.of_nat (length new)) /\
  (0 <= code -> code = added + Z.of_nat (length new)).
Proof.
  induction n as [|n IH]; intros s b id added Hb Hadded; simpl.
  - split; [done|]. exists []. destruct Hb. rewrite app_nil_r, Z.add_0_r, u32_small by done.
    repeat split. simpl. lia.
  - pose proof (read_step_appends s id b Hb) as Hr.
    destruct (read_step s id b) as [[s1 b1] code]. destruct Hr as (Hb1 & new & Hl & Hw & Hc).
    destruct (Z.ltb_spec code 0); [split; [done|]; exists new; repeat split; [done..|lia]|].
    specialize (IH s1 b1 (u32 (id + 1)) (added + code) Hb1 ltac:(lia)).
    destruct (read_steps _ _ _ _ _) as [[s2 b2] c2].
    destruct IH as (Hb2 & new2 & Hl2 & Hw2 & Hc2). split; [done|]. exists (new ++ new2).
    rewrite Hl2, Hl, Hw2, Hw, app_assoc, length_app. split; [done|]. split; [|lia].
    unfold u32. rewrite Z.add_mod_idemp_l by lia. f_equal. lia.
Qed.

#[export] Instance local_participants_model : LocalParticipantsSerialize := {
  localParticipantsCapacity := 8;
  nbsStepsOutSerializeStep ps n :=
    let octets := Z.of_nat (length ps) :: (p ← ps;
      [local_participantId p; stepTypeCode (local_stepType p);
       Z.of_nat (length (local_payload p))] ++ local_payload p) in
    if Z.of_nat (length octets) <=? n then (Z.of_nat (length octets), octets) else (-1, []);
  nbsStepsInSerialize s b id n := read_steps (Z.to_nat n) s b id 0;
}.

#[export, refine] Instance local_participants_laws : LocalParticipantsSerializeLaws := {}.
Proof.
  - simpl. lia.
  - intros ps n. simpl. match goal with |- context [?a <=? n] => destruct (Z.leb_spec a n) end; simpl in *; lia.
  - intros s b id n Hb. simpl. by apply read_steps_appends.
  - intros b id Hb Hid. simpl. destruct (Z.ltb_spec (s_write b) id); lia.
  - intros s. simpl. unfold read_two, read_many, read_u8.
    destruct (i_octets s !! i_pos s) as [a|]; simpl; [|lia].
    destruct (i_octets s !! S (i_pos s)) as [b|]; simpl; [|lia].
    pose proof (u8_range a). lia.
Defined.

#[export] Instance stats_model : Stats := {
  StatsInt := list Z;
  statsIntInit _ := [];
  statsIntAdd s v := v :: s;
  avgIsSet s := negb (bool_decide (s = []));
  avg s := foldr Z.add 0 s / Z.of_nat (length s);
  StatsIntPerSecond := Z;
  statsIntPerSecondInit _ _ := 0;
  statsIntPerSecondAdd s v := s + v;
  statsIntPerSecondUpdate s _ := s;
}.

(** Datagram ids: the in logic wants increasing ids, the out logic counts. *)
#[export] Instance ordered_model : OrderedDatagram := {
  OrderedDatagramInLogic := option Z;
  orderedDatagramInLogicInit := None;
  orderedDatagramInLogicReceive l s :=
    match read_u8 s with
    | (s', Some id) =>
        match l with
        | Some last => if last <? id then (Some id, s', 0) else (l, s', -1)
        | None => (Some id, s', 0)
        end
    | (s', None) => (l, s', -1)
    end;
  set_hasReceivedInitialDatagram b l := if b then l else None;
  OrderedDatagramOutLogic := Z;
  orderedDatagramOutLogicInit := 0;
  orderedDatagramOutLogicPrepare l s := (write_octets s [u8 l]).1;
  orderedDatagramOutLogicCommit l := u8 (l + 1);
}.

#[export, refine] Instance ordered_model_laws : OrderedDatagramLaws := {}.
Proof.
  simpl. intros l s. pose proof (read_u8_forward s) as H1.
  destruct (read_u8 s) as [s' [id|]]; simpl in *; [|done].
  destruct l as [last|]; [destruct (last <? id)|]; exact H1.
Defined.

(** The whole blob is one entry, sent at most once. *)
#[export] Instance blob_model : BlobStream := {
  BlobStreamOut := list Z;
  BlobStreamLogicOut := list Z * Z * bool;
  BlobStreamOutEntry := list Z;
  BLOB_STREAM_CHUNK_SIZE := 1024;
  blobStreamOutInit o _ := o;
  blobStreamLogicOutInit o id := (o, id, false);
  transferId l := l.1.2;
  nextTransferId id := u16 (id + 1);
  blobStreamLogicOutStartTransfer l s := (l, (write_octets s [l.1.2]).1, 0);
  blobStreamLogicOutReceive l s :=
    match read_u8 s with
    | (s', Some _) => ((l.1, true), s', 0)
    | (s', None) => (l, s', -1)
    end;
  blobStreamLogicOutPrepareSend l _ n :=
    if l.2 then (l, []) else ((l.1, true), take n [l.1.1]);
  blobStreamLogicOutSendEntry s e id := (write_octets s (id :: e)).1;
}.

#[export, refine] Instance blob_model_laws : BlobStreamLaws := {}.
Proof.
  simpl. intros l s. pose proof (read_u8_forward s) as H1.
  by destruct (read_u8 s) as [s' [id|]].
Defined.

#[export] Instance transport_model : DatagramTransport := {
  DATAGRAM_TRANSPORT_MAX_SIZE := 1200;
  datagramTransportMaxSize := 1200;
}.

#[export] Instance environment_model : Environment := {
  monotonicTimeMsNow n := 16 * Z.of_nat n;
  secureRandomUInt64 n := Z.of_nat n;
}.

#[export, refine] Instance environment_model_laws : EnvironmentLaws := {}.
Proof. simpl. lia. Defined.

#[export, refine] Instance allocator_model : ImprintAllocator := {
  alloc_octets n := replicate (Z.to_nat n) 165;
}.
Proof. intros n Hn. rewrite length_replicate. lia. Defined.

End Models.
