(* ===== verification/StepLog.v ===== *)
(** * The log of authoritative steps

    The abstract specification of what a game does with its authoritative
    steps: it only ever appends steps, numbered one after the other, and forgets
    the oldest ones. Two clients that are sent a step with the same id are then
    sent the same octets, whenever they ask. *)

From S2P Require Import Prelude.
From S2P Require Import ExternalLibs.

Section StepLog.
Context `{NimbleSteps} `{!NimbleStepsLaws}.
Implicit Types (s : NbsSteps) (new : list (list Z)).

(** From [s] to [s'] the steps [new] were appended, and the [dropped] oldest of
    all of them forgotten. *)
Record steps_appended s s' new (dropped : nat) : Prop := {
  ap_log : steps_log s' = drop dropped (steps_log s ++ new);
  ap_dropped : (dropped <= length (steps_log s ++ new))%nat;
  ap_write : u32 (expectedWriteId s') = u32 (expectedWriteId s + Z.of_nat (length new));
}.

Definition log_extends s s' : Prop := exists new dropped, steps_appended s s' new dropped.

Lemma steps_appended_refl s : steps_appended s s [] 0.
Proof. split; simpl; rewrite ?app_nil_r, ?Z.add_0_r; [done|lia|done]. Qed.

Lemma steps_appended_trans s1 s2 s3 new1 new2 d1 d2 :
  steps_appended s1 s2 new1 d1 -> steps_appended s2 s3 new2 d2 ->
  steps_appended s1 s3 (new1 ++ new2) (d1 + d2).
Proof.
  intros [Hl1 Hd1 Hw1] [Hl2 Hd2 Hw2].
  assert (Happ : steps_log s2 ++ new2 = drop d1 (steps_log s1 ++ new1 ++ new2)).
  { by rewrite Hl1, (app_assoc (steps_log s1)), (drop_app_le (steps_log s1 ++ new1)). }
  split.
  - by rewrite Hl2, Happ, drop_drop.
  - rewrite Happ, length_drop in Hd2. rewrite app_assoc, length_app in Hd2 |- *. lia.
  - rewrite Hw2, length_app. unfold u32 in *. rewrite Z.add_mod, Hw1, <- Z.add_mod by lia.
    f_equal. lia.
Qed.

#[export] Instance log_extends_preorder : PreOrder log_extends.
Proof.
  split.
  - intros s. exists [], O. apply steps_appended_refl.
  - intros s1 s2 s3 (new1 & d1 & H1) (new2 & d2 & H2).
    exists (new1 ++ new2), (d1 + d2)%nat. by eapply steps_appended_trans.
Qed.

Lemma discard_extends s n : steps_wf s -> 0 <= n <= stepsCount s ->
  log_extends s (nbsStepsDiscardCount s n).1.
Proof.
  intros Hwf Hn. destruct (steps_discard s n Hwf Hn) as (_ & _ & _ & Hw & Hlog).
  exists [], (Z.to_nat n). split.
  - by rewrite Hlog, app_nil_r.
  - rewrite app_nil_r. pose proof (steps_log_count s Hwf). lia.
  - by rewrite Hw, Z.add_0_r.
Qed.

Lemma append_appended s s' new : steps_log s' = steps_log s ++ new ->
  expectedWriteId s' = u32 (expectedWriteId s + Z.of_nat (length new)) ->
  steps_appended s s' new 0.
Proof.
  intros Hlog Hw. split; [done|lia|]. rewrite Hw. unfold u32. by rewrite Zmod_mod.
Qed.

Lemma append_extends s s' new : steps_log s' = steps_log s ++ new ->
  expectedWriteId s' = u32 (expectedWriteId s + Z.of_nat (length new)) -> log_extends s s'.
Proof. intros Hlog Hw. exists new, O. by apply append_appended. Qed.

(** A step that is written is appended. *)
Lemma write_appended s s' o code : steps_wf s ->
  nbsStepsWrite s (expectedWriteId s) o = (s', code) -> 0 <= code ->
  steps_wf s' /\ expectedWriteId s' = u32 (expectedWriteId s + 1) /\ steps_appended s s' [o] 0.
Proof.
  intros Hwf Hwrite Hcode. pose proof (steps_write s o Hwf) as Hw. rewrite Hwrite in Hw.
  destruct (Hw Hcode) as (Hwf' & _ & Hid & Hlog). split; [done|]. split; [done|].
  by apply append_appended.
Qed.

(** The step with the given id, if the buffer holds it. *)
Definition held_step s (id : Z) : option (list Z) :=
  steps_log s !! Z.to_nat (u32 (id - (expectedWriteId s - stepsCount s))).

(** As long as the ids do not come round again, a step is held with the same
    octets before and after. *)
Lemma held_step_same s s' new dropped id o o' :
  steps_wf s -> steps_wf s' -> steps_appended s s' new dropped ->
  Z.of_nat (length new) + NBS_WINDOW_SIZE <= 4294967296 ->
  held_step s id = Some o -> held_step s' id = Some o' -> o = o'.
Proof.
  intros Hwf Hwf' [Hlog Hd Hw] Hnew. unfold held_step.
  rewrite <- (steps_log_count s Hwf), <- (steps_log_count s' Hwf').
  pose proof (steps_count_range _ Hwf) as Hc. rewrite <- (steps_log_count s Hwf) in Hc.
  pose proof window_size. rewrite Hlog, length_drop. rewrite length_app in *.
  rewrite lookup_drop. set (i := u32 _). set (i' := u32 (id - _)).
  intros Hi Hi'. pose proof (lookup_lt_Some _ _ _ Hi) as Hlt.
  pose proof (lookup_lt_Some _ _ _ Hi') as Hlt'. rewrite length_app in Hlt'.
  assert (Hk : exists k, expectedWriteId s'
    = expectedWriteId s + Z.of_nat (length new) + k * 4294967296).
  { exists (expectedWriteId s' / 4294967296
            - (expectedWriteId s + Z.of_nat (length new)) / 4294967296).
    unfold u32 in Hw. Z.div_mod_to_equations. lia. }
  destruct Hk as [k Hk].
  assert (He : (dropped + Z.to_nat i')%nat = Z.to_nat i).
  { subst i i'. revert Hlt Hlt'. rewrite Hk. unfold u32. intros Hlt Hlt'.
    clear Hw Hlog Hi Hi' Hk. revert Hlt Hlt'. Z.div_mod_to_equations. lia. }
  rewrite He, lookup_app_l in Hi' by done. congruence.
Qed.
End StepLog.
