(* ===== verification/CircularBuffer.v ===== *)
(** * The circular buffer of octets (lib/circular_buffer.c)

    The ring of 64 octets the server uses as its two free lists. [contents]
    is what the ring holds, oldest first; the lemmas show that the ring is a
    bounded first-in first-out queue as long as it is neither written when
    full nor read when empty, and what those two misuses do. *)

From S2P Require Import Prelude.
From S2P Require Import ExternalModels.

Definition NIMBLE_SERVER_CIRCULAR_BUFFER_SIZE : Z := 64.

Module CBuf.
Record NimbleServerCircularBuffer := mk {
  data : list Z;
  head : Z;
  tail : Z;
  isFull : bool;
}.
End CBuf.

Definition nimbleServerCircularBufferInit (self : CBuf.NimbleServerCircularBuffer) :
    CBuf.NimbleServerCircularBuffer :=
  CBuf.mk (CBuf.data self) 0 0 false.

Definition nimbleServerCircularBufferWrite `{Clog} (self : CBuf.NimbleServerCircularBuffer)
    (octet : Z) : outcome CBuf.NimbleServerCircularBuffer :=
  _ ← (if CBuf.isFull self then CLOG_ERROR else Ret tt);
  data ← store (CBuf.data self) (Z.to_nat (CBuf.head self)) octet;
  let head := (CBuf.head self + 1) mod NIMBLE_SERVER_CIRCULAR_BUFFER_SIZE in
  Ret (CBuf.mk data head (CBuf.tail self) (head =? CBuf.tail self)).

Definition nimbleServerCircularBufferIsEmpty (self : CBuf.NimbleServerCircularBuffer) : bool :=
  (CBuf.head self =? CBuf.tail self) && negb (CBuf.isFull self).

Definition nimbleServerCircularBufferRead `{Clog} (self : CBuf.NimbleServerCircularBuffer) :
    outcome (CBuf.NimbleServerCircularBuffer * Z) :=
  _ ← (if (CBuf.head self =? CBuf.tail self) && negb (CBuf.isFull self)
       then CLOG_ERROR else Ret tt);
  octet ← load (CBuf.data self) (Z.to_nat (CBuf.tail self));
  let tail := (CBuf.tail self + 1) mod NIMBLE_SERVER_CIRCULAR_BUFFER_SIZE in
  Ret (CBuf.mk (CBuf.data self) (CBuf.head self) tail false, octet).

Definition nimbleServerCircularBufferIsFull (self : CBuf.NimbleServerCircularBuffer) : bool :=
  CBuf.isFull self.

Definition nimbleServerCircularBufferCount (self : CBuf.NimbleServerCircularBuffer) : Z :=
  if CBuf.isFull self then NIMBLE_SERVER_CIRCULAR_BUFFER_SIZE
  else if CBuf.tail self <=? CBuf.head self then CBuf.head self - CBuf.tail self
  else NIMBLE_SERVER_CIRCULAR_BUFFER_SIZE + CBuf.head self - CBuf.tail self.

(** ** Abstraction *)

(** What the code keeps true of the struct. *)
Record cbuf_wf (self : CBuf.NimbleServerCircularBuffer) : Prop := {
  cbuf_length : length (CBuf.data self) = 64%nat;
  cbuf_head : 0 <= CBuf.head self < 64;
  cbuf_tail : 0 <= CBuf.tail self < 64;
  cbuf_full : CBuf.isFull self = true -> CBuf.head self = CBuf.tail self;
}.

(** The octet at distance [i] from the tail. *)
Definition slot (self : CBuf.NimbleServerCircularBuffer) (i : Z) : Z :=
  default 0 (CBuf.data self !! Z.to_nat ((CBuf.tail self + i) mod 64)).

Definition contents (self : CBuf.NimbleServerCircularBuffer) : list Z :=
  slot self <$> seqZ 0 (nimbleServerCircularBufferCount self).

(** A ring of 64 zero octets: memory as [IMPRINT_CALLOC] gives it. *)
Definition zero_buffer : CBuf.NimbleServerCircularBuffer :=
  CBuf.mk (replicate 64 0) 0 0 false.

(** The count, in one formula. *)
Lemma count_mod self :
  cbuf_wf self ->
  nimbleServerCircularBufferCount self
  = if CBuf.isFull self then 64 else (CBuf.head self - CBuf.tail self) mod 64.
Proof.
  intros [_ Hh Ht Hf]. unfold nimbleServerCircularBufferCount,
    NIMBLE_SERVER_CIRCULAR_BUFFER_SIZE. destruct (CBuf.isFull self); [done|].
  destruct (Z.leb_spec (CBuf.tail self) (CBuf.head self)); wrap_lia.
Qed.

Lemma count_range self :
  cbuf_wf self -> 0 <= nimbleServerCircularBufferCount self <= 64.
Proof. intros H. rewrite count_mod by done. destruct (CBuf.isFull self); wrap_lia. Qed.

Lemma length_contents self :
  cbuf_wf self -> Z.of_nat (length (contents self)) = nimbleServerCircularBufferCount self.
Proof.
  intros Hwf. pose proof (count_range _ Hwf). unfold contents.
  rewrite length_fmap, length_seqZ. lia.
Qed.

Lemma lookup_contents self (i : nat) :
  cbuf_wf self -> (i < length (contents self))%nat ->
  contents self !! i = Some (slot self (Z.of_nat i)).
Proof.
  intros Hwf Hi. pose proof (length_contents _ Hwf). unfold contents in *.
  rewrite list_lookup_fmap, lookup_seqZ_lt by lia. simpl. do 2 f_equal.
Qed.

Lemma isEmpty_contents self :
  cbuf_wf self ->
  nimbleServerCircularBufferIsEmpty self = bool_decide (contents self = []).
Proof.
  intros Hwf. pose proof (length_contents _ Hwf) as Hl. rewrite count_mod in Hl by done.
  destruct Hwf as [_ Hh Ht Hf]. unfold nimbleServerCircularBufferIsEmpty.
  destruct (Z.eqb_spec (CBuf.head self) (CBuf.tail self));
    destruct (CBuf.isFull self), (contents self); simpl in *; try done; wrap_lia.
Qed.

Lemma init_wf self : length (CBuf.data self) = 64%nat ->
  cbuf_wf (nimbleServerCircularBufferInit self) /\
  contents (nimbleServerCircularBufferInit self) = [].
Proof. intros H. split; [split; simpl; try lia; done|done]. Qed.

(** ** The operations as queue operations *)

(** The state after a write; [head] moves on by one slot. *)
Definition written (self : CBuf.NimbleServerCircularBuffer) (octet : Z) :
    CBuf.NimbleServerCircularBuffer :=
  let head := (CBuf.head self + 1) mod 64 in
  CBuf.mk (<[Z.to_nat (CBuf.head self) := octet]> (CBuf.data self))
    head (CBuf.tail self) (head =? CBuf.tail self).

Lemma write_written `{Clog} self octet :
  cbuf_wf self -> CBuf.isFull self = false \/ errors_halt = false ->
  nimbleServerCircularBufferWrite self octet = Ret (written self octet).
Proof.
  intros [Hl Hh _ _] Hf. unfold nimbleServerCircularBufferWrite, CLOG_ERROR, store.
  destruct (lookup_lt_is_Some_2 (CBuf.data self) (Z.to_nat (CBuf.head self))) as [x Hx]; [lia|].
  destruct Hf as [-> | ->]; [|destruct (CBuf.isFull self)]; simpl; by rewrite Hx.
Qed.

Lemma written_wf self octet : cbuf_wf self -> cbuf_wf (written self octet).
Proof.
  intros [Hl Hh Ht Hf]. split; simpl.
  - by rewrite length_insert.
  - wrap_lia.
  - done.
  - intros E. by apply Z.eqb_eq in E.
Qed.

Lemma written_count self octet :
  cbuf_wf self ->
  nimbleServerCircularBufferCount (written self octet)
  = if CBuf.isFull self then 1 else nimbleServerCircularBufferCount self + 1.
Proof.
  intros Hwf. rewrite !count_mod by auto using written_wf. destruct Hwf as [_ Hh Ht Hf].
  simpl. destruct (Z.eqb_spec ((CBuf.head self + 1) mod 64) (CBuf.tail self));
    destruct (CBuf.isFull self); try specialize (Hf eq_refl); wrap_lia.
Qed.

Lemma written_slot self octet i :
  cbuf_wf self -> 0 <= i < 64 ->
  slot (written self octet) i
  = if decide ((CBuf.tail self + i) mod 64 = CBuf.head self) then octet else slot self i.
Proof.
  intros [Hl Hh Ht _] Hi. unfold slot; simpl.
  destruct (decide _) as [->|Hne].
  - rewrite list_lookup_insert_eq; [done|lia].
  - rewrite list_lookup_insert_ne; [done|]. wrap_lia.
Qed.

Lemma written_contents self octet :
  cbuf_wf self -> CBuf.isFull self = false ->
  nimbleServerCircularBufferCount self < 64 /\
  contents (written self octet) = contents self ++ [octet].
Proof.
  intros Hwf Hf. pose proof (written_wf self octet Hwf) as Hwf'.
  pose proof (written_count self octet Hwf) as Hc. rewrite Hf in Hc.
  pose proof (count_range _ Hwf'). split; [lia|].
  pose proof (length_contents _ Hwf) as Hl. pose proof (length_contents _ Hwf') as Hl'.
  assert (Hcount : nimbleServerCircularBufferCount self
                   = (CBuf.head self - CBuf.tail self) mod 64).
  { by rewrite count_mod, Hf. }
  pose proof (cbuf_head _ Hwf) as Hh. pose proof (cbuf_tail _ Hwf) as Ht.
  apply list_eq. intros i. destruct (decide (i < length (contents self))%nat) as [Hi|Hi].
  - rewrite lookup_app_l, !lookup_contents by (done || lia). f_equal.
    rewrite written_slot by (done || lia). destruct (decide _); [wrap_lia|done].
  - destruct (decide (i = length (contents self))) as [->|].
    + rewrite lookup_contents by (done || lia).
      rewrite list_lookup_middle by done. f_equal.
      rewrite written_slot by (done || lia). rewrite Hl.
      destruct (decide _); [done|]. wrap_lia.
    + rewrite !lookup_ge_None_2; [done|rewrite length_app; simpl; lia|lia].
Qed.

Lemma written_full self octet :
  cbuf_wf self -> CBuf.isFull self = true -> contents (written self octet) = [octet].
Proof.
  intros Hwf Hf. pose proof (written_count self octet Hwf) as Hc. rewrite Hf in Hc.
  unfold contents. rewrite Hc. simpl. f_equal.
  rewrite written_slot by (done || lia). destruct Hwf as [_ Hh Ht Hfull].
  destruct (decide _) as [|Hne]; [done|]. specialize (Hfull Hf). wrap_lia.
Qed.

Definition advanced (self : CBuf.NimbleServerCircularBuffer) : CBuf.NimbleServerCircularBuffer :=
  CBuf.mk (CBuf.data self) (CBuf.head self) ((CBuf.tail self + 1) mod 64) false.

Lemma read_advanced `{Clog} self :
  cbuf_wf self ->
  nimbleServerCircularBufferIsEmpty self = false \/ errors_halt = false ->
  nimbleServerCircularBufferRead self = Ret (advanced self, slot self 0).
Proof.
  intros [Hl Hh Ht _] He. unfold nimbleServerCircularBufferRead, CLOG_ERROR, load, slot.
  unfold nimbleServerCircularBufferIsEmpty in He.
  rewrite Z.add_0_r, (Z.mod_small (CBuf.tail self)) by lia.
  destruct (lookup_lt_is_Some_2 (CBuf.data self) (Z.to_nat (CBuf.tail self))) as [x Hx]; [lia|].
  destruct He as [-> | ->]; [|destruct (_ && _)]; simpl; by rewrite Hx.
Qed.

Lemma advanced_wf self : cbuf_wf self -> cbuf_wf (advanced self).
Proof. intros [Hl Hh Ht Hf]. split; simpl; [done|lia|wrap_lia|done]. Qed.

Lemma advanced_slot self i : slot (advanced self) i = slot self (i + 1).
Proof.
  unfold slot. simpl. rewrite Zplus_mod_idemp_l. do 4 f_equal. lia.
Qed.

Lemma advanced_contents self :
  cbuf_wf self -> contents self <> [] ->
  contents self = slot self 0 :: contents (advanced self).
Proof.
  intros Hwf Hne. pose proof (length_contents _ Hwf) as Hl.
  assert (Hpos : 0 < nimbleServerCircularBufferCount self).
  { destruct (contents self); [done|simpl in Hl; lia]. }
  assert (Hc : nimbleServerCircularBufferCount (advanced self)
               = nimbleServerCircularBufferCount self - 1).
  { revert Hpos. rewrite !count_mod by auto using advanced_wf. destruct Hwf as [_ Hh Ht Hf].
    simpl. destruct (CBuf.isFull self); try specialize (Hf eq_refl); wrap_lia. }
  unfold contents. rewrite Hc.
  rewrite (seqZ_cons 0) by lia. simpl. f_equal.
  change 1 with (0 + 1) at 1. apply list_eq. intros i. rewrite !list_lookup_fmap.
  destruct (decide (Z.of_nat i < nimbleServerCircularBufferCount self - 1)).
  - rewrite !lookup_seqZ_lt by lia. simpl. rewrite advanced_slot. do 2 f_equal. lia.
  - rewrite !lookup_seqZ_ge by lia. done.
Qed.

(** What a client uses: a write to a ring with room appends, a read of a
    ring that is not empty takes the oldest octet. *)
Lemma runs_write `{Clog} {E} self octet (Q : CBuf.NimbleServerCircularBuffer -> Prop) :
  cbuf_wf self -> CBuf.isFull self = false ->
  (forall s, cbuf_wf s -> contents s = contents self ++ [octet] -> Q s) ->
  sat E (nimbleServerCircularBufferWrite self octet) Q.
Proof.
  intros Hwf Hf HQ. rewrite write_written by auto. simpl.
  apply HQ; [by apply written_wf|by apply written_contents].
Qed.

Lemma runs_read `{Clog} {E} self x rest
    (Q : CBuf.NimbleServerCircularBuffer * Z -> Prop) :
  cbuf_wf self -> contents self = x :: rest ->
  (forall s, cbuf_wf s -> CBuf.isFull s = false -> contents s = rest -> Q (s, x)) ->
  sat E (nimbleServerCircularBufferRead self) Q.
Proof.
  intros Hwf Hc HQ. rewrite read_advanced; [|done|].
  - assert (Hne : contents self <> []) by (by rewrite Hc).
    pose proof (advanced_contents self Hwf Hne) as Ha. rewrite Hc in Ha.
    injection Ha as Hx Hrest. simpl. rewrite <- Hx. apply HQ; [by apply advanced_wf|done|done].
  - left. rewrite isEmpty_contents, Hc by done. done.
Qed.

Lemma isFull_contents self :
  cbuf_wf self -> CBuf.isFull self = bool_decide (length (contents self) = 64%nat).
Proof.
  intros Hwf. pose proof (length_contents _ Hwf) as Hl. rewrite count_mod in Hl by done.
  case_bool_decide; destruct (CBuf.isFull self); try done; wrap_lia.
Qed.

Lemma zero_buffer_wf : cbuf_wf zero_buffer.
Proof. split; simpl; try lia; done. Qed.

#[export] Hint Resolve written_wf advanced_wf zero_buffer_wf : nimble.

(** ** Properties *)

(** C13. The ring implements a bounded first-in first-out queue of octets: a
    write to a ring that is not full appends, a read of a ring that is not
    empty returns and removes the oldest octet, neither stops the program,
    and the count and the two predicates describe the queue. *)
Theorem circularBuffer_refines_fifo `{Clog} self octet :
  cbuf_wf self ->
  (CBuf.isFull self = false ->
     runs (nimbleServerCircularBufferWrite self octet)
       (fun s => cbuf_wf s /\ contents s = contents self ++ [octet])) /\
  (forall x rest, contents self = x :: rest ->
     runs (nimbleServerCircularBufferRead self)
       (fun r => cbuf_wf r.1 /\ r.2 = x /\ contents r.1 = rest)) /\
  nimbleServerCircularBufferCount self = Z.of_nat (length (contents self)) /\
  nimbleServerCircularBufferIsEmpty self = bool_decide (contents self = []) /\
  nimbleServerCircularBufferIsFull self = bool_decide (length (contents self) = 64%nat).
Proof.
  intros Hwf. split; [|split; [|split; [|split]]].
  - intros Hf. by apply runs_write.
  - intros x rest Hc. by eapply runs_read.
  - by rewrite length_contents.
  - by apply isEmpty_contents.
  - by apply isFull_contents.
Qed.

Lemma circularBuffer_refines_fifo_witness :
  contents (written (written zero_buffer 7) 9) = [7; 9] /\
  runs (nimbleServerCircularBufferRead (H := debug_build) (written (written zero_buffer 7) 9))
    (fun r => cbuf_wf r.1 /\ r.2 = 7 /\ contents r.1 = [9]).
Proof.
  split; [vm_compute; reflexivity|].
  refine (proj1 (proj2 (circularBuffer_refines_fifo (H := debug_build)
            (written (written zero_buffer 7) 9) 0 _)) 7 [9] _).
  - auto with nimble.
  - vm_compute. reflexivity.
Defined.

(** The two misuses, in a build where [CLOG_ERROR] goes on. A write to a
    full ring forgets all 64 octets and leaves only the new one; a read of an
    empty ring leaves a ring that claims to hold 63 octets. In a build where
    [CLOG_ERROR] stops, both stop the program. *)
Theorem circularBuffer_misuse `{Clog} self octet :
  cbuf_wf self ->
  (CBuf.isFull self = true ->
     nimbleServerCircularBufferWrite self octet
     = if errors_halt then Halt ErrorLogged else Ret (written self octet)) /\
  (CBuf.isFull self = true -> contents (written self octet) = [octet]) /\
  (contents self = [] ->
     nimbleServerCircularBufferRead self
     = if errors_halt then Halt ErrorLogged else Ret (advanced self, slot self 0)) /\
  (contents self = [] -> nimbleServerCircularBufferCount (advanced self) = 63).
Proof.
  intros Hwf. repeat split; intros Hm.
  - destruct errors_halt eqn:E; [|by apply write_written; auto].
    unfold nimbleServerCircularBufferWrite, CLOG_ERROR. by rewrite Hm, E.
  - by apply written_full.
  - pose proof (isEmpty_contents self Hwf) as He. rewrite Hm in He.
    destruct errors_halt eqn:E; [|by apply read_advanced; auto].
    unfold nimbleServerCircularBufferRead, CLOG_ERROR.
    unfold nimbleServerCircularBufferIsEmpty in He. by rewrite He, E.
  - pose proof (length_contents _ Hwf) as Hl. rewrite Hm, count_mod in Hl by done.
    rewrite count_mod by auto with nimble. destruct Hwf as [_ Hh Ht Hf]. simpl.
    destruct (CBuf.isFull self); simpl in Hl; [done|wrap_lia].
Qed.

Lemma circularBuffer_misuse_witness :
  nimbleServerCircularBufferCount (advanced zero_buffer) = 63.
Proof.
  refine (proj2 (proj2 (proj2 (circularBuffer_misuse (H := quiet_build) zero_buffer 0 _))) _).
  - apply zero_buffer_wf.
  - reflexivity.
Defined.
