(* ===== verification/ConnectionQuality.v ===== *)
(** * Connection quality (lib/connection_quality.c, lib/delayed_quality.c)

    The counters that say how well a party provides its steps, and the
    delayed verdict on them: a party is given up only after more than 180
    bad ticks that good ticks have not made up for. *)

From S2P Require Import Prelude.

Inductive NimbleServerConnectionQualityDisconnectReason :=
  | NimbleServerConnectionQualityDisconnectReasonKeep
  | NimbleServerConnectionQualityDisconnectReasonNotProvidingStepsInTime.

#[export] Instance reason_eq_dec : EqDecision NimbleServerConnectionQualityDisconnectReason.
Proof. solve_decision. Defined.

Module Quality.
Record NimbleServerConnectionQuality := mk {
  forcedStepInRowCounter : Z;
  providedStepsInARow : Z;
  addedStepsToBufferCounter : Z;
  hasAddedFirstAcceptedSteps : bool;
}.
End Quality.
Abbreviation ConnQuality := Quality.NimbleServerConnectionQuality.

Definition nimbleServerConnectionQualityReset (self : ConnQuality) : ConnQuality :=
  Quality.mk 0 0 0 false.

Definition nimbleServerConnectionQualityInit (self : ConnQuality) : ConnQuality :=
  nimbleServerConnectionQualityReset self.

Definition nimbleServerConnectionQualityReInit (self : ConnQuality) : ConnQuality :=
  nimbleServerConnectionQualityReset self.

Definition isFailingToProvideStepsInTime (self : ConnQuality) : bool :=
  let forcedStepInRowCounterThreshold :=
    if negb (Quality.hasAddedFirstAcceptedSteps self) then 200 else 20 in
  forcedStepInRowCounterThreshold <=? Quality.forcedStepInRowCounter self.

Definition evaluate (self : ConnQuality) : NimbleServerConnectionQualityDisconnectReason :=
  if isFailingToProvideStepsInTime self
  then NimbleServerConnectionQualityDisconnectReasonNotProvidingStepsInTime
  else NimbleServerConnectionQualityDisconnectReasonKeep.

Definition nimbleServerConnectionQualityProvidedUsableStep (self : ConnQuality) : ConnQuality :=
  Quality.mk 0 (u64 (Quality.providedStepsInARow self + 1)) 0
    (if negb (Quality.hasAddedFirstAcceptedSteps self) then true
     else Quality.hasAddedFirstAcceptedSteps self).

Definition nimbleServerConnectionQualityAddedStepsToBuffer (self : ConnQuality) (count : Z) :
    ConnQuality :=
  Quality.mk (Quality.forcedStepInRowCounter self) (Quality.providedStepsInARow self)
    (u64 (Quality.addedStepsToBufferCounter self + count))
    (Quality.hasAddedFirstAcceptedSteps self).

Definition nimbleServerConnectionQualityAddedForcedSteps (self : ConnQuality) (count : Z) :
    ConnQuality :=
  Quality.mk (u64 (Quality.forcedStepInRowCounter self + count)) 0
    (Quality.addedStepsToBufferCounter self)
    (Quality.hasAddedFirstAcceptedSteps self).

Definition nimbleServerConnectionQualityCheckIfShouldDisconnect (self : ConnQuality) : bool :=
  let reason := evaluate self in
  negb (bool_decide (reason = NimbleServerConnectionQualityDisconnectReasonKeep)).

(** ** The delayed verdict *)
Module Delayed.
Record NimbleServerConnectionQualityDelayed := mk { impedingDisconnectCounter : Z }.
End Delayed.
Abbreviation DelayedQuality := Delayed.NimbleServerConnectionQualityDelayed.

Definition nimbleServerConnectionQualityDelayedInit (self : DelayedQuality) : DelayedQuality :=
  Delayed.mk 0.

Definition nimbleServerConnectionQualityDelayedReset (self : DelayedQuality) : DelayedQuality :=
  Delayed.mk 0.

(** The result is [true] when the connection should be kept. *)
Definition nimbleServerConnectionQualityDelayedTick (self : DelayedQuality)
    (quality : ConnQuality) : DelayedQuality * bool :=
  let shouldDisconnect := nimbleServerConnectionQualityCheckIfShouldDisconnect quality in
  if shouldDisconnect then
    let self := Delayed.mk (u64 (Delayed.impedingDisconnectCounter self + 1)) in
    if 180 <? Delayed.impedingDisconnectCounter self then (self, false) else (self, true)
  else if 0 <? Delayed.impedingDisconnectCounter self then
    (Delayed.mk (Delayed.impedingDisconnectCounter self - 1), true)
  else (self, true).

(** ** Histories

    What happens to a quality between two verdicts, as the server reports it. *)
Inductive quality_event :=
  | ProvidedUsableStep
  | AddedStepsToBuffer (count : Z)
  | AddedForcedSteps (count : Z).

Definition quality_step (q : ConnQuality) (e : quality_event) : ConnQuality :=
  match e with
  | ProvidedUsableStep => nimbleServerConnectionQualityProvidedUsableStep q
  | AddedStepsToBuffer n => nimbleServerConnectionQualityAddedStepsToBuffer q n
  | AddedForcedSteps n => nimbleServerConnectionQualityAddedForcedSteps q n
  end.

(** The number of forced steps after the last provided one, and whether any
    step was ever provided. *)
Fixpoint forced_tail (forced : Z) (provided : bool) (es : list quality_event) : Z * bool :=
  match es with
  | [] => (forced, provided)
  | ProvidedUsableStep :: es => forced_tail 0 true es
  | AddedStepsToBuffer _ :: es => forced_tail forced provided es
  | AddedForcedSteps n :: es => forced_tail (forced + n) provided es
  end.

Fixpoint total_forced (es : list quality_event) : Z :=
  match es with
  | AddedForcedSteps n :: es => n + total_forced es
  | _ :: es => total_forced es
  | [] => 0
  end.

Definition event_ok (e : quality_event) : Prop :=
  match e with AddedForcedSteps n => 0 <= n | _ => True end.

Lemma total_forced_nonneg es : Forall event_ok es -> 0 <= total_forced es.
Proof. induction 1 as [|[] ? He ? IH]; simpl in *; lia. Qed.

Lemma quality_history es : forall q,
  Forall event_ok es -> 0 <= Quality.forcedStepInRowCounter q ->
  Quality.forcedStepInRowCounter q + total_forced es < 18446744073709551616 ->
  let q' := foldl quality_step q es in
  (Quality.forcedStepInRowCounter q', Quality.hasAddedFirstAcceptedSteps q')
  = forced_tail (Quality.forcedStepInRowCounter q) (Quality.hasAddedFirstAcceptedSteps q) es.
Proof.
  induction es as [|e es IH]; intros q Hes Hq Ht; simpl; [done|].
  inversion Hes as [|? ? He Hes']; subst. pose proof (total_forced_nonneg _ Hes').
  destruct e; simpl in Ht, He |- *; rewrite IH; simpl; try done; try lia.
  - by destruct (Quality.hasAddedFirstAcceptedSteps q).
  - rewrite u64_small by lia. done.
  - rewrite u64_small by lia. lia.
  - rewrite u64_small by lia. lia.
Qed.

(** Ticks over a sequence of qualities: the counter and the verdict after each. *)
Fixpoint delayed_trace (d : DelayedQuality) (qs : list ConnQuality) : list (Z * bool) :=
  match qs with
  | [] => []
  | q :: qs =>
      let '(d', keep) := nimbleServerConnectionQualityDelayedTick d q in
      (Delayed.impedingDisconnectCounter d', keep) :: delayed_trace d' qs
  end.

(** A walk that goes up on a bad tick, down on a good one and stops at zero. *)
Fixpoint reflected_walk (c : Z) (bads : list bool) : list (Z * bool) :=
  match bads with
  | [] => []
  | true :: bads => (c + 1, bool_decide (c + 1 <= 180)) :: reflected_walk (c + 1) bads
  | false :: bads => (Z.max 0 (c - 1), true) :: reflected_walk (Z.max 0 (c - 1)) bads
  end.

Lemma should_disconnect_iff q :
  nimbleServerConnectionQualityCheckIfShouldDisconnect q = isFailingToProvideStepsInTime q.
Proof.
  unfold nimbleServerConnectionQualityCheckIfShouldDisconnect, evaluate.
  by destruct (isFailingToProvideStepsInTime q).
Qed.

Lemma delayed_tick_bad d q : isFailingToProvideStepsInTime q = true ->
  0 <= Delayed.impedingDisconnectCounter d < 18446744073709551615 ->
  nimbleServerConnectionQualityDelayedTick d q
  = (Delayed.mk (Delayed.impedingDisconnectCounter d + 1),
     bool_decide (Delayed.impedingDisconnectCounter d + 1 <= 180)).
Proof.
  intros Hq Hd. unfold nimbleServerConnectionQualityDelayedTick.
  rewrite should_disconnect_iff, Hq, u64_small by lia. simpl.
  destruct (Z.ltb_spec 180 (Delayed.impedingDisconnectCounter d + 1));
    case_bool_decide; done || lia.
Qed.

Lemma delayed_tick_good d q : isFailingToProvideStepsInTime q = false ->
  0 <= Delayed.impedingDisconnectCounter d ->
  nimbleServerConnectionQualityDelayedTick d q
  = (Delayed.mk (Z.max 0 (Delayed.impedingDisconnectCounter d - 1)), true).
Proof.
  intros Hq Hd. unfold nimbleServerConnectionQualityDelayedTick.
  rewrite should_disconnect_iff, Hq.
  destruct d as [c]; simpl in *. destruct (Z.ltb_spec 0 c); do 2 f_equal; lia.
Qed.

Lemma delayed_trace_walk qs : forall d,
  0 <= Delayed.impedingDisconnectCounter d ->
  Delayed.impedingDisconnectCounter d + Z.of_nat (length qs) < 18446744073709551616 ->
  delayed_trace d qs
  = reflected_walk (Delayed.impedingDisconnectCounter d) (isFailingToProvideStepsInTime <$> qs).
Proof.
  induction qs as [|q qs IH]; intros d Hd Hl; [done|]. cbn [length] in Hl.
  cbn [delayed_trace fmap list_fmap].
  destruct (isFailingToProvideStepsInTime q) eqn:Hq; cbn [reflected_walk].
  - rewrite delayed_tick_bad by (done || lia). by rewrite IH by (simpl; lia).
  - rewrite delayed_tick_good by (done || lia). by rewrite IH by (simpl; lia).
Qed.

Lemma reflected_walk_bad n c : 0 <= c ->
  reflected_walk c (replicate n true)
  = (fun i => (c + i, bool_decide (c + i <= 180))) <$> seqZ 1 (Z.of_nat n).
Proof.
  revert c. induction n as [|n IH]; intros c Hc; [done|].
  rewrite seqZ_cons by lia. cbn [replicate reflected_walk fmap list_fmap].
  rewrite IH by lia. f_equal. rewrite Nat2Z.inj_succ, Z.pred_succ.
  replace (Z.succ 1) with (1 + 1) by lia. rewrite <- (fmap_add_seqZ 1 1).
  rewrite <- list_fmap_compose. apply list_fmap_ext. intros i x _. simpl.
  by rewrite !Z.add_assoc.
Qed.

(** ** Properties *)

(** C33. The verdict on a quality after any history of reports: the party fails
    exactly when the forced steps since the last provided step reach 20, or
    200 while no step was ever provided (below the wrap of the counter). *)
Theorem quality_verdict q es :
  Forall event_ok es -> total_forced es < 18446744073709551616 ->
  nimbleServerConnectionQualityCheckIfShouldDisconnect
    (foldl quality_step (nimbleServerConnectionQualityReset q) es)
  = let '(forced, provided) := forced_tail 0 false es in
    (if provided then 20 else 200) <=? forced.
Proof.
  intros Hes Ht. rewrite should_disconnect_iff. unfold isFailingToProvideStepsInTime.
  pose proof (quality_history es (nimbleServerConnectionQualityReset q) Hes) as Hh.
  simpl in Hh. rewrite <- Hh by lia. clear Hh.
  by destruct (Quality.hasAddedFirstAcceptedSteps _).
Qed.

Lemma quality_verdict_witness :
  nimbleServerConnectionQualityCheckIfShouldDisconnect
    (foldl quality_step (nimbleServerConnectionQualityReset (Quality.mk 5 5 5 true))
       [AddedForcedSteps 150; ProvidedUsableStep; AddedStepsToBuffer 3; AddedForcedSteps 20])
  = true.
Proof.
  rewrite (quality_verdict (Quality.mk 5 5 5 true)
    [AddedForcedSteps 150; ProvidedUsableStep; AddedStepsToBuffer 3; AddedForcedSteps 20]).
  - reflexivity.
  - repeat constructor; simpl; lia.
  - simpl; lia.
Defined.

(** C34. The delayed verdict is a walk that goes up by one on a failing tick and
    down by one, not below zero, on the others; the connection is given up
    exactly on the failing ticks that bring the counter above 180. *)
Theorem delayed_quality_walk d qs :
  Z.of_nat (length qs) < 18446744073709551616 ->
  delayed_trace (nimbleServerConnectionQualityDelayedReset d) qs
  = reflected_walk 0 (isFailingToProvideStepsInTime <$> qs).
Proof. intros Hl. apply delayed_trace_walk; simpl; lia. Qed.

Lemma delayed_quality_walk_witness :
  let bad := Quality.mk 200 0 0 false in
  delayed_trace (nimbleServerConnectionQualityDelayedReset (Delayed.mk 7))
    (replicate 181 bad) !! 180%nat = Some (181, false).
Proof.
  intros bad. rewrite (delayed_quality_walk (Delayed.mk 7) (replicate 181 bad)).
  - vm_compute. reflexivity.
  - rewrite length_replicate. lia.
Defined.
