(* ===== verification/UpdateQuality.v ===== *)
(** * Update quality (lib/update_quality.c)

    The watch on the tick rate of the host: once 61 ticks in a row came too
    late, or the average tick time was too long 51 times in a row, the server
    refuses to go on. The statistics are a library ([Stats]); [now] is what
    [monotonicTimeMsNow] returned. *)

From S2P Require Import Prelude.
From S2P Require Import ExternalLibs.
From S2P Require Import ExternalModels.

Inductive NimbleServerUpdateQualityState :=
  | NimbleServerUpdateQualityStateWorking
  | NimbleServerUpdateQualityStateFailedTickTime
  | NimbleServerUpdateQualityStateFailedAverageTickTime.
#[export] Instance update_state_eq_dec : EqDecision NimbleServerUpdateQualityState.
Proof. solve_decision. Defined.

Module UpdateQ.
Record NimbleServerUpdateQuality `{Stats} := mk {
  lastTimeMs : Z;
  measuredDeltaTimeMsStat : StatsInt;
  averageTickTimeFailedInARow : Z;
  deltaTickTimeFailedInARow : Z;
  targetTimeMs : Z;
  state : NimbleServerUpdateQualityState;
}.
End UpdateQ.
Abbreviation UpdateQuality := UpdateQ.NimbleServerUpdateQuality.

Section UpdateQuality.
Context `{Clog} `{Stats}.

Definition nimbleServerUpdateQualityReInit (self : UpdateQuality) (now : Z) : UpdateQuality :=
  UpdateQ.mk _ now (statsIntInit 10) 0 0 (UpdateQ.targetTimeMs self)
    NimbleServerUpdateQualityStateWorking.

Definition nimbleServerUpdateQualityInit (self : UpdateQuality) (targetTimeMs now : Z) :
    UpdateQuality :=
  nimbleServerUpdateQualityReInit
    (UpdateQ.mk _ (UpdateQ.lastTimeMs self) (UpdateQ.measuredDeltaTimeMsStat self)
       (UpdateQ.averageTickTimeFailedInARow self) (UpdateQ.deltaTickTimeFailedInARow self)
       targetTimeMs (UpdateQ.state self)) now.

Definition FailedTickThreshold : Z := 60.
Definition AverageThreshold : Z := 50.

Definition nimbleServerUpdateQualityTick (self : UpdateQuality) (now : Z) :
    outcome (UpdateQuality * Z) :=
  if negb (bool_decide (UpdateQ.state self = NimbleServerUpdateQualityStateWorking))
  then Ret (self, -1)
  else
    _ ← CLOG_ASSERT (UpdateQ.lastTimeMs self <=? now);
    let delta := u64 (now - UpdateQ.lastTimeMs self) in
    let stat := statsIntAdd (UpdateQ.measuredDeltaTimeMsStat self) (s32 delta) in
    let target := UpdateQ.targetTimeMs self in
    let deltaFailed :=
      if target <? delta then u64 (UpdateQ.deltaTickTimeFailedInARow self + 1) else 0 in
    let averageFailed :=
      if avgIsSet stat then
        if s32 target <? avg stat then u64 (UpdateQ.averageTickTimeFailedInARow self + 1)
        else 0
      else UpdateQ.averageTickTimeFailedInARow self in
    let self := UpdateQ.mk _ now stat averageFailed deltaFailed target in
    if FailedTickThreshold <? deltaFailed then
      Ret (self NimbleServerUpdateQualityStateFailedTickTime, -1)
    else if AverageThreshold <? averageFailed then
      Ret (self NimbleServerUpdateQualityStateFailedAverageTickTime, -1)
    else Ret (self NimbleServerUpdateQualityStateWorking, 0).

(** ** What the code keeps true: a working watch has not reached a limit. *)
Record update_quality_wf (self : UpdateQuality) : Prop := {
  uq_delta : 0 <= UpdateQ.deltaTickTimeFailedInARow self <= 61;
  uq_average : 0 <= UpdateQ.averageTickTimeFailedInARow self <= 51;
  uq_delta_working : UpdateQ.state self = NimbleServerUpdateQualityStateWorking ->
    UpdateQ.deltaTickTimeFailedInARow self <= 60;
  uq_average_working : UpdateQ.state self = NimbleServerUpdateQualityStateWorking ->
    UpdateQ.averageTickTimeFailedInARow self <= 50;
}.

(** Ticks at the given times, until one fails. *)
Fixpoint update_ticks (self : UpdateQuality) (times : list Z) : outcome (UpdateQuality * Z) :=
  match times with
  | [] => Ret (self, 0)
  | now :: times =>
      r ← nimbleServerUpdateQualityTick self now;
      if r.2 <? 0 then Ret r else update_ticks r.1 times
  end.

(** Every tick comes more than [target] after the one before. *)
Fixpoint late (target last : Z) (times : list Z) : Prop :=
  match times with
  | [] => True
  | now :: times =>
      target < now - last < 18446744073709551616 /\ late target now times
  end.

Lemma tick_wf self now :
  update_quality_wf self -> UpdateQ.lastTimeMs self <= now ->
  runs (nimbleServerUpdateQualityTick self now) (fun r =>
    update_quality_wf r.1 /\
    (UpdateQ.state self <> NimbleServerUpdateQualityStateWorking -> r = (self, -1)) /\
    (r.2 = 0 <-> UpdateQ.state r.1 = NimbleServerUpdateQualityStateWorking) /\
    (r.2 = 0 \/ r.2 = -1)).
Proof.
  intros [Hd Ha Hdw Haw] Hnow. unfold nimbleServerUpdateQualityTick.
  case_bool_decide as Hs; simpl.
  - specialize (Hdw Hs). specialize (Haw Hs).
    apply runs_bind, runs_assert; [by apply Z.leb_le|].
    unfold FailedTickThreshold, AverageThreshold.
    repeat match goal with
    | |- context [if ?b <? ?c then _ else _] => destruct (Z.ltb_spec b c)
    | |- context [if avgIsSet ?s then _ else _] => destruct (avgIsSet s)
    end; simpl in *; (split; [split; simpl; try done; try (rewrite ?u64_small in * by lia; lia)|]);
    (split; [by intros []|split; [split; intros; first [done|lia]|auto]]).
  - split; [by split|]. split; [done|]. split; [split; intros; first [done|lia]|by right].
Qed.

Lemma tick_time self now :
  UpdateQ.lastTimeMs self <= now ->
  runs (nimbleServerUpdateQualityTick self now) (fun r => UpdateQ.lastTimeMs r.1 <=
    if bool_decide (UpdateQ.state self = NimbleServerUpdateQualityStateWorking)
    then now else UpdateQ.lastTimeMs self).
Proof.
  intros Hnow. unfold nimbleServerUpdateQualityTick. case_bool_decide as Hs; simpl; [|lia].
  apply runs_bind, runs_assert; [by apply Z.leb_le|].
  match goal with |- context [FailedTickThreshold <? ?b] => destruct (FailedTickThreshold <? b) end;
    [|match goal with |- context [AverageThreshold <? ?b] =>
        destruct (AverageThreshold <? b) end]; simpl; lia.
Qed.

(** The result of a tick of a working watch, whatever its counters. *)
Lemma tick_wf_result self now :
  UpdateQ.state self = NimbleServerUpdateQualityStateWorking ->
  UpdateQ.lastTimeMs self <= now ->
  runs (nimbleServerUpdateQualityTick self now) (fun r =>
    (r.2 = 0 <-> UpdateQ.state r.1 = NimbleServerUpdateQualityStateWorking) /\
    (r.2 = 0 \/ r.2 = -1)).
Proof.
  intros Hs Hnow. unfold nimbleServerUpdateQualityTick. rewrite bool_decide_true by done. simpl.
  apply runs_bind, runs_assert; [by apply Z.leb_le|].
  match goal with |- context [FailedTickThreshold <? ?b] => destruct (FailedTickThreshold <? b) end;
    [|match goal with |- context [AverageThreshold <? ?b] =>
        destruct (AverageThreshold <? b) end];
    simpl; (split; [split; intros; first [done|lia]|auto]).
Qed.

Lemma tick_in_time self now :
  UpdateQ.state self = NimbleServerUpdateQualityStateWorking ->
  UpdateQ.lastTimeMs self <= now <= UpdateQ.lastTimeMs self + UpdateQ.targetTimeMs self ->
  UpdateQ.targetTimeMs self < 18446744073709551616 ->
  runs (nimbleServerUpdateQualityTick self now) (fun r =>
    UpdateQ.deltaTickTimeFailedInARow r.1 = 0 /\ UpdateQ.lastTimeMs r.1 = now /\
    UpdateQ.state r.1 <> NimbleServerUpdateQualityStateFailedTickTime).
Proof.
  intros Hs Hn Ht. unfold nimbleServerUpdateQualityTick. rewrite bool_decide_true by done. simpl.
  apply runs_bind, runs_assert; [apply Z.leb_le; lia|].
  rewrite u64_small by lia.
  destruct (Z.ltb_spec (UpdateQ.targetTimeMs self) (now - UpdateQ.lastTimeMs self)); [lia|].
  change (FailedTickThreshold <? 0) with false.
  match goal with |- context [AverageThreshold <? ?b] => destruct (AverageThreshold <? b) end;
    simpl; done.
Qed.

Lemma tick_late self now :
  UpdateQ.state self = NimbleServerUpdateQualityStateWorking ->
  0 <= UpdateQ.deltaTickTimeFailedInARow self <= 60 ->
  0 <= UpdateQ.targetTimeMs self < now - UpdateQ.lastTimeMs self ->
  now - UpdateQ.lastTimeMs self < 18446744073709551616 ->
  runs (nimbleServerUpdateQualityTick self now) (fun r =>
    UpdateQ.deltaTickTimeFailedInARow r.1 = UpdateQ.deltaTickTimeFailedInARow self + 1 /\
    UpdateQ.lastTimeMs r.1 = now /\ UpdateQ.targetTimeMs r.1 = UpdateQ.targetTimeMs self /\
    (UpdateQ.deltaTickTimeFailedInARow self = 60 ->
       UpdateQ.state r.1 = NimbleServerUpdateQualityStateFailedTickTime /\ r.2 = -1) /\
    (UpdateQ.deltaTickTimeFailedInARow self < 60 ->
       UpdateQ.state r.1 = NimbleServerUpdateQualityStateWorking \/ r.2 = -1)).
Proof.
  intros Hs Hd Ht Hn. unfold nimbleServerUpdateQualityTick. rewrite bool_decide_true by done. simpl.
  apply runs_bind, runs_assert; [apply Z.leb_le; lia|].
  rewrite (u64_small (now - _)) by lia.
  destruct (Z.ltb_spec (UpdateQ.targetTimeMs self) (now - UpdateQ.lastTimeMs self)); [|lia].
  rewrite (u64_small (UpdateQ.deltaTickTimeFailedInARow self + 1)) by lia.
  unfold FailedTickThreshold.
  destruct (Z.ltb_spec 60 (UpdateQ.deltaTickTimeFailedInARow self + 1)).
  - simpl. repeat split; lia.
  - match goal with |- context [AverageThreshold <? ?b] => destruct (AverageThreshold <? b) end;
      simpl; repeat split; auto; lia.
Qed.

Lemma late_ticks times : forall self,
  UpdateQ.state self = NimbleServerUpdateQualityStateWorking ->
  0 <= UpdateQ.deltaTickTimeFailedInARow self <= 60 ->
  UpdateQ.deltaTickTimeFailedInARow self + Z.of_nat (length times) = 61 ->
  0 <= UpdateQ.targetTimeMs self ->
  late (UpdateQ.targetTimeMs self) (UpdateQ.lastTimeMs self) times ->
  runs (update_ticks self times) (fun r => r.2 = -1).
Proof.
  induction times as [|now times IH]; intros self Hs Hd Hl Ht Hlate.
  { simpl in Hl. lia. }
  cbn [length] in Hl. destruct Hlate as [Hnow Hlate]. cbn [update_ticks].
  eapply runs_bind_mono.
  { apply runs_and; [apply (tick_late self now Hs Hd); lia|].
    apply (tick_wf_result self now Hs). lia. }
  intros [self' code]; simpl. intros [(Hd' & Hl' & Ht' & H60 & Hlt) [Hiff Hcode]].
  destruct Hcode as [-> | ->]; simpl; [|done].
  destruct (decide (UpdateQ.deltaTickTimeFailedInARow self = 60)) as [E|E].
  { destruct (H60 E). lia. }
  apply IH; rewrite ?Hd', ?Ht', ?Hl'; try lia; try done.
  by apply Hiff.
Qed.

End UpdateQuality.

(** ** Properties *)

(** A tick whose time does not run backwards never stops the program and
    keeps the counters within their limits (so no counter wraps); it succeeds
    exactly when the watch still works, and a watch that has failed stays
    failed and unchanged. *)
Theorem update_tick_invariant `{Clog} `{Stats} self now :
  update_quality_wf self -> UpdateQ.lastTimeMs self <= now ->
  runs (nimbleServerUpdateQualityTick self now) (fun r =>
    update_quality_wf r.1 /\
    (UpdateQ.state self <> NimbleServerUpdateQualityStateWorking -> r = (self, -1)) /\
    (r.2 = 0 <-> UpdateQ.state r.1 = NimbleServerUpdateQualityStateWorking) /\
    (r.2 = 0 \/ r.2 = -1)).
Proof. apply tick_wf. Qed.

(** C32. 61 ticks in a row that each come later than the target stop a freshly
    initialised watch: the run of ticks ends with -1. One tick in time clears
    the count of late ticks, whatever it was. *)
Theorem late_ticks_stop_server `{Clog} `{Stats} self target start times late_so_far now :
  0 <= target < 18446744073709551616 -> length times = 61%nat -> late target start times ->
  start <= now <= start + target ->
  let watch := nimbleServerUpdateQualityInit self target start in
  runs (update_ticks watch times) (fun r => r.2 = -1) /\
  runs (nimbleServerUpdateQualityTick
          (UpdateQ.mk _ (UpdateQ.lastTimeMs watch) (UpdateQ.measuredDeltaTimeMsStat watch)
             (UpdateQ.averageTickTimeFailedInARow watch) late_so_far target
             (UpdateQ.state watch)) now)
    (fun r => UpdateQ.deltaTickTimeFailedInARow r.1 = 0 /\ UpdateQ.lastTimeMs r.1 = now /\
       UpdateQ.state r.1 <> NimbleServerUpdateQualityStateFailedTickTime).
Proof.
  intros Ht Hl Hlate Hn watch. split.
  - apply late_ticks; simpl; try done; lia.
  - apply tick_in_time; simpl; try done; lia.
Qed.

(** ** Witnesses *)
Import Models.

Definition example_watch : UpdateQuality :=
  nimbleServerUpdateQualityInit
    (UpdateQ.mk _ 0 (statsIntInit 10) 0 0 0 NimbleServerUpdateQualityStateWorking) 16 0.

Lemma update_tick_invariant_witness :
  runs (nimbleServerUpdateQualityTick (H := debug_build) example_watch 17) (fun r =>
    update_quality_wf r.1 /\
    (UpdateQ.state example_watch <> NimbleServerUpdateQualityStateWorking ->
       r = (example_watch, -1)) /\
    (r.2 = 0 <-> UpdateQ.state r.1 = NimbleServerUpdateQualityStateWorking) /\
    (r.2 = 0 \/ r.2 = -1)).
Proof.
  apply (update_tick_invariant (H := debug_build)).
  - split; simpl; lia.
  - simpl; lia.
Defined.

Lemma late_ticks_stop_server_witness :
  runs (update_ticks (H := debug_build) example_watch ((fun i => 17 * i) <$> seqZ 1 61))
    (fun r => r.2 = -1).
Proof.
  refine (proj1 (late_ticks_stop_server (H := debug_build) _ 16 0 _ 3 5 _ _ _ _)).
  - lia.
  - reflexivity.
  - vm_compute. tauto.
  - lia.
Defined.
