(* ===== verification/GameState.v ===== *)
(** * Game states (lib/game_state.c)

    The serialized state of the game a transport connection sends to a client
    that downloads it. *)

From S2P Require Import Prelude.
From S2P Require Import ExternalLibs.
From S2P Require Import ExternalModels.

Module GState.
Record NimbleServerGameState := mk {
  state : list Z;
  octetCount : Z;
  capacity : Z;
  stepId : Z;
}.
End GState.
Abbreviation GameState := GState.NimbleServerGameState.

(** [tc_memcpy_octets]: the first [n] octets of [from] over those of [to]. *)
Definition memcpy_octets (to from : list Z) (n : Z) : outcome (list Z) :=
  if (Z.of_nat (length from) <? n) || (Z.of_nat (length to) <? n) then Halt OutOfBounds
  else Ret (take (Z.to_nat n) from ++ drop (Z.to_nat n) to).

Definition nimbleServerGameStateInit `{ImprintAllocator} (octetCount : Z) : GameState :=
  GState.mk (alloc_octets octetCount) 0 octetCount 0.

Definition nimbleServerGameStateSet (self : GameState) (stepId : Z) (gameState : list Z)
    (gameStateOctetCount : Z) : outcome (GameState * Z) :=
  if negb (GState.octetCount self =? 0) && (stepId <=? GState.stepId self) then Ret (self, 0)
  else if GState.capacity self <? gameStateOctetCount then Ret (self, -4)
  else
    state ← memcpy_octets (GState.state self) gameState gameStateOctetCount;
    Ret (GState.mk state gameStateOctetCount (GState.capacity self) stepId, 1).

Definition nimbleServerGameStateCopy (self copyFrom : GameState) : outcome (GameState * Z) :=
  nimbleServerGameStateSet self (GState.stepId copyFrom) (GState.state copyFrom)
    (GState.octetCount copyFrom).

(** ** Abstraction: the step id and the octets held, when there are any. *)
Definition held (self : GameState) : option (Z * list Z) :=
  if GState.octetCount self =? 0 then None
  else Some (GState.stepId self, take (Z.to_nat (GState.octetCount self)) (GState.state self)).

Record game_state_wf (self : GameState) : Prop := {
  gs_capacity : Z.of_nat (length (GState.state self)) = GState.capacity self;
  gs_count : 0 <= GState.octetCount self <= GState.capacity self;
}.

(** The newest of two states: a held one is only replaced by a later step. *)
Definition newest (have : option (Z * list Z)) (new : Z * list Z) : option (Z * list Z) :=
  match have with
  | Some (id, octets) => if new.1 <=? id then have else Some new
  | None => Some new
  end.

Definition set_states (self : GameState) (news : list (Z * list Z)) : outcome GameState :=
  for_each (length news) 0 (fun i s =>
    match news !! i with
    | Some (id, octets) =>
        r ← nimbleServerGameStateSet s id octets (Z.of_nat (length octets)); Ret r.1
    | None => Ret s
    end) self.

Lemma game_state_init_wf `{ImprintAllocator} n : 0 <= n ->
  game_state_wf (nimbleServerGameStateInit n) /\ held (nimbleServerGameStateInit n) = None.
Proof.
  intros Hn. split; [|done]. split; simpl; [by apply alloc_octets_length|lia].
Qed.

(** Whether a held state makes a new one with this step id obsolete. *)
Definition obsolete (self : GameState) (id : Z) : bool :=
  match held self with
  | Some (old, _) => id <=? old
  | None => false
  end.

(** The state after an accepted copy. *)
Definition replaced (self : GameState) (id : Z) (octets : list Z) : GameState :=
  GState.mk (octets ++ drop (length octets) (GState.state self)) (Z.of_nat (length octets))
    (GState.capacity self) id.

Lemma set_eq self id octets :
  game_state_wf self ->
  nimbleServerGameStateSet self id octets (Z.of_nat (length octets))
  = Ret (if obsolete self id then (self, 0)
         else if GState.capacity self <? Z.of_nat (length octets) then (self, -4)
         else (replaced self id octets, 1)).
Proof.
  intros [Hc Ho]. unfold nimbleServerGameStateSet, obsolete, held.
  destruct (GState.octetCount self =? 0); simpl;
    [|destruct (id <=? GState.stepId self); [done|]];
    destruct (Z.ltb_spec (GState.capacity self) (Z.of_nat (length octets))); try done;
    unfold memcpy_octets, replaced; rewrite Z.ltb_irrefl, (proj2 (Z.ltb_ge _ _)) by lia; simpl;
    by rewrite Nat2Z.id, firstn_all.
Qed.

Lemma replaced_wf self id octets :
  game_state_wf self -> Z.of_nat (length octets) <= GState.capacity self ->
  game_state_wf (replaced self id octets).
Proof.
  intros [Hc Ho] Hl. split; simpl; [rewrite length_app, length_drop|]; lia.
Qed.

Lemma replaced_held self id octets :
  octets <> [] -> held (replaced self id octets) = Some (id, octets).
Proof.
  intros Hne. unfold held; simpl. destruct (Z.eqb_spec (Z.of_nat (length octets)) 0).
  - by destruct octets.
  - by rewrite Nat2Z.id, take_app_length.
Qed.

Lemma set_keeps_wf self id octets :
  game_state_wf self ->
  runs (nimbleServerGameStateSet self id octets (Z.of_nat (length octets))) (fun r =>
    game_state_wf r.1 /\ GState.capacity r.1 = GState.capacity self).
Proof.
  intros Hwf. rewrite set_eq by done. simpl.
  destruct (obsolete self id); [done|].
  destruct (Z.ltb_spec (GState.capacity self) (Z.of_nat (length octets))); simpl; [done|].
  split; [|done]. apply replaced_wf; [done|lia].
Qed.

Lemma set_newest self id octets :
  game_state_wf self -> octets <> [] -> Z.of_nat (length octets) <= GState.capacity self ->
  runs (nimbleServerGameStateSet self id octets (Z.of_nat (length octets))) (fun r =>
    held r.1 = newest (held self) (id, octets)).
Proof.
  intros Hwf Hne Hl. rewrite set_eq by done. simpl. unfold newest, obsolete.
  rewrite (proj2 (Z.ltb_ge (GState.capacity self) _)) by lia.
  destruct (held self) as [[old o]|] eqn:E; simpl; [|by apply replaced_held].
  destruct (id <=? old); simpl; [done|by apply replaced_held].
Qed.

Lemma set_states_newest news self :
  game_state_wf self ->
  Forall (fun n => n.2 <> [] /\ Z.of_nat (length n.2) <= GState.capacity self) news ->
  runs (set_states self news) (fun s =>
    game_state_wf s /\ held s = foldl newest (held self) news).
Proof.
  intros Hwf Hnews. unfold set_states.
  eapply runs_mono; [apply (runs_for_each (fun i s => game_state_wf s /\
    GState.capacity s = GState.capacity self /\
    held s = foldl newest (held self) (take i news)))|].
  - by rewrite take_0.
  - intros j s Hj (Hs & Hcap & Hh).
    destruct (lookup_lt_is_Some_2 news j) as [[id octets] Hn]; [lia|]. rewrite Hn.
    destruct (proj1 (Forall_lookup _ _) Hnews _ _ Hn) as [Hne Hl]; simpl in *.
    eapply runs_bind_mono; [apply runs_and; [by apply set_keeps_wf|apply set_newest; [done..|lia]]|].
    intros r [[Hr Hc] Hnew]. simpl. split; [done|]. split; [congruence|].
    rewrite (take_S_r _ _ _ Hn), foldl_app. simpl. congruence.
  - intros s (Hs & _ & Hh). simpl in Hh. by rewrite firstn_all in Hh.
Qed.

(** ** Properties *)

(** C31. Setting a game state never writes outside the buffer, whatever is
    offered, and has three results: a state that is not later than the one
    held is ignored with 0, one larger than the capacity is refused with -4,
    both leaving everything as it was; any other is copied whole, with 1. *)
Theorem game_state_set_correct self id octets :
  game_state_wf self ->
  runs (nimbleServerGameStateSet self id octets (Z.of_nat (length octets))) (fun r =>
    game_state_wf r.1 /\ GState.capacity r.1 = GState.capacity self /\
    if obsolete self id then r = (self, 0)
    else if GState.capacity self <? Z.of_nat (length octets) then r = (self, -4)
    else r.2 = 1 /\ GState.stepId r.1 = id /\
         take (Z.to_nat (GState.octetCount r.1)) (GState.state r.1) = octets).
Proof.
  intros Hwf. pose proof (set_keeps_wf self id octets Hwf) as Hk.
  rewrite set_eq in * by done. simpl in *. destruct Hk as [Hw Hc]. split; [done|].
  split; [done|]. destruct (obsolete self id); [done|].
  destruct (GState.capacity self <? Z.of_nat (length octets)); [done|]. simpl.
  by rewrite Nat2Z.id, take_app_length.
Qed.

Definition example_state : GameState := GState.mk [1; 2; 3; 4] 2 4 10.

Lemma game_state_set_correct_witness :
  runs (nimbleServerGameStateSet example_state 11 [7; 8; 9] 3) (fun r =>
    game_state_wf r.1 /\ GState.capacity r.1 = 4 /\ r.2 = 1 /\ GState.stepId r.1 = 11 /\
    take (Z.to_nat (GState.octetCount r.1)) (GState.state r.1) = [7; 8; 9]).
Proof.
  apply (game_state_set_correct example_state 11 [7; 8; 9]).
  split; simpl; lia.
Defined.

(** C30. After any sequence of offers of non-empty states that fit, the buffer
    holds the first of the offers with the largest step id: the state a client
    downloads never goes back in time. *)
Theorem game_state_holds_newest `{ImprintAllocator} capacity news :
  0 <= capacity ->
  Forall (fun n => n.2 <> [] /\ Z.of_nat (length n.2) <= capacity) news ->
  runs (set_states (nimbleServerGameStateInit capacity) news) (fun s =>
    held s = foldl newest None news).
Proof.
  intros Hc Hnews. destruct (game_state_init_wf capacity Hc) as [Hwf Hh].
  eapply runs_mono; [by apply set_states_newest|]. intros s [_ Hs]. by rewrite Hs, Hh.
Qed.

Lemma game_state_holds_newest_witness :
  runs (set_states (nimbleServerGameStateInit (H := Models.allocator_model) 4)
          [(3, [1]); (5, [2; 2]); (4, [9]); (5, [7])]) (fun s =>
    held s = Some (5, [2; 2])).
Proof.
  apply (game_state_holds_newest (H := Models.allocator_model) 4
           [(3, [1]); (5, [2; 2]); (4, [9]); (5, [7])]).
  - lia.
  - repeat constructor; simpl; (done || lia).
Defined.
