(* ===== verification/Participants.v ===== *)
(** * Participants (lib/participant.c, lib/participants.c,
      lib/participant_references.c)

    The pool of participants of the game: a fixed array, a count and a free
    list of ids. A pointer to a participant is its position in the array, a
    pointer to a party its position in the array of parties. *)

From S2P Require Import Prelude.
From S2P Require Import ExternalLibs.
From S2P Require Import ExternalModels.
From S2P Require Import CircularBuffer.

Definition NimbleServerErrSerialize : Z := -41.
Definition NimbleServerErrSerializeVersion : Z := -44.
Definition NimbleServerErrSessionFull : Z := -54.
Definition NimbleServerErrDatagramFromDisconnectedConnection : Z := -42.
Definition NimbleServerErrOutOfParticipantMemory : Z := -43.

Inductive NimbleServerParticipantState :=
  | NimbleServerParticipantStateJustJoined
  | NimbleServerParticipantStateNormal
  | NimbleServerParticipantStateWaitingForRejoin
  | NimbleServerParticipantStateLeaving
  | NimbleServerParticipantStateDestroyed.
#[export] Instance participant_state_eq_dec : EqDecision NimbleServerParticipantState.
Proof. solve_decision. Defined.

Module Participant.
Record NimbleServerParticipant `{NimbleSteps} := mk {
  localIndex : Z;
  id : Z;
  isUsed : bool;
  steps : NbsSteps;
  inParty : option nat;
  state : NimbleServerParticipantState;
}.
Section Setters.
Context `{NimbleSteps}.
Definition set_localIndex (v : Z) (p : NimbleServerParticipant) : NimbleServerParticipant :=
  mk _ v (id p) (isUsed p) (steps p) (inParty p) (state p).
Definition set_id (v : Z) (p : NimbleServerParticipant) : NimbleServerParticipant :=
  mk _ (localIndex p) v (isUsed p) (steps p) (inParty p) (state p).
Definition set_isUsed (v : bool) (p : NimbleServerParticipant) : NimbleServerParticipant :=
  mk _ (localIndex p) (id p) v (steps p) (inParty p) (state p).
Definition set_steps (v : NbsSteps) (p : NimbleServerParticipant) : NimbleServerParticipant :=
  mk _ (localIndex p) (id p) (isUsed p) v (inParty p) (state p).
Definition set_inParty (v : option nat) (p : NimbleServerParticipant) : NimbleServerParticipant :=
  mk _ (localIndex p) (id p) (isUsed p) (steps p) v (state p).
Definition set_state (v : NimbleServerParticipantState) (p : NimbleServerParticipant) :
    NimbleServerParticipant :=
  mk _ (localIndex p) (id p) (isUsed p) (steps p) (inParty p) v.
End Setters.
End Participant.
Abbreviation NimbleServerParticipant := Participant.NimbleServerParticipant.

Module Pool.
Record NimbleServerParticipants `{NimbleSteps} := mk {
  participants : list NimbleServerParticipant;
  participantCapacity : Z;
  participantCount : Z;
  freeList : CBuf.NimbleServerCircularBuffer;
}.
Section Setters.
Context `{NimbleSteps}.
Definition set_participants (v : list NimbleServerParticipant) (p : NimbleServerParticipants) :
    NimbleServerParticipants :=
  mk _ v (participantCapacity p) (participantCount p) (freeList p).
Definition set_participantCount (v : Z) (p : NimbleServerParticipants) :
    NimbleServerParticipants :=
  mk _ (participants p) (participantCapacity p) v (freeList p).
Definition set_freeList (v : CBuf.NimbleServerCircularBuffer) (p : NimbleServerParticipants) :
    NimbleServerParticipants :=
  mk _ (participants p) (participantCapacity p) (participantCount p) v.
End Setters.
End Pool.
Abbreviation NimbleServerParticipants := Pool.NimbleServerParticipants.

(** Pointers to the participants of a party. *)
Module Refs.
Record NimbleServerParticipantReferences := mk {
  participantReferenceCount : Z;
  participantReferences : list nat;
}.
End Refs.
Abbreviation ParticipantReferences := Refs.NimbleServerParticipantReferences.

Section Participants.
Context `{Clog} `{Flood} `{NimbleSteps} `{!NimbleStepsSerialize}.

(** ** participant.c *)

(** [self] is cleared memory; the fields the code does not set stay. *)
Definition nimbleServerParticipantInit (self : NimbleServerParticipant) (id maxStepOctetSize : Z) :
    NimbleServerParticipant :=
  Participant.mk _ (Participant.localIndex self) id false (nbsStepsInit maxStepOctetSize)
    (Participant.inParty self) NimbleServerParticipantStateDestroyed.

Definition nimbleServerParticipantReInit (self : NimbleServerParticipant) (party : option nat)
    (currentAuthoritativeStepId : Z) : outcome NimbleServerParticipant :=
  _ ← CLOG_ASSERT (bool_decide (is_Some party));
  Ret (Participant.mk _ (Participant.localIndex self) (Participant.id self) true
         (nbsStepsReInit (Participant.steps self) currentAuthoritativeStepId) party
         NimbleServerParticipantStateJustJoined).

Definition nimbleServerParticipantDestroy (self : NimbleServerParticipant) :
    NimbleServerParticipant :=
  Participant.mk _ 0 (Participant.id self) false (Participant.steps self) None
    NimbleServerParticipantStateDestroyed.

Definition nimbleServerParticipantMarkAsLeaving (self : NimbleServerParticipant) :
    NimbleServerParticipant :=
  Participant.set_state NimbleServerParticipantStateLeaving self.

Definition nimbleServerParticipantDeserializeSingleStep (self : NimbleServerParticipant)
    (stepId : Z) (inStream : FldInStream) : NimbleServerParticipant * FldInStream * Z :=
  let '(inStream, steps, code) :=
    nbsStepsInSerializeSinglePredictedStep inStream stepId (Participant.steps self) in
  (Participant.set_steps steps self, inStream, code).

(** ** participants.c *)

(** Cleared memory for one participant. *)
Definition zero_participant : NimbleServerParticipant :=
  Participant.mk _ 0 0 false (nbsStepsInit 0) None NimbleServerParticipantStateJustJoined.

Definition nimbleServerParticipantsInit (maxCount maxStepOctetSize : Z)
    (freeListMemory : CBuf.NimbleServerCircularBuffer) : outcome NimbleServerParticipants :=
  _ ← CLOG_ASSERT (0 <? maxCount);
  let participants := replicate (Z.to_nat maxCount) zero_participant in
  let freeList := nimbleServerCircularBufferInit freeListMemory in
  _ ← CLOG_ASSERT (maxCount <? NIMBLE_SERVER_CIRCULAR_BUFFER_SIZE);
  freeList ← for_each (Z.to_nat maxCount) 0 (fun i freeList =>
    nimbleServerCircularBufferWrite freeList (u8 (Z.of_nat i))) freeList;
  participants ← for_each (Z.to_nat maxCount) 0 (fun i participants =>
    participant ← load participants i;
    store participants i
      (nimbleServerParticipantInit participant (u8 (Z.of_nat i)) maxStepOctetSize)) participants;
  first ← load participants 0;
  _ ← CLOG_ASSERT (negb (Participant.isUsed first));
  Ret (Pool.mk _ participants maxCount 0 freeList).

Definition nimbleServerParticipantsDestroy (self : NimbleServerParticipants)
    (participantId : Z) : outcome NimbleServerParticipants :=
  _ ← CLOG_ASSERT (0 <? Pool.participantCount self);
  let self := Pool.set_participantCount (u64 (Pool.participantCount self - 1)) self in
  _ ← (if Pool.participantCapacity self <=? participantId then CLOG_ERROR else Ret tt);
  participant ← load (Pool.participants self) (Z.to_nat participantId);
  _ ← (if negb (Participant.isUsed participant) then CLOG_ERROR else Ret tt);
  freeList ← nimbleServerCircularBufferWrite (Pool.freeList self) participantId;
  participants ← store (Pool.participants self) (Z.to_nat participantId)
                   (nimbleServerParticipantDestroy participant);
  Ret (Pool.set_participants participants (Pool.set_freeList freeList self)).

(** The second component is the code and, on success, the pointer stored in
    the out parameter. *)
Definition nimbleServerParticipantsPrepare (self : NimbleServerParticipants)
    (participantId : Z) (party : option nat) (currentAuthoritativeStepId : Z) :
    outcome (NimbleServerParticipants * (Z * option nat)) :=
  if Pool.participantCapacity self <? u64 (Pool.participantCount self + 1)
  then Ret (self, (NimbleServerErrSessionFull, None))
  else
    _ ← (if Pool.participantCapacity self <=? participantId then CLOG_ERROR else Ret tt);
    participant ← load (Pool.participants self) (Z.to_nat participantId);
    if Participant.isUsed participant then Ret (self, (-2, None))
    else
      participant ← nimbleServerParticipantReInit participant party currentAuthoritativeStepId;
      let participant :=
        Participant.set_id participantId
          (Participant.set_state NimbleServerParticipantStateWaitingForRejoin
             (Participant.set_isUsed true (Participant.set_localIndex 0 participant))) in
      participants ← store (Pool.participants self) (Z.to_nat participantId) participant;
      Ret (Pool.set_participantCount (u64 (Pool.participantCount self + 1))
             (Pool.set_participants participants self),
           (0, Some (Z.to_nat participantId))).

Definition nimbleServerParticipantsFind (self : NimbleServerParticipants)
    (participantId : Z) : option nat :=
  if Pool.participantCapacity self <=? participantId then None
  else Some (Z.to_nat participantId).

(** [localPlayers]: the players that were read into the array of the request;
    [results]: the pointers stored in the array of results. *)
Definition nimbleServerParticipantsJoin (self : NimbleServerParticipants)
    (localPlayers : list NimbleSerializeJoinGameRequestPlayer) (localParticipantCount : Z)
    (party : option nat) (expectedStepId : Z) :
    outcome (NimbleServerParticipants * (Z * list nat)) :=
  _ ← CLOG_ASSERT (localParticipantCount =? 1);
  if Pool.participantCapacity self
       <? u64 (Pool.participantCount self + localParticipantCount)
  then Ret (self, (NimbleServerErrSessionFull, []))
  else
    '(freeList, participantId) ← nimbleServerCircularBufferRead (Pool.freeList self);
    let self := Pool.set_freeList freeList self in
    _ ← (if Pool.participantCapacity self <=? participantId then CLOG_ERROR else Ret tt);
    participant ← load (Pool.participants self) (Z.to_nat participantId);
    _ ← (if Participant.isUsed participant then CLOG_ERROR else Ret tt);
    participant ← nimbleServerParticipantReInit participant party expectedStepId;
    localPlayer ← initialized PlayerOfRequest (localPlayers !! 0%nat);
    let participant :=
      Participant.set_id participantId
        (Participant.set_state NimbleServerParticipantStateJustJoined
           (Participant.set_isUsed true
              (Participant.set_localIndex (player_localIndex localPlayer) participant))) in
    participants ← store (Pool.participants self) (Z.to_nat participantId) participant;
    let self := Pool.set_participantCount (u64 (Pool.participantCount self + 1))
                  (Pool.set_participants participants self) in
    let joinIndex := 1 in
    _ ← (if negb (joinIndex =? localParticipantCount) then CLOG_ERROR else Ret tt);
    Ret (self, (0, [Z.to_nat participantId])).

(** ** participant_references.c *)
Definition nimbleParticipantReferencesFind (pool : list NimbleServerParticipant)
    (self : ParticipantReferences) (participantId : Z) : outcome (option nat) :=
  r ← for_loop (Z.to_nat (Refs.participantReferenceCount self)) 0 (fun i (_ : unit) =>
    p ← load (Refs.participantReferences self) i;
    participant ← load pool p;
    Ret (if Participant.id participant =? participantId then Return (Some p)
         else Continue tt)) tt;
  Ret (match r with Return p => p | Continue _ => None end).

End Participants.

(** ** Abstraction: the free and the used ids of an array of participants *)
Section PoolInvariant.
Context `{NimbleSteps}.
Implicit Types (l : list NimbleServerParticipant) (p : NimbleServerParticipant).

Fixpoint free_ids (k : Z) l : list Z :=
  match l with
  | [] => []
  | p :: l => if Participant.isUsed p then free_ids (k + 1) l else k :: free_ids (k + 1) l
  end.

Fixpoint used_count l : Z :=
  match l with
  | [] => 0
  | p :: l => (if Participant.isUsed p then 1 else 0) + used_count l
  end.

Lemma used_count_range l : 0 <= used_count l <= Z.of_nat (length l).
Proof. induction l as [|p l IH]; simpl; [lia|]. destruct (Participant.isUsed p); lia. Qed.

Lemma length_free_ids k l : Z.of_nat (length (free_ids k l)) + used_count l = Z.of_nat (length l).
Proof.
  revert k. induction l as [|p l IH]; intros k; simpl; [done|].
  specialize (IH (k + 1)). destruct (Participant.isUsed p); simpl; lia.
Qed.

Lemma elem_of_free_ids k l x :
  x ∈ free_ids k l <->
  exists i p, x = k + Z.of_nat i /\ l !! i = Some p /\ Participant.isUsed p = false.
Proof.
  revert k. induction l as [|p l IH]; intros k; simpl.
  - split; [by intros ?%elem_of_nil|]. intros (i & p & _ & Hi & _). by rewrite lookup_nil in Hi.
  - assert (Htail : x ∈ free_ids (k + 1) l <-> exists i p', x = k + Z.of_nat (S i) /\
              (p :: l) !! S i = Some p' /\ Participant.isUsed p' = false).
    { rewrite IH. split; intros (i & q & ? & ? & ?); exists i, q; simpl; repeat split; auto; lia. }
    destruct (Participant.isUsed p) eqn:E; rewrite ?elem_of_cons, Htail.
    + split; [by intros (i & q & ?); exists (S i), q|].
      intros ([|i] & q & ? & Hq & ?); [simpl in Hq; congruence|by exists i, q].
    + split.
      * intros [->|(i & q & ?)]; [exists O, p; simpl; repeat split; auto; lia|by exists (S i), q].
      * intros ([|i] & q & ? & Hq & ?); [left; lia|right; by exists i, q].
Qed.

Lemma free_ids_same k l i p p' :
  l !! i = Some p -> Participant.isUsed p' = Participant.isUsed p ->
  free_ids k (<[i := p']> l) = free_ids k l /\ used_count (<[i := p']> l) = used_count l.
Proof.
  revert k i. induction l as [|q l IH]; intros k [|i] Hi Hu; simpl in *; try done.
  - injection Hi as ->. by rewrite Hu.
  - destruct (IH (k + 1) i Hi Hu) as [-> ->]. done.
Qed.

Lemma free_ids_take k l i p p' :
  l !! i = Some p -> Participant.isUsed p = false -> Participant.isUsed p' = true ->
  free_ids k l ≡ₚ (k + Z.of_nat i) :: free_ids k (<[i := p']> l) /\
  used_count (<[i := p']> l) = used_count l + 1.
Proof.
  revert k i. induction l as [|q l IH]; intros k [|i] Hi Hp Hp'; simpl in *; try done.
  - injection Hi as ->. rewrite Hp, Hp', Z.add_0_r. split; [done|lia].
  - destruct (IH (k + 1) i Hi Hp Hp') as [IH1 IH2]. rewrite IH2.
    replace (k + 1 + Z.of_nat i) with (k + Z.of_nat (S i)) in IH1 by lia.
    split; [|lia]. destruct (Participant.isUsed q); [done|].
    rewrite IH1. apply Permutation_swap.
Qed.

Lemma free_ids_release k l i p p' :
  l !! i = Some p -> Participant.isUsed p = true -> Participant.isUsed p' = false ->
  free_ids k (<[i := p']> l) ≡ₚ (k + Z.of_nat i) :: free_ids k l /\
  used_count (<[i := p']> l) = used_count l - 1.
Proof.
  intros Hi Hp Hp'.
  assert (Hlt : (i < length l)%nat) by (by eapply lookup_lt_Some).
  destruct (free_ids_take k (<[i := p']> l) i p' p) as [H1 H2]; auto.
  { by apply list_lookup_insert_eq. }
  rewrite list_insert_insert_eq, (list_insert_id l i p Hi) in H1.
  rewrite list_insert_insert_eq, (list_insert_id l i p Hi) in H2.
  split; [done|lia].
Qed.

(** The invariant of the pool: ids are positions, and the free list holds
    exactly the ids of the participants that are not in use, each once. *)
Record pool_wf (self : NimbleServerParticipants) : Prop := {
  pool_capacity : 0 < Pool.participantCapacity self < 64;
  pool_length :
    Z.of_nat (length (Pool.participants self)) = Pool.participantCapacity self;
  pool_ids : forall i p, Pool.participants self !! i = Some p ->
    Participant.id p = Z.of_nat i;
  pool_count : Pool.participantCount self = used_count (Pool.participants self);
  pool_cbuf : cbuf_wf (Pool.freeList self);
  pool_free : contents (Pool.freeList self) ≡ₚ free_ids 0 (Pool.participants self);
}.

Lemma pool_count_range self : pool_wf self ->
  0 <= Pool.participantCount self <= Pool.participantCapacity self.
Proof.
  intros Hwf. rewrite pool_count by done. rewrite <- pool_length by done.
  apply used_count_range.
Qed.

Lemma pool_free_count self : pool_wf self ->
  nimbleServerCircularBufferCount (Pool.freeList self)
  = Pool.participantCapacity self - Pool.participantCount self.
Proof.
  intros Hwf. rewrite <- length_contents by apply Hwf.
  rewrite (Permutation_length (pool_free _ Hwf)).
  pose proof (length_free_ids 0 (Pool.participants self)).
  rewrite pool_count, <- pool_length by done. lia.
Qed.

Lemma pool_free_not_full self : pool_wf self -> CBuf.isFull (Pool.freeList self) = false.
Proof.
  intros Hwf. rewrite isFull_contents by apply Hwf. apply bool_decide_false.
  pose proof (pool_free_count _ Hwf) as Hc. rewrite <- length_contents in Hc by apply Hwf.
  pose proof (pool_count_range _ Hwf). pose proof (pool_capacity _ Hwf). lia.
Qed.

(** The oldest free id belongs to a participant that is not in use. *)
Lemma pool_free_head self x rest : pool_wf self -> contents (Pool.freeList self) = x :: rest ->
  0 <= x < Pool.participantCapacity self /\
  exists p, Pool.participants self !! Z.to_nat x = Some p /\ Participant.isUsed p = false.
Proof.
  intros Hwf Hc. assert (Hx : x ∈ free_ids 0 (Pool.participants self)).
  { rewrite <- (pool_free _ Hwf), Hc. left. }
  apply elem_of_free_ids in Hx as (i & p & -> & Hp & Hu). rewrite Z.add_0_l, Nat2Z.id.
  split; [|by exists p]. apply lookup_lt_Some in Hp. rewrite <- pool_length by done. lia.
Qed.

(** What the rest of the server relies on for one participant, when the array
    of parties has [n] elements. *)
Record participant_ok `{!NimbleStepsLaws} (n : nat) p : Prop := {
  participant_steps : steps_wf (Participant.steps p);
  participant_steps_max : 0 <= steps_max (Participant.steps p) < 256;
  participant_party : Participant.isUsed p = true ->
    exists q, Participant.inParty p = Some q /\ (q < n)%nat;
}.

End PoolInvariant.

(** ** The operations on a consistent pool *)
Section PoolOperations.
Context `{Clog} `{NimbleSteps} `{!NimbleStepsLaws}.
Implicit Types (self : NimbleServerParticipants) (p : NimbleServerParticipant).

(** A participant as [Join] leaves it. *)
Definition joined p (id : nat) (player : NimbleSerializeJoinGameRequestPlayer) (party : nat)
    (stepId : Z) : NimbleServerParticipant :=
  Participant.mk _ (player_localIndex player) (Z.of_nat id) true
    (nbsStepsReInit (Participant.steps p) stepId) (Some party)
    NimbleServerParticipantStateJustJoined.

(** A participant as [Prepare] leaves it. *)
Definition prepared p (id : nat) (party : nat) (stepId : Z) : NimbleServerParticipant :=
  Participant.mk _ 0 (Z.of_nat id) true (nbsStepsReInit (Participant.steps p) stepId)
    (Some party) NimbleServerParticipantStateWaitingForRejoin.

Lemma participant_ok_reused n p id li party stepId st :
  participant_ok n p -> 0 <= stepId < 4294967296 -> (party < n)%nat ->
  participant_ok n (Participant.mk _ li id true
    (nbsStepsReInit (Participant.steps p) stepId) (Some party) st).
Proof.
  intros [Hs Hm _] Hid Hp.
  destruct (steps_reinit (Participant.steps p) stepId Hs Hid) as (? & Hmax & _).
  split; simpl; [done|by rewrite Hmax|eauto].
Qed.

Lemma participant_ok_destroyed n p :
  participant_ok n p -> participant_ok n (nimbleServerParticipantDestroy p).
Proof. by intros [Hs Hm _]. Qed.

Lemma runs_join {E : halt -> Prop} self players count party stepId
    (Q : NimbleServerParticipants * (Z * list nat) -> Prop) :
  pool_wf self -> count = 1 -> (players !! 0%nat = None -> E (UninitializedRead PlayerOfRequest)) ->
  (if Pool.participantCount self =? Pool.participantCapacity self
   then Q (self, (NimbleServerErrSessionFull, []))
   else forall player id rest p s,
     players !! 0%nat = Some player ->
     contents (Pool.freeList self) = Z.of_nat id :: rest ->
     Pool.participants self !! id = Some p -> Participant.isUsed p = false ->
     (id < 64)%nat -> cbuf_wf s -> contents s = rest ->
     Q (Pool.mk _ (<[id := joined p id player party stepId]> (Pool.participants self))
          (Pool.participantCapacity self) (Pool.participantCount self + 1) s, (0, [id]))) ->
  sat E (nimbleServerParticipantsJoin self players count (Some party) stepId) Q.
Proof.
  intros Hwf -> Hnone HQ. unfold nimbleServerParticipantsJoin. run.
  pose proof (pool_count_range _ Hwf). pose proof (pool_capacity _ Hwf).
  rewrite u64_small by lia.
  destruct (Z.eqb_spec (Pool.participantCount self) (Pool.participantCapacity self)).
  { rewrite (proj2 (Z.ltb_lt _ _)) by lia. run. done. }
  rewrite (proj2 (Z.ltb_ge _ _)) by lia.
  pose proof (pool_free_count _ Hwf) as Hcount. rewrite <- length_contents in Hcount by apply Hwf.
  destruct (contents (Pool.freeList self)) as [|x rest] eqn:Hc; [simpl in Hcount; lia|].
  destruct (pool_free_head _ _ _ Hwf Hc) as [Hx (p & Hp & Hu)].
  run. eapply runs_read; [apply Hwf|done|]. intros s Hs Hf Hrest.
  cbn [Pool.set_freeList Pool.participantCapacity Pool.participants Pool.participantCount].
  unfold nimbleServerParticipantReInit. run. simpl.
  destruct (players !! 0%nat) as [player|] eqn:Hplayer; [|simpl; auto].
  specialize (HQ player (Z.to_nat x) rest p s). rewrite Z2Nat.id in HQ by lia.
  cbn [initialized]. run. rewrite u64_small by lia.
  unfold joined in HQ. rewrite Z2Nat.id in HQ by lia. apply HQ; try done. lia.
Qed.

Lemma pool_ids_insert self i p p' : pool_wf self ->
  Pool.participants self !! i = Some p -> Participant.id p' = Z.of_nat i ->
  forall j q, <[i := p']> (Pool.participants self) !! j = Some q ->
  Participant.id q = Z.of_nat j.
Proof.
  intros Hwf Hi Hid j q. destruct (decide (i = j)) as [<-|Hne].
  - rewrite list_lookup_insert_eq by (by eapply lookup_lt_Some). by intros [= <-].
  - rewrite list_lookup_insert_ne by done. by apply pool_ids.
Qed.

(** The three ways an operation changes one participant of the pool. *)
Lemma pool_wf_updated self i p p' : pool_wf self ->
  Pool.participants self !! i = Some p -> Participant.id p' = Participant.id p ->
  Participant.isUsed p' = Participant.isUsed p ->
  pool_wf (Pool.set_participants (<[i := p']> (Pool.participants self)) self).
Proof.
  intros Hwf Hi Hid Hu.
  destruct (free_ids_same 0 _ _ _ p' Hi Hu) as [Hf Hc].
  split; simpl; try apply Hwf.
  - rewrite length_insert. apply Hwf.
  - eapply pool_ids_insert; eauto. rewrite Hid. by apply (pool_ids _ Hwf).
  - rewrite Hc. apply Hwf.
  - rewrite Hf. apply Hwf.
Qed.

Lemma pool_wf_taken self i p p' rest s : pool_wf self ->
  Pool.participants self !! i = Some p -> Participant.isUsed p = false ->
  Participant.isUsed p' = true -> Participant.id p' = Z.of_nat i ->
  contents (Pool.freeList self) = Z.of_nat i :: rest -> cbuf_wf s -> contents s = rest ->
  pool_wf (Pool.mk _ (<[i := p']> (Pool.participants self)) (Pool.participantCapacity self)
             (Pool.participantCount self + 1) s).
Proof.
  intros Hwf Hi Hu Hu' Hid Hc Hs Hrest.
  destruct (free_ids_take 0 _ _ _ p' Hi Hu Hu') as [Hf Hcount].
  split; simpl; try apply Hwf; try done.
  - rewrite length_insert. apply Hwf.
  - by eapply pool_ids_insert.
  - rewrite Hcount. f_equal. apply Hwf.
  - rewrite Hrest. apply (Permutation_cons_inv (a := Z.of_nat i)). rewrite <- Hc.
    rewrite (pool_free _ Hwf), Hf. done.
Qed.

Lemma pool_wf_released self i p p' s : pool_wf self ->
  Pool.participants self !! i = Some p -> Participant.isUsed p = true ->
  Participant.isUsed p' = false -> Participant.id p' = Z.of_nat i ->
  cbuf_wf s -> contents s = contents (Pool.freeList self) ++ [Z.of_nat i] ->
  pool_wf (Pool.mk _ (<[i := p']> (Pool.participants self)) (Pool.participantCapacity self)
             (Pool.participantCount self - 1) s).
Proof.
  intros Hwf Hi Hu Hu' Hid Hs Hc.
  destruct (free_ids_release 0 _ _ _ p' Hi Hu Hu') as [Hf Hcount].
  split; simpl; try apply Hwf; try done.
  - rewrite length_insert. apply Hwf.
  - by eapply pool_ids_insert.
  - rewrite Hcount. f_equal. apply Hwf.
  - rewrite Hc, Hf, (pool_free _ Hwf), Permutation_app_comm. done.
Qed.

Lemma used_pool_count self i p : pool_wf self ->
  Pool.participants self !! i = Some p -> Participant.isUsed p = true ->
  0 < Pool.participantCount self.
Proof.
  intros Hwf Hi Hu. pose proof (pool_count _ Hwf).
  destruct (free_ids_release 0 _ _ _ (nimbleServerParticipantDestroy p) Hi Hu eq_refl) as [_ Hc].
  pose proof (used_count_range (<[i := nimbleServerParticipantDestroy p]>
                                  (Pool.participants self))). lia.
Qed.

Lemma runs_destroy {E} self i p (Q : NimbleServerParticipants -> Prop) : pool_wf self ->
  Pool.participants self !! i = Some p -> Participant.isUsed p = true ->
  (forall s, cbuf_wf s -> contents s = contents (Pool.freeList self) ++ [Z.of_nat i] ->
     Q (Pool.mk _ (<[i := nimbleServerParticipantDestroy p]> (Pool.participants self))
          (Pool.participantCapacity self) (Pool.participantCount self - 1) s)) ->
  sat E (nimbleServerParticipantsDestroy self (Z.of_nat i)) Q.
Proof.
  intros Hwf Hi Hu HQ. pose proof (used_pool_count _ _ _ Hwf Hi Hu).
  pose proof (pool_count_range _ Hwf). pose proof (pool_capacity _ Hwf).
  pose proof (pool_length _ Hwf). pose proof (lookup_lt_Some _ _ _ Hi).
  unfold nimbleServerParticipantsDestroy. rewrite u64_small, Nat2Z.id by lia.
  cbn [Pool.set_participantCount Pool.participantCapacity Pool.participants Pool.freeList]. run.
  eapply runs_write; [apply Hwf|by apply pool_free_not_full|]. intros s Hs Hc. run.
  by apply HQ.
Qed.

Lemma runs_prepare {E} self (i : nat) party stepId
    (Q : NimbleServerParticipants * (Z * option nat) -> Prop) p :
  Z.of_nat (length (Pool.participants self)) = Pool.participantCapacity self ->
  Pool.participantCapacity self < 64 -> 0 <= Pool.participantCount self ->
  Pool.participants self !! i = Some p ->
  (if Pool.participantCapacity self <? Pool.participantCount self + 1
   then Q (self, (NimbleServerErrSessionFull, None))
   else if Participant.isUsed p then Q (self, (-2, None))
   else Q (Pool.mk _ (<[i := prepared p i party stepId]> (Pool.participants self))
             (Pool.participantCapacity self) (Pool.participantCount self + 1)
             (Pool.freeList self), (0, Some i))) ->
  Pool.participantCount self <= 64 ->
  sat E (nimbleServerParticipantsPrepare self (Z.of_nat i) (Some party) stepId) Q.
Proof.
  intros Hl Hcap Hcount Hi HQ Hle. pose proof (lookup_lt_Some _ _ _ Hi).
  unfold nimbleServerParticipantsPrepare. rewrite u64_small by lia.
  destruct (Pool.participantCapacity self <? Pool.participantCount self + 1); [done|].
  rewrite Nat2Z.id. run. destruct (Participant.isUsed p); [done|].
  unfold nimbleServerParticipantReInit. run. done.
Qed.
End PoolOperations.

(** ** Changes that keep the frame of the pool

    Most operations touch states and steps only: ids, use and parties stay.
    [pool_like n] relates the arrays before and after such a change. *)
Section PoolLike.
Context `{NimbleSteps} `{!NimbleStepsLaws}.

Definition participant_like (n : nat) (p p' : NimbleServerParticipant) : Prop :=
  Participant.id p' = Participant.id p /\ Participant.isUsed p' = Participant.isUsed p /\
  Participant.inParty p' = Participant.inParty p /\
  (participant_ok n p -> participant_ok n p').

Definition pool_like (n : nat) : list NimbleServerParticipant ->
    list NimbleServerParticipant -> Prop := Forall2 (participant_like n).

#[export] Instance participant_like_preorder n : PreOrder (participant_like n).
Proof.
  split; [by intros p|]. intros p q r (? & ? & ? & ?) (? & ? & ? & ?).
  split; [congruence|]. split; [congruence|]. split; [congruence|auto].
Qed.

#[export] Instance pool_like_preorder n : PreOrder (pool_like n).
Proof. unfold pool_like. apply _. Qed.

Lemma pool_like_insert n l i p p' :
  l !! i = Some p -> participant_like n p p' -> pool_like n l (<[i := p']> l).
Proof.
  intros Hi Hp. apply Forall2_same_length_lookup_2; [by rewrite length_insert|].
  intros j q q' Hq Hq'. destruct (decide (i = j)) as [<-|Hne].
  - rewrite list_lookup_insert_eq in Hq' by (by eapply lookup_lt_Some). by simplify_eq.
  - rewrite list_lookup_insert_ne in Hq' by done. by simplify_eq.
Qed.

Lemma pool_like_length n l l' : pool_like n l l' -> length l' = length l.
Proof. intros Hl. symmetry. by eapply Forall2_length. Qed.

Lemma pool_like_ok n l l' :
  pool_like n l l' -> Forall (participant_ok n) l -> Forall (participant_ok n) l'.
Proof. induction 1 as [|p p' l l' (_ & _ & _ & Hp) _ IH]; inversion 1; subst; auto. Qed.

Lemma pool_like_free n l l' : pool_like n l l' ->
  forall k, free_ids k l' = free_ids k l /\ used_count l' = used_count l.
Proof.
  induction 1 as [|p p' l l' (_ & Hu & _) _ IH]; intros k; [done|].
  simpl. rewrite Hu. by destruct (IH (k + 1)) as [-> ->].
Qed.

Lemma pool_wf_like n self l' : pool_wf self -> pool_like n (Pool.participants self) l' ->
  pool_wf (Pool.set_participants l' self).
Proof.
  intros Hwf Hl. destruct (pool_like_free _ _ _ Hl 0) as [Hf Hc].
  split; simpl; try apply Hwf.
  - rewrite (pool_like_length _ _ _ Hl). apply Hwf.
  - intros i p' Hp'. destruct (Forall2_lookup_r _ _ _ _ _ Hl Hp') as (p & Hp & Hid & _).
    rewrite Hid. by apply (pool_ids _ Hwf).
  - rewrite Hc. apply Hwf.
  - rewrite Hf. apply Hwf.
Qed.

Lemma set_state_like n st p : participant_like n p (Participant.set_state st p).
Proof. do 3 (split; [done|]). by intros []. Qed.

Lemma set_steps_like n steps p :
  (participant_ok n p -> steps_wf steps /\ 0 <= steps_max steps < 256) ->
  participant_like n p (Participant.set_steps steps p).
Proof.
  intros Hs. split; [done|]. split; [done|]. split; [done|].
  intros Hok. destruct (Hs Hok). destruct Hok. split; simpl; auto.
Qed.
End PoolLike.

(** ** Initialisation *)
Section PoolInit.
Context `{Clog} `{NimbleSteps} `{!NimbleStepsLaws}.

Lemma free_ids_unused l : Forall (fun p => Participant.isUsed p = false) l ->
  forall k, free_ids k l = seqZ k (Z.of_nat (length l)) /\ used_count l = 0.
Proof.
  induction 1 as [|p l Hp Hl IH]; intros k; [done|]. simpl. rewrite Hp.
  destruct (IH (k + 1)) as [-> ->]. rewrite (seqZ_cons k) by lia.
  split; [|done]. f_equal. f_equal; lia.
Qed.

(** The participant with the given id after initialisation. *)
Definition initial_participant (maxStepOctetSize : Z) (i : nat) : NimbleServerParticipant :=
  Participant.mk _ 0 (Z.of_nat i) false (nbsStepsInit maxStepOctetSize) None
    NimbleServerParticipantStateDestroyed.

Lemma runs_fill_free_list n s : (n <= 64)%nat -> cbuf_wf s -> contents s = [] ->
  runs (for_each n 0 (fun i freeList =>
          nimbleServerCircularBufferWrite freeList (u8 (Z.of_nat i))) s)
    (fun s' => cbuf_wf s' /\ contents s' = seqZ 0 (Z.of_nat n)).
Proof.
  intros Hn Hs Hc.
  apply (runs_for_each (fun i s => cbuf_wf s /\ contents s = seqZ 0 (Z.of_nat i))); [done|].
  intros j s' Hj [Hs' Hc']. apply runs_write; [done| |].
  - rewrite isFull_contents, Hc', length_seqZ by done. apply bool_decide_false. lia.
  - intros s'' Hs'' Hc''. split; [done|]. rewrite Hc'', Hc', u8_small by lia.
    rewrite seqZ_S. do 2 f_equal; lia.
Qed.

Lemma runs_init_participants n maxStep : (n <= 64)%nat ->
  runs (for_each n 0 (fun i participants =>
          participant ← load participants i;
          store participants i
            (nimbleServerParticipantInit participant (u8 (Z.of_nat i)) maxStep))
          (replicate n zero_participant))
    (fun l => l = initial_participant maxStep <$> seq 0 n).
Proof.
  intros Hn.
  eapply runs_mono; [apply (runs_for_each (fun i l =>
    l = (initial_participant maxStep <$> seq 0 i) ++ replicate (n - i) zero_participant))|].
  - simpl. by rewrite Nat.sub_0_r.
  - intros j l Hj ->. set (done := initial_participant maxStep <$> seq 0 j).
    assert (Hd : length done = j) by (unfold done; by rewrite length_fmap, length_seq).
    replace (n - j)%nat with (S (n - S j)) by lia. cbn [replicate].
    assert (Hl : (done ++ zero_participant :: replicate (n - S j) zero_participant) !! j
                 = Some zero_participant) by (by apply list_lookup_middle).
    run. rewrite seq_S, fmap_app, <- app_assoc.
    rewrite <- Hd at 1. rewrite insert_app_r_alt, Nat.sub_diag by lia.
    unfold done. f_equal. simpl. f_equal.
    unfold nimbleServerParticipantInit, initial_participant. simpl. by rewrite u8_small by lia.
  - intros l Hl. by rewrite Hl, Nat.sub_diag, app_nil_r.
Qed.

Lemma runs_participants_init n maxStep memory :
  0 < n < 64 -> 0 <= maxStep < 256 -> length (CBuf.data memory) = 64%nat ->
  runs (nimbleServerParticipantsInit n maxStep memory) (fun self =>
    pool_wf self /\ Pool.participantCapacity self = n /\ Pool.participantCount self = 0 /\
    Pool.participants self = initial_participant maxStep <$> seq 0 (Z.to_nat n) /\
    contents (Pool.freeList self) = seqZ 0 n).
Proof.
  intros Hn Hm Hmem. unfold nimbleServerParticipantsInit, NIMBLE_SERVER_CIRCULAR_BUFFER_SIZE.
  destruct (init_wf memory Hmem) as [Hs Hc]. run.
  eapply runs_mono; [by apply runs_fill_free_list; [lia|..]|]. intros s [Hs' Hc']. run.
  eapply runs_mono; [apply runs_init_participants; lia|]. intros l ->.
  set (l := initial_participant maxStep <$> seq 0 (Z.to_nat n)).
  assert (Hl : length l = Z.to_nat n) by (unfold l; by rewrite length_fmap, length_seq).
  assert (Hlook : forall i, (i < Z.to_nat n)%nat -> l !! i = Some (initial_participant maxStep i)).
  { intros i Hi. unfold l. by rewrite list_lookup_fmap, lookup_seq_lt by done. }
  assert (H0' : l !! 0%nat = Some (initial_participant maxStep 0)) by (apply Hlook; lia).
  run. rewrite Z2Nat.id in Hc' by lia.
  assert (Hunused : Forall (fun p => Participant.isUsed p = false) l).
  { apply Forall_fmap, Forall_true. by intros i. }
  destruct (free_ids_unused l Hunused 0) as [Hf Hu].
  split; [|done]. split; simpl; try done; try lia.
  - intros i p Hi. pose proof (lookup_lt_Some _ _ _ Hi).
    rewrite Hlook in Hi by lia. by injection Hi as <-.
  - rewrite Hf, Hc', Hl, Z2Nat.id by lia. done.
Qed.

Lemma initial_participants_ok n maxStep k : 0 <= maxStep < 256 ->
  Forall (participant_ok n) (initial_participant maxStep <$> seq 0 k).
Proof.
  intros Hm. apply Forall_fmap, Forall_true. intros i.
  destruct (steps_init maxStep) as [Hs Hmax]; [lia|].
  split; simpl; [done|by rewrite Hmax|done].
Qed.
End PoolInit.

(** ** Properties *)
Section PoolProperties.
Context `{Clog} `{NimbleSteps} `{!NimbleStepsLaws}.

(** The initialised pool of fewer than 64 participants is consistent: no
    participant is in use, every id is free, in increasing order, and neither
    the loops nor the checks stop the program. *)
Theorem participants_init_correct maxCount maxStepOctetSize memory parties :
  0 < maxCount < 64 -> 0 <= maxStepOctetSize < 256 -> length (CBuf.data memory) = 64%nat ->
  runs (nimbleServerParticipantsInit maxCount maxStepOctetSize memory) (fun self =>
    pool_wf self /\ Forall (participant_ok parties) (Pool.participants self) /\
    Pool.participantCapacity self = maxCount /\ Pool.participantCount self = 0 /\
    contents (Pool.freeList self) = seqZ 0 maxCount).
Proof.
  intros Hn Hm Hmem.
  eapply runs_mono; [by apply runs_participants_init|].
  intros self (Hwf & Hcap & Hcount & Hp & Hc). repeat split; try done; try apply Hwf.
  rewrite Hp. by apply initial_participants_ok.
Qed.

(** Joining the game. A full pool refuses with [NimbleServerErrSessionFull]
    and does not change; otherwise the participant with the oldest free id,
    which no one uses, is put in use for the party, in state just joined and
    expecting its first step at the given id, and no other participant changes.
    The pool stays consistent and the program does not stop. *)
Theorem participants_join_correct self players player party stepId parties :
  pool_wf self -> Forall (participant_ok parties) (Pool.participants self) ->
  (party < parties)%nat -> 0 <= stepId < 4294967296 -> players !! 0%nat = Some player ->
  runs (nimbleServerParticipantsJoin self players 1 (Some party) stepId)
    (fun '(self', (code, results)) =>
    pool_wf self' /\ Forall (participant_ok parties) (Pool.participants self') /\
    if Pool.participantCount self =? Pool.participantCapacity self
    then self' = self /\ code = NimbleServerErrSessionFull /\ results = []
    else exists id p,
      contents (Pool.freeList self) = Z.of_nat id :: contents (Pool.freeList self') /\
      Pool.participants self !! id = Some p /\ Participant.isUsed p = false /\
      code = 0 /\ results = [id] /\
      Pool.participantCount self' = Pool.participantCount self + 1 /\
      Pool.participants self' = <[id := joined p id player party stepId]> (Pool.participants self)).
Proof.
  intros Hwf Hok Hparty Hid Hplayer. apply runs_join; [done|done|by rewrite Hplayer|].
  destruct (Pool.participantCount self =? Pool.participantCapacity self); [done|].
  intros player' id rest p s Hplayer' Hc Hp Hu _ Hs Hrest.
  rewrite Hplayer in Hplayer'. injection Hplayer' as <-.
  split; [|split; [|exists id, p; simpl; rewrite Hrest; auto 10]].
  - by eapply pool_wf_taken.
  - apply Forall_insert; [done|]. apply participant_ok_reused; [|done..].
    by eapply Forall_lookup_1.
Qed.

(** Destroying a participant in use gives its id back, behind all the
    ids that are already free, marks it destroyed and without party, and leaves
    every other participant as it was; the pool stays consistent. *)
Theorem participants_destroy_correct self (id : nat) p parties :
  pool_wf self -> Forall (participant_ok parties) (Pool.participants self) ->
  Pool.participants self !! id = Some p -> Participant.isUsed p = true ->
  runs (nimbleServerParticipantsDestroy self (Z.of_nat id)) (fun self' =>
    pool_wf self' /\ Forall (participant_ok parties) (Pool.participants self') /\
    contents (Pool.freeList self') = contents (Pool.freeList self) ++ [Z.of_nat id] /\
    Pool.participantCount self' = Pool.participantCount self - 1 /\
    Pool.participants self'
    = <[id := nimbleServerParticipantDestroy p]> (Pool.participants self)).
Proof.
  intros Hwf Hok Hp Hu. eapply runs_destroy; [done..|]. intros s Hs Hc.
  split; [|split; [|done]].
  - eapply pool_wf_released; try done. simpl. by apply (pool_ids _ Hwf).
  - apply Forall_insert; [done|]. apply participant_ok_destroyed. by eapply Forall_lookup_1.
Qed.
End PoolProperties.

(** ** Witnesses *)
Import Models.

(** A pool of two, of which participant 0 is in use by party 0. *)
Definition example_pool : NimbleServerParticipants :=
  Pool.mk _ [Participant.mk _ 0 0 true (nbsStepsInit 24) (Some 0%nat)
               NimbleServerParticipantStateNormal;
             initial_participant 24 1] 2 1 (written zero_buffer 1).

Lemma example_pool_wf : pool_wf example_pool.
Proof.
  split.
  - simpl; lia.
  - reflexivity.
  - intros [|[|i]] p Hp; simpl in Hp; try done; by injection Hp as <-.
  - reflexivity.
  - apply written_wf, zero_buffer_wf.
  - replace (contents (Pool.freeList example_pool)) with [1] by (vm_compute; reflexivity).
    reflexivity.
Qed.

Lemma example_pool_ok : Forall (participant_ok 1) (Pool.participants example_pool).
Proof.
  repeat constructor; simpl; try lia; try done. intros _. exists 0%nat. split; [done|lia].
Qed.

Lemma participants_init_correct_witness :
  runs (nimbleServerParticipantsInit (H := debug_build) 16 20 zero_buffer) (fun self =>
    pool_wf self /\ Forall (participant_ok 16) (Pool.participants self) /\
    Pool.participantCapacity self = 16 /\ Pool.participantCount self = 0 /\
    contents (Pool.freeList self) = seqZ 0 16).
Proof.
  apply (participants_init_correct (H := debug_build)).
  - lia.
  - lia.
  - reflexivity.
Defined.

Lemma participants_join_correct_witness :
  runs (nimbleServerParticipantsJoin (H := debug_build) example_pool [mkJoinPlayer 0] 1
          (Some 0%nat) 7) (fun r =>
    pool_wf r.1 /\ r.2 = (0, [1%nat])).
Proof.
  pose proof (participants_join_correct (H := debug_build) example_pool [mkJoinPlayer 0]
    (mkJoinPlayer 0) 0 7 1 example_pool_wf example_pool_ok ltac:(lia) ltac:(lia) eq_refl) as Hj.
  eapply runs_mono; [exact Hj|]. intros [self' [code results]] (Hwf & _ & id & p & Hc & _ & _ & -> & -> & _).
  split; [exact Hwf|]. simpl. f_equal. f_equal.
  assert (H1 : contents (Pool.freeList example_pool) = [1]) by (vm_compute; reflexivity).
  rewrite H1 in Hc. injection Hc as Hid _. lia.
Defined.

Lemma participants_destroy_correct_witness :
  runs (nimbleServerParticipantsDestroy (H := debug_build) example_pool 0) (fun self' =>
    pool_wf self' /\ Pool.participantCount self' = 0 /\ contents (Pool.freeList self') = [1; 0]).
Proof.
  pose proof (participants_destroy_correct (H := debug_build) example_pool 0 _ 1
    example_pool_wf example_pool_ok eq_refl eq_refl) as Hd.
  eapply runs_mono; [exact Hd|]. intros self' (Hwf & _ & Hc & Hn & _).
  split; [exact Hwf|]. split; [exact Hn|]. rewrite Hc. vm_compute. reflexivity.
Defined.
