(* ===== verification/LocalParty.v ===== *)
(** * Local parties (lib/local_party.c)

    A party is the group of participants that joined over one transport
    connection. The functions take the array of participants the references
    of the party point into. *)

From S2P Require Import Prelude.
From S2P Require Import ExternalLibs.
From S2P Require Import ExternalModels.
From S2P Require Import CircularBuffer.
From S2P Require Import ConnectionQuality.
From S2P Require Import Participants.

Inductive NimbleServerLocalPartyState :=
  | NimbleServerLocalPartyStateNormal
  | NimbleServerLocalPartyStateWaitingForReJoin
  | NimbleServerLocalPartyStateDissolved.
#[export] Instance party_state_eq_dec : EqDecision NimbleServerLocalPartyState.
Proof. solve_decision. Defined.

Module Party.
Record NimbleServerLocalParty `{Stats} := mk {
  id : Z;
  isUsed : bool;
  state : NimbleServerLocalPartyState;
  participantReferences : ParticipantReferences;
  incomingStepCountInBufferStats : StatsInt;
  transportConnection : option nat;
  waitingForReconnectTimer : Z;
  waitingForReconnectMaxTimer : Z;
  quality : ConnQuality;
  delayedQuality : DelayedQuality;
  warningCount : Z;
  warningAboutZeroAddedSteps : Z;
  highestReceivedStepId : Z;
  stepsInBufferCount : Z;
}.
Section Setters.
Context `{Stats}.
Definition set_id (v : Z) (p : NimbleServerLocalParty) : NimbleServerLocalParty :=
  mk _ v (isUsed p) (state p) (participantReferences p) (incomingStepCountInBufferStats p)
    (transportConnection p) (waitingForReconnectTimer p) (waitingForReconnectMaxTimer p)
    (quality p) (delayedQuality p) (warningCount p) (warningAboutZeroAddedSteps p)
    (highestReceivedStepId p) (stepsInBufferCount p).
Definition set_isUsed (v : bool) (p : NimbleServerLocalParty) : NimbleServerLocalParty :=
  mk _ (id p) v (state p) (participantReferences p) (incomingStepCountInBufferStats p)
    (transportConnection p) (waitingForReconnectTimer p) (waitingForReconnectMaxTimer p)
    (quality p) (delayedQuality p) (warningCount p) (warningAboutZeroAddedSteps p)
    (highestReceivedStepId p) (stepsInBufferCount p).
Definition set_state (v : NimbleServerLocalPartyState) (p : NimbleServerLocalParty) : NimbleServerLocalParty :=
  mk _ (id p) (isUsed p) v (participantReferences p) (incomingStepCountInBufferStats p)
    (transportConnection p) (waitingForReconnectTimer p) (waitingForReconnectMaxTimer p)
    (quality p) (delayedQuality p) (warningCount p) (warningAboutZeroAddedSteps p)
    (highestReceivedStepId p) (stepsInBufferCount p).
Definition set_participantReferences (v : ParticipantReferences) (p : NimbleServerLocalParty) : NimbleServerLocalParty :=
  mk _ (id p) (isUsed p) (state p) v (incomingStepCountInBufferStats p)
    (transportConnection p) (waitingForReconnectTimer p) (waitingForReconnectMaxTimer p)
    (quality p) (delayedQuality p) (warningCount p) (warningAboutZeroAddedSteps p)
    (highestReceivedStepId p) (stepsInBufferCount p).
Definition set_incomingStepCountInBufferStats (v : StatsInt) (p : NimbleServerLocalParty) : NimbleServerLocalParty :=
  mk _ (id p) (isUsed p) (state p) (participantReferences p) v (transportConnection p)
    (waitingForReconnectTimer p) (waitingForReconnectMaxTimer p) (quality p)
    (delayedQuality p) (warningCount p) (warningAboutZeroAddedSteps p)
    (highestReceivedStepId p) (stepsInBufferCount p).
Definition set_transportConnection (v : option nat) (p : NimbleServerLocalParty) : NimbleServerLocalParty :=
  mk _ (id p) (isUsed p) (state p) (participantReferences p)
    (incomingStepCountInBufferStats p) v (waitingForReconnectTimer p)
    (waitingForReconnectMaxTimer p) (quality p) (delayedQuality p) (warningCount p)
    (warningAboutZeroAddedSteps p) (highestReceivedStepId p) (stepsInBufferCount p).
Definition set_waitingForReconnectTimer (v : Z) (p : NimbleServerLocalParty) : NimbleServerLocalParty :=
  mk _ (id p) (isUsed p) (state p) (participantReferences p)
    (incomingStepCountInBufferStats p) (transportConnection p) v
    (waitingForReconnectMaxTimer p) (quality p) (delayedQuality p) (warningCount p)
    (warningAboutZeroAddedSteps p) (highestReceivedStepId p) (stepsInBufferCount p).
Definition set_waitingForReconnectMaxTimer (v : Z) (p : NimbleServerLocalParty) : NimbleServerLocalParty :=
  mk _ (id p) (isUsed p) (state p) (participantReferences p)
    (incomingStepCountInBufferStats p) (transportConnection p) (waitingForReconnectTimer p) v
    (quality p) (delayedQuality p) (warningCount p) (warningAboutZeroAddedSteps p)
    (highestReceivedStepId p) (stepsInBufferCount p).
Definition set_quality (v : ConnQuality) (p : NimbleServerLocalParty) : NimbleServerLocalParty :=
  mk _ (id p) (isUsed p) (state p) (participantReferences p)
    (incomingStepCountInBufferStats p) (transportConnection p) (waitingForReconnectTimer p)
    (waitingForReconnectMaxTimer p) v (delayedQuality p) (warningCount p)
    (warningAboutZeroAddedSteps p) (highestReceivedStepId p) (stepsInBufferCount p).
Definition set_delayedQuality (v : DelayedQuality) (p : NimbleServerLocalParty) : NimbleServerLocalParty :=
  mk _ (id p) (isUsed p) (state p) (participantReferences p)
    (incomingStepCountInBufferStats p) (transportConnection p) (waitingForReconnectTimer p)
    (waitingForReconnectMaxTimer p) (quality p) v (warningCount p)
    (warningAboutZeroAddedSteps p) (highestReceivedStepId p) (stepsInBufferCount p).
Definition set_warningCount (v : Z) (p : NimbleServerLocalParty) : NimbleServerLocalParty :=
  mk _ (id p) (isUsed p) (state p) (participantReferences p)
    (incomingStepCountInBufferStats p) (transportConnection p) (waitingForReconnectTimer p)
    (waitingForReconnectMaxTimer p) (quality p) (delayedQuality p) v
    (warningAboutZeroAddedSteps p) (highestReceivedStepId p) (stepsInBufferCount p).
Definition set_warningAboutZeroAddedSteps (v : Z) (p : NimbleServerLocalParty) : NimbleServerLocalParty :=
  mk _ (id p) (isUsed p) (state p) (participantReferences p)
    (incomingStepCountInBufferStats p) (transportConnection p) (waitingForReconnectTimer p)
    (waitingForReconnectMaxTimer p) (quality p) (delayedQuality p) (warningCount p) v
    (highestReceivedStepId p) (stepsInBufferCount p).
Definition set_highestReceivedStepId (v : Z) (p : NimbleServerLocalParty) : NimbleServerLocalParty :=
  mk _ (id p) (isUsed p) (state p) (participantReferences p)
    (incomingStepCountInBufferStats p) (transportConnection p) (waitingForReconnectTimer p)
    (waitingForReconnectMaxTimer p) (quality p) (delayedQuality p) (warningCount p)
    (warningAboutZeroAddedSteps p) v (stepsInBufferCount p).
Definition set_stepsInBufferCount (v : Z) (p : NimbleServerLocalParty) : NimbleServerLocalParty :=
  mk _ (id p) (isUsed p) (state p) (participantReferences p)
    (incomingStepCountInBufferStats p) (transportConnection p) (waitingForReconnectTimer p)
    (waitingForReconnectMaxTimer p) (quality p) (delayedQuality p) (warningCount p)
    (warningAboutZeroAddedSteps p) (highestReceivedStepId p) v.
End Setters.
End Party.
Abbreviation NimbleServerLocalParty := Party.NimbleServerLocalParty.

Definition set_participantReferenceCount (v : Z) (r : ParticipantReferences) :
    ParticipantReferences :=
  Refs.mk v (Refs.participantReferences r).

Section LocalParty.
Context `{Clog} `{Flood} `{NimbleSteps} `{!NimbleStepsSerialize} `{Stats}.
Implicit Types (self : NimbleServerLocalParty) (pool : list NimbleServerParticipant).

Definition nimbleServerLocalPartyReInit self (transportConnection : option nat) :
    NimbleServerLocalParty :=
  Party.mk _ (Party.id self) (Party.isUsed self) NimbleServerLocalPartyStateNormal
    (Party.participantReferences self) (statsIntInit 60) transportConnection
    0 (Party.waitingForReconnectMaxTimer self)
    (nimbleServerConnectionQualityReInit (Party.quality self))
    (nimbleServerConnectionQualityDelayedReset (Party.delayedQuality self))
    0 0 (Party.highestReceivedStepId self) (Party.stepsInBufferCount self).

Definition nimbleServerLocalPartyInit self (id : Z) : NimbleServerLocalParty :=
  let self := Party.set_id id self in
  let self := Party.set_participantReferences
    (set_participantReferenceCount 0 (Party.participantReferences self)) self in
  let self := Party.set_waitingForReconnectMaxTimer (62 * 20) self in
  let self := Party.set_isUsed false self in
  let self := Party.set_warningCount 0 self in
  let self := Party.set_quality (nimbleServerConnectionQualityInit (Party.quality self)) self in
  let self := Party.set_delayedQuality
    (nimbleServerConnectionQualityDelayedInit (Party.delayedQuality self)) self in
  nimbleServerLocalPartyReInit self None.

Definition nimbleServerLocalPartyReset self : NimbleServerLocalParty :=
  let self := Party.set_isUsed false self in
  let self := Party.set_participantReferences
    (set_participantReferenceCount 0 (Party.participantReferences self)) self in
  let self := Party.set_waitingForReconnectTimer 0 self in
  let self := Party.set_warningCount 0 self in
  let self := Party.set_warningAboutZeroAddedSteps 0 self in
  let self := Party.set_quality (nimbleServerConnectionQualityReset (Party.quality self)) self in
  Party.set_delayedQuality
    (nimbleServerConnectionQualityDelayedReset (Party.delayedQuality self)) self.

Definition nimbleServerLocalPartyRejoin self (transportConnection : option nat) :
    NimbleServerLocalParty :=
  nimbleServerLocalPartyReInit self transportConnection.

Definition nimbleServerLocalPartyDestroy self : NimbleServerLocalParty :=
  Party.set_state NimbleServerLocalPartyStateDissolved self.

(** The participants a party refers to, marked with a state. *)
Definition mark_references (state : NimbleServerParticipantState) (refs : ParticipantReferences)
    pool : outcome (list NimbleServerParticipant) :=
  for_each (Z.to_nat (Refs.participantReferenceCount refs)) 0 (fun i pool =>
    p ← load (Refs.participantReferences refs) i;
    participant ← load pool p;
    store pool p (Participant.set_state state participant)) pool.

Definition setToWaitingForReJoin pool self :
    outcome (list NimbleServerParticipant * NimbleServerLocalParty) :=
  let self := Party.set_state NimbleServerLocalPartyStateWaitingForReJoin self in
  let self := Party.set_waitingForReconnectTimer 0 self in
  pool ← mark_references NimbleServerParticipantStateWaitingForRejoin
           (Party.participantReferences self) pool;
  Ret (pool, self).

Definition tickWaitingForReconnect self : NimbleServerLocalParty * bool :=
  let self := Party.set_waitingForReconnectTimer
                (u64 (Party.waitingForReconnectTimer self + 1)) self in
  if Party.waitingForReconnectTimer self <? Party.waitingForReconnectMaxTimer self
  then (self, true) else (self, false).

Definition tickNormal pool self :
    outcome (list NimbleServerParticipant * NimbleServerLocalParty) :=
  let '(delayed, shouldKeep) :=
    nimbleServerConnectionQualityDelayedTick (Party.delayedQuality self) (Party.quality self) in
  let self := Party.set_delayedQuality delayed self in
  if negb shouldKeep
     && negb (bool_decide (Party.state self = NimbleServerLocalPartyStateWaitingForReJoin))
  then setToWaitingForReJoin pool self
  else Ret (pool, self).

Definition nimbleServerLocalPartyTick pool self :
    outcome (list NimbleServerParticipant * NimbleServerLocalParty * bool) :=
  match Party.state self with
  | NimbleServerLocalPartyStateNormal =>
      '(pool, self) ← tickNormal pool self;
      Ret (pool, self, true)
  | NimbleServerLocalPartyStateWaitingForReJoin =>
      let '(self, r) := tickWaitingForReconnect self in Ret (pool, self, r)
  | NimbleServerLocalPartyStateDissolved => Ret (pool, self, true)
  end.

Definition nimbleServerLocalPartyHasParticipantId pool self (participantId : Z) : outcome bool :=
  r ← for_loop (Z.to_nat (Refs.participantReferenceCount (Party.participantReferences self))) 0
    (fun i (_ : unit) =>
      p ← load (Refs.participantReferences (Party.participantReferences self)) i;
      participant ← load pool p;
      Ret (if Participant.id participant =? participantId then Return true else Continue tt)) tt;
  Ret (match r with Return b => b | Continue _ => false end).

(** The loop over the steps of one participant, inside
    [nimbleServerLocalPartyDeserializePredictedSteps]: [stepsThatFollow] steps
    from [firstStepId] on. The result is a negative code, or the number of steps
    added. *)
Definition deserialize_participant_steps pool (p : nat) (inStream : FldInStream)
    (firstStepId stepsThatFollow : Z) :
    outcome (flow (list NimbleServerParticipant * FldInStream * Z)
                  (list NimbleServerParticipant * FldInStream * Z)) :=
  for_loop (Z.to_nat stepsThatFollow) 0 (fun i '(pool, inStream, totalAddedStepsCount) =>
    let stepId := u32 (firstStepId + Z.of_nat i) in
    participant ← load pool p;
    let '(participant, inStream, addedStepsCount) :=
      nimbleServerParticipantDeserializeSingleStep participant stepId inStream in
    pool ← store pool p participant;
    if addedStepsCount <? 0 then Ret (Return (pool, inStream, addedStepsCount))
    else Ret (Continue (pool, inStream, u64 (totalAddedStepsCount + addedStepsCount))))
    (pool, inStream, 0).

(** The state of the party after the steps of [participant] were read. *)
Definition note_added_steps self (participant : NimbleServerParticipant)
    (totalAddedStepsCount : Z) : NimbleServerLocalParty :=
  let self :=
    if totalAddedStepsCount =? 0
    then Party.set_warningAboutZeroAddedSteps (u32 (Party.warningAboutZeroAddedSteps self + 1)) self
    else self in
  if 0 <? totalAddedStepsCount then
    let self := Party.set_quality
      (nimbleServerConnectionQualityAddedStepsToBuffer (Party.quality self) totalAddedStepsCount)
      self in
    let receivedUpToStepId := u32 (expectedWriteId (Participant.steps participant) - 1) in
    if Party.highestReceivedStepId self <? receivedUpToStepId then
      Party.set_stepsInBufferCount (stepsCount (Participant.steps participant))
        (Party.set_highestReceivedStepId receivedUpToStepId self)
    else self
  else self.

(** [nbsStepsDropped] is only called for a warning in the log: it is left out. *)
Definition nimbleServerLocalPartyDeserializePredictedSteps pool self (inStream : FldInStream) :
    outcome (list NimbleServerParticipant * NimbleServerLocalParty * FldInStream * Z) :=
  let '(inStream, read) := fldInStreamReadUInt8 inStream in
  participant_count ← initialized NumberOfDatagram (u8 <$> read);
  r ← for_loop (Z.to_nat participant_count) 0 (fun _ '(pool, self, inStream) =>
    let '(inStream, read) := fldInStreamReadUInt8 inStream in
    participant_index ← initialized NumberOfDatagram (u8 <$> read);
    if Refs.participantReferenceCount (Party.participantReferences self) <=? participant_index
    then Ret (Return (pool, self, inStream, -4))
    else
      p ← load (Refs.participantReferences (Party.participantReferences self))
            (Z.to_nat participant_index);
      let '(inStream, errorCode, (firstStepId, stepsThatFollow)) :=
        nbsStepsInSerializeHeader inStream in
      if errorCode <? 0 then Ret (Return (pool, self, inStream, errorCode))
      else
        r ← deserialize_participant_steps pool p inStream firstStepId stepsThatFollow;
        match r with
        | Return (pool, inStream, code) => Ret (Return (pool, self, inStream, code))
        | Continue (pool, inStream, totalAddedStepsCount) =>
            participant ← load pool p;
            Ret (Continue (pool, note_added_steps self participant totalAddedStepsCount, inStream))
        end) (pool, self, inStream);
  match r with
  | Return result => Ret result
  | Continue (pool, self, inStream) => Ret (pool, self, inStream, 0)
  end.

End LocalParty.

(** ** References *)

(** The pointers of a party: within the array of references, and into a pool
    of [n] participants. *)
Record refs_ok (n : nat) (refs : ParticipantReferences) : Prop := {
  refs_count : 0 <= Refs.participantReferenceCount refs
               <= Z.of_nat (length (Refs.participantReferences refs));
  refs_in_pool : forall i p, (i < Z.to_nat (Refs.participantReferenceCount refs))%nat ->
    Refs.participantReferences refs !! i = Some p -> (p < n)%nat;
}.

(** The participants referred to. *)
Definition referenced (refs : ParticipantReferences) : list nat :=
  take (Z.to_nat (Refs.participantReferenceCount refs)) (Refs.participantReferences refs).

Section References.
Context `{NimbleSteps}.

Definition marked (st : NimbleServerParticipantState) (ps : list nat)
    (pool : list NimbleServerParticipant) : list NimbleServerParticipant :=
  foldl (fun pool p => alter (Participant.set_state st) p pool) pool ps.

Lemma length_marked st ps pool : length (marked st ps pool) = length pool.
Proof.
  revert pool. induction ps as [|p ps IH]; intros pool; [done|]. simpl.
  by rewrite IH, length_alter.
Qed.

Lemma lookup_marked st ps : forall pool i,
  marked st ps pool !! i
  = if decide (i ∈ ps) then Participant.set_state st <$> pool !! i else pool !! i.
Proof.
  induction ps as [|p ps IH]; intros pool i; [done|]. simpl. rewrite IH.
  destruct (decide (p = i)) as [->|Hne].
  - rewrite list_lookup_alter_eq. rewrite (decide_True (P := i ∈ i :: ps)) by left.
    destruct (decide (i ∈ ps)); [|done]. by destruct (pool !! i).
  - rewrite list_lookup_alter_ne by done.
    destruct (decide (i ∈ ps)); destruct (decide (i ∈ p :: ps)) as [Hi|Hi]; try done.
    + destruct Hi. by right.
    + apply elem_of_cons in Hi as [->|]; done.
Qed.

Lemma marked_like `{!NimbleStepsLaws} n st ps pool : pool_like n pool (marked st ps pool).
Proof.
  apply Forall2_same_length_lookup_2; [by rewrite length_marked|].
  intros i p p' Hp. rewrite lookup_marked, Hp.
  destruct (decide _); simpl; intros [= <-]; [apply set_state_like|done].
Qed.

(** A loop over the references that collects something of every participant. *)
Lemma runs_collect {E A} (f : NimbleServerParticipant -> A) pool refs body :
  refs_ok (length pool) refs ->
  (forall i p participant l, (i < Z.to_nat (Refs.participantReferenceCount refs))%nat ->
     Refs.participantReferences refs !! i = Some p -> pool !! p = Some participant ->
     sat E (body i l) (fun l' => l' = l ++ [f participant])) ->
  sat E (for_each (Z.to_nat (Refs.participantReferenceCount refs)) 0 body [])
    (fun l => l = f <$> omap (pool !!.) (referenced refs)).
Proof.
  intros [Hc Hp] Hbody. unfold referenced.
  apply (runs_for_each (fun i l => l =
    f <$> omap (pool !!.) (take i (Refs.participantReferences refs)))).
  - by rewrite take_0.
  - intros j l Hj ->.
    destruct (lookup_lt_is_Some_2 (Refs.participantReferences refs) j) as [p Hr]; [lia|].
    destruct (lookup_lt_is_Some_2 pool p) as [q Hq]; [by eapply Hp; [|done]; lia|].
    eapply runs_mono; [by eapply Hbody; [lia|..]|]. intros l' ->.
    rewrite (take_S_r _ _ _ Hr), omap_app, fmap_app. simpl. by rewrite Hq.
Qed.

Lemma mark_references_marked {E} st refs pool (Q : list NimbleServerParticipant -> Prop) :
  refs_ok (length pool) refs ->
  Q (marked st (referenced refs) pool) -> sat E (mark_references st refs pool) Q.
Proof.
  intros [Hc Hp] HQ. unfold mark_references.
  eapply runs_mono; [apply (runs_for_each (fun i pool' =>
    pool' = marked st (take i (Refs.participantReferences refs)) pool))|].
  - by rewrite take_0.
  - intros j pool' Hj ->.
    destruct (lookup_lt_is_Some_2 (Refs.participantReferences refs) j) as [p Hr]; [lia|].
    run. set (pool' := marked st (take j (Refs.participantReferences refs)) pool).
    assert (Hlt : (p < length pool')%nat).
    { unfold pool'. rewrite length_marked. eapply Hp; [|done]. lia. }
    destruct (lookup_lt_is_Some_2 pool' p Hlt) as [q Hq]. run.
    rewrite (take_S_r _ _ _ Hr). unfold marked. rewrite foldl_app. simpl.
    symmetry. by apply alter_insert.
  - intros pool' ->. by unfold referenced in HQ.
Qed.
End References.

(** ** The ticks of a party *)
Section Ticks.
Context `{Clog} `{NimbleSteps} `{Stats}.
Implicit Types (self : NimbleServerLocalParty) (pool : list NimbleServerParticipant).

(** A party whose references point into a pool of [n] participants. *)
Record party_ok (n : nat) self : Prop := {
  party_refs : refs_ok n (Party.participantReferences self);
  party_timer : 0 <= Party.waitingForReconnectTimer self < 18446744073709551616;
  party_max_timer : 0 <= Party.waitingForReconnectMaxTimer self < 18446744073709551616;
  party_delayed : 0 <= Delayed.impedingDisconnectCounter (Party.delayedQuality self)
                  < 18446744073709551616;
}.

(** The party that waits for its client to come back. *)
Definition waiting self (delayed : DelayedQuality) : NimbleServerLocalParty :=
  Party.set_waitingForReconnectTimer 0
    (Party.set_state NimbleServerLocalPartyStateWaitingForReJoin
       (Party.set_delayedQuality delayed self)).

Lemma runs_tick {E} pool self
    (Q : list NimbleServerParticipant * NimbleServerLocalParty * bool -> Prop) :
  refs_ok (length pool) (Party.participantReferences self) ->
  match Party.state self with
  | NimbleServerLocalPartyStateNormal =>
      let '(delayed, shouldKeep) :=
        nimbleServerConnectionQualityDelayedTick (Party.delayedQuality self)
          (Party.quality self) in
      if shouldKeep then Q (pool, Party.set_delayedQuality delayed self, true)
      else Q (marked NimbleServerParticipantStateWaitingForRejoin
                (referenced (Party.participantReferences self)) pool,
              waiting self delayed, true)
  | NimbleServerLocalPartyStateWaitingForReJoin =>
      let timer := u64 (Party.waitingForReconnectTimer self + 1) in
      Q (pool, Party.set_waitingForReconnectTimer timer self,
         timer <? Party.waitingForReconnectMaxTimer self)
  | NimbleServerLocalPartyStateDissolved => Q (pool, self, true)
  end ->
  sat E (nimbleServerLocalPartyTick pool self) Q.
Proof.
  intros Hrefs HQ. unfold nimbleServerLocalPartyTick, tickNormal, tickWaitingForReconnect.
  destruct (Party.state self) eqn:Hstate.
  - destruct (nimbleServerConnectionQualityDelayedTick _ _) as [delayed [|]]; simpl; [by run|].
    rewrite bool_decide_false by (simpl; congruence). simpl.
    unfold setToWaitingForReJoin. apply runs_bind, runs_bind.
    apply mark_references_marked; [done|]. by run.
  - revert HQ. simpl. by destruct (u64 _ <? _).
  - done.
Qed.

Lemma delayed_tick_range d q : 0 <= Delayed.impedingDisconnectCounter d < 18446744073709551616 ->
  0 <= Delayed.impedingDisconnectCounter (nimbleServerConnectionQualityDelayedTick d q).1
    < 18446744073709551616.
Proof.
  intros Hd. unfold nimbleServerConnectionQualityDelayedTick.
  pose proof (u64_range (Delayed.impedingDisconnectCounter d + 1)).
  repeat match goal with
  | |- context [if ?a <? ?b then _ else _] => destruct (Z.ltb_spec a b)
  | |- context [if ?b then _ else _] => destruct b
  end; simpl in *; lia.
Qed.

(** [n] ticks, and the verdict of each. *)
Fixpoint party_ticks (n : nat) pool self :
    outcome (list NimbleServerParticipant * NimbleServerLocalParty * list bool) :=
  match n with
  | O => Ret (pool, self, [])
  | S n' =>
      '(pool, self, keep) ← nimbleServerLocalPartyTick pool self;
      '(pool, self, keeps) ← party_ticks n' pool self;
      Ret (pool, self, keep :: keeps)
  end.

Lemma runs_ticks_app {E} a b (Q : _ -> Prop) : forall pool self,
  sat E (party_ticks a pool self) (fun '(pool1, self1, keeps1) =>
    sat E (party_ticks b pool1 self1) (fun '(pool2, self2, keeps2) =>
      Q (pool2, self2, keeps1 ++ keeps2))) ->
  sat E (party_ticks (a + b) pool self) Q.
Proof.
  revert Q. induction a as [|a IH]; intros Q pool self Hr; simpl in *.
  - eapply runs_mono; [exact Hr|]. by intros [[? ?] ?].
  - apply runs_bind.
    destruct (nimbleServerLocalPartyTick pool self) as [[[pool1 self1] keep]|h]; [|done].
    simpl in *. apply runs_bind. apply IH.
    destruct (party_ticks a pool1 self1) as [[[pool2 self2] keeps]|h]; [|done]. simpl in *.
    eapply runs_mono; [exact Hr|]. by intros [[? ?] ?].
Qed.

Lemma runs_ticks_failing {E} n (Q : _ -> Prop) : forall pool self c,
  refs_ok (length pool) (Party.participantReferences self) ->
  Party.state self = NimbleServerLocalPartyStateNormal ->
  isFailingToProvideStepsInTime (Party.quality self) = true ->
  Party.delayedQuality self = Delayed.mk c -> 0 <= c -> c + Z.of_nat n <= 180 ->
  Q (pool, Party.set_delayedQuality (Delayed.mk (c + Z.of_nat n)) self, replicate n true) ->
  sat E (party_ticks n pool self) Q.
Proof.
  revert Q. induction n as [|n IH]; intros Q pool self c Hr Hs Hq Hd Hc Hn HQ; cbn [party_ticks].
  - run. rewrite Z.add_0_r, <- Hd in HQ. by destruct self.
  - apply runs_bind, runs_tick; [done|]. rewrite Hs, Hd, delayed_tick_bad by (done || simpl; lia).
    simpl. rewrite bool_decide_true by lia. apply runs_bind.
    eapply (IH _ pool _ (c + 1)); try done; try lia. run.
    replace (c + 1 + Z.of_nat n) with (c + Z.of_nat (S n)) by lia. exact HQ.
Qed.

Lemma runs_ticks_waiting {E} n (Q : _ -> Prop) : forall pool self t,
  refs_ok (length pool) (Party.participantReferences self) ->
  Party.state self = NimbleServerLocalPartyStateWaitingForReJoin ->
  Party.waitingForReconnectTimer self = t -> 0 <= t ->
  Party.waitingForReconnectMaxTimer self < 18446744073709551616 ->
  t + Z.of_nat n < Party.waitingForReconnectMaxTimer self ->
  Q (pool, Party.set_waitingForReconnectTimer (t + Z.of_nat n) self, replicate n true) ->
  sat E (party_ticks n pool self) Q.
Proof.
  revert Q. induction n as [|n IH]; intros Q pool self t Hr Hs Ht H0t Hmax Hn HQ; cbn [party_ticks].
  - run. rewrite Z.add_0_r, <- Ht in HQ. by destruct self.
  - apply runs_bind, runs_tick; [done|]. rewrite Hs, Ht. simpl.
    rewrite u64_small by lia. rewrite (proj2 (Z.ltb_lt _ _)) by lia. apply runs_bind.
    eapply (IH _ pool _ (t + 1)); try done; try lia; simpl; try lia. run.
    replace (t + 1 + Z.of_nat n) with (t + Z.of_nat (S n)) by lia. exact HQ.
Qed.
End Ticks.

(** ** Reading predicted steps *)
Section Deserialize.
Context `{Clog} `{Flood} `{NimbleSteps} `{!NimbleStepsSerialize} `{Stats}.
Context `{!NimbleStepsLaws} `{!NimbleStepsSerializeLaws}.
Implicit Types (self : NimbleServerLocalParty) (pool : list NimbleServerParticipant).

(** Only the step buffers of the participants [ps] differ. *)
Definition only_steps (ps : list nat) pool pool' : Prop :=
  length pool' = length pool /\
  forall i p, pool !! i = Some p ->
    exists s, pool' !! i = Some (Participant.set_steps s p) /\
              (i ∉ ps -> s = Participant.steps p).

#[export] Instance only_steps_preorder ps : PreOrder (only_steps ps).
Proof.
  split.
  - intros pool. split; [done|]. intros i p Hp. exists (Participant.steps p).
    split; [by destruct p|done].
  - intros pool1 pool2 pool3 [Hl1 H12] [Hl2 H23]. split; [congruence|].
    intros i p Hp. destruct (H12 i p Hp) as (s & Hs & Hn).
    destruct (H23 _ _ Hs) as (s' & Hs' & Hn'). exists s'. split; [done|].
    intros Hi. rewrite Hn' by done. by apply Hn.
Qed.

Lemma only_steps_insert ps pool i p s :
  pool !! i = Some p -> i ∈ ps -> only_steps ps pool (<[i := Participant.set_steps s p]> pool).
Proof.
  intros Hi Hps. split; [by rewrite length_insert|]. intros j q Hq.
  destruct (decide (i = j)) as [<-|Hne].
  - rewrite list_lookup_insert_eq by (by eapply lookup_lt_Some). simplify_eq. by exists s.
  - rewrite list_lookup_insert_ne by done. exists (Participant.steps q).
    split; [by destruct q|done].
Qed.

(** What reading steps leaves alone in the party. *)
Record party_kept self self' : Prop := {
  kept_id : Party.id self' = Party.id self;
  kept_used : Party.isUsed self' = Party.isUsed self;
  kept_state : Party.state self' = Party.state self;
  kept_refs : Party.participantReferences self' = Party.participantReferences self;
  kept_transport : Party.transportConnection self' = Party.transportConnection self;
  kept_timer : Party.waitingForReconnectTimer self' = Party.waitingForReconnectTimer self;
  kept_max_timer :
    Party.waitingForReconnectMaxTimer self' = Party.waitingForReconnectMaxTimer self;
  kept_delayed : Party.delayedQuality self' = Party.delayedQuality self;
  kept_verdict : isFailingToProvideStepsInTime (Party.quality self')
                 = isFailingToProvideStepsInTime (Party.quality self);
  kept_highest : Party.highestReceivedStepId self <= Party.highestReceivedStepId self';
}.

#[export] Instance party_kept_preorder : PreOrder party_kept.
Proof.
  split; [by split|]. intros p q r [] []. split; congruence || lia.
Qed.

Lemma note_added_steps_kept self p n : party_kept self (note_added_steps self p n).
Proof.
  unfold note_added_steps.
  destruct (n =? 0); destruct (0 <? n); try by split.
  all: match goal with |- context [?a <? ?b] => destruct (Z.ltb_spec a b) end;
    split; simpl in *; try done; lia.
Qed.

(** The relation between the state before and after reading steps. *)
Definition steps_read_frame (n : nat) self pool self' pool' : Prop :=
  party_kept self self' /\ pool_like n pool pool' /\
  only_steps (referenced (Party.participantReferences self)) pool pool'.

Lemma runs_deserialize_participant {E} n ps pool p inStream firstStepId count
    (Hp : p ∈ ps) (Hok : Forall (participant_ok n) pool) (Hlt : (p < length pool)%nat) :
  sat E (deserialize_participant_steps pool p inStream firstStepId count)
    (flow_post (fun '(pool', _, _) => pool_like n pool pool' /\ only_steps ps pool pool')
       (fun '(pool', _, code) =>
          pool_like n pool pool' /\ only_steps ps pool pool' /\ code < 0)).
Proof.
  apply (runs_for (fun _ '(pool', _, _) => pool_like n pool pool' /\ only_steps ps pool pool')).
  { done. }
  intros j [[pool' s] total] _ [Hlike Honly].
  assert (Hok' : Forall (participant_ok n) pool') by (by eapply pool_like_ok).
  destruct (lookup_lt_is_Some_2 pool' p) as [q Hq].
  { by rewrite (pool_like_length _ _ _ Hlike). }
  cbn beta iota. apply runs_bind, (runs_load _ _ _ _ Hq).
  unfold nimbleServerParticipantDeserializeSingleStep.
  pose proof (Forall_lookup_1 _ _ _ _ Hok' Hq) as [Hwf Hmax Hparty].
  pose proof (predicted_step s (u32 (firstStepId + Z.of_nat j)) _ Hwf) as Hstep.
  destruct (nbsStepsInSerializeSinglePredictedStep _ _ _) as [[s' steps'] code].
  destruct Hstep as [Hwf' Hmax']. run.
  assert (Hlike' : pool_like n pool (<[p := Participant.set_steps steps' q]> pool')).
  { etrans; [done|]. eapply pool_like_insert; [done|]. apply set_steps_like.
    intros _. by rewrite Hmax'. }
  assert (Honly' : only_steps ps pool (<[p := Participant.set_steps steps' q]> pool')).
  { etrans; [done|]. by apply only_steps_insert. }
  destruct (Z.ltb_spec code 0); simpl; auto.
Qed.

Lemma runs_deserialize n pool self inStream :
  refs_ok (length pool) (Party.participantReferences self) ->
  Forall (participant_ok n) pool ->
  sat (eq (UninitializedRead NumberOfDatagram))
    (nimbleServerLocalPartyDeserializePredictedSteps pool self inStream)
    (fun '(pool', self', _, code) => steps_read_frame n self pool self' pool' /\ code <= 0).
Proof.
  intros Hrefs Hok. unfold nimbleServerLocalPartyDeserializePredictedSteps.
  destruct (fldInStreamReadUInt8 inStream) as [s0 read0].
  apply runs_bind, runs_read_or_halt; [done|]. intros count _.
  eapply runs_bind_mono; [apply (runs_for
    (fun _ '(pool', self', _) => steps_read_frame n self pool self' pool')
    (fun '(pool', self', _, code) => steps_read_frame n self pool self' pool' /\ code <= 0))|].
  - done.
  - intros j [[pool' self'] s] _ (Hkept & Hlike & Honly).
    destruct (fldInStreamReadUInt8 s) as [s1 read1].
    apply runs_bind, runs_read_or_halt; [done|]. intros index Hindex.
    assert (Hrange : 0 <= index < 256).
    { destruct read1; simplify_eq/=. apply u8_range. }
    rewrite (kept_refs _ _ Hkept).
    destruct (Z.leb_spec (Refs.participantReferenceCount (Party.participantReferences self)) index).
    { run. split; [done|lia]. }
    destruct Hrefs as [Hcount Hin].
    destruct (lookup_lt_is_Some_2 (Refs.participantReferences (Party.participantReferences self))
                (Z.to_nat index)) as [p Hp]; [lia|].
    assert (Hpool : (p < length pool')%nat).
    { rewrite (pool_like_length _ _ _ Hlike). eapply Hin; [|done]. lia. }
    run. destruct (nbsStepsInSerializeHeader s1) as [[s2 code] [firstId follow]].
    destruct (Z.ltb_spec code 0); [run; split; [done|lia]|].
    eapply runs_bind_mono.
    { eapply (runs_deserialize_participant n (referenced (Party.participantReferences self)));
        [|by eapply pool_like_ok|done].
      unfold referenced. apply list_elem_of_lookup. exists (Z.to_nat index).
      rewrite lookup_take_lt by lia. exact Hp. }
    intros [[[pool'' s3] total]|[[pool'' s3] code']]; simpl.
    + intros [Hlike' Honly']. apply runs_bind.
      destruct (lookup_lt_is_Some_2 pool'' p) as [q Hq].
      { by rewrite (pool_like_length _ _ _ Hlike'). }
      run. split; [|split]; [etrans; [done|apply note_added_steps_kept]|by etrans..].
    + intros (Hlike' & Honly' & Hcode). split; [|lia]. split; [done|]. split; by etrans.
  - intros [[[pool' self'] s']|[[[pool' self'] s'] code]]; simpl; [|done]. intros Hf.
    split; [done|lia].
Qed.
End Deserialize.

(** ** The stream only moves on *)
Section DeserializeForward.
Context `{Clog} `{Flood} `{NimbleSteps} `{!NimbleStepsSerialize} `{Stats}.
Context `{!NimbleStepsLaws} `{!NimbleStepsSerializeLaws} `{!FldInLaws}.

Lemma deserialize_participant_forward pool p inStream firstStepId count :
  returns (deserialize_participant_steps pool p inStream firstStepId count)
    (flow_post (fun '(_, s, _) => forward inStream s) (fun '(_, s, _) => forward inStream s)).
Proof.
  apply (runs_for (fun _ '(_, s, _) => forward inStream s)); [done|].
  intros j [[pool' s] total] _ Hs. apply returns_bind. intros q.
  unfold nimbleServerParticipantDeserializeSingleStep.
  pose proof (predicted_forward s (u32 (firstStepId + Z.of_nat j)) (Participant.steps q)) as Hf.
  destruct (nbsStepsInSerializeSinglePredictedStep _ _ _) as [[s' steps] code]. simpl in Hf.
  apply returns_bind. intros pool''. destruct (code <? 0); simpl; by etrans.
Qed.

Lemma deserialize_forward pool self inStream :
  returns (nimbleServerLocalPartyDeserializePredictedSteps pool self inStream)
    (fun '(_, _, s, _) => forward inStream s).
Proof.
  unfold nimbleServerLocalPartyDeserializePredictedSteps.
  pose proof (in_read_u8_forward inStream) as H0f.
  destruct (fldInStreamReadUInt8 inStream) as [s0 read0]. simpl in H0f.
  apply returns_bind. intros count. eapply runs_bind_mono.
  { apply (runs_for (fun _ '(_, _, s) => forward inStream s) (fun '(_, _, s, _) => forward inStream s));
      [done|].
    intros j [[pool' self'] s] _ Hs. pose proof (in_read_u8_forward s) as H1f.
    destruct (fldInStreamReadUInt8 s) as [s1 read1]. simpl in H1f.
    assert (Hs1 : forward inStream s1) by (by etrans).
    apply returns_bind. intros index.
    destruct (_ <=? index); [exact Hs1|]. apply returns_bind. intros p.
    pose proof (header_forward s1) as H2f.
    destruct (nbsStepsInSerializeHeader s1) as [[s2 code] [firstId follow]]. simpl in H2f.
    assert (Hs2 : forward inStream s2) by (by etrans).
    destruct (code <? 0); [exact Hs2|].
    eapply runs_bind_mono; [apply deserialize_participant_forward|].
    intros [[[pool'' s3] total]|[[pool'' s3] code']]; simpl; intros Hs3.
    - apply returns_bind. intros q. simpl. by etrans.
    - by etrans. }
  intros [[[pool' self'] s']|[[[pool' self'] s'] code]]; done.
Qed.
End DeserializeForward.

Lemma replicate_verdicts a n : (1 <= n)%nat ->
  replicate a true ++ true :: replicate (n - 1) true ++ [false]
  = replicate (a + n) true ++ [false].
Proof.
  intros Hn. rewrite replicate_add, <- app_assoc. f_equal. by destruct n as [|[|n]]; [lia|..].
Qed.

(** ** Properties *)
Section PartyProperties.
Context `{Clog} `{Flood} `{NimbleSteps} `{!NimbleStepsSerialize} `{Stats}.
Context `{!NimbleStepsLaws} `{!NimbleStepsSerializeLaws}.
Implicit Types (self : NimbleServerLocalParty) (pool : list NimbleServerParticipant).

(** One tick of a party. A normal party follows the delayed verdict on its
    connection: it stays normal and touches no participant, or it starts to
    wait, with its timer at zero and exactly its own participants marked as
    waiting; it is kept in both cases. A waiting party counts up and is given
    up when the count reaches the maximum. A dissolved party is kept as it is.
    The references stay valid and the program does not stop. *)
Theorem party_tick_correct pool self :
  party_ok (length pool) self ->
  runs (nimbleServerLocalPartyTick pool self) (fun '(pool', self', keep) =>
    party_ok (length pool') self' /\
    match Party.state self with
    | NimbleServerLocalPartyStateNormal =>
        keep = true /\
        let '(delayed, healthy) :=
          nimbleServerConnectionQualityDelayedTick (Party.delayedQuality self)
            (Party.quality self) in
        if healthy then pool' = pool /\ self' = Party.set_delayedQuality delayed self
        else self' = waiting self delayed /\
             forall i, pool' !! i =
               if decide (i ∈ referenced (Party.participantReferences self))
               then Participant.set_state NimbleServerParticipantStateWaitingForRejoin <$> pool !! i
               else pool !! i
    | NimbleServerLocalPartyStateWaitingForReJoin =>
        let timer := u64 (Party.waitingForReconnectTimer self + 1) in
        pool' = pool /\ self' = Party.set_waitingForReconnectTimer timer self /\
        keep = (timer <? Party.waitingForReconnectMaxTimer self)
    | NimbleServerLocalPartyStateDissolved => pool' = pool /\ self' = self /\ keep = true
    end).
Proof.
  intros Hok. apply runs_tick; [apply Hok|].
  pose proof (delayed_tick_range _ (Party.quality self) (party_delayed _ _ Hok)) as Hd.
  destruct Hok as [Hr Ht Hm Hc]. destruct (Party.state self).
  - destruct (nimbleServerConnectionQualityDelayedTick _ _) as [delayed [|]]; simpl in *.
    + by split.
    + rewrite length_marked. split; [split; simpl; try done; lia|]. split; [done|].
      split; [done|]. apply lookup_marked.
  - split; [|done]. split; simpl; try done. apply u64_range.
  - by split.
Qed.

(** A party whose client stops providing steps is not kept for ever, nor
    given up at once: from a normal party with a clear record, on a failing
    connection with maximum [N], exactly the tick [181 + N] is the first that
    recommends to dissolve it; its participants are marked as waiting. *)
Theorem party_given_up_eventually pool self (N : nat) :
  refs_ok (length pool) (Party.participantReferences self) ->
  Party.state self = NimbleServerLocalPartyStateNormal ->
  isFailingToProvideStepsInTime (Party.quality self) = true ->
  Party.delayedQuality self = Delayed.mk 0 ->
  (1 <= N)%nat -> Party.waitingForReconnectMaxTimer self = Z.of_nat N ->
  Z.of_nat N < 18446744073709551616 ->
  runs (party_ticks (181 + N) pool self) (fun '(pool', self', keeps) =>
    keeps = replicate (180 + N) true ++ [false] /\
    Party.state self' = NimbleServerLocalPartyStateWaitingForReJoin /\
    pool' = marked NimbleServerParticipantStateWaitingForRejoin
              (referenced (Party.participantReferences self)) pool).
Proof.
  intros Hr Hs Hq Hd HN Hmax Hlt.
  replace (181 + N)%nat with (180 + (1 + ((N - 1) + 1)))%nat by lia.
  apply runs_ticks_app, (runs_ticks_failing _ _ _ _ 0); try done; try lia.
  apply runs_ticks_app. cbn [party_ticks].
  apply runs_bind, runs_tick; [done|]. simpl. rewrite Hs.
  rewrite delayed_tick_bad by (done || simpl; lia). simpl. run.
  apply runs_ticks_app, (runs_ticks_waiting _ _ _ _ 0);
    try (simpl; by rewrite ?length_marked); try (simpl; lia).
  cbn [party_ticks]. apply runs_bind, runs_tick; [by rewrite length_marked|]. simpl.
  rewrite u64_small by lia. rewrite (proj2 (Z.ltb_ge _ _)) by lia. run.
  split; [by apply (replicate_verdicts 180)|done].
Qed.

(** C28. Reading the predicted steps of a client, whatever octets it sends:
    the program does not stop, except on the use of a count that a truncated
    datagram does not hold; the references, state, connection and timers of the
    party stay, the highest received step id does not go down, and only the
    step buffers of the participants of this very party change, each staying
    consistent. *)
Theorem deserialize_predicted_steps_safe n pool self inStream :
  refs_ok (length pool) (Party.participantReferences self) ->
  Forall (participant_ok n) pool ->
  sat (eq (UninitializedRead NumberOfDatagram))
    (nimbleServerLocalPartyDeserializePredictedSteps pool self inStream)
    (fun '(pool', self', _, code) =>
      code <= 0 /\ party_kept self self' /\ Forall (participant_ok n) pool' /\
      only_steps (referenced (Party.participantReferences self)) pool pool').
Proof.
  intros Hr Hok. eapply runs_mono; [by apply runs_deserialize|].
  intros [[[pool' self'] s] code] [(Hkept & Hlike & Honly) Hcode].
  do 2 (split; [done|]). split; [by eapply pool_like_ok|done].
Qed.
End PartyProperties.

(** ** Witnesses *)
Import Models.

(** A party with one participant, at position 0 of [example_pool]; its client
    has provided nothing for 300 ticks. *)
Definition zero_party : NimbleServerLocalParty :=
  Party.mk _ 0 false NimbleServerLocalPartyStateNormal (Refs.mk 0 (replicate 16 0%nat))
    (statsIntInit 0) None 0 0 (Quality.mk 0 0 0 false) (Delayed.mk 0) 0 0 0 0.

Definition example_party : NimbleServerLocalParty :=
  Party.set_isUsed true
    (Party.set_quality (Quality.mk 300 0 0 false)
       (Party.set_participantReferences (Refs.mk 1 (replicate 16 0%nat))
          (nimbleServerLocalPartyInit zero_party 0))).

Lemma example_refs_ok : refs_ok 2 (Party.participantReferences example_party).
Proof.
  split; simpl; [lia|]. intros [|i] p Hi Hp; [simpl in Hp; injection Hp as <-; lia|].
  simpl in Hi. lia.
Qed.

Lemma example_party_ok : party_ok 2 example_party.
Proof. split; [apply example_refs_ok|simpl; lia..]. Qed.

Lemma party_tick_correct_witness :
  runs (nimbleServerLocalPartyTick (Pool.participants example_pool)
          example_party) (fun '(pool', self', keep) =>
    party_ok 2 self' /\ keep = true /\ pool' = Pool.participants example_pool).
Proof.
  eapply runs_mono; [apply (party_tick_correct); exact example_party_ok|].
  intros [[pool' self'] keep]. intros (Hok & -> & -> & Hs). auto.
Defined.

Lemma party_given_up_eventually_witness :
  runs (party_ticks (181 + 1240) (Pool.participants example_pool)
          example_party) (fun '(_, self', keeps) =>
    keeps !! 1420%nat = Some false /\ Party.state self' = NimbleServerLocalPartyStateWaitingForReJoin).
Proof.
  eapply runs_mono; [apply (party_given_up_eventually)|].
  - exact example_refs_ok.
  - reflexivity.
  - reflexivity.
  - reflexivity.
  - lia.
  - reflexivity.
  - lia.
  - intros [[pool' self'] keeps] (-> & Hs & _). split; [|exact Hs].
    by apply (list_lookup_middle (replicate 1420 true)).
Defined.

(** One participant, index 0, two steps from id 0 on: 7 and 8 9. *)
Definition example_predicted : FldInStream := fldInStreamInit [1; 0; 0; 2; 1; 7; 2; 8; 9].

Lemma deserialize_predicted_steps_safe_witness :
  sat (eq (UninitializedRead NumberOfDatagram))
    (nimbleServerLocalPartyDeserializePredictedSteps (Pool.participants example_pool)
       example_party example_predicted)
    (fun '(pool', self', _, code) =>
      party_kept example_party self' /\ Forall (participant_ok 1) pool') /\
  match nimbleServerLocalPartyDeserializePredictedSteps (Pool.participants example_pool)
          example_party example_predicted with
  | Ret (_, self', _, code) => (code, Party.highestReceivedStepId self') = (0, 1)
  | Halt _ => False
  end.
Proof.
  split; [|vm_compute; reflexivity].
  eapply runs_mono; [apply (deserialize_predicted_steps_safe 1)|].
  - exact example_refs_ok.
  - exact example_pool_ok.
  - intros [[[pool' self'] s] code] (_ & Hkept & Hok & _). split; [exact Hkept|exact Hok].
Defined.
