(* ===== verification/ParticipantConnection.v ===== *)
(** * Participant connections and forced steps (lib/participant_connection.c,
    lib/forced_step.c)

    The forerunner of the local party: a connection whose participants share one
    buffer of combined steps. When its client leaves out steps, the gap is
    filled with forced steps, which say for every participant why it has none.
    The two files are still in the repository, but the library is built without
    them, and the header that declares the struct is gone: its fields are the
    ones the two files use, and the width of the counter of warnings is a
    parameter. The id of the connection and its log are only used in messages. *)

From S2P Require Import Prelude.
From S2P Require Import ExternalLibs.
From S2P Require Import ExternalModels.
From S2P Require Import StepLog.
From S2P Require Import CircularBuffer.
From S2P Require Import ConnectionQuality.
From S2P Require Import Participants.
From S2P Require Import LocalParty.

Inductive NimbleServerParticipantConnectionState :=
  | NimbleServerParticipantConnectionStateNormal
  | NimbleServerParticipantConnectionStateWaitingForReconnect
  | NimbleServerParticipantConnectionStateDisconnected.
#[export] Instance connection_state_eq_dec : EqDecision NimbleServerParticipantConnectionState.
Proof. solve_decision. Defined.

(** The counters of warnings are unsigned integers; the header that declares
    their width is not in the repository. *)
Class WarningCounter := { warningBits : Z }.
Definition nextWarning `{WarningCounter} (v : Z) : Z := (v + 1) mod 2 ^ warningBits.

(** The width is one of C's unsigned integers, at least eight bits. *)
Class WarningCounterLaws `{WarningCounter} := { warning_bits : 8 <= warningBits }.

Definition warning_typed `{WarningCounter} (v : Z) : Prop := 0 <= v < 2 ^ warningBits.

Lemma next_warning_typed `{WarningCounterLaws} v : warning_typed (nextWarning v).
Proof. apply Z.mod_pos_bound, Z.pow_pos_nonneg; [lia|]. pose proof warning_bits. lia. Qed.

Lemma zero_warning_typed `{WarningCounterLaws} : warning_typed 0.
Proof. split; [done|]. apply Z.pow_pos_nonneg; [lia|]. pose proof warning_bits. lia. Qed.

#[export] Hint Extern 0 (warning_typed _) =>
  first [apply zero_warning_typed | apply next_warning_typed] : core.

Module PConn.
Record NimbleServerParticipantConnection `{NimbleSteps} `{Stats} := mk {
  isUsed : bool;
  state : NimbleServerParticipantConnectionState;
  participantReferences : ParticipantReferences;
  steps : NbsSteps;
  incomingStepCountInBufferStats : StatsInt;
  transportConnection : option nat;
  waitingForReconnectTimer : Z;
  waitingForReconnectMaxTimer : Z;
  quality : ConnQuality;
  delayedQuality : DelayedQuality;
  warningCount : Z;
  warningAboutZeroAddedSteps : Z;
}.
Section Setters.
Context `{NimbleSteps} `{Stats}.
Implicit Types (c : NimbleServerParticipantConnection).
Definition set_isUsed v c :=
  mk _ _ v (state c) (participantReferences c) (steps c) (incomingStepCountInBufferStats c)
    (transportConnection c) (waitingForReconnectTimer c) (waitingForReconnectMaxTimer c)
    (quality c) (delayedQuality c) (warningCount c) (warningAboutZeroAddedSteps c).
Definition set_state v c :=
  mk _ _ (isUsed c) v (participantReferences c) (steps c) (incomingStepCountInBufferStats c)
    (transportConnection c) (waitingForReconnectTimer c) (waitingForReconnectMaxTimer c)
    (quality c) (delayedQuality c) (warningCount c) (warningAboutZeroAddedSteps c).
Definition set_participantReferences v c :=
  mk _ _ (isUsed c) (state c) v (steps c) (incomingStepCountInBufferStats c)
    (transportConnection c) (waitingForReconnectTimer c) (waitingForReconnectMaxTimer c)
    (quality c) (delayedQuality c) (warningCount c) (warningAboutZeroAddedSteps c).
Definition set_steps v c :=
  mk _ _ (isUsed c) (state c) (participantReferences c) v (incomingStepCountInBufferStats c)
    (transportConnection c) (waitingForReconnectTimer c) (waitingForReconnectMaxTimer c)
    (quality c) (delayedQuality c) (warningCount c) (warningAboutZeroAddedSteps c).
Definition set_waitingForReconnectTimer v c :=
  mk _ _ (isUsed c) (state c) (participantReferences c) (steps c)
    (incomingStepCountInBufferStats c) (transportConnection c) v (waitingForReconnectMaxTimer c)
    (quality c) (delayedQuality c) (warningCount c) (warningAboutZeroAddedSteps c).
Definition set_waitingForReconnectMaxTimer v c :=
  mk _ _ (isUsed c) (state c) (participantReferences c) (steps c)
    (incomingStepCountInBufferStats c) (transportConnection c) (waitingForReconnectTimer c) v
    (quality c) (delayedQuality c) (warningCount c) (warningAboutZeroAddedSteps c).
Definition set_quality v c :=
  mk _ _ (isUsed c) (state c) (participantReferences c) (steps c)
    (incomingStepCountInBufferStats c) (transportConnection c) (waitingForReconnectTimer c)
    (waitingForReconnectMaxTimer c) v (delayedQuality c) (warningCount c)
    (warningAboutZeroAddedSteps c).
Definition set_delayedQuality v c :=
  mk _ _ (isUsed c) (state c) (participantReferences c) (steps c)
    (incomingStepCountInBufferStats c) (transportConnection c) (waitingForReconnectTimer c)
    (waitingForReconnectMaxTimer c) (quality c) v (warningCount c)
    (warningAboutZeroAddedSteps c).
Definition set_warningCount v c :=
  mk _ _ (isUsed c) (state c) (participantReferences c) (steps c)
    (incomingStepCountInBufferStats c) (transportConnection c) (waitingForReconnectTimer c)
    (waitingForReconnectMaxTimer c) (quality c) (delayedQuality c) v
    (warningAboutZeroAddedSteps c).
Definition set_warningAboutZeroAddedSteps v c :=
  mk _ _ (isUsed c) (state c) (participantReferences c) (steps c)
    (incomingStepCountInBufferStats c) (transportConnection c) (waitingForReconnectTimer c)
    (waitingForReconnectMaxTimer c) (quality c) (delayedQuality c) (warningCount c) v.
End Setters.
End PConn.
Abbreviation NimbleServerParticipantConnection := PConn.NimbleServerParticipantConnection.

Section ParticipantConnection.
Context `{Clog} `{Flood} `{NimbleSteps} `{!NimbleStepsSerialize} `{!LocalParticipantsSerialize}
  `{Stats} `{WarningCounter}.
Implicit Types (self : NimbleServerParticipantConnection) (pool : list NimbleServerParticipant).

(** ** Starting, resetting, rejoining *)
Definition nimbleServerParticipantConnectionReInit self (transportConnection : option nat)
    (currentAuthoritativeStepId : Z) : NimbleServerParticipantConnection :=
  PConn.mk _ _ (PConn.isUsed self) NimbleServerParticipantConnectionStateNormal
    (PConn.participantReferences self)
    (nbsStepsReInit (PConn.steps self) currentAuthoritativeStepId)
    (statsIntInit 60) transportConnection 0 (PConn.waitingForReconnectMaxTimer self)
    (nimbleServerConnectionQualityReInit (PConn.quality self))
    (nimbleServerConnectionQualityDelayedReset (PConn.delayedQuality self)) 0 0.

Definition nimbleServerParticipantConnectionInit self (transportConnection : option nat)
    (currentAuthoritativeStepId maxParticipantCountForConnection
     maxSingleParticipantStepOctetCount : Z) : NimbleServerParticipantConnection :=
  let combinedStepOctetSize :=
    nbsStepsOutSerializeCalculateCombinedSize maxParticipantCountForConnection
      maxSingleParticipantStepOctetCount in
  let self := PConn.set_steps (nbsStepsInit combinedStepOctetSize) self in
  let self := PConn.set_participantReferences
    (set_participantReferenceCount 0 (PConn.participantReferences self)) self in
  let self := PConn.set_waitingForReconnectMaxTimer (62 * 20) self in
  let self := PConn.set_isUsed false self in
  let self := PConn.set_warningCount 0 self in
  let self := PConn.set_quality (nimbleServerConnectionQualityInit (PConn.quality self)) self in
  let self := PConn.set_delayedQuality
    (nimbleServerConnectionQualityDelayedInit (PConn.delayedQuality self)) self in
  nimbleServerParticipantConnectionReInit self transportConnection currentAuthoritativeStepId.

Definition nimbleServerParticipantConnectionReset self : NimbleServerParticipantConnection :=
  let self := PConn.set_isUsed false self in
  let self := PConn.set_participantReferences
    (set_participantReferenceCount 0 (PConn.participantReferences self)) self in
  let self := PConn.set_waitingForReconnectTimer 0 self in
  let self := PConn.set_warningCount 0 self in
  let self := PConn.set_warningAboutZeroAddedSteps 0 self in
  let self := PConn.set_quality (nimbleServerConnectionQualityReset (PConn.quality self)) self in
  PConn.set_delayedQuality
    (nimbleServerConnectionQualityDelayedReset (PConn.delayedQuality self)) self.

Definition nimbleServerParticipantConnectionRejoin self (transportConnection : option nat)
    (currentAuthoritativeStepId : Z) : NimbleServerParticipantConnection :=
  nimbleServerParticipantConnectionReInit self transportConnection currentAuthoritativeStepId.

Definition nimbleServerParticipantConnectionDisconnect self : NimbleServerParticipantConnection :=
  PConn.set_state NimbleServerParticipantConnectionStateDisconnected self.

(** ** Ticks *)
Definition setToWaitingForReconnect self : NimbleServerParticipantConnection :=
  let self :=
    PConn.set_state NimbleServerParticipantConnectionStateWaitingForReconnect self in
  PConn.set_waitingForReconnectTimer 0 self.

Definition connection_tickWaitingForReconnect self : NimbleServerParticipantConnection * bool :=
  let self := PConn.set_waitingForReconnectTimer
                (u64 (PConn.waitingForReconnectTimer self + 1)) self in
  if PConn.waitingForReconnectTimer self <? PConn.waitingForReconnectMaxTimer self
  then (self, true) else (self, false).

Definition connection_tickNormal self : NimbleServerParticipantConnection :=
  let '(delayed, shouldKeep) :=
    nimbleServerConnectionQualityDelayedTick (PConn.delayedQuality self) (PConn.quality self) in
  let self := PConn.set_delayedQuality delayed self in
  if negb shouldKeep
     && negb (bool_decide
          (PConn.state self = NimbleServerParticipantConnectionStateWaitingForReconnect))
  then setToWaitingForReconnect self
  else self.

Definition nimbleServerParticipantConnectionTick self : NimbleServerParticipantConnection * bool :=
  match PConn.state self with
  | NimbleServerParticipantConnectionStateNormal => (connection_tickNormal self, true)
  | NimbleServerParticipantConnectionStateWaitingForReconnect =>
      connection_tickWaitingForReconnect self
  | NimbleServerParticipantConnectionStateDisconnected => (self, true)
  end.

Definition nimbleServerParticipantConnectionHasParticipantId pool self (participantId : Z) :
    outcome bool :=
  r ← for_loop (Z.to_nat (Refs.participantReferenceCount (PConn.participantReferences self))) 0
    (fun i (_ : unit) =>
      p ← load (Refs.participantReferences (PConn.participantReferences self)) i;
      participant ← load pool p;
      Ret (if Participant.id participant =? participantId then Return true else Continue tt)) tt;
  Ret (match r with Return b => b | Continue _ => false end).

(** ** Forced steps (lib/forced_step.c) *)
Definition forcedStateFromConnection self : NimbleSerializeStepType :=
  if bool_decide (PConn.state self = NimbleServerParticipantConnectionStateWaitingForReconnect)
  then NimbleSerializeStepTypeWaitingForReJoin
  else NimbleSerializeStepTypeStepNotProvidedInTime.

(** The array of participants is filled in order, from its first place on. *)
Definition nimbleServerCreateForcedStep pool self (maxCount : Z) : outcome (Z * list Z) :=
  let state := forcedStateFromConnection self in
  let participantCount := Refs.participantReferenceCount (PConn.participantReferences self) in
  participants ← for_each (Z.to_nat participantCount) 0 (fun i participants =>
    _ ← (if localParticipantsCapacity <=? Z.of_nat i then Halt OutOfBounds else Ret tt);
    p ← load (Refs.participantReferences (PConn.participantReferences self)) i;
    participant ← load pool p;
    Ret (participants ++ [mkLocalStep (Participant.id participant) state []])) [];
  Ret (nbsStepsOutSerializeStep participants maxCount).

Definition nimbleServerInsertForcedSteps pool self (stepCount : Z) :
    outcome (NimbleServerParticipantConnection * Z) :=
  let stepIdToWrite := expectedWriteId (PConn.steps self) in
  '(forcedStepOctetCount, forcedStepsBuffer) ← nimbleServerCreateForcedStep pool self 64;
  if forcedStepOctetCount <? 0 then Ret (self, s32 forcedStepOctetCount)
  else
    r ← for_loop (Z.to_nat stepCount) 0 (fun _ '(self, stepIdToWrite) =>
      let '(steps, errorCode) :=
        nbsStepsWrite (PConn.steps self) stepIdToWrite
          (take (Z.to_nat forcedStepOctetCount) forcedStepsBuffer) in
      let self := PConn.set_steps steps self in
      if errorCode <? 0 then Ret (Return (self, errorCode))
      else Ret (Continue (self, u32 (stepIdToWrite + 1)))) (self, stepIdToWrite);
    match r with
    | Return result => Ret result
    | Continue (self, _) => Ret (self, 0)
    end.

(** ** Reading predicted steps *)
Definition nimbleServerParticipantConnectionDeserializePredictedSteps pool self
    (inStream : FldInStream) : outcome (NimbleServerParticipantConnection * FldInStream * Z) :=
  let '(inStream, errorCode, (firstStepId, stepsThatFollow)) :=
    nbsStepsInSerializeHeader inStream in
  if errorCode <? 0 then Ret (self, inStream, errorCode)
  else
    let dropped := nbsStepsDropped (PConn.steps self) firstStepId in
    if (0 <? dropped) && (60 <? dropped) then Ret (self, inStream, -3)
    else
      '(self, _) ←
        (if 0 <? dropped then nimbleServerInsertForcedSteps pool self dropped else Ret (self, 0));
      let '(inStream, steps, addedStepsCount) :=
        nbsStepsInSerialize inStream (PConn.steps self) firstStepId stepsThatFollow in
      let self := PConn.set_steps steps self in
      if addedStepsCount <? 0 then Ret (self, inStream, addedStepsCount)
      else
        let self :=
          if addedStepsCount =? 0
          then PConn.set_warningAboutZeroAddedSteps
                 (nextWarning (PConn.warningAboutZeroAddedSteps self)) self
          else self in
        let self :=
          if 0 <? addedStepsCount
          then PConn.set_quality
                 (nimbleServerConnectionQualityAddedStepsToBuffer (PConn.quality self)
                    addedStepsCount) self
          else self in
        Ret (self, inStream, 0).

End ParticipantConnection.

(** ** Well-formed connections *)
Definition size_t_range (n : Z) : Prop := 0 <= n < 18446744073709551616.

Record quality_typed (q : ConnQuality) : Prop := {
  qt_forced : size_t_range (Quality.forcedStepInRowCounter q);
  qt_provided : size_t_range (Quality.providedStepsInARow q);
  qt_added : size_t_range (Quality.addedStepsToBufferCounter q);
}.

Lemma quality_step_typed q e : quality_typed q -> quality_typed (quality_step q e).
Proof. intros []. destruct e; split; try done; apply u64_range. Qed.

Section ConnectionRuns.
Context `{Clog} `{Flood} `{NimbleSteps} `{!NimbleStepsSerialize} `{!LocalParticipantsSerialize}
  `{Stats} `{WarningCounter}.
Context `{!WarningCounterLaws} `{!NimbleStepsLaws} `{!LocalParticipantsSerializeLaws}.
Implicit Types (self : NimbleServerParticipantConnection) (pool : list NimbleServerParticipant).

(** A connection whose participants are in a pool of [n]. *)
Record connection_ok (n : nat) self : Prop := {
  co_refs : refs_ok n (PConn.participantReferences self);
  co_capacity : Refs.participantReferenceCount (PConn.participantReferences self)
                <= localParticipantsCapacity;
  co_steps : steps_wf (PConn.steps self);
  co_timer : size_t_range (PConn.waitingForReconnectTimer self);
  co_max_timer : size_t_range (PConn.waitingForReconnectMaxTimer self);
  co_quality : quality_typed (PConn.quality self);
  co_delayed : size_t_range (Delayed.impedingDisconnectCounter (PConn.delayedQuality self));
  co_warnings : warning_typed (PConn.warningCount self);
  co_zero_warnings : warning_typed (PConn.warningAboutZeroAddedSteps self);
}.

(** ** Operations that only set fields *)
Lemma reinit_ok n self tc id : 0 <= id < 4294967296 -> connection_ok n self ->
  connection_ok n (nimbleServerParticipantConnectionReInit self tc id).
Proof.
  intros Hid []. split; simpl; try done. by apply steps_reinit.
Qed.

Lemma no_references_ok n refs : refs_ok n (set_participantReferenceCount 0 refs).
Proof. split; simpl; lia. Qed.

Lemma init_ok `{!NimbleStepsSerializeLaws} n self tc id participants octets :
  0 <= id < 4294967296 -> 0 <= participants -> 0 <= octets ->
  connection_ok n (nimbleServerParticipantConnectionInit self tc id participants octets).
Proof.
  intros Hid Hp Ho. unfold nimbleServerParticipantConnectionInit. cbv zeta.
  split; simpl; try done.
  - apply no_references_ok.
  - apply local_participants_capacity.
  - apply steps_reinit; [|done]. by apply steps_init, combined_size.
Qed.

Lemma reset_ok n self : connection_ok n self ->
  connection_ok n (nimbleServerParticipantConnectionReset self).
Proof.
  intros []. split; simpl; try done; [apply no_references_ok|apply local_participants_capacity].
Qed.

Lemma tick_ok n self : connection_ok n self ->
  connection_ok n (nimbleServerParticipantConnectionTick self).1.
Proof.
  intros Hok. unfold nimbleServerParticipantConnectionTick.
  destruct (PConn.state self); [| |done].
  - unfold connection_tickNormal. destruct Hok as [Hr Hc Hs Ht Hm Hq Hd Hw Hz].
    pose proof (delayed_tick_range _ (PConn.quality self) Hd) as Hd'.
    destruct (nimbleServerConnectionQualityDelayedTick _ _) as [d keep].
    destruct (_ && _); split; simpl; try done; unfold size_t_range; lia.
  - unfold connection_tickWaitingForReconnect. destruct Hok.
    destruct (_ <? _); split; simpl; try done; apply u64_range.
Qed.

(** ** Forced steps *)

(** The forced step says of every participant why it has no step. *)
Definition forced_participants pool self : list LocalParticipantStep :=
  (fun p => mkLocalStep (Participant.id p) (forcedStateFromConnection self) [])
  <$> omap (pool !!.) (referenced (PConn.participantReferences self)).

Definition forced_step pool self : list Z :=
  (nbsStepsOutSerializeStep (forced_participants pool self) 64).2.

Lemma runs_create_forced {E} pool self maxCount : connection_ok (length pool) self ->
  sat E (nimbleServerCreateForcedStep pool self maxCount) (fun r =>
    r = nbsStepsOutSerializeStep (forced_participants pool self) maxCount).
Proof.
  intros Hok. unfold nimbleServerCreateForcedStep. eapply runs_bind_mono.
  { apply (runs_collect (fun p => mkLocalStep (Participant.id p) (forcedStateFromConnection self) []));
      [apply Hok|].
    intros i p participant l Hi Hr Hp. pose proof (co_capacity _ _ Hok).
    apply runs_guard; [apply Z.leb_gt; lia|]. by run. }
  intros participants ->. by run.
Qed.

(** Forced steps are appended one after the other, until one cannot be. *)
Lemma runs_insert_forced {E} pool self count : connection_ok (length pool) self -> 0 <= count ->
  sat E (nimbleServerInsertForcedSteps pool self count) (fun '(self', code) =>
    exists steps' filled, self' = PConn.set_steps steps' self /\ steps_wf steps' /\
      steps_appended (PConn.steps self) steps' (replicate filled (forced_step pool self)) 0 /\
      Z.of_nat filled <= count /\
      ((code = 0 /\ Z.of_nat filled = count) \/ code < 0)).
Proof.
  intros Hok Hcount. pose proof (co_steps _ _ Hok) as Hsteps.
  unfold nimbleServerInsertForcedSteps.
  eapply runs_bind_mono; [by apply runs_create_forced|]. unfold forced_step.
  pose proof (out_serialize_step (forced_participants pool self) 64) as Hout.
  destruct (nbsStepsOutSerializeStep _ _) as [octetCount octets]. intros r ->. simpl.
  destruct (Z.ltb_spec octetCount 0) as [Hneg|Hpos].
  { destruct Hout as [?|Hout]; [lia|]. exists (PConn.steps self), O. split; [by destruct self|].
    split; [done|]. split; [apply steps_appended_refl|]. split; [lia|]. right.
    rewrite s32_small by lia. lia. }
  destruct Hout as [(_ & -> & _)|]; [|lia]. rewrite Nat2Z.id, firstn_all.
  eapply runs_bind_mono.
  { apply (runs_for (fun i '(s, next) => exists steps', s = PConn.set_steps steps' self /\
      steps_wf steps' /\ next = expectedWriteId steps' /\
      steps_appended (PConn.steps self) steps' (replicate i octets) 0)
      (fun '(s, code) => code < 0 /\ exists steps' filled, s = PConn.set_steps steps' self /\
      steps_wf steps' /\ Z.of_nat filled <= count /\
      steps_appended (PConn.steps self) steps' (replicate filled octets) 0)).
    - exists (PConn.steps self). split; [by destruct self|]. split; [done|]. split; [done|].
      apply steps_appended_refl.
    - intros i [s next] Hi (steps' & -> & Hwf & -> & Happ). simpl.
      pose proof (steps_write_fails _ (expectedWriteId steps') octets Hwf) as Hfail.
      destruct (nbsStepsWrite _ _ octets) as [steps2 errorCode] eqn:Hwrite. simpl in Hfail.
      destruct (Z.ltb_spec errorCode 0) as [Hneg|Hok2]; simpl.
      + rewrite (Hfail Hneg). split; [done|]. exists steps', i. auto with lia.
      + destruct (write_appended _ _ _ _ Hwf Hwrite Hok2) as (Hwf2 & Hid & Happ2).
        exists steps2. split; [done|]. split; [done|]. split; [done|].
        change (octets :: replicate i octets) with (replicate (S i) octets).
        rewrite replicate_S_end. apply (steps_appended_trans _ _ _ _ _ 0 0 Happ Happ2). }
  intros [[s next]|[s code]]; simpl.
  - intros (steps' & -> & Hwf & _ & Happ). exists steps', (Z.to_nat count).
    split; [done|]. split; [done|]. split; [done|]. split; [lia|left; lia].
  - intros (Hneg & steps' & filled & -> & Hwf & Hle & Happ). exists steps', filled. auto 10.
Qed.

(** ** Reading predicted steps *)
Lemma set_steps_ok n self steps' : steps_wf steps' -> connection_ok n self ->
  connection_ok n (PConn.set_steps steps' self).
Proof. intros Hs []. by split. Qed.

(** What the steps after the gap do to the connection. *)
Definition received self steps' (code : Z) : NimbleServerParticipantConnection :=
  let self := PConn.set_steps steps' self in
  if code <? 0 then self
  else if code =? 0
  then PConn.set_warningAboutZeroAddedSteps (nextWarning (PConn.warningAboutZeroAddedSteps self)) self
  else PConn.set_quality
         (nimbleServerConnectionQualityAddedStepsToBuffer (PConn.quality self) code) self.

Lemma received_ok n self steps' code : steps_wf steps' -> connection_ok n self ->
  connection_ok n (received self steps' code).
Proof.
  intros Hs Hok. apply (set_steps_ok n self steps' Hs) in Hok. unfold received.
  destruct (code <? 0); [done|]. destruct Hok. destruct (code =? 0); split; try done.
  by apply (quality_step_typed _ (AddedStepsToBuffer code)).
Qed.

(** The gap in front of the step [first]. *)
Definition gap_before self (first : Z) : Z := Z.max 0 (first - expectedWriteId (PConn.steps self)).

(** [filled] forced steps and the steps [new] of the client were appended. *)
Definition gap_filled pool self (first : Z) self' (filled : nat) (new : list (list Z)) : Prop :=
  steps_appended (PConn.steps self) (PConn.steps self')
    (replicate filled (forced_step pool self) ++ new) 0 /\
  Z.of_nat filled <= gap_before self first /\
  (Z.of_nat filled = gap_before self first \/
   exists self1 err, nimbleServerInsertForcedSteps pool self (gap_before self first)
                     = Ret (self1, err) /\ err < 0).

Lemma runs_fill_gap {E} pool self first : connection_ok (length pool) self ->
  sat E (if 0 <? gap_before self first
         then nimbleServerInsertForcedSteps pool self (gap_before self first)
         else Ret (self, 0))
    (fun '(self', _) => exists steps' filled, self' = PConn.set_steps steps' self /\
       steps_wf steps' /\ gap_filled pool self first self' filled []).
Proof.
  intros Hok. destruct (Z.ltb_spec 0 (gap_before self first)) as [Hgap|Hgap].
  - destruct (runs_inv _ _ (runs_insert_forced pool self (gap_before self first) Hok ltac:(lia)))
      as ([self' code] & Hrun & steps' & filled & -> & Hwf & Happ & Hle & Hcode).
    rewrite Hrun. exists steps', filled. split; [done|]. split; [done|].
    unfold gap_filled. rewrite app_nil_r. split; [done|]. split; [done|].
    destruct Hcode as [[_ ->]|Hneg]; [by left|right; eauto].
  - exists (PConn.steps self), O. split; [by destruct self|]. split; [apply Hok|].
    split; [apply steps_appended_refl|]. unfold gap_before in *. split; [lia|left; lia].
Qed.

Lemma runs_connection_deserialize {E} pool self inStream s err first count :
  connection_ok (length pool) self ->
  nbsStepsInSerializeHeader inStream = (s, err, (first, count)) ->
  sat E (nimbleServerParticipantConnectionDeserializePredictedSteps pool self inStream)
    (fun '(self', s', code) =>
       if err <? 0 then self' = self /\ s' = s /\ code = err
       else if 60 <? gap_before self first then self' = self /\ s' = s /\ code = -3
       else exists steps1 steps' added filled new,
         self' = received (PConn.set_steps steps1 self) steps' added /\ steps_wf steps' /\
         gap_filled pool self first self' filled new /\
         (0 <= added -> added = Z.of_nat (length new)) /\ code = Z.min 0 added).
Proof.
  intros Hok Hread. unfold nimbleServerParticipantConnectionDeserializePredictedSteps.
  pose proof (steps_header inStream) as Hfirst. rewrite Hread in *. simpl in Hfirst.
  destruct (err <? 0); [by run|].
  rewrite (steps_dropped _ _ (co_steps _ _ Hok) Hfirst). fold (gap_before self first).
  destruct (Z.ltb_spec 60 (gap_before self first)) as [Hbig|Hsmall].
  { rewrite (proj2 (Z.ltb_lt _ _)) by lia. by run. }
  rewrite andb_false_r. eapply runs_bind_mono; [by apply runs_fill_gap|].
  intros [self1 ignored] (steps1 & filled & -> & Hwf1 & Happ1 & Hle & Hfull). simpl in *.
  pose proof (in_serialize s steps1 first count Hwf1) as Hin.
  destruct (nbsStepsInSerialize s steps1 first count) as [[s2 steps2] added].
  destruct Hin as (Hwf2 & new & Hlog & Hid & Hadded). pose proof (append_appended _ _ _ Hlog Hid) as Happ2.
  assert (Hgap : gap_filled pool self first (PConn.set_steps steps2 self) filled new).
  { split; [|done]. rewrite app_nil_r in Happ1.
    exact (steps_appended_trans _ _ _ _ _ 0 0 Happ1 Happ2). }
  destruct (Z.ltb_spec added 0) as [Hneg|Hpos]; run;
    exists steps1, steps2, added, filled, new; unfold received;
    [rewrite (proj2 (Z.ltb_lt added 0)) by done|rewrite (proj2 (Z.ltb_ge added 0)) by done].
  - split; [done|]. split; [done|]. split; [done|]. split; lia.
  - destruct (Z.eqb_spec added 0) as [->|Hne]; simpl;
      [|rewrite (proj2 (Z.ltb_lt 0 added)) by lia]; (split; [done|]); (split; [done|]);
      (split; [exact Hgap|]); (split; [exact Hadded|lia]).
Qed.

Lemma runs_connection_deserialize_ok {E} pool self inStream :
  connection_ok (length pool) self ->
  sat E (nimbleServerParticipantConnectionDeserializePredictedSteps pool self inStream)
    (fun '(self', _, _) => connection_ok (length pool) self').
Proof.
  intros Hok.
  destruct (nbsStepsInSerializeHeader inStream) as [[s err] [first count]] eqn:Hread.
  eapply runs_mono; [by eapply runs_connection_deserialize|]. intros [[self' s'] code].
  destruct (err <? 0); [by intros [-> _]|]. destruct (60 <? _); [by intros [-> _]|].
  intros (steps1 & steps' & added & filled & new & -> & Hwf & _).
  change (received (PConn.set_steps steps1 self) steps' added)
    with (received self steps' added). by apply received_ok.
Qed.
End ConnectionRuns.

(** ** The connection and the party that took its place

    What happens to both: ticks, the client coming back or leaving, a reset, and
    what the composing of steps reports to the quality. *)
Inductive connection_event :=
  | Ticked
  | Rejoined (transportConnection : option nat) (stepId : Z)
  | Left
  | WasReset
  | Judged (e : quality_event).

Section ConnectionAsParty.
Context `{Clog} `{Flood} `{NimbleSteps} `{!NimbleStepsSerialize} `{!LocalParticipantsSerialize}
  `{Stats} `{WarningCounter}.
Implicit Types (self : NimbleServerParticipantConnection) (party : NimbleServerLocalParty)
  (pool : list NimbleServerParticipant).

Definition party_state (st : NimbleServerParticipantConnectionState) : NimbleServerLocalPartyState :=
  match st with
  | NimbleServerParticipantConnectionStateNormal => NimbleServerLocalPartyStateNormal
  | NimbleServerParticipantConnectionStateWaitingForReconnect =>
      NimbleServerLocalPartyStateWaitingForReJoin
  | NimbleServerParticipantConnectionStateDisconnected => NimbleServerLocalPartyStateDissolved
  end.

Record like_party self party : Prop := {
  lp_used : Party.isUsed party = PConn.isUsed self;
  lp_state : Party.state party = party_state (PConn.state self);
  lp_refs : Party.participantReferences party = PConn.participantReferences self;
  lp_connection : Party.transportConnection party = PConn.transportConnection self;
  lp_timer : Party.waitingForReconnectTimer party = PConn.waitingForReconnectTimer self;
  lp_max_timer : Party.waitingForReconnectMaxTimer party = PConn.waitingForReconnectMaxTimer self;
  lp_quality : Party.quality party = PConn.quality self;
  lp_delayed : Party.delayedQuality party = PConn.delayedQuality self;
}.

Definition connection_step self (e : connection_event) :
    NimbleServerParticipantConnection * list bool :=
  match e with
  | Ticked =>
      let '(self, keep) := nimbleServerParticipantConnectionTick self in (self, [keep])
  | Rejoined tc stepId => (nimbleServerParticipantConnectionRejoin self tc stepId, [])
  | Left => (nimbleServerParticipantConnectionDisconnect self, [])
  | WasReset => (nimbleServerParticipantConnectionReset self, [])
  | Judged e => (PConn.set_quality (quality_step (PConn.quality self) e) self, [])
  end.

Definition party_step pool party (e : connection_event) :
    outcome (list NimbleServerParticipant * NimbleServerLocalParty * list bool) :=
  match e with
  | Ticked => '(pool, party, keep) ← nimbleServerLocalPartyTick pool party; Ret (pool, party, [keep])
  | Rejoined tc _ => Ret (pool, nimbleServerLocalPartyRejoin party tc, [])
  | Left => Ret (pool, nimbleServerLocalPartyDestroy party, [])
  | WasReset => Ret (pool, nimbleServerLocalPartyReset party, [])
  | Judged e => Ret (pool, Party.set_quality (quality_step (Party.quality party) e) party, [])
  end.

(** All verdicts of the ticks, in order. *)
Fixpoint connection_run (es : list connection_event) self :
    NimbleServerParticipantConnection * list bool :=
  match es with
  | [] => (self, [])
  | e :: es =>
      let '(self, keeps) := connection_step self e in
      let '(self, more) := connection_run es self in (self, keeps ++ more)
  end.

Fixpoint party_run (es : list connection_event) pool party :
    outcome (list NimbleServerParticipant * NimbleServerLocalParty * list bool) :=
  match es with
  | [] => Ret (pool, party, [])
  | e :: es =>
      '(pool, party, keeps) ← party_step pool party e;
      '(pool, party, more) ← party_run es pool party;
      Ret (pool, party, keeps ++ more)
  end.

Lemma connection_tick_cases self :
  nimbleServerParticipantConnectionTick self
  = match PConn.state self with
    | NimbleServerParticipantConnectionStateNormal =>
        let '(delayed, keep) := nimbleServerConnectionQualityDelayedTick
          (PConn.delayedQuality self) (PConn.quality self) in
        let self := PConn.set_delayedQuality delayed self in
        (if keep then self else setToWaitingForReconnect self, true)
    | NimbleServerParticipantConnectionStateWaitingForReconnect =>
        let timer := u64 (PConn.waitingForReconnectTimer self + 1) in
        (PConn.set_waitingForReconnectTimer timer self,
         timer <? PConn.waitingForReconnectMaxTimer self)
    | NimbleServerParticipantConnectionStateDisconnected => (self, true)
    end.
Proof.
  unfold nimbleServerParticipantConnectionTick, connection_tickNormal,
    connection_tickWaitingForReconnect.
  destruct (PConn.state self) eqn:Hstate; [| |done].
  - destruct (nimbleServerConnectionQualityDelayedTick _ _) as [d keep]. cbn [PConn.state
      PConn.set_delayedQuality]. rewrite Hstate, bool_decide_false by done. by destruct keep.
  - cbn [PConn.waitingForReconnectTimer PConn.waitingForReconnectMaxTimer
      PConn.set_waitingForReconnectTimer]. by destruct (_ <? _).
Qed.

Lemma tick_like_party {E} pool self party :
  like_party self party -> refs_ok (length pool) (Party.participantReferences party) ->
  sat E (nimbleServerLocalPartyTick pool party) (fun '(pool', party', keep) =>
    length pool' = length pool /\
    like_party (nimbleServerParticipantConnectionTick self).1 party' /\
    keep = (nimbleServerParticipantConnectionTick self).2).
Proof.
  intros [Hu Hs Hr Hc Ht Hm Hq Hd] Hrefs. rewrite connection_tick_cases. apply runs_tick; [done|].
  rewrite Hs, Hq, Hd, Ht, Hm. destruct (PConn.state self) eqn:Hstate; cbn [party_state].
  - destruct (nimbleServerConnectionQualityDelayedTick _ _) as [d [|]]; cbn [fst snd].
    + split; [done|]. split; [|done]. split; cbn; rewrite ?Hstate; done.
    + split; [apply length_marked|]. split; [by split|done].
  - cbn [fst snd]. split; [done|]. split; [|done]. split; cbn; rewrite ?Hstate; done.
  - split; [done|]. split; [|done]. split; cbn; rewrite ?Hstate; done.
Qed.

Lemma connection_tick_refs self :
  PConn.participantReferences (nimbleServerParticipantConnectionTick self).1
  = PConn.participantReferences self.
Proof.
  rewrite connection_tick_cases. destruct (PConn.state self); [|done|done].
  by destruct (nimbleServerConnectionQualityDelayedTick _ _) as [d [|]].
Qed.

Lemma step_like_party {E} pool self party e :
  like_party self party -> refs_ok (length pool) (Party.participantReferences party) ->
  sat E (party_step pool party e) (fun '(pool', party', keeps) =>
    like_party (connection_step self e).1 party' /\ keeps = (connection_step self e).2 /\
    refs_ok (length pool') (Party.participantReferences party')).
Proof.
  intros Hlike Hrefs. destruct e as [|tc id| | |e]; cbn [party_step connection_step];
    [|destruct Hlike; (split; [split; cbn; congruence|]); (split; [done|])..].
  - eapply runs_bind_mono; [by apply tick_like_party|]. intros [[pool' party'] keep].
    intros (Hlen & Hlike' & ->). pose proof (connection_tick_refs self) as Href.
    rewrite <- (lp_refs _ _ Hlike'), <- (lp_refs _ _ Hlike) in Href.
    destruct (nimbleServerParticipantConnectionTick self). apply runs_ret.
    split; [done|]. split; [done|]. by rewrite Hlen, Href.
  - done.
  - done.
  - apply no_references_ok.
  - done.
Qed.

Lemma run_like_party {E} es : forall pool self party,
  like_party self party -> refs_ok (length pool) (Party.participantReferences party) ->
  sat E (party_run es pool party) (fun '(_, party', keeps) =>
    like_party (connection_run es self).1 party' /\ keeps = (connection_run es self).2).
Proof.
  induction es as [|e es IH]; intros pool self party Hlike Hrefs; cbn [party_run connection_run];
    [done|].
  eapply runs_bind_mono; [by apply step_like_party|]. intros [[pool1 party1] keeps].
  destruct (connection_step self e) as [self1 keeps1]. intros (Hlike1 & -> & Hrefs1).
  eapply runs_bind_mono; [by apply (IH _ self1)|]. intros [[pool2 party2] more].
  destruct (connection_run es self1) as [self2 more1]. simpl. by intros [? ->].
Qed.
End ConnectionAsParty.

(** ** Reachable connections *)
Section Reachable.
Context `{Clog} `{Flood} `{NimbleSteps} `{!NimbleStepsSerialize} `{!LocalParticipantsSerialize}
  `{Stats} `{WarningCounter}.
Implicit Types (self : NimbleServerParticipantConnection) (pool : list NimbleServerParticipant).

(** From any memory, in any order; references to participants are set by code
    that is no longer there. *)
Inductive connection_reachable (n : nat) : NimbleServerParticipantConnection -> Prop :=
  | reached_init self tc id participants octets :
      0 <= id < 4294967296 -> 0 <= participants -> 0 <= octets ->
      connection_reachable n
        (nimbleServerParticipantConnectionInit self tc id participants octets)
  | reached_references self refs :
      connection_reachable n self -> refs_ok n refs ->
      Refs.participantReferenceCount refs <= localParticipantsCapacity ->
      connection_reachable n (PConn.set_participantReferences refs self)
  | reached_reinit self tc id :
      connection_reachable n self -> 0 <= id < 4294967296 ->
      connection_reachable n (nimbleServerParticipantConnectionReInit self tc id)
  | reached_event self e :
      connection_reachable n self ->
      match e with
      | Rejoined _ id => 0 <= id < 4294967296
      | _ => True
      end ->
      connection_reachable n (connection_step self e).1
  | reached_steps pool self s self' s' code :
      connection_reachable n self -> length pool = n ->
      nimbleServerParticipantConnectionDeserializePredictedSteps pool self s
      = Ret (self', s', code) ->
      connection_reachable n self'.
End Reachable.

(** ** Properties *)
Section ConnectionProperties.
Context `{Clog} `{Flood} `{NimbleSteps} `{!NimbleStepsSerialize} `{!LocalParticipantsSerialize}
  `{Stats} `{WarningCounter}.
Context `{!WarningCounterLaws} `{!NimbleStepsLaws} `{!NimbleStepsSerializeLaws} `{!LocalParticipantsSerializeLaws}.
Implicit Types (self : NimbleServerParticipantConnection) (party : NimbleServerLocalParty)
  (pool : list NimbleServerParticipant).

(** C15. Types of a participant connection. Whatever memory it is initialised
    from, and whatever happens to it - ticks, rejoins, resets, datagrams that are
    well-formed or not, and references to participants that other code sets,
    provided that those are valid - its counters and timers are numbers of their
    width, its references point to participants, its buffer of steps is
    consistent, and reading another datagram never stops the program. *)
Theorem connection_reachable_typed n self :
  connection_reachable n self -> connection_ok n self /\
  forall pool s, length pool = n ->
    runs (nimbleServerParticipantConnectionDeserializePredictedSteps pool self s)
      (fun _ => True).
Proof.
  intros Hself. assert (Hok : connection_ok n self).
  { induction Hself as [self tc id participants octets Hid Hp Ho|self refs _ IH Hrefs Hc
      |self tc id _ IH Hid|self e _ IH He|pool self s self' s' code _ IH <- Hrun].
    - by apply init_ok.
    - destruct IH. by split.
    - by apply reinit_ok.
    - destruct e as [|tc id| | |e]; cbn [connection_step].
      + pose proof (tick_ok _ _ IH). by destruct (nimbleServerParticipantConnectionTick self).
      + by apply reinit_ok.
      + destruct IH. by split.
      + by apply reset_ok.
      + destruct IH. split; try done. by apply quality_step_typed.
    - pose proof (runs_connection_deserialize_ok (E := fun _ => False) pool self s IH) as Hread.
      by rewrite Hrun in Hread. }
  split; [done|]. intros pool s <-.
  eapply runs_mono; [by apply runs_connection_deserialize_ok|done].
Qed.

(** C16. Predicted steps of a client that left some out. When more than sixty
    steps are missing the datagram is refused and nothing changes. Otherwise a
    forced step is appended for every missing one, then the steps of the client,
    so that each gets its own number - unless a forced step could not be made or
    stored, which the code does not notice. *)
Theorem predicted_steps_fill_gap pool self inStream s err first count :
  connection_ok (length pool) self ->
  nbsStepsInSerializeHeader inStream = (s, err, (first, count)) -> 0 <= err ->
  runs (nimbleServerParticipantConnectionDeserializePredictedSteps pool self inStream)
    (fun '(self', s', code) =>
       let gap := Z.max 0 (first - expectedWriteId (PConn.steps self)) in
       if 60 <? gap then self' = self /\ s' = s /\ code = -3
       else exists filled new,
         steps_appended (PConn.steps self) (PConn.steps self')
           (replicate filled (forced_step pool self) ++ new) 0 /\
         (code = 0 -> PConn.quality self'
            = if decide (new = []) then PConn.quality self
              else nimbleServerConnectionQualityAddedStepsToBuffer (PConn.quality self)
                     (Z.of_nat (length new))) /\
         (code < 0 -> PConn.quality self' = PConn.quality self) /\ code <= 0 /\
         (Z.of_nat filled = gap \/
          Z.of_nat filled <= gap /\ exists self1 unnoticed,
            nimbleServerInsertForcedSteps pool self gap = Ret (self1, unnoticed) /\
            unnoticed < 0)).
Proof.
  intros Hok Hread Herr. eapply runs_mono; [by eapply runs_connection_deserialize|].
  intros [[self' s'] code]. rewrite (proj2 (Z.ltb_ge _ _) Herr).
  cbv zeta. fold (gap_before self first). destruct (60 <? gap_before self first); [done|].
  intros (steps1 & steps' & added & filled & new & -> & _ & (Happ & Hle & Hfull) & Hadded & ->).
  exists filled, new. split; [done|]. unfold received.
  destruct (Z.ltb_spec added 0) as [Hneg|Hpos]; [rewrite Z.min_r by lia|rewrite Z.min_l by lia].
  - split; [lia|]. split; [done|]. split; [lia|]. destruct Hfull; [by left|right; auto].
  - specialize (Hadded Hpos). split; [|split; [lia|split; [lia|destruct Hfull; [by left|right; auto]]]].
    intros _. destruct (decide (new = [])) as [->|Hne]; [by rewrite Hadded|].
    destruct (Z.eqb_spec added 0) as [Hz|_]; [|by rewrite Hadded].
    destruct new; [done|simpl in Hadded; lia].
Qed.

(** C17. A participant connection is a local party in all that matters for
    giving it up: as long as the same happens to both - ticks, rejoining, leaving,
    resets, reports on the quality - every tick gives the same verdict, the
    states, timers and qualities stay the same, and both know the same
    participants. *)
Theorem connection_runs_as_party es pool self party :
  like_party self party -> refs_ok (length pool) (Party.participantReferences party) ->
  runs (party_run es pool party) (fun '(pool', party', keeps) =>
    like_party (connection_run es self).1 party' /\ keeps = (connection_run es self).2 /\
    forall id, nimbleServerParticipantConnectionHasParticipantId pool' (connection_run es self).1 id
               = nimbleServerLocalPartyHasParticipantId pool' party' id).
Proof.
  intros Hlike Hrefs. eapply runs_mono; [by apply run_like_party|].
  intros [[pool' party'] keeps] [Hlike' Hkeeps]. split; [done|]. split; [done|]. intros id.
  unfold nimbleServerParticipantConnectionHasParticipantId, nimbleServerLocalPartyHasParticipantId.
  by rewrite (lp_refs _ _ Hlike').
Qed.
End ConnectionProperties.

(** ** Witnesses *)
Import Models.
#[local] Instance octet_counter : WarningCounter := { warningBits := 8 }.
#[local] Instance octet_counter_laws : WarningCounterLaws.
Proof. split. done. Qed.

(** A connection with one participant, at step 5. *)
Definition example_memory : NimbleServerParticipantConnection :=
  PConn.mk _ _ true NimbleServerParticipantConnectionStateDisconnected
    (Refs.mk 9 (replicate 16 7%nat)) (nbsStepsInit 1) (statsIntInit 1) None 77 88
    (Quality.mk 5 5 5 true) (Delayed.mk 99) 3 4.

Definition example_connection : NimbleServerParticipantConnection :=
  PConn.set_participantReferences (Refs.mk 1 (replicate 16 0%nat))
    (nimbleServerParticipantConnectionInit example_memory (Some 0%nat) 5 2 24).

Lemma example_references_ok : refs_ok 2 (Refs.mk 1 (replicate 16 0%nat)).
Proof. exact example_refs_ok. Qed.

Lemma example_connection_reachable : connection_reachable 2 example_connection.
Proof.
  apply reached_references; [by apply reached_init|exact example_references_ok|simpl; lia].
Qed.

(** The client sends step 7, so steps 5 and 6 are forced. *)
Definition step_seven : FldInStream := fldInStreamInit [7; 1; 2; 8; 9].

Lemma connection_reachable_typed_witness :
  connection_ok 2 (connection_step (connection_step example_connection Left).1
                     (Rejoined (Some 1%nat) 9)).1 /\
  runs (nimbleServerParticipantConnectionDeserializePredictedSteps
          (Pool.participants example_pool) example_connection step_seven) (fun _ => True).
Proof.
  destruct (connection_reachable_typed 2 example_connection example_connection_reachable)
    as [_ Hread].
  split; [|apply Hread; reflexivity].
  apply (connection_reachable_typed 2).
  apply (reached_event 2 _ (Rejoined (Some 1%nat) 9)); [|lia].
  apply (reached_event 2 _ Left); [exact example_connection_reachable|exact I].
Defined.

Lemma predicted_steps_fill_gap_witness :
  match nimbleServerParticipantConnectionDeserializePredictedSteps
          (Pool.participants example_pool) example_connection step_seven with
  | Ret (self', _, code) =>
      code = 0 /\
      steps_log (PConn.steps self') = [[1; 0; 4; 0]; [1; 0; 4; 0]; [8; 9]] /\
      exists filled new, steps_appended (PConn.steps example_connection) (PConn.steps self')
        (replicate filled [1; 0; 4; 0] ++ new) 0 /\ Z.of_nat filled = 2
  | Halt _ => False
  end.
Proof.
  pose proof (predicted_steps_fill_gap (Pool.participants example_pool) example_connection
    step_seven (nbsStepsInSerializeHeader step_seven).1.1 0 7 1) as Hrun.
  assert (Hlog : match nimbleServerParticipantConnectionDeserializePredictedSteps
      (Pool.participants example_pool) example_connection step_seven with
    | Ret (self', _, code) => code = 0 /\
        steps_log (PConn.steps self') = [[1; 0; 4; 0]; [1; 0; 4; 0]; [8; 9]]
    | Halt _ => False
    end) by (vm_compute; split; reflexivity).
  destruct (nimbleServerParticipantConnectionDeserializePredictedSteps _ _ _)
    as [[[self' s'] code]|h]; [|done].
  destruct Hlog as [Hcode Hlog].
  destruct Hrun as (filled & new & Happ & _ & _ & _ & Hfull).
  - apply (connection_reachable_typed 2), example_connection_reachable.
  - reflexivity.
  - lia.
  - split; [exact Hcode|]. split; [exact Hlog|]. exists filled, new. split; [exact Happ|].
    destruct Hfull as [Hfull|[_ (self1 & err & Hinsert & Herr)]]; [exact Hfull|exfalso].
    assert (Hnoticed : match nimbleServerInsertForcedSteps (Pool.participants example_pool)
      example_connection (Z.max 0 (7 - expectedWriteId (PConn.steps example_connection))) with
      | Ret (_, err) => err = 0 | Halt _ => False end) by (vm_compute; reflexivity).
    rewrite Hinsert in Hnoticed. lia.
Defined.

(** A full buffer cannot take the forced steps; the code goes on all the same. *)
Lemma forced_steps_fail_unnoticed :
  let full := PConn.set_steps (mkSteps (replicate 120 (0, [])) 5 0 57) example_connection in
  match nimbleServerInsertForcedSteps (Pool.participants example_pool) full 2 with
  | Ret (_, code) => code = -2
  | Halt _ => False
  end /\
  match nimbleServerParticipantConnectionDeserializePredictedSteps
          (Pool.participants example_pool) full step_seven with
  | Ret (_, _, code) => code = 0
  | Halt _ => False
  end.
Proof. vm_compute. split; reflexivity. Qed.

Definition example_like_party : NimbleServerLocalParty :=
  Party.set_isUsed false
    (Party.set_quality (Quality.mk 0 0 0 false)
       (nimbleServerLocalPartyRejoin example_party (Some 0%nat))).

(** The client is silent for 181 ticks, and then the wait begins. *)
Definition silence : list connection_event := Judged (AddedForcedSteps 300) :: replicate 181 Ticked.

Lemma connection_runs_as_party_witness :
  match party_run silence (Pool.participants example_pool) example_like_party with
  | Ret (_, party', keeps) =>
      like_party (connection_run silence example_connection).1 party' /\
      keeps = (connection_run silence example_connection).2 /\
      Party.state party' = NimbleServerLocalPartyStateWaitingForReJoin
  | Halt _ => False
  end.
Proof.
  pose proof (connection_runs_as_party silence (Pool.participants example_pool) example_connection
    example_like_party) as Hrun.
  assert (Hstate : match party_run silence (Pool.participants example_pool) example_like_party with
    | Ret (_, party', _) => Party.state party' = NimbleServerLocalPartyStateWaitingForReJoin
    | Halt _ => False
    end) by (vm_compute; reflexivity).
  destruct (party_run _ _ _) as [[[pool' party'] keeps]|h]; [|done].
  destruct Hrun as (Hlike & Hkeeps & _); [split; reflexivity|exact example_refs_ok|].
  split; [exact Hlike|]. split; [exact Hkeeps|exact Hstate].
Defined.
