(* ===== verification/TransportConnection.v ===== *)
(** * Transport connections (lib/transport_connection.c)

    What the server keeps for each connection of the transport layer: the
    sequence numbers of the datagrams, the party that plays over it and the
    transfer of the game state. *)

From S2P Require Import Prelude.
From S2P Require Import ExternalLibs.
From S2P Require Import ExternalModels.
From S2P Require Import GameState.

Inductive NimbleServerTransportConnectionPhase :=
  | NbTransportConnectionPhaseIdle
  | NbTransportConnectionPhaseWaitingForValidConnect
  | NbTransportConnectionPhaseConnected
  | NbTransportConnectionPhaseInitialStateDetermined
  | NbTransportConnectionPhaseDisconnected.
#[export] Instance phase_eq_dec : EqDecision NimbleServerTransportConnectionPhase.
Proof. solve_decision. Defined.

(** [assignedParty] is a position in the array of parties. The two parts of the
    blob stream are [None] until the first download initialises them. The
    allocator and the log are left out. *)
Module Conn.
Record NimbleServerTransportConnection `{OrderedDatagram} `{!BlobStream} `{Stats} := mk {
  id : Z;
  transportConnectionId : Z;
  transportIndex : Z;
  connectedFromConnectRequestId : Z;
  secret : Z;
  assignedParty : option nat;
  orderedDatagramInLogic : OrderedDatagramInLogic;
  orderedDatagramOutLogic : OrderedDatagramOutLogic;
  blobStreamOut : option BlobStreamOut;
  blobStreamLogicOut : option BlobStreamLogicOut;
  nextBlobStreamOutChannel : Z;
  blobStreamOutClientRequestId : Z;
  stepsBehindStats : StatsInt;
  debugCounter : Z;
  isUsed : bool;
  useDebugStreams : bool;
  noRangesToSendCounter : Z;
  phase : NimbleServerTransportConnectionPhase;
  gameState : GameState;
}.
Section Setters.
Context `{OrderedDatagram} `{!BlobStream} `{Stats}.
Definition set_transportConnectionId (v : Z) (p : NimbleServerTransportConnection) :
    NimbleServerTransportConnection :=
  mk _ _ _ _ (id p) v (transportIndex p) (connectedFromConnectRequestId p) (secret p)
    (assignedParty p) (orderedDatagramInLogic p) (orderedDatagramOutLogic p)
    (blobStreamOut p) (blobStreamLogicOut p) (nextBlobStreamOutChannel p)
    (blobStreamOutClientRequestId p) (stepsBehindStats p) (debugCounter p) (isUsed p)
    (useDebugStreams p) (noRangesToSendCounter p) (phase p) (gameState p).
Definition set_assignedParty (v : option nat) (p : NimbleServerTransportConnection) :
    NimbleServerTransportConnection :=
  mk _ _ _ _ (id p) (transportConnectionId p) (transportIndex p)
    (connectedFromConnectRequestId p) (secret p) v (orderedDatagramInLogic p)
    (orderedDatagramOutLogic p) (blobStreamOut p) (blobStreamLogicOut p)
    (nextBlobStreamOutChannel p) (blobStreamOutClientRequestId p) (stepsBehindStats p)
    (debugCounter p) (isUsed p) (useDebugStreams p) (noRangesToSendCounter p) (phase p)
    (gameState p).
Definition set_orderedDatagramInLogic (v : OrderedDatagramInLogic) (p : NimbleServerTransportConnection) :
    NimbleServerTransportConnection :=
  mk _ _ _ _ (id p) (transportConnectionId p) (transportIndex p)
    (connectedFromConnectRequestId p) (secret p) (assignedParty p) v
    (orderedDatagramOutLogic p) (blobStreamOut p) (blobStreamLogicOut p)
    (nextBlobStreamOutChannel p) (blobStreamOutClientRequestId p) (stepsBehindStats p)
    (debugCounter p) (isUsed p) (useDebugStreams p) (noRangesToSendCounter p) (phase p)
    (gameState p).
Definition set_orderedDatagramOutLogic (v : OrderedDatagramOutLogic) (p : NimbleServerTransportConnection) :
    NimbleServerTransportConnection :=
  mk _ _ _ _ (id p) (transportConnectionId p) (transportIndex p)
    (connectedFromConnectRequestId p) (secret p) (assignedParty p)
    (orderedDatagramInLogic p) v (blobStreamOut p) (blobStreamLogicOut p)
    (nextBlobStreamOutChannel p) (blobStreamOutClientRequestId p) (stepsBehindStats p)
    (debugCounter p) (isUsed p) (useDebugStreams p) (noRangesToSendCounter p) (phase p)
    (gameState p).
Definition set_blobStreamLogicOut (v : option BlobStreamLogicOut) (p : NimbleServerTransportConnection) :
    NimbleServerTransportConnection :=
  mk _ _ _ _ (id p) (transportConnectionId p) (transportIndex p)
    (connectedFromConnectRequestId p) (secret p) (assignedParty p)
    (orderedDatagramInLogic p) (orderedDatagramOutLogic p) (blobStreamOut p) v
    (nextBlobStreamOutChannel p) (blobStreamOutClientRequestId p) (stepsBehindStats p)
    (debugCounter p) (isUsed p) (useDebugStreams p) (noRangesToSendCounter p) (phase p)
    (gameState p).
Definition set_stepsBehindStats (v : StatsInt) (p : NimbleServerTransportConnection) :
    NimbleServerTransportConnection :=
  mk _ _ _ _ (id p) (transportConnectionId p) (transportIndex p)
    (connectedFromConnectRequestId p) (secret p) (assignedParty p)
    (orderedDatagramInLogic p) (orderedDatagramOutLogic p) (blobStreamOut p)
    (blobStreamLogicOut p) (nextBlobStreamOutChannel p) (blobStreamOutClientRequestId p) v
    (debugCounter p) (isUsed p) (useDebugStreams p) (noRangesToSendCounter p) (phase p)
    (gameState p).
Definition set_debugCounter (v : Z) (p : NimbleServerTransportConnection) :
    NimbleServerTransportConnection :=
  mk _ _ _ _ (id p) (transportConnectionId p) (transportIndex p)
    (connectedFromConnectRequestId p) (secret p) (assignedParty p)
    (orderedDatagramInLogic p) (orderedDatagramOutLogic p) (blobStreamOut p)
    (blobStreamLogicOut p) (nextBlobStreamOutChannel p) (blobStreamOutClientRequestId p)
    (stepsBehindStats p) v (isUsed p) (useDebugStreams p) (noRangesToSendCounter p)
    (phase p) (gameState p).
Definition set_isUsed (v : bool) (p : NimbleServerTransportConnection) :
    NimbleServerTransportConnection :=
  mk _ _ _ _ (id p) (transportConnectionId p) (transportIndex p)
    (connectedFromConnectRequestId p) (secret p) (assignedParty p)
    (orderedDatagramInLogic p) (orderedDatagramOutLogic p) (blobStreamOut p)
    (blobStreamLogicOut p) (nextBlobStreamOutChannel p) (blobStreamOutClientRequestId p)
    (stepsBehindStats p) (debugCounter p) v (useDebugStreams p) (noRangesToSendCounter p)
    (phase p) (gameState p).
Definition set_noRangesToSendCounter (v : Z) (p : NimbleServerTransportConnection) :
    NimbleServerTransportConnection :=
  mk _ _ _ _ (id p) (transportConnectionId p) (transportIndex p)
    (connectedFromConnectRequestId p) (secret p) (assignedParty p)
    (orderedDatagramInLogic p) (orderedDatagramOutLogic p) (blobStreamOut p)
    (blobStreamLogicOut p) (nextBlobStreamOutChannel p) (blobStreamOutClientRequestId p)
    (stepsBehindStats p) (debugCounter p) (isUsed p) (useDebugStreams p) v (phase p)
    (gameState p).
Definition set_phase (v : NimbleServerTransportConnectionPhase) (p : NimbleServerTransportConnection) :
    NimbleServerTransportConnection :=
  mk _ _ _ _ (id p) (transportConnectionId p) (transportIndex p)
    (connectedFromConnectRequestId p) (secret p) (assignedParty p)
    (orderedDatagramInLogic p) (orderedDatagramOutLogic p) (blobStreamOut p)
    (blobStreamLogicOut p) (nextBlobStreamOutChannel p) (blobStreamOutClientRequestId p)
    (stepsBehindStats p) (debugCounter p) (isUsed p) (useDebugStreams p)
    (noRangesToSendCounter p) v (gameState p).
Definition set_gameState (v : GameState) (p : NimbleServerTransportConnection) :
    NimbleServerTransportConnection :=
  mk _ _ _ _ (id p) (transportConnectionId p) (transportIndex p)
    (connectedFromConnectRequestId p) (secret p) (assignedParty p)
    (orderedDatagramInLogic p) (orderedDatagramOutLogic p) (blobStreamOut p)
    (blobStreamLogicOut p) (nextBlobStreamOutChannel p) (blobStreamOutClientRequestId p)
    (stepsBehindStats p) (debugCounter p) (isUsed p) (useDebugStreams p)
    (noRangesToSendCounter p) (phase p) v.
End Setters.
End Conn.
Abbreviation TransportConnection := Conn.NimbleServerTransportConnection.

Section TransportConnection.
Context `{OrderedDatagram} `{!BlobStream} `{Stats} `{ImprintAllocator}.

Definition transportConnectionInit (self : TransportConnection) (maxGameStateOctetSize : Z) :
    TransportConnection :=
  Conn.mk _ _ _ _ (Conn.id self) (Conn.transportConnectionId self) (Conn.transportIndex self)
    (Conn.connectedFromConnectRequestId self) (Conn.secret self) (Conn.assignedParty self)
    orderedDatagramInLogicInit orderedDatagramOutLogicInit
    (Conn.blobStreamOut self) (Conn.blobStreamLogicOut self) 127 0
    (statsIntInit 60) 0 true true 0 NbTransportConnectionPhaseIdle
    (nimbleServerGameStateInit maxGameStateOctetSize).

Definition transportConnectionDisconnect (self : TransportConnection) : TransportConnection :=
  Conn.set_phase NbTransportConnectionPhaseDisconnected (Conn.set_isUsed false self).

Definition transportConnectionSetGameStateTickId (self : TransportConnection) :
    TransportConnection :=
  Conn.set_phase NbTransportConnectionPhaseInitialStateDetermined self.

Definition transportConnectionWriteHeader (self : TransportConnection) (outStream : FldOutStream)
    (clientTime : Z) : FldOutStream * Z :=
  let outStream := orderedDatagramOutLogicPrepare (Conn.orderedDatagramOutLogic self) outStream in
  fldOutStreamWriteUInt16 outStream clientTime.

Definition transportConnectionCommitHeader (self : TransportConnection) : TransportConnection :=
  Conn.set_orderedDatagramOutLogic
    (orderedDatagramOutLogicCommit (Conn.orderedDatagramOutLogic self)) self.

End TransportConnection.
