(* ===== verification/LocalParties.v ===== *)
(** * The collection of parties (lib/local_parties.c)

    A fixed array of parties. A pointer to a party is its position in the
    array; the functions that reach participants or transport connections
    through a party take those arrays too. *)

From S2P Require Import Prelude.
From S2P Require Import ExternalLibs.
From S2P Require Import ExternalModels.
From S2P Require Import CircularBuffer.
From S2P Require Import ConnectionQuality.
From S2P Require Import GameState.
From S2P Require Import TransportConnection.
From S2P Require Import Participants.
From S2P Require Import LocalParty.

Module Parties.
Record NimbleServerLocalParties `{Stats} := mk {
  parties : list NimbleServerLocalParty;
  partiesCount : Z;
  capacityCount : Z;
  maxLocalPartyParticipantCount : Z;
  maxSingleParticipantStepOctetCount : Z;
}.
Section Setters.
Context `{Stats}.
Definition set_parties (v : list NimbleServerLocalParty) (p : NimbleServerLocalParties) :
    NimbleServerLocalParties :=
  mk _ v (partiesCount p) (capacityCount p) (maxLocalPartyParticipantCount p)
    (maxSingleParticipantStepOctetCount p).
Definition set_partiesCount (v : Z) (p : NimbleServerLocalParties) :
    NimbleServerLocalParties :=
  mk _ (parties p) v (capacityCount p) (maxLocalPartyParticipantCount p)
    (maxSingleParticipantStepOctetCount p).
End Setters.
End Parties.
Abbreviation LocalParties := Parties.NimbleServerLocalParties.

Section LocalParties.
Context `{Clog} `{OrderedDatagram} `{!BlobStream} `{NimbleSteps} `{!NimbleSerialize} `{Stats}.
Implicit Types (self : LocalParties) (pool : NimbleServerParticipants).

(** A party in cleared memory; the statistics are set by the initialisation. *)
Definition zero_local_party : NimbleServerLocalParty :=
  Party.mk _ 0 false NimbleServerLocalPartyStateNormal
    (Refs.mk 0 (replicate (Z.to_nat NIMBLE_SERIALIZE_MAX_LOCAL_PLAYERS) 0%nat))
    (statsIntInit 60) None 0 0 (Quality.mk 0 0 0 false) (Delayed.mk 0) 0 0 0 0.

Definition nimbleServerLocalPartiesInit (maxCount maxLocalPartyParticipantCount
    maxSingleParticipantOctetCount : Z) : outcome LocalParties :=
  let parties := replicate (Z.to_nat maxCount) zero_local_party in
  parties ← for_each (Z.to_nat maxCount) 0 (fun i parties =>
    party ← load parties i;
    store parties i (nimbleServerLocalPartyInit party (u8 (Z.of_nat i)))) parties;
  Ret (Parties.mk _ parties 0 maxCount maxLocalPartyParticipantCount
         maxSingleParticipantOctetCount).

Definition nimbleServerLocalPartiesReset self : outcome LocalParties :=
  parties ← for_each (Z.to_nat (Parties.capacityCount self)) 0 (fun i parties =>
    party ← load parties i;
    store parties i (nimbleServerLocalPartyReset party)) (Parties.parties self);
  Ret (Parties.set_parties parties self).

(** The address is computed whatever the id; only its use is checked. *)
Definition nimbleServerLocalPartiesFindParty self (partyId : Z) : outcome nat :=
  _ ← (if Parties.capacityCount self <=? partyId then CLOG_ERROR else Ret tt);
  Ret (Z.to_nat partyId).

(** Whether the party plays over the transport connection with the given id. *)
Definition plays_over (connections : list TransportConnection) (party : NimbleServerLocalParty)
    (transportConnectionId : Z) : outcome bool :=
  if Party.isUsed party then
    match Party.transportConnection party with
    | Some c =>
        connection ← load connections c;
        Ret (Conn.transportConnectionId connection =? transportConnectionId)
    | None => Ret false
    end
  else Ret false.

Definition nimbleServerLocalPartiesFindPartyForTransport self
    (connections : list TransportConnection) (transportConnectionId : Z) : outcome (option nat) :=
  r ← for_loop (Z.to_nat (Parties.partiesCount self)) 0 (fun i (_ : unit) =>
    party ← load (Parties.parties self) i;
    found ← plays_over connections party transportConnectionId;
    Ret (if found : bool then Return (Some i) else Continue tt)) tt;
  Ret (match r with Return p => p | Continue _ => None end).

Definition findFreePartyPlaceButDoNotReserveItYet self : outcome (LocalParties * option nat) :=
  r ← for_loop (Z.to_nat (Parties.capacityCount self)) 0 (fun i (_ : unit) =>
    party ← load (Parties.parties self) i;
    if Party.isUsed party then Ret (Continue tt)
    else
      parties ← store (Parties.parties self) i (Party.set_id (u8 (Z.of_nat i)) party);
      Ret (Return (Parties.set_parties parties self, Some i))) tt;
  Ret (match r with Return result => result | Continue _ => (self, None) end).

(** The local array of 16 pointers, of which the first ones are set. *)
Definition createdParticipants (results : list nat) : list (option nat) :=
  (Some <$> results) ++ replicate (16 - length results) None.

Definition addParty self (p : nat) (transportConnection : option nat)
    (createdParticipants : list (option nat)) (localParticipantCount : Z) : outcome LocalParties :=
  party ← load (Parties.parties self) p;
  let party := nimbleServerLocalPartyReInit party transportConnection in
  let self := Parties.set_partiesCount (u64 (Parties.partiesCount self + 1)) self in
  let party := Party.set_isUsed true party in
  references ← for_each (Z.to_nat localParticipantCount) 0 (fun i references =>
    created ← load createdParticipants i;
    participant ← initialized LocalVariable created;
    store references i participant)
    (Refs.participantReferences (Party.participantReferences party));
  let party := Party.set_participantReferences (Refs.mk localParticipantCount references) party in
  parties ← store (Parties.parties self) p party;
  Ret (Parties.set_parties parties self).

(** The last component of the result of [Prepare] and [Create] is what they
    store in the out parameter: nothing, NULL or a party. *)
Definition nimbleServerLocalPartiesPrepare self pool (latestAuthoritativeStepId : Z)
    (partyInfo : NimbleSerializeLocalPartyInfo) :
    outcome (LocalParties * NimbleServerParticipants * Z * option (option nat)) :=
  '(self, found) ← findFreePartyPlaceButDoNotReserveItYet self;
  match found with
  | None => Ret (self, pool, NimbleServerErrOutOfParticipantMemory, None)
  | Some p =>
      r ← for_loop (Z.to_nat (info_participantCount partyInfo)) 0 (fun i '(pool, created) =>
        participantId ← load (info_participantIds partyInfo) i;
        '(pool, (errorCode, participant)) ←
          nimbleServerParticipantsPrepare pool participantId (Some p) latestAuthoritativeStepId;
        if errorCode <? 0 then Ret (Return (pool, errorCode))
        else
          created ← store created i participant;
          Ret (Continue (pool, created)))
        (pool, createdParticipants []);
      match r with
      | Return (pool, errorCode) => Ret (self, pool, errorCode, Some None)
      | Continue (pool, created) =>
          self ← addParty self p None created 1;
          party ← load (Parties.parties self) p;
          let party := Party.set_isUsed true party in
          let party := Party.set_state NimbleServerLocalPartyStateWaitingForReJoin party in
          let party := Party.set_waitingForReconnectTimer 0 party in
          parties ← store (Parties.parties self) p party;
          Ret (Parties.set_parties parties self, pool, 0, Some (Some p))
      end
  end.

Definition nimbleServerLocalPartiesCreate self pool (transportConnection : option nat)
    (joinInfo : list NimbleSerializeJoinGameRequestPlayer) (latestAuthoritativeStepId : Z)
    (localParticipantCount : Z) :
    outcome (LocalParties * NimbleServerParticipants * Z * option (option nat)) :=
  '(self, found) ← findFreePartyPlaceButDoNotReserveItYet self;
  match found with
  | None => Ret (self, pool, NimbleServerErrOutOfParticipantMemory, None)
  | Some p =>
      '(pool, (errorCode, results)) ←
        nimbleServerParticipantsJoin pool joinInfo localParticipantCount (Some p)
          latestAuthoritativeStepId;
      if errorCode <? 0 then Ret (self, pool, errorCode, Some None)
      else
        self ← addParty self p transportConnection (createdParticipants results)
                 localParticipantCount;
        Ret (self, pool, 0, Some (Some p))
  end.

Definition nimbleServerLocalPartiesRemove self (p : nat) : outcome LocalParties :=
  party ← load (Parties.parties self) p;
  _ ← CLOG_ASSERT (Party.isUsed party);
  _ ← CLOG_ASSERT (negb (Parties.partiesCount self =? 0));
  let self := Parties.set_partiesCount (u64 (Parties.partiesCount self - 1)) self in
  parties ← store (Parties.parties self) p (nimbleServerLocalPartyReset party);
  Ret (Parties.set_parties parties self).

End LocalParties.

(** ** Invariants *)
Section PartiesInvariant.
Context `{NimbleSteps} `{!NimbleStepsLaws} `{Stats} `{NimbleSerialize}.
Implicit Types (self : LocalParties) (party : NimbleServerLocalParty).

(** A party whose pointers are valid for [npool] participants and [nconn]
    transport connections. *)
Record party_wf (npool nconn : nat) party : Prop := {
  party_id : 0 <= Party.id party < 256;
  party_valid : party_ok npool party;
  party_slots :
    Z.of_nat (length (Refs.participantReferences (Party.participantReferences party)))
    = NIMBLE_SERIALIZE_MAX_LOCAL_PLAYERS;
  party_connection : forall c, Party.transportConnection party = Some c -> (c < nconn)%nat;
}.

Record parties_wf (npool nconn : nat) self : Prop := {
  parties_capacity : 0 <= Parties.capacityCount self <= 64;
  parties_length :
    Z.of_nat (length (Parties.parties self)) = Parties.capacityCount self;
  parties_each : Forall (party_wf npool nconn) (Parties.parties self);
  parties_count : Parties.partiesCount self = count_if Party.isUsed (Parties.parties self);
}.

(** Every party in use owns the participants it refers to: each is in use, is
    not leaving, and points back to the party. In particular no participant
    belongs to two parties. *)
Definition owns (pool : list NimbleServerParticipant) (i : nat) party : Prop :=
  forall p, p ∈ referenced (Party.participantReferences party) ->
    exists participant, pool !! p = Some participant /\
      Participant.isUsed participant = true /\ Participant.inParty participant = Some i /\
      Participant.state participant <> NimbleServerParticipantStateLeaving.

Definition owned (parties : list NimbleServerLocalParty) (pool : list NimbleServerParticipant) :
    Prop :=
  forall i party, parties !! i = Some party -> Party.isUsed party = true -> owns pool i party.

Lemma owned_party_insert parties pool i party party' :
  owned parties pool -> parties !! i = Some party ->
  (Party.isUsed party' = true -> owns pool i party') ->
  owned (<[i := party']> parties) pool.
Proof.
  intros Hown Hi Hnew j q. destruct (decide (i = j)) as [<-|Hne].
  - rewrite list_lookup_insert_eq by (by eapply lookup_lt_Some). intros [= <-]. apply Hnew.
  - rewrite list_lookup_insert_ne by done. apply Hown.
Qed.

(** A participant that no party in use owns may change in any way. *)
Lemma owned_pool_insert parties pool p participant participant' :
  owned parties pool -> pool !! p = Some participant ->
  Participant.isUsed participant = false \/
  Participant.state participant = NimbleServerParticipantStateLeaving \/
  (Participant.isUsed participant' = Participant.isUsed participant /\
   Participant.inParty participant' = Participant.inParty participant /\
   Participant.state participant' <> NimbleServerParticipantStateLeaving) ->
  owned parties (<[p := participant']> pool).
Proof.
  intros Hown Hp Hcase i party Hi Hu q Hq.
  destruct (Hown i party Hi Hu q Hq) as (o & Ho & Hou & Hop & Hos).
  destruct (decide (p = q)) as [<-|Hne].
  - simplify_eq. destruct Hcase as [?|[?|(Hu' & Hp' & Hs')]]; [congruence|congruence|].
    exists participant'. rewrite list_lookup_insert_eq by (by eapply lookup_lt_Some).
    rewrite Hu', Hp'. auto.
  - exists o. rewrite list_lookup_insert_ne by done. auto.
Qed.

Lemma parties_wf_insert npool nconn self i party party' :
  parties_wf npool nconn self -> Parties.parties self !! i = Some party ->
  party_wf npool nconn party' ->
  parties_wf npool nconn
    (Parties.mk _ (<[i := party']> (Parties.parties self))
       (Parties.partiesCount self - Z.b2z (Party.isUsed party) + Z.b2z (Party.isUsed party'))
       (Parties.capacityCount self) (Parties.maxLocalPartyParticipantCount self)
       (Parties.maxSingleParticipantStepOctetCount self)).
Proof.
  intros Hwf Hi Hp. split; simpl.
  - apply Hwf.
  - rewrite length_insert. apply Hwf.
  - apply Forall_insert; [apply Hwf|done].
  - rewrite (count_if_insert _ _ _ _ _ Hi). f_equal. f_equal. apply Hwf.
Qed.

Lemma parties_count_range npool nconn self : parties_wf npool nconn self ->
  0 <= Parties.partiesCount self <= Z.of_nat (length (Parties.parties self)) /\
  Z.of_nat (length (Parties.parties self)) <= 64.
Proof.
  intros Hwf. rewrite (parties_count _ _ _ Hwf).
  pose proof (parties_capacity _ _ _ Hwf). pose proof (parties_length _ _ _ Hwf).
  pose proof (count_if_range Party.isUsed (Parties.parties self)). lia.
Qed.

(** The party that [addParty] makes out of a free one, for one participant. *)
Definition added party (transportConnection : option nat) (participant : nat) :
    NimbleServerLocalParty :=
  Party.set_participantReferences
    (Refs.mk 1 (<[0%nat := participant]>
       (Refs.participantReferences (Party.participantReferences party))))
    (Party.set_isUsed true (nimbleServerLocalPartyReInit party transportConnection)).

Lemma referenced_added party c p :
  (0 < length (Refs.participantReferences (Party.participantReferences party)))%nat ->
  referenced (Party.participantReferences (added party c p)) = [p].
Proof.
  unfold referenced. simpl.
  by destruct (Refs.participantReferences (Party.participantReferences party)); simpl; [lia|].
Qed.

Lemma added_wf `{!NimbleSerializeLaws} npool nconn party c p :
  party_wf npool nconn party -> (p < npool)%nat ->
  (forall i, c = Some i -> (i < nconn)%nat) -> party_wf npool nconn (added party c p).
Proof.
  intros [Hid [Hr Ht Hm Hd] Hl Hc] Hp Hconn. pose proof max_local_players.
  split; simpl; [done| |by rewrite length_insert|done].
  split; simpl; try done. split; simpl; [rewrite length_insert; lia|].
  intros [|i] q Hi Hq; [|lia]. rewrite list_lookup_insert_eq in Hq by lia. by simplify_eq.
Qed.

Lemma set_id_wf npool nconn party i : 0 <= i < 256 ->
  party_wf npool nconn party -> party_wf npool nconn (Party.set_id i party).
Proof. by intros Hi [Hid [] ? ?]. Qed.

Lemma reset_wf npool npool' nconn party :
  party_wf npool nconn party -> party_wf npool' nconn (nimbleServerLocalPartyReset party).
Proof.
  intros [Hid [[Hr Hp] Ht Hm Hd] Hl Hc]. split; simpl; try done.
  split; simpl; try done. split; simpl; [lia|]. intros i p Hi. lia.
Qed.
End PartiesInvariant.

(** ** The operations on consistent parties *)
Section PartiesOperations.
Context `{Clog} `{OrderedDatagram} `{!BlobStream} `{NimbleSteps} `{!NimbleSerialize} `{Stats}.
Context `{!NimbleStepsLaws} `{!NimbleSerializeLaws}.
Implicit Types (self : LocalParties) (party : NimbleServerLocalParty)
  (pool : NimbleServerParticipants).

Abbreviation free_party := (list_find (fun party => Party.isUsed party = false)).

Lemma runs_find_free {E} self (Q : LocalParties * option nat -> Prop) :
  Z.of_nat (length (Parties.parties self)) = Parties.capacityCount self ->
  Parties.capacityCount self <= 64 ->
  match free_party (Parties.parties self) with
  | Some (i, party) =>
      Q (Parties.set_parties (<[i := Party.set_id (Z.of_nat i) party]> (Parties.parties self)) self,
         Some i)
  | None => Q (self, None)
  end ->
  sat E (findFreePartyPlaceButDoNotReserveItYet self) Q.
Proof.
  intros Hl Hcap HQ. unfold findFreePartyPlaceButDoNotReserveItYet.
  rewrite <- Hl, Nat2Z.id. eapply runs_bind_mono.
  { apply (runs_for (fun i _ => forall j party, (j < i)%nat ->
      Parties.parties self !! j = Some party -> Party.isUsed party = true)
      (fun r => match r with
                | (self', Some i) => exists party, free_party (Parties.parties self) = Some (i, party) /\
                    self' = Parties.set_parties
                      (<[i := Party.set_id (Z.of_nat i) party]> (Parties.parties self)) self
                | (_, None) => False
                end)); [lia|].
    intros j _ Hj Hused.
    destruct (lookup_lt_is_Some_2 (Parties.parties self) j) as [party Hp]; [lia|].
    run. destruct (Party.isUsed party) eqn:Hu; simpl.
    - intros k q Hk Hq. destruct (decide (k = j)) as [->|]; [congruence|]. apply (Hused k q); [lia|done].
    - run. rewrite u8_small by lia. exists party. split; [|done].
      apply list_find_Some. split; [done|]. split; [done|]. intros k q Hq Hk.
      rewrite (Hused k q Hk Hq). done. }
  intros [s|[self' [i|]]]; simpl.
  - intros Hused. destruct (free_party (Parties.parties self)) as [[i party]|] eqn:Hf; [|done].
    apply list_find_Some in Hf as (Hi & Hu & _).
    rewrite (Hused i party) in Hu; [done|by eapply lookup_lt_Some|done].
  - intros (party & Hf & ->). by rewrite Hf in HQ.
  - done.
Qed.

Lemma runs_add_party {E} self p party c created q (Q : LocalParties -> Prop) :
  Parties.parties self !! p = Some party -> created !! 0%nat = Some (Some q) ->
  (0 < length (Refs.participantReferences (Party.participantReferences party)))%nat ->
  Q (Parties.mk _ (<[p := added party c q]> (Parties.parties self))
       (u64 (Parties.partiesCount self + 1)) (Parties.capacityCount self)
       (Parties.maxLocalPartyParticipantCount self)
       (Parties.maxSingleParticipantStepOctetCount self)) ->
  sat E (addParty self p c created 1) Q.
Proof.
  intros Hp Hq Hl HQ. unfold addParty. run.
  change (Z.to_nat 1) with 1%nat. simpl. run. unfold store at 1.
  destruct (Refs.participantReferences (Party.participantReferences party)) as [|r refs] eqn:E';
    [simpl in Hl; lia|].
  simpl. run. unfold added in HQ. rewrite E' in HQ. exact HQ.
Qed.

(** What [Create] and [Prepare] do with a free party and a new participant. *)
Definition with_new_party self (i : nat) party : LocalParties :=
  Parties.mk _ (<[i := party]> (Parties.parties self)) (Parties.partiesCount self + 1)
    (Parties.capacityCount self) (Parties.maxLocalPartyParticipantCount self)
    (Parties.maxSingleParticipantStepOctetCount self).

Lemma owned_new_party parties (pool : list NimbleServerParticipant) i party party' p o o' :
  owned parties pool -> parties !! i = Some party -> pool !! p = Some o ->
  Participant.isUsed o = false -> Participant.isUsed o' = true ->
  Participant.inParty o' = Some i ->
  Participant.state o' <> NimbleServerParticipantStateLeaving ->
  referenced (Party.participantReferences party') = [p] ->
  owned (<[i := party']> parties) (<[p := o']> pool).
Proof.
  intros Hown Hi Hp Hu Hu' Hin Hst Href. eapply owned_party_insert; [|done|].
  - eapply owned_pool_insert; [done..|by left].
  - intros _ q. rewrite Href. intros ->%list_elem_of_singleton. exists o'.
    rewrite list_lookup_insert_eq by (by eapply lookup_lt_Some). done.
Qed.

Lemma parties_wf_new npool nconn self i party party' :
  parties_wf npool nconn self -> Parties.parties self !! i = Some party ->
  Party.isUsed party = false -> Party.isUsed party' = true -> party_wf npool nconn party' ->
  parties_wf npool nconn (with_new_party self i party').
Proof.
  intros Hwf Hi Hu Hu' Hp. pose proof (parties_wf_insert _ _ _ _ _ _ Hwf Hi Hp) as Hnew.
  rewrite Hu, Hu' in Hnew. simpl in Hnew. rewrite Z.sub_0_r in Hnew. exact Hnew.
Qed.

Lemma parties_wf_id npool nconn self i party id : 0 <= id < 256 ->
  parties_wf npool nconn self -> Parties.parties self !! i = Some party ->
  parties_wf npool nconn
    (Parties.set_parties (<[i := Party.set_id id party]> (Parties.parties self)) self).
Proof.
  intros Hid Hwf Hi. pose proof (Forall_lookup_1 _ _ _ _ (parties_each _ _ _ Hwf) Hi) as Hp.
  pose proof (parties_wf_insert _ _ _ _ _ _ Hwf Hi (set_id_wf _ _ _ id Hid Hp)) as Hnew.
  simpl in Hnew. rewrite Z.sub_add in Hnew. exact Hnew.
Qed.

Lemma owned_id parties (pool : list NimbleServerParticipant) i party id :
  owned parties pool -> parties !! i = Some party ->
  owned (<[i := Party.set_id id party]> parties) pool.
Proof.
  intros Hown Hi. eapply owned_party_insert; [done..|]. intros Hu. by apply (Hown i party).
Qed.

(** Joining with one player. *)
Lemma runs_create {E : halt -> Prop} npool nconn self pool c players stepId
    (Q : LocalParties * NimbleServerParticipants * Z * option (option nat) -> Prop) :
  parties_wf npool nconn self -> pool_wf pool ->
  (players !! 0%nat = None -> E (UninitializedRead PlayerOfRequest)) ->
  match free_party (Parties.parties self) with
  | None => Q (self, pool, NimbleServerErrOutOfParticipantMemory, None)
  | Some (i, party) =>
      let party := Party.set_id (Z.of_nat i) party in
      if Pool.participantCount pool =? Pool.participantCapacity pool
      then Q (Parties.set_parties (<[i := party]> (Parties.parties self)) self, pool,
              NimbleServerErrSessionFull, Some None)
      else forall player id rest p s,
        players !! 0%nat = Some player ->
        contents (Pool.freeList pool) = Z.of_nat id :: rest ->
        Pool.participants pool !! id = Some p -> Participant.isUsed p = false ->
        (id < 64)%nat -> cbuf_wf s -> contents s = rest ->
        Q (with_new_party self i (added party (Some c) id),
           Pool.mk _ (<[id := joined p id player i stepId]> (Pool.participants pool))
             (Pool.participantCapacity pool) (Pool.participantCount pool + 1) s,
           0, Some (Some i))
  end ->
  sat E (nimbleServerLocalPartiesCreate self pool (Some c) players stepId 1) Q.
Proof.
  intros Hwf Hpool Hnone HQ. unfold nimbleServerLocalPartiesCreate. apply runs_bind.
  pose proof (parties_count_range _ _ _ Hwf) as Hrange.
  apply runs_find_free; [apply Hwf|apply Hwf|].
  destruct (free_party (Parties.parties self)) as [[i party]|] eqn:Hf; [|done].
  apply list_find_Some in Hf as (Hi & Hu & _). apply runs_bind.
  apply runs_join; [done..|].
  destruct (Pool.participantCount pool =? Pool.participantCapacity pool); [done|].
  intros player id rest p s Hplayer Hc Hp Hpu Hid Hs Hrest.
  change (0 <? 0) with false. cbn beta iota. apply runs_bind.
  pose proof (Forall_lookup_1 _ _ _ _ (parties_each _ _ _ Hwf) Hi) as Hparty.
  pose proof (party_slots _ _ _ Hparty). pose proof max_local_players.
  pose proof (lookup_lt_Some _ _ _ Hi).
  eapply (runs_add_party _ i (Party.set_id (Z.of_nat i) party)).
  - simpl. by apply list_lookup_insert_eq.
  - done.
  - simpl. lia.
  - apply runs_ret. specialize (HQ player id rest p s Hplayer Hc Hp Hpu Hid Hs Hrest).
    unfold with_new_party in HQ. simpl. rewrite u64_small by lia.
    by rewrite list_insert_insert_eq.
Qed.

(** The invariants after [Create] or [Prepare] made a party. *)
Lemma new_party_invariants npool nconn self pool i party c id p o' :
  parties_wf npool nconn self -> pool_wf pool ->
  Forall (participant_ok (length (Parties.parties self))) (Pool.participants pool) ->
  owned (Parties.parties self) (Pool.participants pool) ->
  length (Pool.participants pool) = npool -> (forall k, c = Some k -> (k < nconn)%nat) ->
  Parties.parties self !! i = Some party -> Party.isUsed party = false ->
  Pool.participants pool !! id = Some p -> Participant.isUsed p = false ->
  participant_ok (length (Parties.parties self)) o' ->
  Participant.isUsed o' = true -> Participant.inParty o' = Some i ->
  Participant.state o' <> NimbleServerParticipantStateLeaving ->
  let self' := with_new_party self i (added (Party.set_id (Z.of_nat i) party) c id) in
  let l := <[id := o']> (Pool.participants pool) in
  parties_wf npool nconn self' /\
  Forall (participant_ok (length (Parties.parties self'))) l /\
  owned (Parties.parties self') l /\ length l = npool /\
  length (Parties.parties self') = length (Parties.parties self).
Proof.
  intros Hwf Hpool Hok Hown Hlen Hc Hi Hu Hp Hpu Ho' Hu' Hin Hst self' l.
  pose proof (Forall_lookup_1 _ _ _ _ (parties_each _ _ _ Hwf) Hi) as Hparty.
  pose proof (parties_count_range _ _ _ Hwf). pose proof (lookup_lt_Some _ _ _ Hi).
  pose proof (lookup_lt_Some _ _ _ Hp). subst self' l. simpl. rewrite !length_insert.
  split; [|split; [|split; [|done]]].
  - eapply parties_wf_new; try done. apply added_wf; [apply set_id_wf; [lia|done]|lia|done].
  - by apply Forall_insert.
  - eapply owned_new_party; try done. apply (referenced_added (Party.set_id _ party)).
    pose proof (party_slots _ _ _ Hparty). pose proof max_local_players. simpl. lia.
Qed.

(** Initialisation, and the reset of all parties: no party is in use. *)
Lemma initial_party_wf npool nconn id : 0 <= id < 256 ->
  party_wf npool nconn (nimbleServerLocalPartyInit zero_local_party id).
Proof.
  intros Hid. pose proof max_local_players. split; simpl; [done| | |done].
  - split; simpl; try lia. split; simpl; [lia|]. intros i p Hi. lia.
  - rewrite length_replicate. lia.
Qed.

Lemma runs_parties_init {E} maxCount a b :
  0 <= maxCount <= 64 ->
  sat E (nimbleServerLocalPartiesInit maxCount a b) (fun self =>
    (forall npool nconn, parties_wf npool nconn self) /\ Parties.partiesCount self = 0 /\
    Parties.capacityCount self = maxCount).
Proof.
  intros Hn. unfold nimbleServerLocalPartiesInit. apply runs_bind.
  set (l := replicate (Z.to_nat maxCount) zero_local_party).
  assert (Hl : length l = Z.to_nat maxCount) by apply length_replicate.
  rewrite <- Hl. apply runs_for_array. run. split; [|done]. intros npool nconn. split; simpl.
  - lia.
  - rewrite length_imap. lia.
  - apply Forall_lookup. intros i party. rewrite list_lookup_imap. intros Hi.
    destruct (l !! i) as [q|] eqn:Hq; [|done]. injection Hi as <-.
    pose proof (lookup_lt_Some _ _ _ Hq). unfold l in Hq.
    apply lookup_replicate in Hq as [-> _]. apply initial_party_wf, u8_range.
  - symmetry. apply count_if_zero, Forall_lookup. intros i party. rewrite list_lookup_imap.
    destruct (l !! i); [|done]. by intros [= <-].
Qed.

Lemma runs_parties_reset {E} npool nconn self :
  parties_wf npool nconn self ->
  sat E (nimbleServerLocalPartiesReset self) (fun self' =>
    Parties.parties self' = nimbleServerLocalPartyReset <$> Parties.parties self /\
    Parties.partiesCount self' = Parties.partiesCount self /\
    Parties.capacityCount self' = Parties.capacityCount self /\
    (Parties.partiesCount self = 0 -> forall npool', parties_wf npool' nconn self')).
Proof.
  intros Hwf. unfold nimbleServerLocalPartiesReset.
  rewrite <- (parties_length _ _ _ Hwf), Nat2Z.id. apply runs_bind.
  apply (runs_for_array (const nimbleServerLocalPartyReset)). rewrite imap_const. run.
  split; [done|]. split; [done|]. split; [by rewrite (parties_length _ _ _ Hwf)|].
  intros Hzero npool'.
  destruct Hwf as [Hcap Hlen Heach Hcount]. split; simpl; [done|by rewrite length_fmap| |].
  - apply Forall_fmap. eapply Forall_impl; [|exact Heach]. intros party. apply reset_wf.
  - rewrite Hzero. symmetry. by apply count_if_zero, Forall_fmap, Forall_true.
Qed.

(** Whether a party in use plays over the connection with the given id. *)
Definition plays (connections : list TransportConnection) party (id : Z) : bool :=
  Party.isUsed party &&
  match Party.transportConnection party ≫= (connections !!.) with
  | Some connection => Conn.transportConnectionId connection =? id
  | None => false
  end.

Lemma runs_plays_over {E} npool connections party id :
  party_wf npool (length connections) party ->
  sat E (plays_over connections party id) (fun found => found = plays connections party id).
Proof.
  intros Hp. unfold plays_over, plays. destruct (Party.isUsed party); [|done].
  destruct (Party.transportConnection party) as [c|] eqn:Hc; simpl; [|done].
  destruct (lookup_lt_is_Some_2 connections c) as [connection Hl].
  { by apply (party_connection _ _ _ Hp). }
  run. by rewrite Hl.
Qed.

Lemma runs_find_for_transport {E} npool self connections id :
  parties_wf npool (length connections) self ->
  sat E (nimbleServerLocalPartiesFindPartyForTransport self connections id) (fun found =>
    let first := Z.to_nat (Parties.partiesCount self) in
    match found with
    | Some i => (i < first)%nat /\ exists party, Parties.parties self !! i = Some party /\
        plays connections party id = true /\
        forall j party', (j < i)%nat -> Parties.parties self !! j = Some party' ->
          plays connections party' id = false
    | None => forall j party, (j < first)%nat -> Parties.parties self !! j = Some party ->
        plays connections party id = false
    end).
Proof.
  intros Hwf. unfold nimbleServerLocalPartiesFindPartyForTransport.
  pose proof (parties_count_range _ _ _ Hwf).
  eapply runs_bind_mono.
  { apply (runs_for (fun i _ => forall j party, (j < i)%nat ->
      Parties.parties self !! j = Some party -> plays connections party id = false)
      (fun found => exists i, found = Some i /\ (i < Z.to_nat (Parties.partiesCount self))%nat /\
         exists party, Parties.parties self !! i = Some party /\
         plays connections party id = true /\
         forall j party', (j < i)%nat -> Parties.parties self !! j = Some party' ->
           plays connections party' id = false)); [lia|].
    intros j _ Hj Hnone.
    destruct (lookup_lt_is_Some_2 (Parties.parties self) j) as [party Hp]; [lia|].
    run. eapply runs_mono; [eapply runs_plays_over, Forall_lookup_1; [apply Hwf|done]|].
    intros found ->. run. destruct (plays connections party id) eqn:Hplays; simpl.
    - exists j. split; [done|]. split; [lia|]. by exists party.
    - intros k q Hk Hq. destruct (decide (k = j)) as [->|]; [congruence|].
      apply (Hnone k q); [lia|done]. }
  intros [s|found]; simpl; [done|]. by intros (i & -> & Hi & Hrest).
Qed.

(** The first party that plays over the connection is found. *)
Lemma find_first npool self connections id p party :
  parties_wf npool (length connections) self ->
  Z.of_nat p < Parties.partiesCount self -> Parties.parties self !! p = Some party ->
  plays connections party id = true ->
  (forall j party', (j < p)%nat -> Parties.parties self !! j = Some party' ->
     plays connections party' id = false) ->
  nimbleServerLocalPartiesFindPartyForTransport self connections id = Ret (Some p).
Proof.
  intros Hwf Hlt Hp Hplays Hfirst.
  destruct (runs_inv _ _ (runs_find_for_transport (E := fun _ => False) _ _ _ id Hwf))
    as ([i|] & -> & Hr); cbv zeta in Hr.
  - destruct Hr as (_ & party' & Hi & Hplays' & Hfirst'). do 2 f_equal.
    destruct (Nat.lt_trichotomy i p) as [Hl|[->|Hg]]; [|done|].
    + by rewrite (Hfirst i party' Hl Hi) in Hplays'.
    + by rewrite (Hfirst' p party Hg Hp) in Hplays.
  - rewrite (Hr p party) in Hplays; [done|lia|done].
Qed.

Lemma runs_remove {E} npool nconn self p party (Q : LocalParties -> Prop) :
  parties_wf npool nconn self -> Parties.parties self !! p = Some party ->
  Party.isUsed party = true ->
  Q (Parties.mk _ (<[p := nimbleServerLocalPartyReset party]> (Parties.parties self))
       (Parties.partiesCount self - 1) (Parties.capacityCount self)
       (Parties.maxLocalPartyParticipantCount self)
       (Parties.maxSingleParticipantStepOctetCount self)) ->
  sat E (nimbleServerLocalPartiesRemove self p) Q.
Proof.
  intros Hwf Hp Hu HQ. unfold nimbleServerLocalPartiesRemove.
  pose proof (parties_count_range _ _ _ Hwf).
  assert (0 < Parties.partiesCount self).
  { rewrite (parties_count _ _ _ Hwf). by eapply count_if_pos. }
  run. apply runs_assert; [apply negb_true_iff, Z.eqb_neq; lia|]. simpl. rewrite u64_small by lia.
  run. done.
Qed.
End PartiesOperations.

(** ** Properties *)
Section PartiesProperties.
Context `{Clog} `{OrderedDatagram} `{!BlobStream} `{NimbleSteps} `{!NimbleSerialize} `{Stats}.
Context `{!NimbleStepsLaws} `{!NimbleSerializeLaws}.
Implicit Types (self : LocalParties) (party : NimbleServerLocalParty)
  (pool : NimbleServerParticipants).

(** C29. Creating a party for one player. With no free party or no free
    participant the answer is the matching error and neither the parties in use
    nor the participants change. Otherwise the first free party is taken over by
    the connection, in normal state, and owns exactly the one participant that
    joined. In all cases the invariants of the parties and of the pool, the
    ownership among them, and every other party are kept. *)
Theorem parties_create_correct npool nconn self pool c players player stepId :
  parties_wf npool nconn self -> pool_wf pool ->
  Forall (participant_ok (length (Parties.parties self))) (Pool.participants pool) ->
  owned (Parties.parties self) (Pool.participants pool) ->
  length (Pool.participants pool) = npool -> (c < nconn)%nat -> 0 <= stepId < 4294967296 ->
  players !! 0%nat = Some player ->
  runs (nimbleServerLocalPartiesCreate self pool (Some c) players stepId 1)
    (fun '(self', pool', code, out) =>
    parties_wf npool nconn self' /\ pool_wf pool' /\
    Forall (participant_ok (length (Parties.parties self'))) (Pool.participants pool') /\
    owned (Parties.parties self') (Pool.participants pool') /\
    length (Pool.participants pool') = npool /\
    match list_find (fun party => Party.isUsed party = false) (Parties.parties self) with
    | None => self' = self /\ pool' = pool /\ code = NimbleServerErrOutOfParticipantMemory /\
              out = None
    | Some (i, party) =>
        let party := Party.set_id (Z.of_nat i) party in
        if Pool.participantCount pool =? Pool.participantCapacity pool
        then Parties.parties self' = <[i := party]> (Parties.parties self) /\ pool' = pool /\
             code = NimbleServerErrSessionFull /\ out = Some None
        else exists id p,
          Parties.parties self' = <[i := added party (Some c) id]> (Parties.parties self) /\
          Parties.partiesCount self' = Parties.partiesCount self + 1 /\
          Pool.participants pool !! id = Some p /\ Participant.isUsed p = false /\
          Pool.participants pool'
          = <[id := joined p id player i stepId]> (Pool.participants pool) /\
          code = 0 /\ out = Some (Some i)
    end).
Proof.
  intros Hwf Hpool Hok Hown Hlen Hc Hid Hplayer.
  apply (runs_create npool nconn); [done|done|by rewrite Hplayer|].
  destruct (list_find _ (Parties.parties self)) as [[i party]|] eqn:Hf; [|by auto 10].
  apply list_find_Some in Hf as (Hi & Hu & _).
  pose proof (parties_count_range _ _ _ Hwf). pose proof (lookup_lt_Some _ _ _ Hi).
  destruct (Pool.participantCount pool =? Pool.participantCapacity pool).
  - split; [by apply parties_wf_id; [lia|..]|]. split; [done|]. simpl. rewrite length_insert.
    split; [done|]. split; [by apply owned_id|]. auto.
  - cbv zeta. intros player' id rest p s Hplayer' Hcont Hp Hpu _ Hs Hrest.
    rewrite Hplayer in Hplayer'. injection Hplayer' as <-.
    pose proof (Forall_lookup_1 _ _ _ _ Hok Hp) as Hpok.
    destruct (new_party_invariants _ nconn self pool i party (Some c) id p
      (joined p id player i stepId) Hwf Hpool Hok Hown Hlen) as (Hw' & Hok' & Hown' & Hlen' & _);
      try done; [by intros ? [= <-]|by apply participant_ok_reused|].
    split; [exact Hw'|]. split; [by eapply pool_wf_taken|]. split; [exact Hok'|].
    split; [exact Hown'|]. split; [exact Hlen'|]. by exists id, p.
Qed.

(** Looking for the party that plays over a connection: what is found is
    the first party in use over that connection, and nothing is found only when
    none of the first [partiesCount] places holds one. So nothing is missed as
    long as the parties in use fill the first places. *)
Theorem find_party_for_transport_correct npool self connections id :
  parties_wf npool (length connections) self ->
  runs (nimbleServerLocalPartiesFindPartyForTransport self connections id) (fun found =>
    match found with
    | Some i => exists party, Parties.parties self !! i = Some party /\
        plays connections party id = true /\
        forall j party', (j < i)%nat -> Parties.parties self !! j = Some party' ->
          plays connections party' id = false
    | None =>
        (forall i party, Parties.parties self !! i = Some party -> Party.isUsed party = true ->
           Z.of_nat i < Parties.partiesCount self) ->
        Forall (fun party => plays connections party id = false) (Parties.parties self)
    end).
Proof.
  intros Hwf. eapply runs_mono; [by eapply runs_find_for_transport|].
  intros [i|]; simpl; [by intros [_ Hi]|]. intros Hnone Hfront.
  apply Forall_lookup. intros i party Hi. unfold plays.
  destruct (Party.isUsed party) eqn:Hu; [|done]. specialize (Hfront i party Hi Hu).
  specialize (Hnone i party ltac:(lia) Hi). unfold plays in Hnone. by rewrite Hu in Hnone.
Qed.
End PartiesProperties.

(** ** Witnesses *)
Import Models.

(** Two places for parties; no connection was ever used. *)
Definition zero_connection : TransportConnection :=
  Conn.mk _ _ _ _ 0 0 0 0 0 None orderedDatagramInLogicInit orderedDatagramOutLogicInit
    None None 0 0 (statsIntInit 0) 0 false false 0 NbTransportConnectionPhaseIdle
    (GState.mk [] 0 0 0).

(** Connections with the ids of their positions, as the server sets them. *)
Definition example_connections (n : nat) : list TransportConnection :=
  (fun i => Conn.set_transportConnectionId (Z.of_nat i) zero_connection) <$> seq 0 n.

(** [example_party] plays over connection 1; the second place is free. *)
Definition example_parties : LocalParties :=
  Parties.mk _ [Party.set_participantReferences (Refs.mk 1 (replicate 8 0%nat))
                  (Party.set_transportConnection (Some 1%nat) example_party);
                nimbleServerLocalPartyInit zero_local_party 1] 1 2 8 24.

Lemma example_parties_wf : parties_wf 2 2 example_parties.
Proof.
  split; simpl; [lia|done| |done].
  constructor; [|constructor; [|constructor]].
  - split; [|split; [split|..]|..]; simpl; try lia.
    + intros [|i] q Hi Hq; [simpl in Hq; injection Hq as <-|]; lia.
    + intros c [= <-]. lia.
  - split; [|split; [split|..]|..]; simpl; try lia; done.
Qed.

Lemma example_owned : owned (Parties.parties example_parties) (Pool.participants example_pool).
Proof.
  intros [|[|i]] party Hi Hu; simpl in Hi; try done; injection Hi as <-; [|done].
  intros p Hp. apply list_elem_of_singleton in Hp as ->. by eexists.
Qed.

Lemma example_pool_ok_2 : Forall (participant_ok 2) (Pool.participants example_pool).
Proof.
  repeat constructor; simpl; try lia; try done. intros _. exists 0%nat. split; [done|lia].
Qed.

Lemma parties_create_correct_witness :
  runs (nimbleServerLocalPartiesCreate (H := debug_build) example_parties example_pool
          (Some 0%nat) [mkJoinPlayer 0] 7 1) (fun '(self', pool', code, out) =>
    parties_wf 2 2 self' /\ owned (Parties.parties self') (Pool.participants pool') /\
    code = 0 /\ out = Some (Some 1%nat)).
Proof.
  eapply runs_mono; [apply (parties_create_correct (H := debug_build) 2 2)|].
  - exact example_parties_wf.
  - exact example_pool_wf.
  - exact example_pool_ok_2.
  - exact example_owned.
  - reflexivity.
  - lia.
  - lia.
  - reflexivity.
  - intros [[[self' pool'] code] out] (Hwf & _ & _ & Hown & _ & Hcase).
    split; [exact Hwf|]. split; [exact Hown|].
    assert (Hfind : list_find (fun party => Party.isUsed party = false)
                      (Parties.parties example_parties)
                    = Some (1%nat, nimbleServerLocalPartyInit zero_local_party 1))
      by reflexivity.
    rewrite Hfind in Hcase. destruct Hcase as (id & p & _ & _ & _ & _ & _ & Hcode & Hout).
    split; [exact Hcode|exact Hout].
Defined.

Lemma find_party_for_transport_correct_witness :
  runs (nimbleServerLocalPartiesFindPartyForTransport example_parties (example_connections 2) 1)
    (fun found => match found with
                  | Some i => exists party, Parties.parties example_parties !! i = Some party /\
                                plays (example_connections 2) party 1 = true
                  | None => False
                  end) /\
  nimbleServerLocalPartiesFindPartyForTransport example_parties (example_connections 2) 1
  = Ret (Some 0%nat).
Proof.
  split; [|reflexivity].
  eapply runs_mono; [apply (find_party_for_transport_correct 2); exact example_parties_wf|].
  intros [i|].
  - intros (party & Hp & Hplays & _). exists party. split; [exact Hp|exact Hplays].
  - intros Hnone. assert (Hall : Forall (fun party => plays (example_connections 2) party 1 = false)
                                   (Parties.parties example_parties)).
    { apply Hnone. intros [|[|j]] party Hj Hu; simpl in *; try done; simplify_eq; lia. }
    apply Forall_inv in Hall. discriminate Hall.
Defined.

(** When party 0 is removed, party 1 stays in use, but its connection is no
    longer found: the search stops after [partiesCount] places. *)
Lemma find_party_for_transport_misses :
  let parties :=
    Parties.mk _ [nimbleServerLocalPartyInit zero_local_party 0;
                  Party.set_transportConnection (Some 1%nat) example_party] 1 2 8 24 in
  Parties.partiesCount parties = count_if Party.isUsed (Parties.parties parties) /\
  nimbleServerLocalPartiesFindPartyForTransport parties (example_connections 2) 1 = Ret None /\
  exists party, Parties.parties parties !! 1%nat = Some party /\
    plays (example_connections 2) party 1 = true.
Proof. split; [done|]. split; [done|]. by eexists. Qed.
