(* ===== verification/Game.v ===== *)
(** * The game (lib/game.c): the authoritative steps and the participants *)

From S2P Require Import Prelude.
From S2P Require Import ExternalLibs.
From S2P Require Import ExternalModels.
From S2P Require Import CircularBuffer.
From S2P Require Import Participants.

Module Game.
Record NimbleServerGame `{NimbleSteps} := mk {
  authoritativeSteps : NbsSteps;
  participants : NimbleServerParticipants;
  debugIsFrozen : bool;
}.
Section Setters.
Context `{NimbleSteps}.
Definition set_authoritativeSteps (v : NbsSteps) (g : NimbleServerGame) : NimbleServerGame :=
  mk _ v (participants g) (debugIsFrozen g).
Definition set_participants (v : NimbleServerParticipants) (g : NimbleServerGame) :
    NimbleServerGame :=
  mk _ (authoritativeSteps g) v (debugIsFrozen g).
End Setters.
End Game.
Abbreviation Game := Game.NimbleServerGame.

Section Game.
Context `{Clog} `{Flood} `{NimbleSteps} `{!NimbleStepsSerialize}.

(** [self] is the memory of the game: the ring of free ids is reused. *)
Definition nimbleServerGameInit (self : Game)
    (maxSingleParticipantStepOctetCount maxParticipantCount : Z) : outcome Game :=
  let combinedStepOctetCount :=
    nbsStepsOutSerializeCalculateCombinedSize maxParticipantCount
      maxSingleParticipantStepOctetCount in
  let authoritativeSteps := nbsStepsReInit (nbsStepsInit combinedStepOctetCount) 0 in
  participants ← nimbleServerParticipantsInit maxParticipantCount
                   maxSingleParticipantStepOctetCount (Pool.freeList (Game.participants self));
  Ret (Game.mk _ authoritativeSteps participants false).

End Game.
