(* ===== verification/StepFormat.v ===== *)
(** * The octets of an authoritative step

    The abstract specification of what [composeOneAuthoritativeStep] writes:
    the number of participants, then one record for each. The records can be
    read back, so no two steps look the same to a client. *)

From S2P Require Import Prelude.
From S2P Require Import ExternalLibs.
From S2P Require Import ExternalModels.

Inductive contribution :=
  | Provided (octets : list Z)
  | ProvidedByNew (partyId : Z) (octets : list Z)
  | Without (stepType : NimbleSerializeStepType).

Record step_record := mkRecord { record_id : Z; record_contribution : contribution }.

Section StepFormat.
Context `{NimbleSerialize}.

Definition encode_record (r : step_record) : list Z :=
  match record_contribution r with
  | Provided octets => [record_id r; Z.of_nat (length octets)] ++ octets
  | ProvidedByNew partyId octets =>
      [128 + record_id r; stepTypeCode NimbleSerializeStepTypeJoined; partyId;
       Z.of_nat (length octets)] ++ octets
  | Without stepType => [128 + record_id r; stepTypeCode stepType]
  end.

Definition encode_records (rs : list step_record) : list Z := rs ≫= encode_record.

Definition encode_step (rs : list step_record) : list Z :=
  Z.of_nat (length rs) :: encode_records rs.

(** ** Reading it back *)
Definition decode_octets (l : list Z) : option (list Z * list Z) :=
  match l with
  | n :: l => if Z.of_nat (length l) <? n then None
              else Some (take (Z.to_nat n) l, drop (Z.to_nat n) l)
  | [] => None
  end.

Definition types_without_step : list NimbleSerializeStepType :=
  [NimbleSerializeStepTypeLeft; NimbleSerializeStepTypeWaitingForReJoin;
   NimbleSerializeStepTypeStepNotProvidedInTime].

Definition decode_record (l : list Z) : option (step_record * list Z) :=
  match l with
  | [] => None
  | h :: l =>
      if h <? 128 then
        '(octets, l) ← decode_octets l; Some (mkRecord h (Provided octets), l)
      else
        match l with
        | [] => None
        | code :: l =>
            if code =? stepTypeCode NimbleSerializeStepTypeJoined then
              match l with
              | [] => None
              | partyId :: l =>
                  '(octets, l) ← decode_octets l;
                  Some (mkRecord (h - 128) (ProvidedByNew partyId octets), l)
              end
            else
              '(_, stepType) ← list_find (fun t => stepTypeCode t = code) types_without_step;
              Some (mkRecord (h - 128) (Without stepType), l)
        end
  end.

Fixpoint decode_records (n : nat) (l : list Z) : option (list step_record) :=
  match n with
  | O => match l with [] => Some [] | _ => None end
  | S n => '(r, l) ← decode_record l; rs ← decode_records n l; Some (r :: rs)
  end.

Definition decode_step (l : list Z) : option (list step_record) :=
  match l with
  | n :: l => decode_records (Z.to_nat n) l
  | [] => None
  end.

Record record_ok (r : step_record) : Prop := {
  record_id_range : 0 <= record_id r < 128;
  record_type : forall t, record_contribution r = Without t -> t ∈ types_without_step;
}.

Lemma decode_octets_app o l :
  decode_octets (Z.of_nat (length o) :: o ++ l) = Some (o, l).
Proof.
  simpl. rewrite (proj2 (Z.ltb_ge _ _)) by (rewrite length_app; lia).
  by rewrite Nat2Z.id, take_app_length, drop_app_length.
Qed.

Context `{!NimbleSerializeLaws}.

Lemma find_type t : t ∈ types_without_step ->
  exists i, list_find (fun t' => stepTypeCode t' = stepTypeCode t) types_without_step
            = Some (i, t) /\ t <> NimbleSerializeStepTypeJoined.
Proof.
  intros Ht. destruct (list_find_elem_of (fun t' => stepTypeCode t' = stepTypeCode t)
                         types_without_step t Ht eq_refl) as [[i t'] Hf].
  pose proof Hf as (_ & Hc & _)%list_find_Some. apply step_type_code_inj in Hc as ->.
  exists i. split; [done|]. intros ->. unfold types_without_step in Ht.
  do 3 (apply elem_of_cons in Ht as [Ht|Ht]; [done|]). by apply elem_of_nil in Ht.
Qed.

Lemma decode_record_app r l : record_ok r -> decode_record (encode_record r ++ l) = Some (r, l).
Proof.
  destruct r as [id c]. intros [Hid Ht]. unfold encode_record; simpl in *.
  destruct c as [o|party o|t]; cbn [app].
  - unfold decode_record. rewrite (proj2 (Z.ltb_lt _ _)) by lia. by rewrite decode_octets_app.
  - unfold decode_record. rewrite (proj2 (Z.ltb_ge _ _)) by lia. rewrite Z.eqb_refl.
    rewrite decode_octets_app. simpl. by replace (128 + id - 128) with id by lia.
  - unfold decode_record. rewrite (proj2 (Z.ltb_ge _ _)) by lia.
    destruct (find_type t (Ht t eq_refl)) as (i & Hf & Hne).
    destruct (Z.eqb_spec (stepTypeCode t) (stepTypeCode NimbleSerializeStepTypeJoined)) as [He|].
    { by apply step_type_code_inj in He. }
    rewrite Hf. simpl. by replace (128 + id - 128) with id by lia.
Qed.

Lemma decode_records_encode rs :
  Forall record_ok rs -> decode_records (length rs) (encode_records rs) = Some rs.
Proof.
  induction 1 as [|r rs Hr _ IH]; [done|]. cbn [length encode_records mbind list_bind].
  cbn [decode_records]. rewrite decode_record_app by done. simpl.
  unfold encode_records in IH. by rewrite IH.
Qed.

Lemma decode_encode_step rs : Forall record_ok rs -> decode_step (encode_step rs) = Some rs.
Proof. intros Hrs. unfold encode_step. cbn. rewrite Nat2Z.id. by apply decode_records_encode. Qed.
End StepFormat.
