(* ===== verification/AuthoritativeSteps.v ===== *)
(** * Composing authoritative steps (lib/authoritative_steps.c)

    The heart of the server: one authoritative step combines, for every
    participant in use, the step its client predicted, or a note that there is
    none. *)

From S2P Require Import Prelude.
From S2P Require Import ExternalLibs.
From S2P Require Import ExternalModels.
From S2P Require Import StepLog.
From S2P Require Import CircularBuffer.
From S2P Require Import ConnectionQuality.
From S2P Require Import GameState.
From S2P Require Import Participants.
From S2P Require Import LocalParty.
From S2P Require Import TransportConnection.
From S2P Require Import LocalParties.
From S2P Require Import Game.
From S2P Require Import StepFormat.

Section AuthoritativeSteps.
Context `{Clog} `{TinyLibc} `{NimbleSteps} `{NimbleSerialize} `{!NimbleStepsSerialize} `{Stats}.
Implicit Types (parties : list NimbleServerLocalParty) (pool : NimbleServerParticipants).

(** The state of the loop of [composeOneAuthoritativeStep]. [stepReadBuffer] is
    the part of the local array that has been written. *)
Record compose_state := mkCompose {
  c_parties : list NimbleServerLocalParty;
  c_pool : NimbleServerParticipants;
  c_stream : FldOutStream;
  stepReadBuffer : list Z;
  foundParticipantCount : Z;
}.

(** [participant->inParty->quality] is passed to [f]. *)
Definition update_quality parties (party : option nat) (f : ConnQuality -> ConnQuality) :
    outcome (list NimbleServerLocalParty) :=
  p ← deref party;
  party ← load parties p;
  store parties p (Party.set_quality (f (Party.quality party)) party).

(** The step of the participant that is read out of its buffer: the parties,
    the participant, the read buffer, the type of the step and its octet count. *)
Definition read_participant_step parties (participant : NimbleServerParticipant)
    (lookingFor : Z) (stepReadBuffer : list Z) :
    outcome (list NimbleServerLocalParty * NimbleServerParticipant * list Z *
             NimbleSerializeStepType * Z) :=
  let '(steps, readStepOctetCount, octets) :=
    nbsStepsReadExactStepId (Participant.steps participant) lookingFor 1024 in
  let participant := Participant.set_steps steps participant in
  let stepReadBuffer := octets ++ drop (length octets) stepReadBuffer in
  '(parties, stepType, readStepOctetCount) ←
    (if readStepOctetCount <? 0 then
       if readStepOctetCount =? NimbleStepErrCollectionIsEmpty then
         parties ← update_quality parties (Participant.inParty participant)
           (fun q => nimbleServerConnectionQualityAddedForcedSteps q 1);
         Ret (parties, NimbleSerializeStepTypeStepNotProvidedInTime, 0)
       else
         _ ← CLOG_ERROR;
         Ret (parties, NimbleSerializeStepTypeNormal, readStepOctetCount)
     else
       parties ← update_quality parties (Participant.inParty participant)
         nimbleServerConnectionQualityProvidedUsableStep;
       Ret (parties, NimbleSerializeStepTypeNormal, readStepOctetCount));
  readStepOctetCountToUse ← tc_convert_uint8_t_from_ssize readStepOctetCount;
  Ret (parties, participant, stepReadBuffer, stepType, readStepOctetCountToUse).

(** The effect of the state of the participant at position [i]. *)
Definition apply_participant_state pool (i : nat) (participant : NimbleServerParticipant)
    (stepType : NimbleSerializeStepType) :
    outcome (NimbleServerParticipants * NimbleSerializeStepType) :=
  match Participant.state participant with
  | NimbleServerParticipantStateWaitingForRejoin =>
      Ret (pool, NimbleSerializeStepTypeWaitingForReJoin)
  | NimbleServerParticipantStateJustJoined =>
      participants ← store (Pool.participants pool) i
        (Participant.set_state NimbleServerParticipantStateNormal participant);
      Ret (Pool.set_participants participants pool, NimbleSerializeStepTypeJoined)
  | NimbleServerParticipantStateLeaving =>
      pool ← nimbleServerParticipantsDestroy pool (Participant.id participant);
      Ret (pool, NimbleSerializeStepTypeLeft)
  | NimbleServerParticipantStateNormal => Ret (pool, stepType)
  | NimbleServerParticipantStateDestroyed => Ret (pool, stepType)
  end.

(** What is written for the participant; a negative code stops the composing,
    but only the write of the first octet is looked at. *)
Definition write_participant_step parties (participant : NimbleServerParticipant)
    (composeStream : FldOutStream) (stepReadBuffer : list Z) (stepType : NimbleSerializeStepType)
    (readStepOctetCountToUse : Z) : outcome (FldOutStream * Z) :=
  let mask := if bool_decide (stepType = NimbleSerializeStepTypeNormal) then 0 else 128 in
  let '(composeStream, serializeError) :=
    fldOutStreamWriteUInt8 composeStream (Z.lor mask (Participant.id participant)) in
  if serializeError <? 0 then Ret (composeStream, serializeError)
  else
    composeStream ←
      (if negb (mask =? 0) then
         let '(composeStream, _) :=
           fldOutStreamWriteUInt8 composeStream (u8 (stepTypeCode stepType)) in
         if bool_decide (stepType = NimbleSerializeStepTypeJoined) then
           p ← deref (Participant.inParty participant);
           party ← load parties p;
           Ret (fldOutStreamWriteUInt8 composeStream (Party.id party)).1
         else Ret composeStream
       else Ret composeStream);
    if bool_decide (stepType = NimbleSerializeStepTypeNormal)
       || bool_decide (stepType = NimbleSerializeStepTypeJoined)
    then
      let '(composeStream, _) :=
        fldOutStreamWriteUInt8 composeStream readStepOctetCountToUse in
      octetCount ← tc_convert_uint8_t_from_ssize readStepOctetCountToUse;
      _ ← (if Z.of_nat (length stepReadBuffer) <? octetCount
           then Halt (UninitializedRead LocalVariable) else Ret tt);
      Ret ((fldOutStreamWriteOctets composeStream
              (take (Z.to_nat octetCount) stepReadBuffer)).1, 0)
    else Ret (composeStream, 0).

Definition compose_participant (lookingFor : Z) (i : nat) (s : compose_state) :
    outcome (flow compose_state (compose_state * Z)) :=
  participant ← load (Pool.participants (c_pool s)) i;
  if negb (Participant.isUsed participant) then Ret (Continue s)
  else
    '(parties, participant, buffer, stepType, octetCount) ←
      read_participant_step (c_parties s) participant lookingFor (stepReadBuffer s);
    participants ← store (Pool.participants (c_pool s)) i participant;
    '(pool, stepType) ←
      apply_participant_state (Pool.set_participants participants (c_pool s)) i participant
        stepType;
    participant ← load (Pool.participants pool) i;
    '(composeStream, serializeError) ←
      write_participant_step parties participant (c_stream s) buffer stepType octetCount;
    let s' := mkCompose parties pool composeStream buffer (u64 (foundParticipantCount s + 1)) in
    if serializeError <? 0 then Ret (Return (s', serializeError)) else Ret (Continue s').

(** The octets of the step and their number, or a negative code. *)
Definition composeOneAuthoritativeStep parties pool (lookingFor maxLength : Z) :
    outcome (list NimbleServerLocalParty * NimbleServerParticipants * list Z * Z) :=
  let '(composeStream, _) :=
    fldOutStreamWriteUInt8 (fldOutStreamInit maxLength) (u8 (Pool.participantCount pool)) in
  r ← for_loop (Z.to_nat (Pool.participantCapacity pool)) 0 (compose_participant lookingFor)
        (mkCompose parties pool composeStream [] 0);
  match r with
  | Return (s, serializeError) =>
      Ret (c_parties s, c_pool s, out_octets (c_stream s), serializeError)
  | Continue s =>
      _ ← CLOG_ASSERT (foundParticipantCount s =? Pool.participantCount (c_pool s));
      Ret (c_parties s, c_pool s, out_octets (c_stream s), out_pos (c_stream s))
  end.

(** The maximum number of steps any participant is ahead, and the number of
    participants that can not contribute. *)
Definition maxPredictedStepContributionForParticipants pool (lookingFor : Z) :
    outcome (Z * Z) :=
  for_each (Z.to_nat (Pool.participantCapacity pool)) 0
    (fun i '(maxConnectionCanAdvanceStepCount, participantCountThatCanNotContribute) =>
      participant ← load (Pool.participants pool) i;
      if negb (Participant.isUsed participant)
      then Ret (maxConnectionCanAdvanceStepCount, participantCountThatCanNotContribute)
      else
        let steps := Participant.steps participant in
        let canContribute := (0 <? stepsCount steps) && (lookingFor <? expectedWriteId steps) in
        let participantCanAdvanceStepCount :=
          if canContribute then u32 (expectedWriteId steps - lookingFor + 1) else 0 in
        let participantCountThatCanNotContribute :=
          if canContribute then participantCountThatCanNotContribute
          else u64 (participantCountThatCanNotContribute + 1) in
        Ret (if maxConnectionCanAdvanceStepCount <? participantCanAdvanceStepCount
             then participantCanAdvanceStepCount else maxConnectionCanAdvanceStepCount,
             participantCountThatCanNotContribute)) (0, 0).

Definition shouldComposeNewAuthoritativeStep pool (lookingFor : Z) : outcome bool :=
  '(maxCountStepAheadForSomeParticipant, connectionCountThatCouldNotContribute) ←
    maxPredictedStepContributionForParticipants pool lookingFor;
  Ret (((3 <? maxCountStepAheadForSomeParticipant)
        && (connectionCountThatCouldNotContribute =? 0))
       || (5 <? maxCountStepAheadForSomeParticipant)).

Definition canAdvanceDueToDistanceFromLastState (authoritativeSteps : NbsSteps) : bool :=
  let maxAuthoritativeStepCountSinceState := NBS_WINDOW_SIZE / 2 in
  stepsCount authoritativeSteps <? maxAuthoritativeStepCountSinceState.

Definition shouldAdvanceAuthoritative pool (authoritativeSteps : NbsSteps) : outcome bool :=
  should ← shouldComposeNewAuthoritativeStep pool (expectedWriteId authoritativeSteps);
  Ret (should && canAdvanceDueToDistanceFromLastState authoritativeSteps).

(** The code has no bound on its loop; [compose_terminates] below states that
    this fuel is enough. *)
Definition compose_fuel : nat := S (Z.to_nat (NBS_WINDOW_SIZE / 2)).

Definition nimbleServerComposeAuthoritativeSteps parties (game : Game) :
    outcome (list NimbleServerLocalParty * Game * Z) :=
  while_loop compose_fuel
    (fun '(parties, game, writtenAuthoritativeSteps) =>
      let authoritativeSteps := Game.authoritativeSteps game in
      shouldAdvance ← shouldAdvanceAuthoritative (Game.participants game) authoritativeSteps;
      if negb shouldAdvance
      then Ret (Return (parties, game, s32 writtenAuthoritativeSteps))
      else
        let lookingFor := expectedWriteId authoritativeSteps in
        '(parties, pool, composeStepBuffer, authoritativeStepOctetCount) ←
          composeOneAuthoritativeStep parties (Game.participants game) lookingFor 1024;
        let game := Game.set_participants pool game in
        if authoritativeStepOctetCount <=? 0 then Ret (Return (parties, game, 0))
        else
          let '(authoritativeSteps, octetsWritten) :=
            nbsStepsWrite authoritativeSteps lookingFor composeStepBuffer in
          let game := Game.set_authoritativeSteps authoritativeSteps game in
          if octetsWritten <? 0 then Ret (Return (parties, game, octetsWritten))
          else Ret (Continue (parties, game, u64 (writtenAuthoritativeSteps + 1))))
    (parties, game, 0).

End AuthoritativeSteps.

(** ** Writing to a bounded stream

    [appended s s' l]: the stream [s'] is [s] with [l] appended, if [l] fits;
    otherwise nothing is known of the octets. *)
Section Appended.
Context `{FldOutLaws}.

Definition appended (s s' : FldOutStream) (l : list Z) : Prop :=
  out_raw s' /\ out_size s' = out_size s /\
  (out_pos s + Z.of_nat (length l) <= out_size s -> out_octets s' = out_octets s ++ l).

Lemma appended_nil s : out_raw s -> appended s s [].
Proof. intros Hr. split; [done|]. split; [done|]. by rewrite app_nil_r. Qed.

Lemma appended_trans s1 s2 s3 l1 l2 :
  appended s1 s2 l1 -> appended s2 s3 l2 -> appended s1 s3 (l1 ++ l2).
Proof.
  intros (Hr2 & Hs2 & H12) (Hr3 & Hs3 & H23). split; [done|]. split; [congruence|].
  rewrite length_app. intros Hl. rewrite H23, H12, app_assoc; [done|lia|].
  rewrite !out_pos_octets in *. rewrite H12, length_app by lia. lia.
Qed.

Lemma appended_u8 s v : out_raw s -> 0 <= v < 256 ->
  appended s (fldOutStreamWriteUInt8 s v).1 [v].
Proof.
  intros Hr Hv. unfold appended. change (Z.of_nat (length [v])) with 1.
  destruct (Z.le_gt_cases (out_pos s + 1) (out_size s)) as [Hle|Hgt].
  - by destruct (out_write_u8 s v Hr Hv Hle) as (Ho & Hs & Hr' & _).
  - destruct (out_write_u8_full s v Hr) as [-> _]; [lia|]. split; [done|]. split; [done|lia].
Qed.

Lemma appended_octets s l : out_raw s -> appended s (fldOutStreamWriteOctets s l).1 l.
Proof.
  intros Hr. unfold appended.
  destruct (Z.le_gt_cases (out_pos s + Z.of_nat (length l)) (out_size s)) as [Hle|Hgt].
  - by destruct (out_write_octets s l Hr Hle) as (Ho & Hs & Hr' & _).
  - destruct (out_write_octets_full s l Hr) as [-> _]; [lia|]. split; [done|]. split; [done|lia].
Qed.

Lemma write_u8_refused s v : out_raw s -> 0 <= v < 256 ->
  (fldOutStreamWriteUInt8 s v).2 < 0 ->
  (fldOutStreamWriteUInt8 s v).1 = s /\ out_size s < out_pos s + 1.
Proof.
  intros Hr Hv Hc. destruct (Z.le_gt_cases (out_pos s + 1) (out_size s)) as [Hle|Hgt].
  - destruct (out_write_u8 s v Hr Hv Hle) as (_ & _ & _ & ?). lia.
  - destruct (out_write_u8_full s v Hr) as [-> _]; [lia|]. split; [done|lia].
Qed.

Lemma appended_raw s s' l : appended s s' l -> out_raw s'.
Proof. by intros []. Qed.
End Appended.

(** ** The abstract specification of one step *)
Section ComposeSpec.
Context `{NimbleSteps} `{NimbleSerialize} `{Stats}.
Implicit Types (parties : list NimbleServerLocalParty) (p : NimbleServerParticipant).

Definition step_type_of (st : NimbleServerParticipantState) (provided : bool) :
    NimbleSerializeStepType :=
  match st with
  | NimbleServerParticipantStateWaitingForRejoin => NimbleSerializeStepTypeWaitingForReJoin
  | NimbleServerParticipantStateJustJoined => NimbleSerializeStepTypeJoined
  | NimbleServerParticipantStateLeaving => NimbleSerializeStepTypeLeft
  | _ => if provided then NimbleSerializeStepTypeNormal
         else NimbleSerializeStepTypeStepNotProvidedInTime
  end.

(** What the buffer of the participant holds for the step. *)
Definition read_of (id : Z) p : NbsSteps * Z * list Z :=
  nbsStepsReadExactStepId (Participant.steps p) id 1024.
Definition provided (id : Z) p : bool := 0 <=? (read_of id p).1.2.

Definition party_id_of parties p : Z :=
  default 0 (Party.id <$> (Participant.inParty p ≫= (parties !!.))).

Definition contribution_of (stepType : NimbleSerializeStepType) (partyId : Z) (octets : list Z) :
    contribution :=
  match stepType with
  | NimbleSerializeStepTypeNormal => Provided octets
  | NimbleSerializeStepTypeJoined => ProvidedByNew partyId octets
  | _ => Without stepType
  end.

Definition record_of (id : Z) parties p : step_record :=
  mkRecord (Participant.id p)
    (contribution_of (step_type_of (Participant.state p) (provided id p))
       (party_id_of parties p) (read_of id p).2).

Definition records_of (id : Z) parties (l : list NimbleServerParticipant) : list step_record :=
  l ≫= (fun p => if Participant.isUsed p then [record_of id parties p] else []).

(** The participant after the step: its step is consumed, a participant that
    just joined is a normal one from now on, one that leaves is gone. *)
Definition composed (id : Z) p : NimbleServerParticipant :=
  if Participant.isUsed p then
    let p := Participant.set_steps (read_of id p).1.1 p in
    match Participant.state p with
    | NimbleServerParticipantStateJustJoined =>
        Participant.set_state NimbleServerParticipantStateNormal p
    | NimbleServerParticipantStateLeaving => nimbleServerParticipantDestroy p
    | _ => p
    end
  else p.

(** The parties after the report on the quality of the participant's one. *)
Definition reported (id : Z) parties p : list NimbleServerLocalParty :=
  match Participant.isUsed p, Participant.inParty p with
  | true, Some q =>
      alter (fun party => Party.set_quality
        (if provided id p then nimbleServerConnectionQualityProvidedUsableStep (Party.quality party)
         else nimbleServerConnectionQualityAddedForcedSteps (Party.quality party) 1) party) q parties
  | _, _ => parties
  end.

Definition leaving p : bool :=
  Participant.isUsed p && bool_decide (Participant.state p = NimbleServerParticipantStateLeaving).

Definition leaving_ids (l : list NimbleServerParticipant) : list Z :=
  l ≫= (fun p => if leaving p then [Participant.id p] else []).

(** Parties that differ in their quality only. *)
Definition party_alike (party party' : NimbleServerLocalParty) : Prop :=
  exists q, party' = Party.set_quality q party.
Definition parties_alike : list NimbleServerLocalParty -> list NimbleServerLocalParty -> Prop :=
  Forall2 party_alike.

#[export] Instance party_alike_preorder : PreOrder party_alike.
Proof.
  split.
  - intros party. exists (Party.quality party). by destruct party.
  - intros party ? ? [q ->] [q' ->]. by exists q'.
Qed.
#[export] Instance parties_alike_preorder : PreOrder parties_alike.
Proof. unfold parties_alike. apply _. Qed.

Lemma reported_alike id parties p : parties_alike parties (reported id parties p).
Proof.
  unfold reported. destruct (Participant.isUsed p); [|done].
  destruct (Participant.inParty p) as [q|]; [|done].
  apply Forall2_same_length_lookup_2; [by rewrite length_alter|].
  intros i party party' Hi. destruct (decide (q = i)) as [->|Hne].
  - rewrite list_lookup_alter_eq, Hi. intros [= <-]. by eexists.
  - rewrite list_lookup_alter_ne, Hi by done. by intros [= <-].
Qed.

Lemma all_reported_alike id l : forall parties,
  parties_alike parties (foldl (reported id) parties l).
Proof.
  induction l as [|p l IH]; intros parties; simpl; [done|].
  etrans; [apply (reported_alike id parties p)|apply IH].
Qed.

Lemma alike_lookup parties parties' i party :
  parties_alike parties parties' -> parties !! i = Some party ->
  exists q, parties' !! i = Some (Party.set_quality q party).
Proof. intros Ha Hi. destruct (Forall2_lookup_l _ _ _ _ _ Ha Hi) as (p' & ? & q & ->). by exists q. Qed.

Lemma alike_party_id parties parties' p :
  parties_alike parties parties' -> party_id_of parties' p = party_id_of parties p.
Proof.
  intros Ha. unfold party_id_of. destruct (Participant.inParty p) as [q|]; simpl; [|done].
  destruct (parties !! q) as [party|] eqn:Hq.
  - by destruct (alike_lookup _ _ _ _ Ha Hq) as [c ->].
  - apply lookup_ge_None in Hq. rewrite (Forall2_length Ha) in Hq.
    by rewrite lookup_ge_None_2.
Qed.

Lemma alike_record id parties parties' p :
  parties_alike parties parties' -> record_of id parties' p = record_of id parties p.
Proof. intros Ha. unfold record_of. by rewrite (alike_party_id _ _ _ Ha). Qed.

Lemma records_of_app id parties l1 l2 :
  records_of id parties (l1 ++ l2) = records_of id parties l1 ++ records_of id parties l2.
Proof. apply bind_app. Qed.

Lemma encode_records_app rs1 rs2 :
  encode_records (rs1 ++ rs2) = encode_records rs1 ++ encode_records rs2.
Proof. apply bind_app. Qed.

Lemma leaving_ids_app l1 l2 : leaving_ids (l1 ++ l2) = leaving_ids l1 ++ leaving_ids l2.
Proof. apply bind_app. Qed.

Lemma length_records_of id parties l :
  Z.of_nat (length (records_of id parties l)) = count_if Participant.isUsed l.
Proof.
  induction l as [|p l IH]; [done|]. cbn [count_if].
  change (records_of id parties (p :: l))
    with ((if Participant.isUsed p then [record_of id parties p] else [])
          ++ records_of id parties l).
  rewrite length_app. destruct (Participant.isUsed p); simpl; lia.
Qed.

Lemma composed_id id p : Participant.id (composed id p) = Participant.id p.
Proof. unfold composed. destruct (Participant.isUsed p); [|done]. by destruct p as [? ? ? ? ? []]. Qed.
End ComposeSpec.

(** ** The code follows the specification *)
Section ComposeRun.
Context `{Clog} `{TinyLibc} `{NimbleSteps} `{NimbleSerialize} `{!NimbleStepsSerialize} `{Stats}.
Context `{!TinyLibcLaws} `{!NimbleStepsLaws} `{!FldOutLaws} `{!NimbleSerializeLaws}.
Implicit Types (parties : list NimbleServerLocalParty) (p : NimbleServerParticipant)
  (pool : NimbleServerParticipants).

Lemma runs_update_quality {E} parties q f (Q : list NimbleServerLocalParty -> Prop) :
  (q < length parties)%nat ->
  Q (alter (fun party => Party.set_quality (f (Party.quality party)) party) q parties) ->
  sat E (update_quality parties (Some q) f) Q.
Proof.
  intros Hq HQ. destruct (lookup_lt_is_Some_2 parties q Hq) as [party Hp].
  rewrite (alter_insert _ _ _ _ Hp) in HQ. unfold update_quality. simpl. by run.
Qed.

(** Reading is what the laws of the buffers say. *)
Lemma read_of_cases id p : steps_wf (Participant.steps p) ->
  let '(steps, code, octets) := read_of id p in
  steps_wf steps /\ steps_max steps = steps_max (Participant.steps p) /\
  (code <? 0) = negb (provided id p) /\ Z.of_nat (length octets) <= Z.max 0 (steps_max steps) /\
  (if provided id p then code = Z.of_nat (length octets)
   else code = NimbleStepErrCollectionIsEmpty /\ octets = []).
Proof.
  intros Hwf. pose proof (steps_read _ id 1024 Hwf) as Hr. pose proof steps_empty_code.
  unfold provided, read_of. destruct (nbsStepsReadExactStepId _ id 1024) as [[steps code] o].
  simpl. destruct Hr as (? & Hmax & _ & [[Hc Hl]|[Hc ->]]).
  - rewrite (proj2 (Z.leb_le 0 code)), (proj2 (Z.ltb_ge code 0)) by lia. rewrite Hmax.
    repeat split; try done; lia.
  - rewrite (proj2 (Z.leb_gt 0 code)), (proj2 (Z.ltb_lt code 0)) by lia.
    simpl. repeat split; try done; lia.
Qed.

(** The branch that the law [steps_read] of the library rules out for a
    consistent buffer: any other error of the read is logged as an error, which
    stops the program where errors do, and is passed on to the conversion to an
    octet count where they do not. *)
Lemma corrupt_step parties p id buffer steps code octets :
  nbsStepsReadExactStepId (Participant.steps p) id 1024 = (steps, code, octets) ->
  code < 0 -> code <> NimbleStepErrCollectionIsEmpty ->
  read_participant_step parties p id buffer
  = if errors_halt then Halt ErrorLogged
    else count ← tc_convert_uint8_t_from_ssize code;
         Ret (parties, Participant.set_steps steps p, octets ++ drop (length octets) buffer,
              NimbleSerializeStepTypeNormal, count).
Proof.
  intros Hread Hneg Hcode. unfold read_participant_step, CLOG_ERROR.
  rewrite Hread, (proj2 (Z.ltb_lt _ _) Hneg), (proj2 (Z.eqb_neq _ _) Hcode).
  by destruct errors_halt.
Qed.

Lemma runs_read_step {E} parties p id buffer
    (Q : list NimbleServerLocalParty * NimbleServerParticipant * list Z *
         NimbleSerializeStepType * Z -> Prop) :
  participant_ok (length parties) p -> Participant.isUsed p = true ->
  Q (reported id parties p, Participant.set_steps (read_of id p).1.1 p,
     (read_of id p).2 ++ drop (length (read_of id p).2) buffer,
     if provided id p then NimbleSerializeStepTypeNormal
     else NimbleSerializeStepTypeStepNotProvidedInTime,
     Z.of_nat (length (read_of id p).2)) ->
  sat E (read_participant_step parties p id buffer) Q.
Proof.
  intros [Hs Hm Hparty] Hu HQ. destruct (Hparty Hu) as (q & Hq & Hlt).
  pose proof (read_of_cases id p Hs) as Hr. unfold read_participant_step.
  unfold reported in HQ. rewrite Hu, Hq in HQ.
  unfold read_of in *. destruct (nbsStepsReadExactStepId _ id 1024) as [[steps code] o].
  simpl in *. destruct Hr as (_ & Hmax & Hneg & Hlen & Hcase). rewrite Hneg, Hq.
  destruct (provided id p); simpl; apply runs_bind.
  - apply runs_bind, runs_update_quality; [done|]. rewrite Hcase. run.
    rewrite tc_convert_in_range by lia. run. exact HQ.
  - destruct Hcase as [-> ->]. rewrite Z.eqb_refl. apply runs_bind, runs_update_quality; [done|].
    run. rewrite tc_convert_in_range by lia. run. exact HQ.
Qed.

(** The octets of a step behind their number. *)
Lemma appended_sized s s2 l buffer o :
  appended s s2 l -> Z.of_nat (length o) < 256 -> take (length o) buffer = o ->
  appended s (fldOutStreamWriteOctets (fldOutStreamWriteUInt8 s2 (Z.of_nat (length o))).1
                (take (length o) buffer)).1 (l ++ Z.of_nat (length o) :: o).
Proof.
  intros Hs2 Hlen ->. eapply (appended_trans _ _ _ _ (_ :: _)); [exact Hs2|].
  pose proof (appended_u8 s2 (Z.of_nat (length o)) (appended_raw _ _ _ Hs2) ltac:(lia)) as Hn.
  eapply (appended_trans _ _ _ [_]); [exact Hn|]. apply appended_octets.
  by eapply appended_raw.
Qed.

(** The mask of a step marks the id of its participant. *)
Lemma step_mask_id (b : bool) id : 0 <= id < 64 ->
  let mask := if b then 0 else 128 in
  Z.lor mask id = mask + id /\ 0 <= mask + id < 256.
Proof.
  intros Hid mask. subst mask. destruct b; [by rewrite Z.lor_0_l; split; [|lia]|].
  rewrite lor_128 by lia. split; [done|lia].
Qed.

(** The octets written for one participant. *)
Lemma runs_write_step {E} parties p s buffer o stepType :
  out_raw s -> 0 <= Participant.id p < 64 -> Z.of_nat (length o) < 256 ->
  take (length o) buffer = o ->
  (stepType = NimbleSerializeStepTypeJoined ->
     exists q party, Participant.inParty p = Some q /\ parties !! q = Some party /\
       0 <= Party.id party < 256) ->
  sat E (write_participant_step parties p s buffer stepType (Z.of_nat (length o)))
    (fun '(s', code) =>
       (code < 0 -> out_size s < out_pos s + 1) /\
       appended s s' (if code <? 0 then [] else encode_record
         (mkRecord (Participant.id p) (contribution_of stepType (party_id_of parties p) o)))).
Proof.
  intros Hraw Hid Hlen Htake Hjoined. unfold write_participant_step.
  set (mask := if bool_decide (stepType = NimbleSerializeStepTypeNormal) then 0 else 128).
  destruct (step_mask_id (bool_decide (stepType = NimbleSerializeStepTypeNormal)) _ Hid)
    as [Hlor Hh]. fold mask in Hlor, Hh. rewrite Hlor.
  pose proof (appended_u8 s _ Hraw Hh) as Ha. pose proof (write_u8_refused s _ Hraw Hh) as Hc.
  destruct (fldOutStreamWriteUInt8 s (mask + Participant.id p)) as [s1 code]. simpl in Ha, Hc.
  destruct (Z.ltb_spec code 0) as [Hneg|Hpos].
  { destruct (Hc Hneg) as [-> Hfull]. simpl. rewrite (proj2 (Z.ltb_lt _ _)) by done.
    split; [lia|by apply appended_nil]. }
  pose proof (fun t => step_type_code_range t) as Hcode.
  pose proof (appended_raw _ _ _ Ha) as Hraw1.
  assert (Hocts : (Z.of_nat (length buffer) <? Z.of_nat (length o)) = false).
  { apply Z.ltb_ge. rewrite <- Htake, length_take. lia. }
  pose proof (fun s2 l Hs2 => appended_sized s s2 l buffer o Hs2 Hlen Htake) as Hbody.
  pose proof (tc_convert_in_range (Z.of_nat (length o)) ltac:(lia)) as Hconv.
  assert (Htype : stepType <> NimbleSerializeStepTypeNormal ->
    appended s (fldOutStreamWriteUInt8 s1 (stepTypeCode stepType)).1
      [mask + Participant.id p; stepTypeCode stepType]).
  { intros _. eapply (appended_trans _ _ _ [_] [_]); [exact Ha|]. by apply appended_u8. }
  subst mask. destruct stepType; simpl in *; unfold encode_record; simpl;
    rewrite ?(u8_small _ (Hcode _)); try specialize (Htype ltac:(discriminate)).
  - destruct (fldOutStreamWriteUInt8 s1 (Z.of_nat (length o))) as [s2 c2] eqn:E2.
    specialize (Hbody _ _ Ha). rewrite E2 in Hbody. rewrite Hconv. simpl. rewrite Hocts, Nat2Z.id.
    simpl. split; [lia|exact Hbody].
  - destruct (Hjoined eq_refl) as (q & party & Hq & Hparty & Hpid).
    destruct (fldOutStreamWriteUInt8 s1 (stepTypeCode _)) as [s2 c2]. simpl in Htype.
    rewrite Hq. simpl. run.
    pose proof (appended_u8 s2 (Party.id party) (appended_raw _ _ _ Htype) Hpid) as Hs3.
    pose proof (appended_trans _ _ _ _ _ Htype Hs3) as Ha3. specialize (Hbody _ _ Ha3).
    destruct (fldOutStreamWriteUInt8 (fldOutStreamWriteUInt8 s2 _).1 _) as [s4 c4].
    rewrite Hconv. simpl. rewrite Hocts, Nat2Z.id. simpl. split; [lia|].
    unfold party_id_of. rewrite Hq. simpl. rewrite Hparty. exact Hbody.
  - destruct (fldOutStreamWriteUInt8 s1 (stepTypeCode _)) as [s2 c2]. split; [lia|exact Htype].
  - destruct (fldOutStreamWriteUInt8 s1 (stepTypeCode _)) as [s2 c2]. split; [lia|exact Htype].
  - destruct (fldOutStreamWriteUInt8 s1 (stepTypeCode _)) as [s2 c2]. split; [lia|exact Htype].
Qed.

Lemma composed_ok n id p : participant_ok n p -> participant_ok n (composed id p).
Proof.
  intros Hok. unfold composed. destruct (Participant.isUsed p) eqn:Hu; [|done].
  pose proof (read_of_cases id p (participant_steps _ _ Hok)) as Hr.
  destruct (read_of id p) as [[steps code] o]. destruct Hr as (Hwf & Hmax & _).
  assert (Hok' : participant_ok n (Participant.set_steps steps p)).
  { destruct Hok as [? ? ?]. split; simpl; [done|by rewrite Hmax|done]. }
  simpl. destruct (Participant.state p); try done.
  - by destruct Hok'.
  - by apply participant_ok_destroyed.
Qed.

(** The pool after participant [i] was served. *)
Record served (id : Z) pool (i : nat) p pool' : Prop := {
  served_participants :
    Pool.participants pool' = <[i := composed id p]> (Pool.participants pool);
  served_capacity : Pool.participantCapacity pool' = Pool.participantCapacity pool;
  served_wf : pool_wf pool';
  served_free : contents (Pool.freeList pool')
    = contents (Pool.freeList pool) ++ (if leaving p then [Participant.id p] else []);
}.

Lemma runs_apply_state {E} id pool i p (p1 := Participant.set_steps (read_of id p).1.1 p) :
  pool_wf pool -> Pool.participants pool !! i = Some p -> Participant.isUsed p = true ->
  sat E (apply_participant_state
           (Pool.set_participants (<[i := p1]> (Pool.participants pool)) pool) i p1
           (if provided id p then NimbleSerializeStepTypeNormal
            else NimbleSerializeStepTypeStepNotProvidedInTime))
    (fun '(pool', stepType) => served id pool i p pool' /\
       stepType = step_type_of (Participant.state p) (provided id p)).
Proof.
  intros Hwf Hi Hu. pose proof (lookup_lt_Some _ _ _ Hi) as Hlt.
  pose proof (pool_wf_updated pool i p p1 Hwf Hi eq_refl eq_refl) as Hwf1.
  unfold apply_participant_state. change (Participant.state p1) with (Participant.state p).
  assert (Hc : composed id p = match Participant.state p with
    | NimbleServerParticipantStateJustJoined =>
        Participant.set_state NimbleServerParticipantStateNormal p1
    | NimbleServerParticipantStateLeaving => nimbleServerParticipantDestroy p1
    | _ => p1 end) by (unfold composed; by rewrite Hu).
  assert (Hl : leaving p
    = bool_decide (Participant.state p = NimbleServerParticipantStateLeaving))
    by (unfold leaving; by rewrite Hu).
  destruct (Participant.state p) eqn:Hstate; rewrite ?(bool_decide_false (_ = _)) in Hl by done.
  2, 3, 5: run; split; [|done]; split; rewrite ?Hc, ?Hl, ?app_nil_r; done.
  - apply runs_bind. eapply runs_store; [simpl; by rewrite length_insert|]. run.
    split; [|done]. simpl. rewrite list_insert_insert_eq.
    split; rewrite ?Hc, ?Hl, ?app_nil_r; try done.
    by apply (pool_wf_updated pool i p).
  - change (Participant.id p1) with (Participant.id p). rewrite (pool_ids _ Hwf _ _ Hi).
    apply runs_bind. eapply (runs_destroy _ i p1); [done|by apply list_lookup_insert_eq|done|].
    intros s Hs Hcont. run. split; [|done]. simpl in *.
    split; simpl; rewrite ?Hc, ?Hl, ?list_insert_insert_eq; try done.
    + apply (pool_wf_released pool i p); try done. simpl. by apply (pool_ids _ Hwf).
    + by rewrite (pool_ids _ Hwf _ _ Hi).
Qed.

(** The record that is written is the one specified. *)
Lemma record_written id parties parties' p o :
  Participant.isUsed p = true -> o = (read_of id p).2 -> parties_alike parties parties' ->
  mkRecord (Participant.id (composed id p))
    (contribution_of (step_type_of (Participant.state p) (provided id p))
       (party_id_of parties' (composed id p)) o) = record_of id parties p.
Proof.
  intros Hu -> Ha. unfold record_of. rewrite composed_id. f_equal.
  assert (Hid : Participant.state p = NimbleServerParticipantStateJustJoined ->
                party_id_of parties' (composed id p) = party_id_of parties p).
  { intros Hst. rewrite (alike_party_id _ _ _ Ha). unfold party_id_of, composed.
    rewrite Hu. simpl. by rewrite Hst. }
  destruct (Participant.state p), (provided id p); simpl; try done; by rewrite Hid.
Qed.

Lemma contribution_ok stepType partyId o i : 0 <= i < 128 ->
  record_ok (mkRecord i (contribution_of stepType partyId o)).
Proof.
  intros Hi. split; simpl; [done|]. unfold contribution_of, types_without_step.
  intros t Ht. destruct stepType; simplify_eq/=; repeat (left || right).
Qed.

Lemma encode_record_length r : (2 <= length (encode_record r))%nat.
Proof. unfold encode_record. destruct (record_contribution r); simpl; lia. Qed.

Lemma not_fitting n s l : 0 <= n -> appended (fldOutStreamInit n) s l ->
  out_size s < out_pos s + 1 -> n < Z.of_nat (length l) + 1.
Proof.
  intros Hn (_ & Hs & Hl) Hlt. destruct (out_init n Hn) as (Ho & Hsz & _).
  rewrite out_pos_octets in *. rewrite Ho, Hsz in *. simpl in Hl.
  destruct (Z.le_gt_cases (Z.of_nat (length l)) n) as [Hle|]; [|lia].
  rewrite (Hl Hle) in Hlt. lia.
Qed.

Section ComposeLoop.
Context (id maxLength : Z) (parties : list NimbleServerLocalParty) pool.
Hypothesis Hwf : pool_wf pool.
Hypothesis Hok : Forall (participant_ok (length parties)) (Pool.participants pool).
Hypothesis Hids : Forall (fun party => 0 <= Party.id party < 256) parties.

(** The participants served so far, and the octets owed for them. *)
Definition served_first (i : nat) := take i (Pool.participants pool).
Definition encoded_until (i : nat) : list Z :=
  Pool.participantCount pool :: encode_records (records_of id parties (served_first i)).

Record composed_until (i : nat) (s : compose_state) : Prop := {
  cu_parties : c_parties s = foldl (reported id) parties (served_first i);
  cu_participants : Pool.participants (c_pool s)
    = (composed id <$> served_first i) ++ drop i (Pool.participants pool);
  cu_capacity : Pool.participantCapacity (c_pool s) = Pool.participantCapacity pool;
  cu_wf : pool_wf (c_pool s);
  cu_free : contents (Pool.freeList (c_pool s))
    = contents (Pool.freeList pool) ++ leaving_ids (served_first i);
  cu_found : foundParticipantCount s = count_if Participant.isUsed (served_first i);
}.

Lemma served_first_S i p : Pool.participants pool !! i = Some p ->
  served_first (S i) = served_first i ++ [p].
Proof. intros Hi. unfold served_first. by apply take_S_r. Qed.

Lemma length_served_first i : (i <= length (Pool.participants pool))%nat ->
  length (served_first i) = i.
Proof. intros Hi. unfold served_first. rewrite length_take. lia. Qed.

Lemma encoded_until_S i p : Pool.participants pool !! i = Some p ->
  encoded_until (S i) = encoded_until i ++
    (if Participant.isUsed p then encode_record (record_of id parties p) else []).
Proof.
  intros Hi. unfold encoded_until.
  rewrite (served_first_S i p Hi), records_of_app, encode_records_app. simpl. f_equal. f_equal.
  unfold records_of, encode_records. simpl.
  destruct (Participant.isUsed p); simpl; by rewrite ?app_nil_r.
Qed.

Lemma length_encoded_mono i j : (i <= j)%nat -> (j <= length (Pool.participants pool))%nat ->
  (length (encoded_until i) <= length (encoded_until j))%nat.
Proof.
  induction 1 as [|j Hij IH]; intros Hj; [done|].
  destruct (lookup_lt_is_Some_2 (Pool.participants pool) j) as [p Hp]; [lia|].
  rewrite (encoded_until_S j p Hp), length_app. specialize (IH ltac:(lia)). lia.
Qed.

Lemma next_participant i s : (i < length (Pool.participants pool))%nat -> composed_until i s ->
  exists p, Pool.participants pool !! i = Some p /\
    Pool.participants (c_pool s) !! i = Some p /\
    0 <= Participant.id p < 64 /\ participant_ok (length parties) p /\
    length (c_parties s) = length parties /\ parties_alike parties (c_parties s).
Proof.
  intros Hi Hs. destruct (lookup_lt_is_Some_2 (Pool.participants pool) i Hi) as [p Hp].
  exists p. split; [done|]. rewrite (cu_participants _ _ Hs).
  rewrite lookup_app_r by (rewrite length_fmap, length_served_first; lia).
  rewrite length_fmap, length_served_first by lia. rewrite lookup_drop.
  replace (i + (i - i))%nat with i by lia. split; [done|].
  split; [|split; [by eapply Forall_lookup_1|]].
  - rewrite (pool_ids _ Hwf _ _ Hp). pose proof (pool_length _ Hwf).
    pose proof (pool_capacity _ Hwf). lia.
  - rewrite (cu_parties _ _ Hs). pose proof (all_reported_alike id (served_first i) parties) as Ha.
    split; [symmetry; by eapply list.Forall2_length|done].
Qed.

Lemma insert_composed i p : Pool.participants pool !! i = Some p ->
  <[i := composed id p]> ((composed id <$> served_first i) ++ drop i (Pool.participants pool))
  = (composed id <$> served_first (S i)) ++ drop (S i) (Pool.participants pool).
Proof.
  intros Hp. pose proof (lookup_lt_Some _ _ _ Hp).
  rewrite (served_first_S i p Hp), fmap_app, <- app_assoc.
  rewrite (drop_S _ _ _ Hp). rewrite insert_app_r_alt; rewrite length_fmap, length_served_first;
    try lia. by rewrite Nat.sub_diag.
Qed.

Lemma composed_until_S i s p parties' pool' stream buffer :
  composed_until i s -> Pool.participants pool !! i = Some p ->
  Participant.isUsed p = true ->
  parties' = reported id (c_parties s) p -> served id (c_pool s) i p pool' ->
  composed_until (S i)
    (mkCompose parties' pool' stream buffer (u64 (foundParticipantCount s + 1))).
Proof.
  intros [Hpa Hpp Hcap Hpwf Hfree Hfound] Hp Hu -> [Hsp Hsc Hswf Hsf].
  pose proof (lookup_lt_Some _ _ _ Hp). pose proof (pool_length _ Hwf).
  pose proof (pool_capacity _ Hwf).
  split; simpl.
  - by rewrite (served_first_S i p Hp), foldl_app, Hpa.
  - by rewrite Hsp, Hpp, insert_composed.
  - by rewrite Hsc.
  - done.
  - rewrite Hsf, Hfree, (served_first_S i p Hp), leaving_ids_app, app_assoc. f_equal.
    unfold leaving_ids. simpl. by rewrite app_nil_r.
  - rewrite (served_first_S i p Hp), count_if_app, Hfound. simpl. rewrite Hu. simpl.
    pose proof (count_if_range Participant.isUsed (served_first i)) as Hr.
    rewrite length_served_first in Hr by lia. rewrite u64_small by lia. lia.
Qed.

Lemma composed_until_unused i s p :
  composed_until i s -> Pool.participants pool !! i = Some p ->
  Participant.isUsed p = false -> composed_until (S i) s.
Proof.
  intros [Hpa Hpp Hcap Hpwf Hfree Hfound] Hp Hu. split; try done.
  - rewrite (served_first_S i p Hp), foldl_app, Hpa. simpl. unfold reported. by rewrite Hu.
  - rewrite Hpp, <- (insert_composed i p Hp). symmetry. apply list_insert_id.
    unfold composed. rewrite Hu, lookup_app_r; rewrite length_fmap, length_served_first;
      pose proof (lookup_lt_Some _ _ _ Hp); try lia.
    rewrite lookup_drop. by replace (i + (i - i))%nat with i by lia.
  - rewrite Hfree, (served_first_S i p Hp), leaving_ids_app. unfold leaving_ids at 3. simpl.
    unfold leaving. by rewrite Hu, app_nil_r.
  - rewrite (served_first_S i p Hp), count_if_app, Hfound. simpl. rewrite Hu. simpl. lia.
Qed.

Hypothesis HmaxLength : 0 <= maxLength.

Abbreviation whole := (encoded_until (length (Pool.participants pool))).

(** The loop goes on with the next participant served, or it returns because the
    octets do not fit. *)
Definition compose_return (r : compose_state * Z) : Prop :=
  r.2 < 0 /\ maxLength < Z.of_nat (length whole) /\
  exists k, (k <= length (Pool.participants pool))%nat /\ composed_until k r.1.

Lemma runs_compose_participant {E} i s :
  (i < length (Pool.participants pool))%nat -> composed_until i s ->
  appended (fldOutStreamInit maxLength) (c_stream s) (encoded_until i) ->
  sat E (compose_participant id i s)
    (flow_post (fun s' => composed_until (S i) s' /\
                  appended (fldOutStreamInit maxLength) (c_stream s') (encoded_until (S i)))
       compose_return).
Proof.
  intros Hi Hs Ha. destruct (next_participant i s Hi Hs)
    as (p & Hp & Hp' & Hid & Hpok & Hlen & Halike).
  unfold compose_participant. run.
  destruct (Participant.isUsed p) eqn:Hu; simpl.
  2: { split; [by eapply composed_until_unused|].
       by rewrite (encoded_until_S i p Hp), Hu, app_nil_r. }
  apply runs_bind, runs_read_step; [by rewrite Hlen|done|]. run.
  eapply runs_mono; [by apply (runs_apply_state id _ i p (cu_wf _ _ Hs))|].
  intros [pool' stepType] [Hserved ->]. pose proof (served_participants _ _ _ _ _ Hserved) as Hps.
  assert (Hload : Pool.participants pool' !! i = Some (composed id p)).
  { rewrite Hps. apply list_lookup_insert_eq. by eapply lookup_lt_Some. }
  run. pose proof (read_of_cases id p (participant_steps _ _ Hpok)) as Hread.
  destruct (read_of id p) as [[steps code] o] eqn:Er. simpl.
  destruct Hread as (_ & Hmax & _ & Ho & _). pose proof (participant_steps_max _ _ Hpok).
  eapply runs_mono; [apply runs_write_step|].
  - by eapply appended_raw.
  - by rewrite composed_id.
  - lia.
  - apply take_app_length.
  - intros Hj. destruct (participant_party _ _ Hpok Hu) as (q & Hq & Hlt).
    destruct (lookup_lt_is_Some_2 parties q Hlt) as [party Hparty].
    destruct (alike_lookup _ _ _ _ (transitivity Halike (reported_alike id (c_parties s) p)) Hparty)
      as [qual Hl].
    exists q. eexists. split; [|split; [exact Hl|simpl; by eapply (Forall_lookup_1 _ _ _ _ Hids)]].
    unfold composed. rewrite Hu. simpl.
    destruct (Participant.state p); simpl in *; try done; by destruct (provided id p).
  - intros [stream code'] [Hneg Happ].
    pose proof (composed_until_S i s p _ pool' stream (o ++ drop (length o) (stepReadBuffer s))
      Hs Hp Hu eq_refl Hserved) as Hnext.
    rewrite (record_written id parties _ p o) in Happ; [|done|by rewrite Er|].
    2: { etrans; [exact Halike|apply reported_alike]. }
    destruct (Z.ltb_spec code' 0); simpl.
    + split; [done|]. split; [|exists (S i); split; [lia|exact Hnext]].
      pose proof (length_encoded_mono (S i) _ Hi (Nat.le_refl _)) as Hmono.
      rewrite (encoded_until_S i p Hp), Hu, length_app in Hmono.
      pose proof (encode_record_length (record_of id parties p)).
      pose proof (not_fitting _ _ _ HmaxLength Ha (Hneg ltac:(lia))). lia.
    + split; [exact Hnext|]. rewrite (encoded_until_S i p Hp), Hu.
      by eapply appended_trans.
Qed.

Lemma runs_compose_loop {E} s :
  composed_until 0 s -> appended (fldOutStreamInit maxLength) (c_stream s) (encoded_until 0) ->
  sat E (for_loop (length (Pool.participants pool)) 0 (compose_participant id) s)
    (flow_post (fun s' => composed_until (length (Pool.participants pool)) s' /\
                  appended (fldOutStreamInit maxLength) (c_stream s') whole)
       compose_return).
Proof.
  intros Hs Ha. apply (runs_for (fun i s => composed_until i s /\
    appended (fldOutStreamInit maxLength) (c_stream s) (encoded_until i))); [done|].
  intros j s' Hj [Hs' Ha']. apply runs_compose_participant; [lia|done..].
Qed.

Lemma used_count_if l : used_count l = count_if Participant.isUsed l.
Proof. induction l as [|p l IH]; simpl; [done|]. rewrite IH. by destruct (Participant.isUsed p). Qed.

Lemma composed_isUsed p :
  Participant.isUsed (composed id p) = Participant.isUsed p && negb (leaving p).
Proof.
  unfold leaving, composed. destruct (Participant.isUsed p) eqn:Hu; [|by rewrite Hu].
  by destruct p as [? ? ? ? ? []].
Qed.

Lemma used_count_composed l :
  used_count (composed id <$> l) = used_count l - count_if leaving l.
Proof.
  induction l as [|p l IH]; [done|]. cbn [fmap list_fmap used_count count_if].
  rewrite IH, composed_isUsed. unfold leaving at 1 3.
  destruct (Participant.isUsed p); simpl; [|lia]. destruct (bool_decide _); simpl; lia.
Qed.

Lemma served_first_all : served_first (length (Pool.participants pool)) = Pool.participants pool.
Proof. unfold served_first. by rewrite firstn_all. Qed.

Lemma whole_encode : whole = encode_step (records_of id parties (Pool.participants pool)).
Proof.
  unfold encoded_until, encode_step. rewrite served_first_all. f_equal.
  rewrite length_records_of, (pool_count _ Hwf). apply used_count_if.
Qed.

Lemma records_ok : Forall record_ok (records_of id parties (Pool.participants pool)).
Proof.
  apply Forall_lookup. intros i r Hr%list_elem_of_lookup_2.
  apply list_elem_of_bind in Hr as (p & Hr & (j & Hj)%list_elem_of_lookup).
  destruct (Participant.isUsed p); [|by apply elem_of_nil in Hr].
  apply list_elem_of_singleton in Hr as ->. pose proof (lookup_lt_Some _ _ _ Hj).
  pose proof (pool_length _ Hwf). pose proof (pool_capacity _ Hwf).
  apply contribution_ok. rewrite (pool_ids _ Hwf _ _ Hj). lia.
Qed.

(** What one composing does, whatever it returns. *)
Definition compose_one_post (r : list NimbleServerLocalParty * NimbleServerParticipants * list Z * Z) :
    Prop :=
  let '(parties', pool', octets, code) := r in
  exists k s, (k <= length (Pool.participants pool))%nat /\ composed_until k s /\
    c_parties s = parties' /\ c_pool s = pool' /\
    if code <? 0 then maxLength < Z.of_nat (length whole)
    else k = length (Pool.participants pool) /\ code = Z.of_nat (length octets) /\
         (Z.of_nat (length whole) <= maxLength ->
          octets = encode_step (records_of id parties (Pool.participants pool))).

(** The only way to stop: the assertion on the number of participants, after a
    participant left. *)
Lemma runs_compose_one :
  sat (fun h => h = AssertionFailed /\ assertions_enabled = true /\
                0 < count_if leaving (Pool.participants pool))
    (composeOneAuthoritativeStep parties pool id maxLength) compose_one_post.
Proof.
  unfold composeOneAuthoritativeStep.
  pose proof (pool_count_range _ Hwf) as Hcount. pose proof (pool_capacity _ Hwf).
  pose proof (pool_length _ Hwf) as Hl.
  destruct (out_init maxLength HmaxLength) as (Hinit & _ & Hraw).
  pose proof (appended_u8 _ (u8 (Pool.participantCount pool)) Hraw (u8_range _)) as Ha.
  destruct (fldOutStreamWriteUInt8 _ _) as [s0 c0]. rewrite u8_small in Ha by lia. simpl in Ha.
  rewrite <- Hl, Nat2Z.id. eapply runs_bind_mono.
  { apply runs_compose_loop; [|exact Ha]. split; simpl; rewrite ?app_nil_r; done. }
  intros [s|[s code]]; simpl.
  - intros [Hs (_ & _ & Hstream)]. rewrite Hinit in Hstream.
    destruct (out_init maxLength HmaxLength) as (_ & Hsize & _).
    assert (Hret : compose_one_post
      (c_parties s, c_pool s, out_octets (c_stream s), out_pos (c_stream s))).
    { exists (length (Pool.participants pool)), s. rewrite out_pos_octets.
      rewrite (proj2 (Z.ltb_ge _ _)) by lia. do 6 (split; [done|]). intros Hfit.
      rewrite <- whole_encode. apply Hstream. rewrite out_pos_octets, Hinit, Hsize. done. }
    unfold CLOG_ASSERT.
    pose proof (pool_count _ (cu_wf _ _ Hs)) as Hc. pose proof (cu_found _ _ Hs) as Hf.
    rewrite (cu_participants _ _ Hs), drop_all, app_nil_r, served_first_all in Hc.
    rewrite used_count_composed, used_count_if in Hc. rewrite served_first_all in Hf.
    pose proof (count_if_range leaving (Pool.participants pool)).
    destruct (Z.eqb_spec (foundParticipantCount s) (Pool.participantCount (c_pool s)));
      simpl; [done|]. destruct assertions_enabled; simpl; [|done]. split; [done|]. split; [done|lia].
  - intros (Hneg & Hfull & k & Hk & Hs). simpl in *. exists k, s.
    rewrite (proj2 (Z.ltb_lt _ _)) by done. auto.
Qed.

(** When a step was composed, all participants were served. *)
Lemma compose_one_done parties' pool' octets code :
  compose_one_post (parties', pool', octets, code) -> 0 <= code ->
  let records := records_of id parties (Pool.participants pool) in
  parties' = foldl (reported id) parties (Pool.participants pool) /\
  Pool.participants pool' = composed id <$> Pool.participants pool /\
  contents (Pool.freeList pool')
  = contents (Pool.freeList pool) ++ leaving_ids (Pool.participants pool) /\
  pool_wf pool' /\ code = Z.of_nat (length octets) /\
  (Z.of_nat (length (encode_step records)) <= maxLength ->
   octets = encode_step records /\ decode_step octets = Some records).
Proof.
  intros (k & s & Hk & Hs & <- & <- & Hcode) Hpos records.
  rewrite (proj2 (Z.ltb_ge _ _) Hpos) in Hcode. destruct Hcode as (-> & Hlen & Hocts).
  rewrite whole_encode in Hocts.
  pose proof (cu_parties _ _ Hs) as Hpa. pose proof (cu_participants _ _ Hs) as Hpp.
  pose proof (cu_free _ _ Hs) as Hf.
  rewrite drop_all, app_nil_r in Hpp. rewrite served_first_all in *.
  do 3 (split; [done|]). split; [apply Hs|]. split; [done|].
  intros Hfit. rewrite (Hocts Hfit). split; [done|]. by apply decode_encode_step, records_ok.
Qed.
End ComposeLoop.

(** ** What composing keeps *)
Record compose_frame parties pool parties' pool' : Prop := {
  frame_alike : parties_alike parties parties';
  frame_wf : pool_wf pool';
  frame_capacity : Pool.participantCapacity pool' = Pool.participantCapacity pool;
  frame_ok : Forall (participant_ok (length parties)) (Pool.participants pool');
  frame_owned : owned parties (Pool.participants pool) -> owned parties' (Pool.participants pool');
  frame_leaving : count_if leaving (Pool.participants pool') <= count_if leaving (Pool.participants pool);
}.

Lemma alike_length parties parties' : parties_alike parties parties' -> length parties' = length parties.
Proof. intros Ha. symmetry. by eapply list.Forall2_length. Qed.

Lemma owned_alike parties parties' (l : list NimbleServerParticipant) :
  parties_alike parties parties' -> owned parties l -> owned parties' l.
Proof.
  intros Ha Hown i party' Hi Hu. destruct (Forall2_lookup_r _ _ _ _ _ Ha Hi) as (party & Hp & q & ->).
  exact (Hown i party Hp Hu).
Qed.

Lemma owned_composed parties id l k :
  owned parties l -> owned parties ((composed id <$> take k l) ++ drop k l).
Proof.
  intros Hown i party Hi Hu p Hp. destruct (Hown i party Hi Hu p Hp) as (o & Ho & Huo & Hin & Hst).
  assert (Hlt : (p < length l)%nat) by (by eapply lookup_lt_Some).
  destruct (decide (p < k)%nat).
  - exists (composed id o).
    rewrite lookup_app_l by (rewrite length_fmap, length_take; lia).
    rewrite list_lookup_fmap, lookup_take_lt, Ho by done. split; [done|].
    unfold composed. rewrite Huo. destruct o as [? ? ? ? ? []]; simpl in *; by split_and!.
  - exists o. rewrite lookup_app_r; rewrite length_fmap, length_take; [|lia].
    rewrite lookup_drop. by replace (k + (p - k `min` length l))%nat with p by lia.
Qed.

Lemma leaving_composed id l : count_if leaving (composed id <$> l) = 0.
Proof.
  induction l as [|p l IH]; [done|]. cbn [fmap list_fmap count_if]. rewrite IH.
  unfold leaving. rewrite composed_isUsed. unfold leaving, composed.
  destruct (Participant.isUsed p) eqn:Hu; [|done]. by destruct p as [? ? ? ? ? []].
Qed.

Lemma composed_until_frame id parties pool k s :
  Forall (participant_ok (length parties)) (Pool.participants pool) ->
  composed_until id parties pool k s -> compose_frame parties pool (c_parties s) (c_pool s).
Proof.
  intros Hok Hs. split.
  - rewrite (cu_parties _ _ _ _ _ Hs). apply all_reported_alike.
  - apply Hs.
  - apply Hs.
  - rewrite (cu_participants _ _ _ _ _ Hs). apply Forall_app. split; [|by apply Forall_drop].
    apply Forall_fmap. eapply Forall_impl; [|by apply Forall_take]. intros p. apply composed_ok.
  - intros Hown. rewrite (cu_participants _ _ _ _ _ Hs), (cu_parties _ _ _ _ _ Hs).
    eapply owned_alike; [apply all_reported_alike|]. by apply owned_composed.
  - rewrite (cu_participants _ _ _ _ _ Hs), count_if_app, leaving_composed.
    rewrite <- (firstn_skipn k (Pool.participants pool)) at 2. rewrite count_if_app.
    pose proof (count_if_range leaving (take k (Pool.participants pool))). lia.
Qed.

(** ** When to compose *)

(** The number of steps a participant is ahead: from the step to compose to its
    newest one; zero when it has nothing to contribute. *)
Definition ahead (id : Z) p : Z :=
  if (0 <? stepsCount (Participant.steps p)) && (id <? expectedWriteId (Participant.steps p))
  then expectedWriteId (Participant.steps p) - id else 0.

(** What the code counts for it: one step more than there are, in 32 bits. *)
Definition counted (id : Z) p : Z :=
  if (0 <? stepsCount (Participant.steps p)) && (id <? expectedWriteId (Participant.steps p))
  then u32 (ahead id p + 1) else 0.

Definition cannot_contribute (id : Z) p : bool :=
  Participant.isUsed p &&
  negb ((0 <? stepsCount (Participant.steps p)) && (id <? expectedWriteId (Participant.steps p))).

Definition max_counted (id : Z) (l : list NimbleServerParticipant) : Z :=
  foldr Z.max 0 ((fun p => if Participant.isUsed p then counted id p else 0) <$> l).

Lemma max_counted_app id l1 l2 : max_counted id (l1 ++ l2) = Z.max (max_counted id l1) (max_counted id l2).
Proof. unfold max_counted. by rewrite fmap_app, foldr_max_app. Qed.

Lemma max_counted_nonneg id l : 0 <= max_counted id l.
Proof. apply foldr_max_nonneg. Qed.

Lemma max_counted_one id p : max_counted id [p] = if Participant.isUsed p then counted id p else 0.
Proof.
  unfold max_counted. simpl. destruct (Participant.isUsed p); [|done]. apply Z.max_l.
  unfold counted. destruct (_ && _); [apply u32_range|done].
Qed.

Lemma max_counted_gt id n l : 0 <= n ->
  n < max_counted id l <->
  exists p, p ∈ l /\ Participant.isUsed p = true /\ n < counted id p.
Proof.
  intros Hn. unfold max_counted. rewrite foldr_max_gt by done. setoid_rewrite list_elem_of_fmap.
  split.
  - intros (x & (p & -> & Hp) & Hx). exists p. destruct (Participant.isUsed p); [done|lia].
  - intros (p & Hp & Hu & Hx). exists (counted id p). split; [|done]. exists p. by rewrite Hu.
Qed.

Lemma counted_gt id p k :
  0 <= id -> steps_wf (Participant.steps p) -> 1 <= k ->
  k < counted id p <-> k <= ahead id p /\ ahead id p < 4294967295.
Proof.
  intros Hid Hp Hk. pose proof (steps_write_id_range _ Hp). unfold counted, ahead.
  destruct (Z.ltb_spec id (expectedWriteId (Participant.steps p)));
    [|rewrite andb_false_r; lia].
  destruct (0 <? _); simpl; [|lia].
  destruct (Z.eq_dec (expectedWriteId (Participant.steps p) - id) 4294967295) as [->|].
  - change (u32 (4294967295 + 1)) with 0. lia.
  - rewrite u32_small by lia. lia.
Qed.

Lemma runs_max_contribution {E} pool id : pool_wf pool ->
  sat E (maxPredictedStepContributionForParticipants pool id)
    (fun r => r = (max_counted id (Pool.participants pool),
                   count_if (cannot_contribute id) (Pool.participants pool))).
Proof.
  intros Hwf. unfold maxPredictedStepContributionForParticipants.
  pose proof (pool_length _ Hwf) as Hl. pose proof (pool_capacity _ Hwf).
  rewrite <- Hl, Nat2Z.id. set (l := Pool.participants pool).
  eapply runs_mono; [apply (runs_for_each (fun i r =>
    r = (max_counted id (take i l), count_if (cannot_contribute id) (take i l))))|].
  - done.
  - intros j r Hj ->. destruct (lookup_lt_is_Some_2 l j) as [p Hp]; [lia|]. unfold l in *.
    run. rewrite (take_S_r _ _ _ Hp), max_counted_app, count_if_app.
    pose proof (count_if_range (cannot_contribute id) (take j (Pool.participants pool))) as Hr.
    rewrite length_take in Hr. pose proof (max_counted_nonneg id (take j (Pool.participants pool))).
    rewrite max_counted_one. cbn [count_if].
    change (cannot_contribute id p) with (Participant.isUsed p &&
      negb ((0 <? stepsCount (Participant.steps p))
            && (id <? expectedWriteId (Participant.steps p)))).
    unfold counted, ahead.
    destruct (Participant.isUsed p); simpl; [|f_equal; lia].
    pose proof (u32_range (expectedWriteId (Participant.steps p) - id + 1)).
    destruct (_ && _); simpl;
      (match goal with |- context [?a <? ?b] => destruct (Z.ltb_spec a b) end); f_equal;
      rewrite ?u64_small by lia; lia.
  - simpl. intros r ->. unfold l. by rewrite firstn_all.
Qed.

(** Whether the step [id] is composed, with [count] steps waiting. *)
Definition may_advance (id count : Z) (participants : list NimbleServerParticipant) : bool :=
  (((3 <? max_counted id participants) && (count_if (cannot_contribute id) participants =? 0))
   || (5 <? max_counted id participants))
  && (count <? NBS_WINDOW_SIZE / 2).

Lemma runs_should_advance {E} pool steps : pool_wf pool ->
  sat E (shouldAdvanceAuthoritative pool steps) (fun b =>
    b = may_advance (expectedWriteId steps) (stepsCount steps) (Pool.participants pool)).
Proof.
  intros Hwf. unfold shouldAdvanceAuthoritative, shouldComposeNewAuthoritativeStep.
  apply runs_bind, runs_bind. eapply runs_mono; [by apply runs_max_contribution|].
  intros r ->. by run.
Qed.

Lemma compose_frame_refl parties pool :
  pool_wf pool -> Forall (participant_ok (length parties)) (Pool.participants pool) ->
  compose_frame parties pool parties pool.
Proof. by split. Qed.

Lemma compose_frame_trans parties1 pool1 parties2 pool2 parties3 pool3 :
  compose_frame parties1 pool1 parties2 pool2 -> compose_frame parties2 pool2 parties3 pool3 ->
  compose_frame parties1 pool1 parties3 pool3.
Proof.
  intros H12 H23. pose proof (alike_length _ _ (frame_alike _ _ _ _ H12)) as Hl.
  split.
  - etrans; [apply H12|apply H23].
  - apply H23.
  - rewrite (frame_capacity _ _ _ _ H23). apply H12.
  - rewrite <- Hl. apply H23.
  - intros Hown. by apply H23, H12.
  - pose proof (frame_leaving _ _ _ _ H12). pose proof (frame_leaving _ _ _ _ H23). lia.
Qed.

Lemma alike_ids parties parties' : parties_alike parties parties' ->
  Forall (fun party => 0 <= Party.id party < 256) parties ->
  Forall (fun party => 0 <= Party.id party < 256) parties'.
Proof. induction 1 as [|? ? ? ? [q ->] _ IH]; inversion 1; subst; constructor; auto. Qed.

(** ** Composing as many steps as possible *)

(** The steps [new] were composed. *)
Record composed_steps parties (game : Game) (new : list (list Z)) parties' (game' : Game) : Prop := {
  cs_frame : compose_frame parties (Game.participants game) parties' (Game.participants game');
  cs_wf : steps_wf (Game.authoritativeSteps game');
  cs_frozen : Game.debugIsFrozen game' = Game.debugIsFrozen game;
  cs_range : Z.of_nat (length new) <= Z.max 0 (NBS_WINDOW_SIZE / 2 - stepsCount (Game.authoritativeSteps game));
  cs_count : stepsCount (Game.authoritativeSteps game')
             = stepsCount (Game.authoritativeSteps game) + Z.of_nat (length new);
  cs_write : expectedWriteId (Game.authoritativeSteps game')
             = u32 (expectedWriteId (Game.authoritativeSteps game) + Z.of_nat (length new));
  cs_log : steps_log (Game.authoritativeSteps game')
           = steps_log (Game.authoritativeSteps game) ++ new;
}.

(** The abstract game: in lock-step, every participant contributes to each step,
    as long as there is reason to advance. A step that fits 1024 octets can be
    read back as the records of all participants. *)
Definition merged_step (id : Z) parties (participants : list NimbleServerParticipant)
    (o : list Z) : Prop :=
  let records := records_of id parties participants in
  Z.of_nat (length (encode_step records)) <= 1024 ->
  o = encode_step records /\ decode_step o = Some records.

Inductive lock_steps (id count : Z) parties (participants : list NimbleServerParticipant) :
    list (list Z) -> list NimbleServerLocalParty -> list NimbleServerParticipant -> Prop :=
  | lock_steps_start : lock_steps id count parties participants [] parties participants
  | lock_steps_more new parties' participants' o :
      lock_steps id count parties participants new parties' participants' ->
      let next := u32 (id + Z.of_nat (length new)) in
      may_advance next (count + Z.of_nat (length new)) participants' = true ->
      merged_step next parties' participants' o ->
      lock_steps id count parties participants (new ++ [o])
        (foldl (reported next) parties' participants') (composed next <$> participants').

Definition game_advances parties (game : Game) :=
  lock_steps (expectedWriteId (Game.authoritativeSteps game))
    (stepsCount (Game.authoritativeSteps game)) parties
    (Pool.participants (Game.participants game)).

(** What composing promises: the new steps are those of the abstract game. When
    their number is returned the game has come to its end. *)
Definition compose_post parties (game : Game) (r : list NimbleServerLocalParty * Game * Z) : Prop :=
  let '(parties', game', n) := r in
  let steps' := Game.authoritativeSteps game' in
  exists new last_parties last_participants,
    composed_steps parties game new parties' game' /\
    game_advances parties game new last_parties last_participants /\
    ((n = Z.of_nat (length new) /\ last_parties = parties' /\
      last_participants = Pool.participants (Game.participants game') /\
      may_advance (expectedWriteId steps') (stepsCount steps') last_participants = false)
     \/ n <= 0).

(** Nothing composed yet. *)
Lemma composed_steps_none parties game :
  pool_wf (Game.participants game) ->
  Forall (participant_ok (length parties)) (Pool.participants (Game.participants game)) ->
  steps_wf (Game.authoritativeSteps game) -> composed_steps parties game [] parties game.
Proof.
  intros Hwf Hok Hsteps. pose proof (steps_write_id_range _ Hsteps).
  split; simpl; try done; rewrite ?Z.add_0_r, ?u32_small, ?app_nil_r by lia; try done; try lia.
Qed.

(** One more step composed and written. *)
Lemma composed_steps_write parties game new parties' game' parties'' pool'' octets steps' written :
  composed_steps parties game new parties' game' ->
  stepsCount (Game.authoritativeSteps game') < NBS_WINDOW_SIZE / 2 ->
  compose_frame parties (Game.participants game) parties'' pool'' ->
  nbsStepsWrite (Game.authoritativeSteps game')
    (expectedWriteId (Game.authoritativeSteps game')) octets = (steps', written) -> 0 <= written ->
  composed_steps parties game (new ++ [octets]) parties''
    (Game.set_authoritativeSteps steps' (Game.set_participants pool'' game')).
Proof.
  intros [_ Hwf' Hfroz Hm Hc Hwr Hlog] Hroom Hframe Hwrite Hwritten.
  pose proof (steps_write _ octets Hwf') as Hok. rewrite Hwrite in Hok. simpl in Hok.
  destruct (Hok Hwritten) as (Hwf'' & Hc'' & Hwr'' & Hlog'').
  split; simpl; rewrite ?length_app; simpl; try done; try lia.
  - rewrite Hwr'', Hwr. unfold u32. rewrite Z.add_mod_idemp_l by lia. f_equal. lia.
  - by rewrite Hlog'', Hlog, app_assoc.
Qed.

(** The last step was composed, but could not be used. *)
Lemma compose_post_failed parties game new parties' game' parties'' pool'' n :
  composed_steps parties game new parties' game' ->
  game_advances parties game new parties' (Pool.participants (Game.participants game')) ->
  compose_frame parties (Game.participants game) parties'' pool'' -> n <= 0 ->
  compose_post parties game (parties'', Game.set_participants pool'' game', n).
Proof.
  intros [] Hlock Hframe Hn. exists new, parties', (Pool.participants (Game.participants game')).
  split; [by split|]. auto.
Qed.

(** Composing the step after [new]. *)
Lemma runs_compose_next parties game new parties' game' :
  composed_steps parties game new parties' game' ->
  Forall (fun party => 0 <= Party.id party < 256) parties ->
  let id := expectedWriteId (Game.authoritativeSteps game') in
  sat (fun h => h = AssertionFailed /\ assertions_enabled = true /\
                0 < count_if leaving (Pool.participants (Game.participants game)))
    (composeOneAuthoritativeStep parties' (Game.participants game') id 1024)
    (fun '(parties'', pool'', octets, code) =>
       compose_frame parties (Game.participants game) parties'' pool'' /\
       (0 < code ->
        merged_step id parties' (Pool.participants (Game.participants game')) octets /\
        parties'' = foldl (reported id) parties' (Pool.participants (Game.participants game')) /\
        Pool.participants pool'' = composed id <$> Pool.participants (Game.participants game'))).
Proof.
  intros [Hframe _ _ _ _ _ _] Hids id. pose proof (frame_alike _ _ _ _ Hframe) as Halike.
  assert (Hok' : Forall (participant_ok (length parties'))
    (Pool.participants (Game.participants game'))).
  { rewrite (alike_length _ _ Halike). apply Hframe. }
  eapply runs_mono.
  { eapply sat_weaken; [|apply (runs_compose_one id 1024 parties');
      [apply Hframe|done|by eapply alike_ids|lia]].
    intros h (? & ? & ?). pose proof (frame_leaving _ _ _ _ Hframe). split_and!; [done..|lia]. }
  intros [[[parties'' pool''] octets] code] Hpost. split.
  - destruct Hpost as (k & s & _ & Hs & <- & <- & _).
    eapply compose_frame_trans; [exact Hframe|]. eapply composed_until_frame; [done|exact Hs].
  - intros Hpos. destruct (compose_one_done _ _ _ _ (frame_wf _ _ _ _ Hframe) _ _ _ _ Hpost
      ltac:(lia)) as (-> & -> & _ & _ & _ & Hocts). by split.
Qed.

Lemma runs_compose_steps parties game :
  pool_wf (Game.participants game) ->
  Forall (participant_ok (length parties)) (Pool.participants (Game.participants game)) ->
  Forall (fun party => 0 <= Party.id party < 256) parties ->
  steps_wf (Game.authoritativeSteps game) ->
  sat (fun h => h = AssertionFailed /\ assertions_enabled = true /\
                0 < count_if leaving (Pool.participants (Game.participants game)))
    (nimbleServerComposeAuthoritativeSteps parties game) (compose_post parties game).
Proof.
  intros Hwf Hok Hids Hsteps. pose proof window_size as Hw.
  pose proof (steps_count_range _ Hsteps) as Hcount.
  unfold nimbleServerComposeAuthoritativeSteps.
  apply (runs_while
    (fun '(parties', game', m) => exists new, m = Z.of_nat (length new) /\
       composed_steps parties game new parties' game' /\
       game_advances parties game new parties' (Pool.participants (Game.participants game')))
    (fun '(_, game', _) =>
       Z.to_nat (NBS_WINDOW_SIZE / 2 - stepsCount (Game.authoritativeSteps game')))).
  { exists []. split; [done|]. split; [by apply composed_steps_none|constructor]. }
  { unfold compose_fuel. lia. }
  intros [[parties' game'] m] (new & -> & Hdone & Hlock).
  pose proof Hdone as [Hframe Hwf' _ Hm Hc Hwr _].
  assert (Hhalf : NBS_WINDOW_SIZE / 2 < 2147483648) by (Z.div_mod_to_equations; lia).
  eapply runs_bind_mono; [by apply runs_should_advance, Hframe|]. intros b Hb.
  destruct b; simpl.
  2: { exists new. do 2 eexists. split; [done|]. split; [done|]. left.
       split; [apply s32_small; lia|done]. }
  eapply runs_bind_mono; [by apply (runs_compose_next _ _ _ _ _ Hdone Hids)|].
  intros [[[parties'' pool''] octets] code] [Hframe' Hmerged].
  destruct (Z.leb_spec code 0); [by eapply compose_post_failed|].
  pose proof (steps_write_fails _ (expectedWriteId (Game.authoritativeSteps game')) octets Hwf')
    as Hfail.
  destruct (nbsStepsWrite _ _ octets) as [steps' written] eqn:Hwritten. simpl in Hfail.
  destruct (Z.ltb_spec written 0) as [Hneg|Hpos].
  - rewrite (Hfail Hneg). eapply (compose_post_failed _ _ _ _ game'); try done. lia.
  - assert (Hroom : stepsCount (Game.authoritativeSteps game') < NBS_WINDOW_SIZE / 2).
    { symmetry in Hb. by apply andb_true_iff in Hb as [_ Hb%Z.ltb_lt]. }
    pose proof (composed_steps_write _ _ _ _ _ _ _ _ _ _ Hdone Hroom Hframe' Hwritten Hpos)
      as Hnext.
    split; [|pose proof (cs_count _ _ _ _ _ Hnext) as Hcn; simpl in Hcn;
             rewrite length_app in Hcn; simpl in *; lia].
    exists (new ++ [octets]). rewrite u64_small, length_app by lia. split; [simpl; lia|].
    split; [exact Hnext|]. simpl.
    destruct (Hmerged ltac:(lia)) as (Ho & -> & ->). rewrite Hwr, Hc in *. by constructor.
Qed.
End ComposeRun.

(** ** Properties *)
Section ComposeProperties.
Context `{Clog} `{TinyLibc} `{NimbleSteps} `{NimbleSerialize} `{!NimbleStepsSerialize} `{Stats}.
Context `{!TinyLibcLaws} `{!NimbleStepsLaws} `{!FldOutLaws} `{!NimbleSerializeLaws}.
Implicit Types (parties : list NimbleServerLocalParty) (p : NimbleServerParticipant)
  (pool : NimbleServerParticipants).

(** C4. Composing one authoritative step, when its octets fit the buffer and no
    participant leaves (or assertions are off): the octets are the encoding of
    one record for each participant in use, in order - the step it predicted,
    or why there is none - and can be decoded to exactly these records. Every
    step read is consumed, those who just joined become normal, those who leave
    are destroyed and their ids are free again, in order, and every party is
    told whether its participant provided its step. *)
Theorem compose_one_step_correct id maxLength parties pool :
  pool_wf pool -> Forall (participant_ok (length parties)) (Pool.participants pool) ->
  Forall (fun party => 0 <= Party.id party < 256) parties ->
  let records := records_of id parties (Pool.participants pool) in
  Z.of_nat (length (encode_step records)) <= maxLength ->
  assertions_enabled = false \/ count_if leaving (Pool.participants pool) = 0 ->
  runs (composeOneAuthoritativeStep parties pool id maxLength)
    (fun '(parties', pool', octets, code) =>
       octets = encode_step records /\ code = Z.of_nat (length octets) /\
       decode_step octets = Some records /\
       parties' = foldl (reported id) parties (Pool.participants pool) /\
       Pool.participants pool' = composed id <$> Pool.participants pool /\
       contents (Pool.freeList pool')
       = contents (Pool.freeList pool) ++ leaving_ids (Pool.participants pool) /\
       pool_wf pool').
Proof.
  intros Hwf Hok Hids records Hfit Hassert.
  eapply (sat_weaken (fun h => h = AssertionFailed /\ assertions_enabled = true /\
    0 < count_if leaving (Pool.participants pool))).
  { intros h (_ & He & Hl). destruct Hassert; [congruence|lia]. }
  eapply runs_mono; [apply runs_compose_one; try done; lia|].
  intros [[[parties' pool'] octets] code] Hpost.
  destruct (Z.ltb_spec code 0) as [Hneg|Hpos].
  { destruct Hpost as (k & s & _ & _ & _ & _ & Hcode).
    rewrite (proj2 (Z.ltb_lt _ _) Hneg), (whole_encode id parties pool Hwf) in Hcode.
    subst records. lia. }
  destruct (compose_one_done _ _ _ _ Hwf _ _ _ _ Hpost Hpos)
    as (Hpa & Hpp & Hfree & Hwf' & Hlen & Hocts).
  destruct (Hocts Hfit) as [-> Hdecode]. auto 10.
Qed.

(** C35. A participant that leaves breaks the assertion at the end of the
    composing: it is counted as found, but no longer in [participantCount]. With
    assertions on, the first step composed after a party was dissolved stops the
    server. *)
Theorem leaving_participant_stops_server id maxLength parties pool :
  pool_wf pool -> Forall (participant_ok (length parties)) (Pool.participants pool) ->
  Forall (fun party => 0 <= Party.id party < 256) parties ->
  Z.of_nat (length (encode_step (records_of id parties (Pool.participants pool)))) <= maxLength ->
  assertions_enabled = true -> 0 < count_if leaving (Pool.participants pool) ->
  composeOneAuthoritativeStep parties pool id maxLength = Halt AssertionFailed.
Proof.
  intros Hwf Hok Hids Hfit Hon Hleaving.
  pose proof (runs_compose_one id maxLength parties pool Hwf Hok Hids ltac:(lia)) as Hrun.
  destruct (composeOneAuthoritativeStep parties pool id maxLength)
    as [[[[parties' pool'] octets] code]|h] eqn:E; [|by destruct Hrun as [-> _]].
  exfalso. clear Hrun. revert E. unfold composeOneAuthoritativeStep.
  destruct (out_init maxLength ltac:(lia)) as (_ & _ & Hraw).
  pose proof (appended_u8 _ (u8 (Pool.participantCount pool)) Hraw (u8_range _)) as Ha.
  destruct (fldOutStreamWriteUInt8 _ _) as [s0 c0].
  pose proof (pool_count_range _ Hwf). pose proof (pool_capacity _ Hwf).
  rewrite u8_small in Ha by lia. simpl in Ha. rewrite <- (pool_length _ Hwf), Nat2Z.id.
  assert (Hloop := runs_compose_loop (E := fun _ => False) id maxLength parties pool Hwf Hok Hids
    ltac:(lia) (mkCompose parties pool s0 [] 0)).
  destruct (for_loop _ _ _ _) as [[s|[s c]]|h]; simpl in Hloop.
  - destruct Hloop as [Hs _]; [split; simpl; by rewrite ?app_nil_r|exact Ha|].
    pose proof (cu_found _ _ _ _ _ Hs) as Hf. pose proof (pool_count _ (cu_wf _ _ _ _ _ Hs)) as Hc.
    rewrite (cu_participants _ _ _ _ _ Hs), drop_all, app_nil_r, served_first_all in Hc.
    rewrite used_count_composed, used_count_if in Hc. rewrite served_first_all in Hf. simpl.
    unfold CLOG_ASSERT. rewrite Hon.
    destruct (Z.eqb_spec (foundParticipantCount s) (Pool.participantCount (c_pool s))); [lia|done].
  - destruct Hloop as (_ & Hfull & _); [split; simpl; by rewrite ?app_nil_r|exact Ha|].
    rewrite (whole_encode id parties pool Hwf) in Hfull. lia.
  - by destruct Hloop; [split; simpl; by rewrite ?app_nil_r|exact Ha].
Qed.

(** C27. The server composes a step exactly when fewer than half a window of
    steps is waiting, and some participant has at least five steps from the next
    one on, or some participant has at least three and every participant can
    contribute. The limits in the code are "more than five" and "more than
    three", but it counts one step more than a participant has; a participant
    ahead by all 32-bit ids but one counts as having none. *)
Theorem should_advance_correct n pool steps :
  pool_wf pool -> Forall (participant_ok n) (Pool.participants pool) -> steps_wf steps ->
  let id := expectedWriteId steps in
  runs (shouldAdvanceAuthoritative pool steps) (fun b =>
    b = true <->
    stepsCount steps < NBS_WINDOW_SIZE / 2 /\
    exists p, p ∈ Pool.participants pool /\ Participant.isUsed p = true /\
      ahead id p < 4294967295 /\
      (5 <= ahead id p \/
       (3 <= ahead id p /\
        Forall (fun q => cannot_contribute id q = false) (Pool.participants pool)))).
Proof.
  intros Hwf Hok Hsteps id. eapply runs_mono; [by apply runs_should_advance|]. intros b ->.
  fold id. unfold may_advance.
  rewrite andb_true_iff, orb_true_iff, andb_true_iff, !Z.ltb_lt, Z.eqb_eq, !max_counted_gt by lia.
  rewrite count_if_zero.
  assert (Hcount : forall p k, p ∈ Pool.participants pool -> 1 <= k ->
    k < counted id p <-> k <= ahead id p /\ ahead id p < 4294967295).
  { intros p k Hp Hk. rewrite list.Forall_forall in Hok. apply counted_gt; [|by apply (Hok p Hp)|done].
    by apply steps_write_id_range. }
  split.
  - intros [[[(p & Hp & Hu & Ha) Hall]|(p & Hp & Hu & Ha)] Hs]; (split; [done|]); exists p;
      apply Hcount in Ha as [Ha Hlt]; try done; try lia;
      (split; [done|split; [done|split; [done|]]]); [right; split; [lia|done]|left; lia].
  - intros [Hs (p & Hp & Hu & Hlt & [Ha|[Ha Hall]])]; (split; [|done]).
    + right. exists p. split; [done|]. split; [done|]. apply Hcount; [done|lia|lia].
    + left. split; [|done]. exists p. split; [done|]. split; [done|]. apply Hcount; [done|lia|lia].
Qed.

(** C19. Composing as many steps as possible ends: it writes [m] new steps, at
    most as many as are missing to half a window, numbered from the expected
    one on, and returns [m], or a value that is not positive when a step could
    not be composed or stored. It keeps the invariants of the pool and its
    ownership, changes nothing but the qualities in the parties, and can only
    stop the program by the assertion on participants that leave. *)
Theorem compose_steps_terminates parties game :
  pool_wf (Game.participants game) ->
  Forall (participant_ok (length parties)) (Pool.participants (Game.participants game)) ->
  Forall (fun party => 0 <= Party.id party < 256) parties ->
  steps_wf (Game.authoritativeSteps game) ->
  sat (fun h => h = AssertionFailed /\ assertions_enabled = true /\
                0 < count_if leaving (Pool.participants (Game.participants game)))
    (nimbleServerComposeAuthoritativeSteps parties game)
    (fun '(parties', game', n) => exists m,
       (n = m \/ n <= 0) /\
       0 <= m <= Z.max 0 (NBS_WINDOW_SIZE / 2 - stepsCount (Game.authoritativeSteps game)) /\
       stepsCount (Game.authoritativeSteps game')
       = stepsCount (Game.authoritativeSteps game) + m /\
       expectedWriteId (Game.authoritativeSteps game')
       = u32 (expectedWriteId (Game.authoritativeSteps game) + m) /\
       parties_alike parties parties' /\ pool_wf (Game.participants game') /\
       (owned parties (Pool.participants (Game.participants game)) ->
        owned parties' (Pool.participants (Game.participants game')))).
Proof.
  intros Hwf Hok Hids Hsteps. eapply runs_mono; [by apply runs_compose_steps|].
  intros [[parties' game'] n] (new & last_parties & last_participants & Hdone & _ & Hn).
  destruct Hdone as [Hf _ _ Hr Hc Hw _]. exists (Z.of_nat (length new)).
  split; [by destruct Hn as [[? _]|?]; [left|right]|]. split; [lia|].
  do 2 (split; [done|]). split; [apply Hf|]. split; [apply Hf|apply Hf].
Qed.

(** C3. Composing refines the abstract lock-step game. The steps it appends to
    the log are, one after the other, the contributions of all participants as
    the steps before left them, each composed while there was reason to advance,
    and each that fits 1024 octets is read back as exactly these contributions.
    When the number of new steps is returned, the parties and participants are
    those of the abstract game, and there is no more reason to advance. *)
Theorem compose_steps_lock_step parties game :
  pool_wf (Game.participants game) ->
  Forall (participant_ok (length parties)) (Pool.participants (Game.participants game)) ->
  Forall (fun party => 0 <= Party.id party < 256) parties ->
  steps_wf (Game.authoritativeSteps game) ->
  sat (fun h => h = AssertionFailed /\ assertions_enabled = true /\
                0 < count_if leaving (Pool.participants (Game.participants game)))
    (nimbleServerComposeAuthoritativeSteps parties game)
    (fun '(parties', game', n) => exists new last_parties last_participants,
       steps_log (Game.authoritativeSteps game')
       = steps_log (Game.authoritativeSteps game) ++ new /\
       lock_steps (expectedWriteId (Game.authoritativeSteps game))
         (stepsCount (Game.authoritativeSteps game)) parties
         (Pool.participants (Game.participants game)) new last_parties last_participants /\
       ((n = Z.of_nat (length new) /\ last_parties = parties' /\
         last_participants = Pool.participants (Game.participants game') /\
         may_advance (expectedWriteId (Game.authoritativeSteps game'))
           (stepsCount (Game.authoritativeSteps game')) last_participants = false)
        \/ n <= 0)).
Proof.
  intros Hwf Hok Hids Hsteps. eapply runs_mono; [by apply runs_compose_steps|].
  intros [[parties' game'] n] (new & last_parties & last_participants & Hdone & Hlock & Hn).
  exists new, last_parties, last_participants. split; [apply Hdone|done].
Qed.

(** C22. Round trip of one participant. What the server writes for a participant
    into a stream with room - its step, its step with the party it is new in, or
    the reason why it has none - is read back by a client as exactly that,
    whatever octets follow. *)
Theorem participant_step_roundtrip parties p s buffer o stepType rest :
  out_raw s -> 0 <= Participant.id p < 64 -> Z.of_nat (length o) < 256 ->
  take (length o) buffer = o ->
  (stepType = NimbleSerializeStepTypeJoined ->
     exists q party, Participant.inParty p = Some q /\ parties !! q = Some party /\
       0 <= Party.id party < 256) ->
  out_pos s + 4 + Z.of_nat (length o) <= out_size s ->
  runs (write_participant_step parties p s buffer stepType (Z.of_nat (length o)))
    (fun '(s', code) => 0 <= code /\ exists octets, out_octets s' = out_octets s ++ octets /\
       decode_record (octets ++ rest)
       = Some (mkRecord (Participant.id p)
                 (contribution_of stepType (party_id_of parties p) o), rest)).
Proof.
  intros Hraw Hid Hlen Htake Hjoined Hroom.
  eapply runs_mono; [by apply runs_write_step|]. intros [s' code] [Hfull (_ & _ & Hocts)].
  destruct (Z.ltb_spec code 0) as [Hneg|Hpos]; [specialize (Hfull Hneg); lia|].
  split; [done|]. eexists. split; [apply Hocts|].
  - unfold encode_record. simpl. destruct stepType; simpl; lia.
  - apply decode_record_app, contribution_ok. lia.
Qed.
End ComposeProperties.

(** ** Witnesses *)
Import Models.

(** Participant 0 has four steps from id 0 on, participant 1 just joined (or is
    leaving) and has none, participant 2 is not in use. *)
Definition four_steps : NbsSteps := mkSteps [(0, [7]); (1, [8; 9]); (2, []); (3, [1])] 4 0 24.

Definition compose_pool (st : NimbleServerParticipantState) : NimbleServerParticipants :=
  Pool.mk _ [Participant.mk _ 0 0 true four_steps (Some 0%nat) NimbleServerParticipantStateNormal;
             Participant.mk _ 0 1 true (nbsStepsInit 24) (Some 1%nat) st;
             initial_participant 24 2] 3 2 (written zero_buffer 2).

Definition compose_parties : list NimbleServerLocalParty :=
  [example_party; Party.set_id 1 example_party].

Lemma compose_pool_wf st : pool_wf (compose_pool st).
Proof.
  split.
  - simpl; lia.
  - reflexivity.
  - intros [|[|[|i]]] p Hp; simpl in Hp; try done; by injection Hp as <-.
  - reflexivity.
  - apply written_wf, zero_buffer_wf.
  - replace (contents (Pool.freeList (compose_pool st))) with [2] by (vm_compute; reflexivity).
    reflexivity.
Qed.

Lemma compose_pool_ok st :
  Forall (participant_ok (length compose_parties)) (Pool.participants (compose_pool st)).
Proof.
  assert (Hfour : steps_wf four_steps).
  { split; simpl; try lia. repeat constructor; simpl; lia. }
  assert (Hempty : steps_wf (nbsStepsInit 24)) by (apply (steps_init 24); lia).
  constructor; [|constructor; [|constructor; [|constructor]]].
  - split; simpl; [exact Hfour|lia|]. intros _. exists 0%nat. split; [done|lia].
  - split; simpl; [exact Hempty|lia|]. intros _. exists 1%nat. split; [done|lia].
  - split; simpl; [exact Hempty|lia|done].
Qed.

Lemma compose_parties_ids : Forall (fun party => 0 <= Party.id party < 256) compose_parties.
Proof. constructor; [simpl; lia|]. constructor; [simpl; lia|constructor]. Qed.

Lemma compose_one_step_correct_witness :
  runs (composeOneAuthoritativeStep (H := debug_build) compose_parties
          (compose_pool NimbleServerParticipantStateJustJoined) 1 1024)
    (fun '(parties', pool', octets, code) =>
       octets = [2; 0; 2; 8; 9; 129; 1; 1; 0] /\ code = 9 /\ pool_wf pool').
Proof.
  eapply runs_mono; [apply (compose_one_step_correct (H := debug_build))|].
  - apply compose_pool_wf.
  - apply compose_pool_ok.
  - exact compose_parties_ids.
  - vm_compute. discriminate.
  - right. reflexivity.
  - intros [[[parties' pool'] octets] code] (-> & -> & _ & _ & _ & _ & Hwf).
    split; [reflexivity|]. split; [reflexivity|exact Hwf].
Defined.

Lemma leaving_participant_stops_server_witness :
  composeOneAuthoritativeStep (H := debug_build) compose_parties
    (compose_pool NimbleServerParticipantStateLeaving) 1 1024 = Halt AssertionFailed.
Proof.
  apply (leaving_participant_stops_server (H := debug_build)).
  - apply compose_pool_wf.
  - apply compose_pool_ok.
  - exact compose_parties_ids.
  - vm_compute. discriminate.
  - reflexivity.
  - reflexivity.
Defined.

Lemma should_advance_correct_witness :
  runs (shouldAdvanceAuthoritative (compose_pool NimbleServerParticipantStateNormal)
          (nbsStepsInit 24)) (fun b => b = false) /\
  ahead 0 (Participant.mk _ 0 0 true four_steps (Some 0%nat) NimbleServerParticipantStateNormal) = 4.
Proof.
  split; [|vm_compute; reflexivity].
  eapply runs_mono; [apply (should_advance_correct (length compose_parties))|].
  - apply compose_pool_wf.
  - apply compose_pool_ok.
  - apply (steps_init 24). lia.
  - intros [|] Hb; [|reflexivity]. exfalso.
    destruct (proj1 Hb eq_refl) as (_ & p & Hp & _ & _ & Ha).
    assert (Hall : Forall (fun p => ahead 0 p < 5)
      (Pool.participants (compose_pool NimbleServerParticipantStateNormal))).
    { repeat constructor; vm_compute; reflexivity. }
    apply list_elem_of_lookup in Hp as [i Hp].
    pose proof (Forall_lookup_1 _ _ _ _ Hall Hp) as Hle. destruct Ha as [Ha|[_ Hcan]].
    + cbn beta in Hle. change (expectedWriteId (nbsStepsInit 24)) with 0 in Ha. lia.
    + pose proof (Forall_lookup_1 _ _ 1%nat _ Hcan eq_refl) as Hone. discriminate Hone.
Defined.

(** One participant alone, with four steps: two are composed, and then it is no
    longer far enough ahead. *)
Definition alone_pool : NimbleServerParticipants :=
  Pool.mk _ [Participant.mk _ 0 0 true four_steps (Some 0%nat) NimbleServerParticipantStateNormal]
    1 1 zero_buffer.

Definition alone_game : Game := Game.mk _ (nbsStepsInit 1024) alone_pool false.

Lemma alone_pool_wf : pool_wf alone_pool.
Proof.
  split.
  - simpl; lia.
  - reflexivity.
  - intros [|i] p Hp; simpl in Hp; try done; by injection Hp as <-.
  - reflexivity.
  - apply zero_buffer_wf.
  - reflexivity.
Qed.

Lemma compose_steps_terminates_witness :
  match nimbleServerComposeAuthoritativeSteps (H := debug_build) compose_parties alone_game with
  | Ret (parties', game', n) =>
      n = 2 /\ pool_wf (Game.participants game') /\ parties_alike compose_parties parties'
  | Halt _ => False
  end.
Proof.
  pose proof (compose_steps_terminates (H := debug_build) compose_parties alone_game
    alone_pool_wf) as Hrun.
  assert (Hn : match nimbleServerComposeAuthoritativeSteps (H := debug_build) compose_parties
                       alone_game with
               | Ret (_, _, n) => n = 2 | Halt _ => False end) by (vm_compute; reflexivity).
  destruct (nimbleServerComposeAuthoritativeSteps _ _) as [[[parties' game'] n]|h]; [|done].
  destruct Hrun as (m & _ & _ & _ & _ & Halike & Hwf & _).
  - pose proof (Forall_inv (compose_pool_ok NimbleServerParticipantStateNormal)) as Hok.
    constructor; [exact Hok|constructor].
  - exact compose_parties_ids.
  - apply (steps_init 1024). lia.
  - split; [exact Hn|]. split; [exact Hwf|exact Halike].
Defined.

Lemma compose_steps_lock_step_witness :
  match nimbleServerComposeAuthoritativeSteps (H := debug_build) compose_parties alone_game with
  | Ret (parties', game', n) =>
      n = 2 /\ steps_log (Game.authoritativeSteps game') = [[1; 0; 1; 7]; [1; 0; 2; 8; 9]] /\
      lock_steps 0 0 compose_parties (Pool.participants alone_pool)
        [[1; 0; 1; 7]; [1; 0; 2; 8; 9]] parties' (Pool.participants (Game.participants game'))
  | Halt _ => False
  end.
Proof.
  pose proof (compose_steps_lock_step (H := debug_build) compose_parties alone_game
    alone_pool_wf) as Hrun.
  assert (Hn : match nimbleServerComposeAuthoritativeSteps (H := debug_build) compose_parties
                       alone_game with
               | Ret (_, game', n) => n = 2 /\ steps_log (Game.authoritativeSteps game')
                   = [[1; 0; 1; 7]; [1; 0; 2; 8; 9]]
               | Halt _ => False end) by (vm_compute; split; reflexivity).
  destruct (nimbleServerComposeAuthoritativeSteps _ _) as [[[parties' game'] n]|h]; [|done].
  destruct Hn as [-> Hlog].
  destruct Hrun as (new & last_parties & last_participants & Hnew & Hlock & Hlast).
  - pose proof (Forall_inv (compose_pool_ok NimbleServerParticipantStateNormal)) as Hok.
    constructor; [exact Hok|constructor].
  - exact compose_parties_ids.
  - apply (steps_init 1024). lia.
  - split; [reflexivity|]. split; [exact Hlog|]. rewrite Hlog in Hnew. simpl in Hnew.
    destruct Hlast as [(_ & <- & <- & _)|]; [|lia]. rewrite Hnew. exact Hlock.
Defined.

(** Forty participants with 24 octets each do not fit 1024 octets: the code
    reports success, but the octets end within a record. *)
Definition crowd : NimbleServerParticipants :=
  Pool.mk _ ((fun i => Participant.mk _ 0 (Z.of_nat i) true
                (mkSteps [(0, replicate 24 7)] 1 0 24) (Some 0%nat)
                NimbleServerParticipantStateNormal) <$> seq 0 40) 40 40 zero_buffer.

Lemma compose_truncates :
  match composeOneAuthoritativeStep (H := debug_build) compose_parties crowd 0 1024 with
  | Ret (_, _, octets, code) =>
      code = Z.of_nat (length octets) /\ 0 < code /\ decode_step octets = None
  | Halt _ => False
  end.
Proof. vm_compute. auto. Qed.

(** A participant that is new in party 1, with a step of two octets. *)
Lemma participant_step_roundtrip_witness :
  runs (write_participant_step compose_parties
          (Participant.mk _ 0 5 true (nbsStepsInit 24) (Some 0%nat)
             NimbleServerParticipantStateJustJoined)
          (fldOutStreamInit 100) [7; 8; 9] NimbleSerializeStepTypeJoined 2)
    (fun '(s', code) => 0 <= code).
Proof.
  eapply runs_mono; [apply (participant_step_roundtrip compose_parties
    (Participant.mk _ 0 5 true (nbsStepsInit 24) (Some 0%nat)
       NimbleServerParticipantStateJustJoined)
    (fldOutStreamInit 100) [7; 8; 9] [7; 8] NimbleSerializeStepTypeJoined [])|].
  - reflexivity.
  - simpl. lia.
  - simpl. lia.
  - reflexivity.
  - intros _. eexists _, _. split; [reflexivity|]. split; [reflexivity|]. simpl. lia.
  - simpl. lia.
  - intros [s' code] [Hcode _]. exact Hcode.
Defined.
