(* ===== verification/Session.v ===== *)
(** * The invariant of a session

    What holds of the parties, the participants and the authoritative steps
    between two calls into the server, and the changes that keep it. *)

From S2P Require Import Prelude.
From S2P Require Import ExternalLibs.
From S2P Require Import ExternalModels.
From S2P Require Import StepLog.
From S2P Require Import CircularBuffer.
From S2P Require Import ConnectionQuality.
From S2P Require Import GameState.
From S2P Require Import Participants.
From S2P Require Import LocalParty.
From S2P Require Import TransportConnection.
From S2P Require Import LocalParties.
From S2P Require Import Game.
From S2P Require Import StepFormat.
From S2P Require Import AuthoritativeSteps.

Abbreviation pool_of game := (Pool.participants (Game.participants game)).

Section Session.
Context `{NimbleSteps} `{NimbleSerialize} `{!NimbleStepsLaws} `{Stats}.
Implicit Types (parties : list NimbleServerLocalParty) (game : Game).

(** [nconn] is the number of transport connections. *)
Record session_ok (nconn : nat) parties game : Prop := {
  so_parties : Forall (party_wf (length (pool_of game)) nconn) parties;
  so_pool : pool_wf (Game.participants game);
  so_participants : Forall (participant_ok (length parties)) (pool_of game);
  so_owned : owned parties (pool_of game);
  so_steps : steps_wf (Game.authoritativeSteps game);
}.

(** Two states with the same parties in use, each with its participants. *)
Definition party_like (npool nconn : nat) (party party' : NimbleServerLocalParty) : Prop :=
  Party.isUsed party' = Party.isUsed party /\
  Party.participantReferences party' = Party.participantReferences party /\
  (party_wf npool nconn party -> party_wf npool nconn party').

#[export] Instance party_like_preorder npool nconn : PreOrder (party_like npool nconn).
Proof.
  split; [by intros party|]. intros p q r (? & ? & ?) (? & ? & ?).
  split; [congruence|]. split; [congruence|auto].
Qed.

Definition parties_like (npool nconn : nat) :
    list NimbleServerLocalParty -> list NimbleServerLocalParty -> Prop :=
  Forall2 (party_like npool nconn).

#[export] Instance parties_like_preorder npool nconn : PreOrder (parties_like npool nconn).
Proof. unfold parties_like. apply _. Qed.

Lemma parties_like_length npool nconn parties parties' :
  parties_like npool nconn parties parties' -> length parties' = length parties.
Proof. intros Hl. symmetry. by eapply list.Forall2_length. Qed.

Lemma parties_like_insert npool nconn parties i party party' :
  parties !! i = Some party -> party_like npool nconn party party' ->
  parties_like npool nconn parties (<[i := party']> parties).
Proof.
  intros Hi Hp. apply Forall2_same_length_lookup_2; [by rewrite length_insert|].
  intros j q q' Hq Hq'. destruct (decide (i = j)) as [<-|Hne].
  - rewrite list_lookup_insert_eq in Hq' by (by eapply lookup_lt_Some). by simplify_eq.
  - rewrite list_lookup_insert_ne in Hq' by done. by simplify_eq.
Qed.

Lemma alike_parties_like npool nconn parties parties' :
  parties_alike parties parties' -> parties_like npool nconn parties parties'.
Proof.
  intros Ha. eapply list.Forall2_impl; [exact Ha|]. intros party ? [q ->].
  split; [done|]. split; [done|]. by intros [? [] ? ?].
Qed.

Lemma parties_like_wf npool nconn parties parties' :
  parties_like npool nconn parties parties' ->
  Forall (party_wf npool nconn) parties -> Forall (party_wf npool nconn) parties'.
Proof. induction 1 as [|? ? ? ? (_ & _ & Hw) _ IH]; inversion 1; subst; constructor; auto. Qed.

Lemma parties_like_owned npool nconn parties parties' pool :
  parties_like npool nconn parties parties' -> owned parties pool -> owned parties' pool.
Proof.
  intros Hl Hown i party' Hi Hu.
  destruct (Forall2_lookup_r _ _ _ _ _ Hl Hi) as (party & Hp & Hu' & Hr & _).
  unfold owns. rewrite Hr. apply (Hown i party Hp). by rewrite <- Hu'.
Qed.

(** A party in use that goes on: it keeps its participants, and does not start
    to wait for its client. *)
Definition party_lives (party party' : NimbleServerLocalParty) : Prop :=
  Party.isUsed party = true ->
  Party.isUsed party' = true /\
  Party.participantReferences party' = Party.participantReferences party /\
  (Party.state party = NimbleServerLocalPartyStateNormal ->
   Party.state party' = NimbleServerLocalPartyStateNormal).

#[export] Instance party_lives_preorder : PreOrder party_lives.
Proof.
  split; [by intros p|]. intros p q r Hpq Hqr Hu. destruct (Hpq Hu) as (Hu' & Hr & Hs).
  destruct (Hqr Hu') as (Hu'' & Hr' & Hs'). split; [done|]. split; [congruence|auto].
Qed.

Definition parties_live : list NimbleServerLocalParty -> list NimbleServerLocalParty -> Prop :=
  Forall2 party_lives.

#[export] Instance parties_live_preorder : PreOrder parties_live.
Proof. unfold parties_live. apply _. Qed.

Lemma parties_live_insert parties i party party' :
  parties !! i = Some party -> party_lives party party' ->
  parties_live parties (<[i := party']> parties).
Proof.
  intros Hi Hp. apply Forall2_same_length_lookup_2; [by rewrite length_insert|].
  intros j q q' Hq Hq'. destruct (decide (i = j)) as [<-|Hne].
  - rewrite list_lookup_insert_eq in Hq' by (by eapply lookup_lt_Some). by simplify_eq.
  - rewrite list_lookup_insert_ne in Hq' by done. by simplify_eq.
Qed.

Lemma alike_parties_live parties parties' :
  parties_alike parties parties' -> parties_live parties parties'.
Proof. intros Ha. eapply list.Forall2_impl; [exact Ha|]. by intros party ? [q ->]. Qed.

(** The whole collection, when only the parties themselves change. *)
Lemma parties_like_count npool nconn parties parties' :
  parties_like npool nconn parties parties' ->
  count_if Party.isUsed parties' = count_if Party.isUsed parties.
Proof. induction 1 as [|? ? ? ? (Hu & _) _ IH]; simpl; [done|]. by rewrite Hu, IH. Qed.

Lemma parties_wf_like npool nconn self parties' :
  parties_wf npool nconn self -> parties_like npool nconn (Parties.parties self) parties' ->
  parties_wf npool nconn (Parties.set_parties parties' self).
Proof.
  intros Hwf Hl. split; simpl.
  - apply Hwf.
  - rewrite (parties_like_length _ _ _ _ Hl). apply Hwf.
  - eapply parties_like_wf; [exact Hl|apply Hwf].
  - rewrite (parties_like_count _ _ _ _ Hl). apply Hwf.
Qed.

(** Participants may change state, except to leaving, and their steps. *)
Definition pool_kept (pool pool' : list NimbleServerParticipant) : Prop :=
  Forall2 (fun p p' => Participant.isUsed p' = Participant.isUsed p /\
    Participant.inParty p' = Participant.inParty p /\
    (Participant.state p' = NimbleServerParticipantStateLeaving ->
     Participant.state p = NimbleServerParticipantStateLeaving)) pool pool'.

Lemma pool_kept_owned parties pool pool' :
  pool_kept pool pool' -> owned parties pool -> owned parties pool'.
Proof.
  intros Hk Hown i party Hi Hu p Hp. destruct (Hown i party Hi Hu p Hp) as (o & Ho & Hou & Hin & Hst).
  destruct (Forall2_lookup_l _ _ _ _ _ Hk Ho) as (o' & Ho' & Hu' & Hp' & Hs').
  exists o'. rewrite Hu', Hp'. split_and!; auto.
Qed.

Lemma session_parties_like nconn parties parties' game :
  parties_like (length (pool_of game)) nconn parties parties' ->
  session_ok nconn parties game -> session_ok nconn parties' game.
Proof.
  intros Hl [Hp Hpool Hok Hown Hs]. split; try done.
  - by eapply parties_like_wf.
  - by rewrite (parties_like_length _ _ _ _ Hl).
  - by eapply parties_like_owned.
Qed.

Lemma session_pool nconn parties game pool' :
  pool_like (length parties) (pool_of game) pool' -> pool_kept (pool_of game) pool' ->
  session_ok nconn parties game ->
  session_ok nconn parties
    (Game.set_participants (Pool.set_participants pool' (Game.participants game)) game).
Proof.
  intros Hl Hk [Hp Hpool Hok Hown Hs]. split; simpl; try done.
  - by rewrite (pool_like_length _ _ _ Hl).
  - by eapply pool_wf_like.
  - by eapply pool_like_ok.
  - by eapply pool_kept_owned.
Qed.

Lemma session_compose nconn parties game parties' game' m :
  session_ok nconn parties game -> composed_steps parties game m parties' game' ->
  session_ok nconn parties' game' /\ length (pool_of game') = length (pool_of game) /\
  parties_like (length (pool_of game)) nconn parties parties'.
Proof.
  intros [Hp Hpool Hok Hown Hs] [Hf Hwf Hfr Hr Hc Hw _].
  assert (Hlen : length (pool_of game') = length (pool_of game)).
  { pose proof (pool_length _ Hpool). pose proof (pool_length _ (frame_wf _ _ _ _ Hf)).
    pose proof (frame_capacity _ _ _ _ Hf). lia. }
  pose proof (alike_parties_like (length (pool_of game)) nconn _ _ (frame_alike _ _ _ _ Hf)) as Hl.
  split; [|done]. split.
  - rewrite Hlen. by eapply parties_like_wf.
  - apply Hf.
  - rewrite (alike_length _ _ (frame_alike _ _ _ _ Hf)). apply Hf.
  - by apply Hf.
  - done.
Qed.

Lemma session_ids nconn parties game : session_ok nconn parties game ->
  Forall (fun party => 0 <= Party.id party < 256) parties.
Proof. intros Hs. eapply Forall_impl; [|apply (so_parties _ _ _ Hs)]. intros party Hp. apply Hp. Qed.

Lemma session_party nconn parties game p party : session_ok nconn parties game ->
  parties !! p = Some party -> party_wf (length (pool_of game)) nconn party.
Proof. intros Hs Hp. by eapply (Forall_lookup_1 _ _ _ _ (so_parties _ _ _ Hs)). Qed.

Lemma set_steps_session nconn parties game steps : steps_wf steps ->
  session_ok nconn parties game ->
  session_ok nconn parties (Game.set_authoritativeSteps steps game).
Proof. by intros Hs []. Qed.
End Session.
