(* ===== verification/StepRequest.v ===== *)
(** * Requests with predicted steps (lib/req_step.c,
      lib/incoming_predicted_steps.c, lib/transport_connection_stats.c,
      lib/send_authoritative_steps.c)

    The request a client sends most: it brings predicted steps, lets the server
    compose authoritative steps, and is answered with the authoritative steps
    the client lacks. *)

From S2P Require Import Prelude.
From S2P Require Import ExternalLibs.
From S2P Require Import ExternalModels.
From S2P Require Import StepLog.
From S2P Require Import CircularBuffer.
From S2P Require Import ConnectionQuality.
From S2P Require Import GameState.
From S2P Require Import Participants.
From S2P Require Import LocalParty.
From S2P Require Import TransportConnection.
From S2P Require Import LocalParties.
From S2P Require Import Game.
From S2P Require Import StepFormat.
From S2P Require Import AuthoritativeSteps.
From S2P Require Import Session.

Section StepRequest.
Context `{Clog} `{TinyLibc} `{NimbleSteps} `{NimbleSerialize} `{!NimbleStepsSerialize} `{Stats}.
Context `{!OrderedDatagram} `{!BlobStream}.
Implicit Types (parties : list NimbleServerLocalParty) (foundGame : Game)
  (transportConnection : TransportConnection).

(** ** incoming_predicted_steps.c

    The last component is the step id the client waits for and its receive
    mask, the two out parameters, when they were written. *)
Definition nimbleServerHandleIncomingSteps parties foundGame (inStream : FldInStream)
    transportConnection :
    outcome (list NimbleServerLocalParty * Game * FldInStream * Z * option (Z * Z)) :=
  match Conn.assignedParty transportConnection with
  | None => Ret (parties, foundGame, inStream, NimbleServerErrSerialize, None)
  | Some p =>
      party ← load parties p;
      if bool_decide (Party.state party = NimbleServerLocalPartyStateDissolved) then
        parties ← store parties p
          (Party.set_warningCount (u32 (Party.warningCount party + 1)) party);
        Ret (parties, foundGame, inStream, NimbleServerErrDatagramFromDisconnectedConnection,
             None)
      else
        let '(inStream, errorCode, (clientWaitingForStepId, receiveMask)) :=
          nbsPendingStepsInSerializeHeader inStream in
        if errorCode <? 0 then Ret (parties, foundGame, inStream, errorCode, None)
        else
          let participants := Game.participants foundGame in
          '(pool, party, inStream, addedStepsCountOrError) ←
            nimbleServerLocalPartyDeserializePredictedSteps (Pool.participants participants)
              party inStream;
          parties ← store parties p party;
          Ret (parties, Game.set_participants (Pool.set_participants pool participants) foundGame,
               inStream, addedStepsCountOrError, Some (clientWaitingForStepId, receiveMask))
  end.

(** ** transport_connection_stats.c *)
Definition nimbleServerTransportConnectionUpdateStats parties transportConnection foundGame
    (clientWaitingForStepId : Z) : outcome (list NimbleServerLocalParty * TransportConnection) :=
  parties ←
    match Conn.assignedParty transportConnection with
    | Some p =>
        party ← load parties p;
        store parties p (Party.set_incomingStepCountInBufferStats
          (statsIntAdd (Party.incomingStepCountInBufferStats party)
             (s32 (Party.stepsInBufferCount party))) party)
    | None => Ret parties
    end;
  let stepsBehindForClient :=
    u32 (expectedWriteId (Game.authoritativeSteps foundGame) - clientWaitingForStepId) in
  let transportConnection := Conn.set_stepsBehindStats
    (statsIntAdd (Conn.stepsBehindStats transportConnection) (s32 stepsBehindForClient))
    transportConnection in
  Ret (parties,
       Conn.set_debugCounter (u64 (Conn.debugCounter transportConnection + 1))
         transportConnection).

(** ** send_authoritative_steps.c *)
Definition MAX_RANGES_COUNT : Z := 3.
Definition maxStepsCount : Z := 8.
Definition maxRedundancyStepCount : Z := 20.

(** [ranges[rangeCount] = range], in the local array of [MAX_RANGES_COUNT + 1]. *)
Definition set_range (ranges : list NbsPendingRange) (rangeCount : Z) (range : NbsPendingRange) :
    outcome (list NbsPendingRange) :=
  if (rangeCount <? 0) || (MAX_RANGES_COUNT <? rangeCount) then Halt OutOfBounds
  else Ret (take (Z.to_nat rangeCount) ranges ++ [range]).

Definition nimbleServerSendStepRanges parties (outStream : FldOutStream) transportConnection
    foundGame (clientWaitingForStepId receiveMask : Z) :
    outcome (FldOutStream * TransportConnection * Z) :=
  let steps := Game.authoritativeSteps foundGame in
  '(transportConnection, ranges, rangeCount, (lastReceivedStepFromClient, bufferDelta,
      authoritativeBufferDelta), error) ←
    (if clientWaitingForStepId <? expectedReadId steps
     then Ret (transportConnection, [], 0, (0, 0, 0), None)
     else
       let '(pendingRangeCount, ranges) :=
         nbsPendingStepsRanges clientWaitingForStepId (expectedWriteId steps) receiveMask
           MAX_RANGES_COUNT maxStepsCount in
       if pendingRangeCount <? 0
       then Ret (transportConnection, [], 0, (0, 0, 0), Some pendingRangeCount)
       else
         '(ranges, rangeCount) ←
           (if clientWaitingForStepId <? expectedWriteId steps then
              let availableCount := u32 (expectedWriteId steps - clientWaitingForStepId) in
              let availableCount :=
                if maxRedundancyStepCount <? availableCount then maxRedundancyStepCount
                else availableCount in
              ranges ← set_range ranges pendingRangeCount
                         (mkRange clientWaitingForStepId availableCount);
              Ret (ranges, pendingRangeCount + 1)
            else Ret (ranges, pendingRangeCount));
         let transportConnection :=
           if rangeCount =? 0
           then Conn.set_noRangesToSendCounter
                  (u8 (Conn.noRangesToSendCounter transportConnection + 1)) transportConnection
           else Conn.set_noRangesToSendCounter 0 transportConnection in
         deltas ←
           match Conn.assignedParty transportConnection with
           | Some p =>
               party ← load parties p;
               Ret (Party.highestReceivedStepId party, Party.stepsInBufferCount party,
                    s32 (s32 (Party.highestReceivedStepId party) - s32 (expectedWriteId steps)))
           | None => Ret (0, 0, 0)
           end;
         Ret (transportConnection, ranges, rangeCount, deltas, None));
  match error with
  | Some code => Ret (outStream, transportConnection, code)
  | None =>
      let '(outStream, serializeErr) :=
        nimbleSerializeServerOutStepHeader outStream lastReceivedStepFromClient bufferDelta
          (s8 authoritativeBufferDelta) in
      if serializeErr <? 0 then Ret (outStream, transportConnection, serializeErr)
      else
        let '(outStream, code) :=
          nbsPendingStepsSerializeOutRanges outStream steps (take (Z.to_nat rangeCount) ranges) in
        Ret (outStream, transportConnection, code)
  end.

(** ** req_step.c *)
Definition discardAuthoritativeStepsIfBufferGettingFull foundGame : Game * Z :=
  let authoritativeStepCount := stepsCount (Game.authoritativeSteps foundGame) in
  let maxCapacity := NBS_WINDOW_SIZE / 3 in
  if maxCapacity <? authoritativeStepCount then
    let authoritativeToDrop := authoritativeStepCount - maxCapacity in
    let '(steps, err) :=
      nbsStepsDiscardCount (Game.authoritativeSteps foundGame) authoritativeToDrop in
    (Game.set_authoritativeSteps steps foundGame, if err <? 0 then err else 0)
  else (foundGame, 0).

Definition readIncomingStepsAndCreateAuthoritativeSteps parties foundGame
    (inStream : FldInStream) transportConnection
    (authoritativeStepsPerSecondStat : StatsIntPerSecond) :
    outcome (list NimbleServerLocalParty * Game * FldInStream * StatsIntPerSecond * Z *
             option (Z * Z)) :=
  let '(foundGame, discardErr) := discardAuthoritativeStepsIfBufferGettingFull foundGame in
  if discardErr <? 0
  then Ret (parties, foundGame, inStream, authoritativeStepsPerSecondStat, discardErr, None)
  else
    '(parties, foundGame, inStream, receivedCount, out) ←
      nimbleServerHandleIncomingSteps parties foundGame inStream transportConnection;
    if receivedCount <? 0
    then Ret (parties, foundGame, inStream, authoritativeStepsPerSecondStat, receivedCount, out)
    else if Game.debugIsFrozen foundGame
    then Ret (parties, foundGame, inStream, authoritativeStepsPerSecondStat, 0, out)
    else
      '(parties, foundGame, advanceCount) ←
        nimbleServerComposeAuthoritativeSteps parties foundGame;
      if advanceCount <? 0
      then Ret (parties, foundGame, inStream, authoritativeStepsPerSecondStat, advanceCount, out)
      else
        Ret (parties, foundGame, inStream,
             statsIntPerSecondAdd authoritativeStepsPerSecondStat advanceCount, advanceCount, out).

Definition nimbleServerReqGameStep parties foundGame transportConnection
    (authoritativeStepsPerSecondStat : StatsIntPerSecond) (inStream : FldInStream)
    (outStream : FldOutStream) :
    outcome (list NimbleServerLocalParty * Game * TransportConnection * StatsIntPerSecond *
             FldInStream * FldOutStream * Z) :=
  '(parties, foundGame, inStream, stat, errorCode, out) ←
    readIncomingStepsAndCreateAuthoritativeSteps parties foundGame inStream transportConnection
      authoritativeStepsPerSecondStat;
  if errorCode <? 0
  then Ret (parties, foundGame, transportConnection, stat, inStream, outStream, errorCode)
  else
    '(clientWaitingForStepId, receiveMask) ← initialized LocalVariable out;
    '(parties, transportConnection) ←
      nimbleServerTransportConnectionUpdateStats parties transportConnection foundGame
        clientWaitingForStepId;
    '(outStream, transportConnection, code) ←
      nimbleServerSendStepRanges parties outStream transportConnection foundGame
        clientWaitingForStepId receiveMask;
    Ret (parties, foundGame, transportConnection, stat, inStream, outStream, s32 code).

End StepRequest.

(** ** What a step request keeps *)
Section StepRequestRuns.
Context `{Clog} `{TinyLibc} `{NimbleSteps} `{NimbleSerialize} `{!NimbleStepsSerialize} `{Stats}.
Context `{!OrderedDatagram} `{!BlobStream}.
Context `{!TinyLibcLaws} `{!NimbleStepsLaws} `{!NimbleStepsSerializeLaws} `{!FldOutLaws}
  `{!NimbleSerializeLaws}.
Implicit Types (parties : list NimbleServerLocalParty) (game : Game) (conn : TransportConnection).

(** The session before and after: consistent, with the same places for parties
    and participants and the same parties in use. *)
Record session_step (nconn : nat) parties game parties' game' : Prop := {
  st_ok : session_ok nconn parties' game';
  st_pool : length (pool_of game') = length (pool_of game);
  st_parties : parties_like (length (pool_of game)) nconn parties parties';
  st_log : log_extends (Game.authoritativeSteps game) (Game.authoritativeSteps game');
  st_lives : parties_live parties parties';
}.

Lemma session_step_refl nconn parties game :
  session_ok nconn parties game -> session_step nconn parties game parties game.
Proof. by split. Qed.

Lemma session_step_trans nconn p1 g1 p2 g2 p3 g3 :
  session_step nconn p1 g1 p2 g2 -> session_step nconn p2 g2 p3 g3 ->
  session_step nconn p1 g1 p3 g3.
Proof.
  intros [Ho1 Hl1 Hp1 Hg1 Hv1] [Ho2 Hl2 Hp2 Hg2 Hv2].
  split; [done|congruence| |by etrans|by etrans].
  rewrite Hl1 in Hp2. by etrans.
Qed.

Lemma session_step_party nconn parties game p party party' :
  session_ok nconn parties game -> parties !! p = Some party ->
  party_like (length (pool_of game)) nconn party party' -> party_lives party party' ->
  session_step nconn parties game (<[p := party']> parties) game.
Proof.
  intros Hs Hp Hl Hv. pose proof (parties_like_insert _ _ _ _ _ _ Hp Hl) as Hps.
  split; [by eapply session_parties_like|done|done|done|by eapply parties_live_insert].
Qed.

Lemma kept_party_like npool nconn party party' :
  party_kept party party' -> party_like npool nconn party party'.
Proof.
  intros Hk. split; [apply Hk|]. split; [apply Hk|]. intros [Hid [Hr Ht Hm Hd] Hs Hc].
  split.
  - by rewrite (kept_id _ _ Hk).
  - split; [by rewrite (kept_refs _ _ Hk)|by rewrite (kept_timer _ _ Hk)
           |by rewrite (kept_max_timer _ _ Hk)|by rewrite (kept_delayed _ _ Hk)].
  - by rewrite (kept_refs _ _ Hk).
  - by rewrite (kept_transport _ _ Hk).
Qed.

Lemma kept_party_lives party party' : party_kept party party' -> party_lives party party'.
Proof.
  intros Hk Hu. rewrite (kept_used _ _ Hk), (kept_refs _ _ Hk), (kept_state _ _ Hk). done.
Qed.

Lemma only_steps_kept ps pool pool' : only_steps ps pool pool' -> pool_kept pool pool'.
Proof.
  intros [Hl Hk]. apply Forall2_same_length_lookup_2; [done|].
  intros i p p' Hp Hp'. destruct (Hk i p Hp) as (s & Hs & _).
  rewrite Hs in Hp'. by injection Hp' as <-.
Qed.

Lemma pool_kept_leaving pool pool' : pool_kept pool pool' ->
  count_if leaving pool' <= count_if leaving pool.
Proof.
  induction 1 as [|p p' l l' (Hu & _ & Hs) _ IH]; simpl; [done|].
  assert (Hl : leaving p' = true -> leaving p = true).
  { unfold leaving. rewrite Hu, !andb_true_iff, !bool_decide_eq_true. intros [? ?]. auto. }
  destruct (leaving p'), (leaving p); simpl; first [lia|discriminate (Hl eq_refl)].
Qed.

Lemma runs_handle_incoming nconn parties game inStream conn :
  session_ok nconn parties game ->
  (forall p, Conn.assignedParty conn = Some p -> (p < length parties)%nat) ->
  sat (eq (UninitializedRead NumberOfDatagram)) (nimbleServerHandleIncomingSteps parties game inStream conn)
    (fun '(parties', game', _, code, out) =>
       session_step nconn parties game parties' game' /\
       Game.authoritativeSteps game' = Game.authoritativeSteps game /\
       count_if leaving (pool_of game') <= count_if leaving (pool_of game) /\
       (0 <= code -> exists waitingFor mask, out = Some (waitingFor, mask) /\
          0 <= waitingFor < 4294967296)).
Proof.
  intros Hs Hassigned. unfold nimbleServerHandleIncomingSteps.
  destruct (Conn.assignedParty conn) as [p|]; [|split; [by apply session_step_refl|done]].
  destruct (lookup_lt_is_Some_2 parties p (Hassigned p eq_refl)) as [party Hp]. run.
  pose proof (session_party _ _ _ _ _ Hs Hp) as Hparty.
  case_bool_decide as Hstate.
  { run. split; [|done]. eapply session_step_party; [done|done| |]; [|by intros Hu; split].
    split; [done|]. split; [done|]. by intros [? [] ? ?]. }
  pose proof (pending_header inStream) as Hwait.
  destruct (nbsPendingStepsInSerializeHeader inStream) as [[s code] [wait mask]].
  destruct (Z.ltb_spec code 0).
  { run. split; [by apply session_step_refl|]. split; [done|]. split; [done|lia]. }
  eapply runs_bind_mono.
  { apply (runs_deserialize (length parties)); [apply Hparty|apply Hs]. }
  intros [[[pool' party'] s'] added] [(Hk & Hlike & Honly) _]. run.
  pose proof (only_steps_kept _ _ _ Honly) as Hkept.
  split; [|split; [done|split; [by apply pool_kept_leaving|by eexists _, _]]].
  eapply (session_step_trans _ _ _ parties).
  - split; [eapply session_pool; [exact Hlike|exact Hkept|done]| |done|done|done].
    apply (pool_like_length _ _ _ Hlike).
  - eapply session_step_party; [|exact Hp|by apply kept_party_like|by apply kept_party_lives].
    eapply session_pool; [exact Hlike|exact Hkept|done].
Qed.

Lemma discard_correct game : steps_wf (Game.authoritativeSteps game) ->
  exists steps, discardAuthoritativeStepsIfBufferGettingFull game
                = (Game.set_authoritativeSteps steps game, 0) /\
    steps_wf steps /\ expectedWriteId steps = expectedWriteId (Game.authoritativeSteps game) /\
    stepsCount steps = Z.min (stepsCount (Game.authoritativeSteps game)) (NBS_WINDOW_SIZE / 3) /\
    log_extends (Game.authoritativeSteps game) steps.
Proof.
  intros Hwf. unfold discardAuthoritativeStepsIfBufferGettingFull. pose proof window_size.
  pose proof (steps_count_range _ Hwf) as Hr.
  destruct (Z.ltb_spec (NBS_WINDOW_SIZE / 3) (stepsCount (Game.authoritativeSteps game))).
  - assert (0 <= NBS_WINDOW_SIZE / 3) by (apply Z.div_pos; lia).
    assert (Hd := steps_discard (Game.authoritativeSteps game)
      (stepsCount (Game.authoritativeSteps game) - NBS_WINDOW_SIZE / 3) Hwf).
    specialize (Hd ltac:(lia)).
    pose proof (discard_extends (Game.authoritativeSteps game)
      (stepsCount (Game.authoritativeSteps game) - NBS_WINDOW_SIZE / 3) Hwf) as Hlog.
    specialize (Hlog ltac:(lia)).
    destruct (nbsStepsDiscardCount _ _) as [steps err]. simpl in Hd, Hlog.
    destruct Hd as (Hwf' & Herr & Hc & Hw & _). rewrite (proj2 (Z.ltb_ge _ _)) by done.
    exists steps. split; [done|]. split; [done|]. split; [done|]. split; [lia|done].
  - exists (Game.authoritativeSteps game). split; [by destruct game|].
    split; [done|]. split; [done|]. split; [lia|done].
Qed.

(** The only two ways a step request stops the server. *)
Definition step_halts game (h : halt) : Prop :=
  h = UninitializedRead NumberOfDatagram \/
  (h = AssertionFailed /\ assertions_enabled = true /\ 0 < count_if leaving (pool_of game)).


(** ** The ranges sent *)

(** The ranges of steps a client is sent, or the error of the library. *)
Definition answer_ranges (steps : NbsSteps) (waitingFor mask : Z) : Z + list NbsPendingRange :=
  if waitingFor <? expectedReadId steps then inr []
  else
    let '(code, ranges) :=
      nbsPendingStepsRanges waitingFor (expectedWriteId steps) mask MAX_RANGES_COUNT maxStepsCount in
    if code <? 0 then inl code
    else inr (ranges ++
      (if waitingFor <? expectedWriteId steps
       then [mkRange waitingFor (Z.min maxRedundancyStepCount (expectedWriteId steps - waitingFor))]
       else [])).

(** What the header says of the steps received from the client: the last id, the
    number in the buffer, and the distance to the authoritative steps. *)
Definition answer_header parties game conn (waitingFor : Z) : Z * Z * Z :=
  if waitingFor <? expectedReadId (Game.authoritativeSteps game) then (0, 0, 0)
  else match Conn.assignedParty conn ≫= (parties !!.) with
       | Some party =>
           (Party.highestReceivedStepId party, Party.stepsInBufferCount party,
            s8 (Party.highestReceivedStepId party
                - expectedWriteId (Game.authoritativeSteps game)))
       | None => (0, 0, 0)
       end.

(** The connection differs in its counters only. *)
Definition conn_kept conn conn' : Prop :=
  exists stats debug noRanges,
    conn' = Conn.set_noRangesToSendCounter noRanges
              (Conn.set_debugCounter debug (Conn.set_stepsBehindStats stats conn)).

#[export] Instance conn_kept_preorder : PreOrder conn_kept.
Proof.
  split.
  - intros conn. exists (Conn.stepsBehindStats conn), (Conn.debugCounter conn),
      (Conn.noRangesToSendCounter conn). by destruct conn.
  - intros conn ? ? (s & d & n & ->) (s' & d' & n' & ->). by exists s', d', n'.
Qed.

Lemma conn_kept_noRanges n conn : conn_kept conn (Conn.set_noRangesToSendCounter n conn).
Proof. exists (Conn.stepsBehindStats conn), (Conn.debugCounter conn), n. by destruct conn. Qed.

Lemma conn_kept_debug n conn : conn_kept conn (Conn.set_debugCounter n conn).
Proof. exists (Conn.stepsBehindStats conn), n, (Conn.noRangesToSendCounter conn). by destruct conn. Qed.

Lemma conn_kept_stats s conn : conn_kept conn (Conn.set_stepsBehindStats s conn).
Proof. exists s, (Conn.debugCounter conn), (Conn.noRangesToSendCounter conn). by destruct conn. Qed.

Lemma s8_s32 a b : s8 (s32 (s32 a - s32 b)) = s8 (a - b).
Proof. unfold s8, s32. Z.div_mod_to_equations. lia. Qed.

Lemma s8_0 : s8 0 = 0.
Proof. reflexivity. Qed.

(** The answer, written with the functions of the libraries. *)
Definition answer (outStream : FldOutStream) parties game conn (waitingFor mask : Z) :
    FldOutStream * Z :=
  match answer_ranges (Game.authoritativeSteps game) waitingFor mask with
  | inl code => (outStream, code)
  | inr ranges =>
      let '(lastReceived, buffered, delta) := answer_header parties game conn waitingFor in
      let '(outStream, code) :=
        nimbleSerializeServerOutStepHeader outStream lastReceived buffered delta in
      if code <? 0 then (outStream, code)
      else nbsPendingStepsSerializeOutRanges outStream (Game.authoritativeSteps game) ranges
  end.

Lemma runs_add_continuation {E} ranges waitingFor write :
  Z.of_nat (length ranges) <= MAX_RANGES_COUNT -> 0 <= waitingFor -> 0 <= write < 4294967296 ->
  sat E (if waitingFor <? write then
           let availableCount := u32 (write - waitingFor) in
           let availableCount :=
             if maxRedundancyStepCount <? availableCount then maxRedundancyStepCount
             else availableCount in
           ranges' ← set_range ranges (Z.of_nat (length ranges)) (mkRange waitingFor availableCount);
           Ret (ranges', Z.of_nat (length ranges) + 1)
         else Ret (ranges, Z.of_nat (length ranges)))
    (fun '(ranges', n) => ranges' = ranges ++
       (if waitingFor <? write
        then [mkRange waitingFor (Z.min maxRedundancyStepCount (write - waitingFor))] else [])
       /\ n = Z.of_nat (length ranges')).
Proof.
  intros Hmax Hwait Hw. destruct (Z.ltb_spec waitingFor write).
  - rewrite u32_small by lia. unfold set_range.
    rewrite (proj2 (Z.ltb_ge (Z.of_nat (length ranges)) 0)), (proj2 (Z.ltb_ge MAX_RANGES_COUNT _))
      by lia.
    simpl. rewrite Nat2Z.id, firstn_all, length_app. simpl. split; [|lia]. do 3 f_equal.
    unfold maxRedundancyStepCount. destruct (Z.ltb_spec 20 (write - waitingFor)); lia.
  - run. by rewrite app_nil_r.
Qed.

Lemma runs_send_ranges {E} outStream parties game conn waitingFor mask :
  steps_wf (Game.authoritativeSteps game) -> 0 <= waitingFor ->
  (forall p, Conn.assignedParty conn = Some p -> (p < length parties)%nat) ->
  sat E (nimbleServerSendStepRanges parties outStream conn game waitingFor mask)
    (fun '(outStream', conn', code) => conn_kept conn conn' /\
       (outStream', code) = answer outStream parties game conn waitingFor mask).
Proof.
  intros Hwf Hwait Hassigned. unfold nimbleServerSendStepRanges, answer, answer_ranges, answer_header.
  pose proof (steps_write_id_range _ Hwf) as Hwid.
  destruct (waitingFor <? expectedReadId (Game.authoritativeSteps game)).
  { run. rewrite s8_0.
    destruct (nimbleSerializeServerOutStepHeader _ _ _ _) as [o c]. destruct (c <? 0); [by run|].
    simpl. by destruct (nbsPendingStepsSerializeOutRanges _ _ _). }
  pose proof (pending_ranges waitingFor (expectedWriteId (Game.authoritativeSteps game)) mask
    MAX_RANGES_COUNT maxStepsCount ltac:(done)) as Hranges.
  destruct (nbsPendingStepsRanges _ _ _ _ _) as [code ranges].
  destruct (Z.ltb_spec code 0); [by run|]. destruct (Hranges ltac:(done)) as [Hmax Hlen].
  subst code. apply runs_bind. eapply runs_bind_mono; [by apply runs_add_continuation|].
  intros [ranges' rangeCount] [-> ->].
  set (ranges' := ranges ++ _). apply runs_bind.
  eapply (runs_mono _ (fun deltas => deltas =
    match Conn.assignedParty conn ≫= (parties !!.) with
    | Some party => (Party.highestReceivedStepId party, Party.stepsInBufferCount party,
        s32 (s32 (Party.highestReceivedStepId party)
             - s32 (expectedWriteId (Game.authoritativeSteps game))))
    | None => (0, 0, 0)
    end)).
  { destruct (Z.of_nat (length ranges') =? 0); simpl;
      (destruct (Conn.assignedParty conn) as [p|]; [|done]);
      (destruct (lookup_lt_is_Some_2 parties p (Hassigned p eq_refl)) as [party Hp]);
      run; simpl; by rewrite Hp. }
  intros deltas ->. run. rewrite Nat2Z.id, firstn_all.
  destruct (Conn.assignedParty conn ≫= (parties !!.)) as [party|]; rewrite ?s8_s32, ?s8_0;
    (destruct (nimbleSerializeServerOutStepHeader _ _ _ _) as [o c]; destruct (c <? 0);
     [|destruct (nbsPendingStepsSerializeOutRanges _ _ _)]; run; (split; [|done]);
     destruct (_ =? 0); apply conn_kept_noRanges).
Qed.

(** ** The whole request *)
Lemma runs_read_incoming nconn parties game inStream conn stat :
  session_ok nconn parties game ->
  (forall p, Conn.assignedParty conn = Some p -> (p < length parties)%nat) ->
  sat (step_halts game)
    (readIncomingStepsAndCreateAuthoritativeSteps parties game inStream conn stat)
    (fun '(parties', game', _, _, code, out) =>
       session_step nconn parties game parties' game' /\
       stepsCount (Game.authoritativeSteps game') <= NBS_WINDOW_SIZE / 2 /\
       (0 <= code -> exists waitingFor mask, out = Some (waitingFor, mask) /\
          0 <= waitingFor < 4294967296)).
Proof.
  intros Hs Hassigned. unfold readIncomingStepsAndCreateAuthoritativeSteps.
  pose proof window_size as Hw.
  assert (Hthird : 0 <= NBS_WINDOW_SIZE / 3 <= NBS_WINDOW_SIZE / 2)
    by (Z.div_mod_to_equations; lia).
  destruct (discard_correct game (so_steps _ _ _ Hs)) as (steps & -> & Hwf & _ & Hc & Hlog).
  change (0 <? 0) with false. cbn beta iota.
  set (game1 := Game.set_authoritativeSteps steps game).
  assert (Hs1 : session_ok nconn parties game1) by (by apply set_steps_session).
  assert (Hstep1 : session_step nconn parties game parties game1) by (by split).
  eapply runs_bind_mono.
  { eapply (sat_weaken (eq (UninitializedRead NumberOfDatagram))); [by intros h <-; left|].
    by apply (runs_handle_incoming nconn parties game1). }
  intros [[[[parties2 game2] s2] received] out] (Hstep2 & Hauth & Hleave & Hout).
  pose proof (session_step_trans _ _ _ _ _ _ _ Hstep1 Hstep2) as Hstep.
  assert (Hc2 : stepsCount (Game.authoritativeSteps game2) <= NBS_WINDOW_SIZE / 3)
    by (rewrite Hauth; simpl; lia).
  destruct (Z.ltb_spec received 0) as [|Hreceived];
    [run; split; [done|]; split; [lia|done]|].
  destruct (Game.debugIsFrozen game2); [run; split; [done|]; split; [lia|auto]|].
  destruct Hstep2 as [Hs2 Hl2 Hp2 Hg2 Hv2]. eapply runs_bind_mono.
  { eapply sat_weaken; [|apply runs_compose_steps; try apply Hs2; by eapply session_ids].
    intros h (? & ? & ?). right. split; [done|]. split; [done|]. simpl in Hleave. lia. }
  intros [[parties3 game3] n] (new & _ & _ & Hm & _).
  destruct (session_compose nconn _ _ _ _ _ Hs2 Hm) as (Hs3 & Hl3 & Hp3).
  assert (Hstep3 : session_step nconn parties2 game2 parties3 game3).
  { split; try done; [|by apply alike_parties_live, (frame_alike _ _ _ _ (cs_frame _ _ _ _ _ Hm))].
    eapply append_extends; [apply (cs_log _ _ _ _ _ Hm)|apply (cs_write _ _ _ _ _ Hm)]. }
  pose proof (session_step_trans _ _ _ _ _ _ _ Hstep Hstep3).
  pose proof (cs_count _ _ _ _ _ Hm). pose proof (cs_range _ _ _ _ _ Hm).
  destruct (n <? 0); run; (split; [done|]; split; [lia|auto]).
Qed.

Lemma runs_update_stats {E} nconn parties game conn waitingFor :
  session_ok nconn parties game ->
  (forall p, Conn.assignedParty conn = Some p -> (p < length parties)%nat) ->
  sat E (nimbleServerTransportConnectionUpdateStats parties conn game waitingFor)
    (fun '(parties', conn') => session_step nconn parties game parties' game /\
       conn_kept conn conn').
Proof.
  intros Hs Hassigned. unfold nimbleServerTransportConnectionUpdateStats.
  eapply (runs_bind_mono _ _ (fun parties' => session_step nconn parties game parties' game)).
  - destruct (Conn.assignedParty conn) as [p|]; [|by apply session_step_refl].
    destruct (lookup_lt_is_Some_2 parties p (Hassigned p eq_refl)) as [party Hp]. run.
    eapply session_step_party; [done|done| |by intros Hu; split].
    split; [done|]. split; [done|]. by intros [? [] ? ?].
  - intros parties' Hstep. run. split; [done|].
    etrans; [apply conn_kept_stats|apply conn_kept_debug].
Qed.

Lemma runs_req_game_step nconn parties game conn stat inStream outStream :
  session_ok nconn parties game ->
  (forall p, Conn.assignedParty conn = Some p -> (p < length parties)%nat) ->
  sat (step_halts game) (nimbleServerReqGameStep parties game conn stat inStream outStream)
    (fun '(parties', game', conn', _, _, _, _) =>
       session_step nconn parties game parties' game' /\ conn_kept conn conn' /\
       stepsCount (Game.authoritativeSteps game') <= NBS_WINDOW_SIZE / 2).
Proof.
  intros Hs Hassigned. unfold nimbleServerReqGameStep.
  eapply runs_bind_mono; [by apply runs_read_incoming|].
  intros [[[[[parties1 game1] s1] stat1] code] out] (Hstep1 & Hcount & Hout).
  destruct (Z.ltb_spec code 0); [run; split_and!; done|].
  destruct (Hout ltac:(done)) as (waitingFor & mask & -> & Hwait).
  apply runs_bind. cbn. apply runs_bind.
  assert (Hassigned1 : forall p, Conn.assignedParty conn = Some p -> (p < length parties1)%nat).
  { intros p Hp. rewrite (parties_like_length _ _ _ _ (st_parties _ _ _ _ _ Hstep1)). auto. }
  eapply runs_mono; [apply (runs_update_stats nconn _ game1); [apply Hstep1|done]|].
  intros [parties2 conn2] [Hstep2 Hk2]. apply runs_bind.
  pose proof (session_step_trans _ _ _ _ _ _ _ Hstep1 Hstep2) as Hstep.
  eapply runs_mono; [apply runs_send_ranges|].
  - apply Hstep.
  - lia.
  - intros p Hp. rewrite (parties_like_length _ _ _ _ (st_parties _ _ _ _ _ Hstep)).
    destruct Hk2 as (? & ? & ? & ->). by apply Hassigned.
  - intros [[o' conn'] c] [Hk3 _]. run. split; [done|]. split; [by etrans|done].
Qed.
End StepRequestRuns.

(** ** The stream only moves on *)
Section StepRequestForward.
Context `{Clog} `{TinyLibc} `{NimbleSteps} `{NimbleSerialize} `{!NimbleStepsSerialize} `{Stats}.
Context `{!OrderedDatagram} `{!BlobStream}.
Context `{!NimbleStepsLaws} `{!NimbleStepsSerializeLaws} `{!FldInLaws}.

Lemma handle_incoming_forward parties game inStream conn :
  returns (nimbleServerHandleIncomingSteps parties game inStream conn)
    (fun '(_, _, s, _, _) => forward inStream s).
Proof.
  unfold nimbleServerHandleIncomingSteps. destruct (Conn.assignedParty conn) as [p|]; [|done].
  apply returns_bind. intros party. case_bool_decide.
  { apply returns_bind. done. }
  pose proof (pending_header_forward inStream) as Hf.
  destruct (nbsPendingStepsInSerializeHeader inStream) as [[s code] [wait mask]]. simpl in Hf.
  destruct (code <? 0); [done|]. eapply runs_bind_mono; [apply deserialize_forward|].
  intros [[[pool' party'] s'] added] Hs'. apply returns_bind. intros l. simpl. by etrans.
Qed.

Lemma req_game_step_forward parties game conn stat inStream outStream :
  returns (nimbleServerReqGameStep parties game conn stat inStream outStream)
    (fun '(_, _, _, _, s, _, _) => forward inStream s).
Proof.
  unfold nimbleServerReqGameStep.
  eapply (runs_bind_mono _ _ (fun '(_, _, s, _, _, _) => forward inStream s)).
  - unfold readIncomingStepsAndCreateAuthoritativeSteps.
    destruct (discardAuthoritativeStepsIfBufferGettingFull game) as [game' err].
    destruct (err <? 0); [done|]. eapply runs_bind_mono; [apply handle_incoming_forward|].
    intros [[[[p' g'] s'] received] out] Hs. destruct (received <? 0); [exact Hs|].
    destruct (Game.debugIsFrozen g'); [exact Hs|]. apply returns_bind.
    intros [[p'' g''] n]. by destruct (n <? 0).
  - intros [[[[[p' g'] s'] stat'] code] out] Hs. destruct (code <? 0); [exact Hs|].
    apply returns_bind. intros [wait mask]. apply returns_bind. intros [p'' conn'].
    apply returns_bind. by intros [[o c] code'].
Qed.
End StepRequestForward.

(** ** Properties *)
Section StepRequestProperties.
Context `{Clog} `{TinyLibc} `{NimbleSteps} `{NimbleSerialize} `{!NimbleStepsSerialize} `{Stats}.
Context `{!OrderedDatagram} `{!BlobStream}.
Context `{!TinyLibcLaws} `{!NimbleStepsLaws} `{!NimbleStepsSerializeLaws} `{!FldOutLaws}
  `{!NimbleSerializeLaws}.
Implicit Types (parties : list NimbleServerLocalParty) (game : Game) (conn : TransportConnection).

(** C5. A step request, whatever octets the client sends: the session stays
    consistent - the pool and its free list, the buffers, the ownership of the
    participants, the parties in use - at most half a window of authoritative
    steps is left in the buffer, and the connection keeps its party. The program
    can only stop at a count that a truncated datagram does not hold, or at the
    assertion on participants that leave. *)
Theorem req_game_step_keeps_session nconn parties game conn stat inStream outStream :
  session_ok nconn parties game ->
  (forall p, Conn.assignedParty conn = Some p -> (p < length parties)%nat) ->
  sat (fun h => h = UninitializedRead NumberOfDatagram \/
                (h = AssertionFailed /\ assertions_enabled = true /\
                 0 < count_if leaving (pool_of game)))
    (nimbleServerReqGameStep parties game conn stat inStream outStream)
    (fun '(parties', game', conn', _, _, _, _) =>
       session_ok nconn parties' game' /\
       stepsCount (Game.authoritativeSteps game') <= NBS_WINDOW_SIZE / 2 /\
       Conn.assignedParty conn' = Conn.assignedParty conn /\
       Party.isUsed <$> parties' = Party.isUsed <$> parties /\
       Party.participantReferences <$> parties' = Party.participantReferences <$> parties).
Proof.
  intros Hs Hassigned. eapply runs_mono; [by apply (runs_req_game_step nconn)|].
  intros [[[[[[parties' game'] conn'] stat'] s'] o'] code] ([Hok _ Hp _ _] & (? & ? & ? & ->) & Hc).
  split; [done|]. split; [done|]. split; [done|]. clear -Hp.
  induction Hp as [|party party' l l' (Hu & Hr & _) _ [IHu IHr]]; [done|].
  cbn [fmap list_fmap]. split; congruence.
Qed.

(** C26. The answer to a step request. When the client waits for a step that the
    server still has or will make, it is sent the ranges that its receive mask
    lacks and then, if there is anything new, one range of at most 20 steps from
    the step it waits for, which ends at the newest step at the latest; the
    header carries the distance between its steps and the authoritative ones,
    cut to eight bits. The local array of ranges is never overrun, and the
    program does not stop. *)
Theorem send_step_ranges_correct outStream parties game conn waitingFor mask :
  steps_wf (Game.authoritativeSteps game) -> 0 <= waitingFor ->
  (forall p, Conn.assignedParty conn = Some p -> (p < length parties)%nat) ->
  let newest := expectedWriteId (Game.authoritativeSteps game) in
  runs (nimbleServerSendStepRanges parties outStream conn game waitingFor mask)
    (fun '(outStream', conn', code) =>
       conn_kept conn conn' /\
       (outStream', code) = answer outStream parties game conn waitingFor mask) /\
  match answer_ranges (Game.authoritativeSteps game) waitingFor mask with
  | inl code => code < 0
  | inr ranges =>
      (length ranges <= 4)%nat /\
      (expectedReadId (Game.authoritativeSteps game) <= waitingFor < newest ->
       exists missing n, ranges = missing ++ [mkRange waitingFor n] /\
         0 < n <= 20 /\ waitingFor + n <= newest)
  end.
Proof.
  intros Hwf Hwait Hassigned newest. split; [by apply runs_send_ranges|].
  unfold answer_ranges. fold newest.
  destruct (Z.ltb_spec waitingFor (expectedReadId (Game.authoritativeSteps game))).
  { split; [simpl; lia|lia]. }
  pose proof (pending_ranges waitingFor newest mask MAX_RANGES_COUNT maxStepsCount ltac:(done))
    as Hranges.
  destruct (nbsPendingStepsRanges _ _ _ _ _) as [code ranges].
  destruct (Z.ltb_spec code 0); [done|]. destruct (Hranges ltac:(done)) as [Hmax Hlen].
  unfold MAX_RANGES_COUNT, maxRedundancyStepCount in *. split.
  - rewrite length_app. destruct (waitingFor <? newest); simpl; lia.
  - intros [_ Hnew]. rewrite (proj2 (Z.ltb_lt _ _)) by done.
    exists ranges, (Z.min 20 (newest - waitingFor)). split; [done|lia].
Qed.

(** Steps from a connection that has not joined, or whose party is
    dissolved, are refused without reading them: no participant and no
    authoritative step changes, and the party only counts the warning. *)
Theorem steps_of_strangers_refused parties game inStream conn :
  match Conn.assignedParty conn with
  | None =>
      nimbleServerHandleIncomingSteps parties game inStream conn
      = Ret (parties, game, inStream, NimbleServerErrSerialize, None)
  | Some p =>
      forall party, parties !! p = Some party ->
      Party.state party = NimbleServerLocalPartyStateDissolved ->
      nimbleServerHandleIncomingSteps parties game inStream conn
      = Ret (<[p := Party.set_warningCount (u32 (Party.warningCount party + 1)) party]> parties,
             game, inStream, NimbleServerErrDatagramFromDisconnectedConnection, None)
  end.
Proof.
  unfold nimbleServerHandleIncomingSteps.
  destruct (Conn.assignedParty conn) as [p|]; [|done]. intros party Hp Hst.
  unfold load, store. rewrite Hp. simpl.
  by rewrite bool_decide_true.
Qed.
End StepRequestProperties.

(** ** Witnesses *)
Import Models.

Definition example_game : Game := Game.mk _ (nbsStepsInit 1024) example_pool false.

Lemma example_session : session_ok 2 (Parties.parties example_parties) example_game.
Proof.
  split.
  - apply (parties_each 2 2), example_parties_wf.
  - exact example_pool_wf.
  - exact example_pool_ok_2.
  - exact example_owned.
  - apply (steps_init 1024). lia.
Qed.

(** A client of party 0 waits for step 0 and sends the steps of
    [example_predicted]. *)
Definition joined_connection : TransportConnection :=
  Conn.set_assignedParty (Some 0%nat) zero_connection.
Definition step_request : FldInStream := fldInStreamInit [0; 0; 1; 0; 0; 2; 1; 7; 2; 8; 9].

Lemma joined_connection_assigned p : Conn.assignedParty joined_connection = Some p ->
  (p < length (Parties.parties example_parties))%nat.
Proof. intros [= <-]. simpl. lia. Qed.

Lemma req_game_step_keeps_session_witness :
  sat (fun h => h = UninitializedRead NumberOfDatagram \/
                (h = AssertionFailed /\ assertions_enabled (Clog := debug_build) = true /\
                 0 < count_if leaving (pool_of example_game)))
    (nimbleServerReqGameStep (H := debug_build) (Parties.parties example_parties) example_game
       joined_connection 0 step_request (fldOutStreamInit 1200))
    (fun '(parties', game', _, _, _, _, _) => session_ok 2 parties' game') /\
  match nimbleServerReqGameStep (H := debug_build) (Parties.parties example_parties) example_game
          joined_connection 0 step_request (fldOutStreamInit 1200) with
  | Ret (_, _, _, _, _, outStream, code) => code = 0 /\ out_octets outStream = [2; 1; 2; 1; 0]
  | Halt _ => False
  end.
Proof.
  split; [|vm_compute; auto].
  eapply runs_mono; [apply (req_game_step_keeps_session (H := debug_build) 2)|].
  - exact example_session.
  - exact joined_connection_assigned.
  - intros [[[[[[parties' game'] conn'] stat'] s'] o'] code] [Hok _]. exact Hok.
Defined.

Lemma send_step_ranges_correct_witness :
  runs (nimbleServerSendStepRanges compose_parties (fldOutStreamInit 1200) joined_connection
          (Game.mk _ (mkSteps [(3, [1]); (4, [2])] 5 3 1024) alone_pool false) 3 0)
    (fun '(outStream', conn', code) => out_octets outStream' = [2; 0; 0; 251; 1; 3; 2]).
Proof.
  eapply runs_mono; [apply send_step_ranges_correct|].
  - split; simpl; try lia. repeat constructor; simpl; lia.
  - lia.
  - intros p [= <-]. simpl. lia.
  - intros [[o' conn'] code] [_ Ho]. vm_compute in Ho. injection Ho as -> _. reflexivity.
Defined.

Lemma steps_of_strangers_refused_witness :
  nimbleServerHandleIncomingSteps (Parties.parties example_parties) example_game step_request
    zero_connection
  = Ret (Parties.parties example_parties, example_game, step_request,
         NimbleServerErrSerialize, None).
Proof.
  exact (steps_of_strangers_refused (Parties.parties example_parties) example_game step_request
           zero_connection).
Defined.
