(* ===== verification/ServerState.v ===== *)
(** * The state of the server (include/nimble-server/server.h)

    The structs of the server, and the world around it: the clock, the random
    numbers, the state of the game simulation, and the datagrams. *)

From S2P Require Import Prelude.
From S2P Require Import ExternalLibs.
From S2P Require Import ExternalModels.
From S2P Require Import StepLog.
From S2P Require Import CircularBuffer.
From S2P Require Import ConnectionQuality.
From S2P Require Import UpdateQuality.
From S2P Require Import GameState.
From S2P Require Import Participants.
From S2P Require Import LocalParty.
From S2P Require Import TransportConnection.
From S2P Require Import LocalParties.
From S2P Require Import Game.
From S2P Require Import StepFormat.
From S2P Require Import AuthoritativeSteps.
From S2P Require Import Session.
From S2P Require Import StepRequest.

(** How the server can stop: by a check of the program, or by the use of one of
    four things that may not have been set (see [variable]). There is no access
    out of bounds or through NULL, and no loop that goes on. *)
Definition checked_halt (h : halt) : Prop :=
  match h with
  | AssertionFailed | ErrorLogged => True
  | UninitializedRead what =>
      what ∈ [NumberOfDatagram; PlayerOfRequest; PartyOfRequest; TransferOfConnection]
  | OutOfBounds | NullPointer | OutOfFuel => False
  end.

(** [checked] proves that a given halt is one of them. *)
Ltac checked := unfold checked_halt; simpl; rewrite ?elem_of_cons; tauto.

Definition NIMBLE_NIMBLE_SERVER_MAX_TRANSPORT_CONNECTIONS : Z := 64.

(** serialized_game_state.h; the hash is only logged. *)
Record NimbleServerSerializedGameState := mkSerialized {
  gameState : list Z;
  gameStateOctetCount : Z;
  serialized_stepId : Z;
}.

(** The callback of the application: the state it serializes on its n-th call. *)
Class CallbackObject := {
  authoritativeStateSerializeFn : nat -> NimbleServerSerializedGameState;
}.

(** The memory it hands out is as long as it says. *)
Class CallbackLaws `{CallbackObject} := {
  serialized_length n :
    Z.of_nat (length (gameState (authoritativeStateSerializeFn n)))
    = gameStateOctetCount (authoritativeStateSerializeFn n);
}.

(** A call of [receiveFrom]: its result, the connection and the octets stored. *)
Record received := mkReceived {
  octetCountReceived : Z;
  received_connectionId : Z;
  received_octets : list Z;
}.

(** How often the clock, the random numbers and the callback were used, what
    the transport will deliver, and what was sent to which connection. *)
Record World := mkWorld {
  times : nat;
  randoms : nat;
  serializations : nat;
  inbox : list received;
  sent : list (Z * list Z);
}.

Definition send (connection : Z) (octets : list Z) (w : World) : World :=
  mkWorld (times w) (randoms w) (serializations w) (inbox w) (sent w ++ [(connection, octets)]).
Definition tick_clock (w : World) : World :=
  mkWorld (S (times w)) (randoms w) (serializations w) (inbox w) (sent w).
Definition draw_random (w : World) : World :=
  mkWorld (times w) (S (randoms w)) (serializations w) (inbox w) (sent w).
Definition serialize_again (w : World) : World :=
  mkWorld (times w) (randoms w) (S (serializations w)) (inbox w) (sent w).
Definition set_inbox (l : list received) (w : World) : World :=
  mkWorld (times w) (randoms w) (serializations w) l (sent w).

(** [memory] and [blobAllocator] say whether the pointers are set; the callback
    object, the transport and the log are left out. *)
Record NimbleServerSetup `{NimbleSerialize} := mkSetup {
  setup_applicationVersion : NimbleSerializeVersion;
  memory : bool;
  blobAllocator : bool;
  maxConnectionCount : Z;
  maxParticipantCount : Z;
  maxSingleParticipantStepOctetCount : Z;
  maxParticipantCountForEachConnection : Z;
  maxWaitingForReconnectTicks : Z;
  maxGameStateOctetCount : Z;
  now : Z;
  targetTickTimeMs : Z;
}.
Abbreviation Setup := NimbleServerSetup.

(** The allocators, the callback object, the transport and the log are left
    out. *)
Module Server.
Record NimbleServer `{OrderedDatagram} `{!BlobStream} `{NimbleSteps} `{!NimbleSerialize} `{Stats} := mk {
  transportConnections : list TransportConnection;
  localParties : LocalParties;
  game : Game;
  applicationVersion : NimbleSerializeVersion;
  setup : Setup;
  statsCounter : Z;
  authoritativeStepsPerSecondStat : StatsIntPerSecond;
  updateQuality : UpdateQuality;
  freeTransportConnectionList : CBuf.NimbleServerCircularBuffer;
  sessionSecret : Z;
}.
Section Setters.
Context `{OrderedDatagram} `{!BlobStream} `{NimbleSteps} `{!NimbleSerialize} `{Stats}.
Definition set_transportConnections (v : list TransportConnection) (p : NimbleServer) :
    NimbleServer :=
  mk _ _ _ _ _ _ v (localParties p) (game p) (applicationVersion p) (setup p)
    (statsCounter p) (authoritativeStepsPerSecondStat p) (updateQuality p)
    (freeTransportConnectionList p) (sessionSecret p).
Definition set_localParties (v : LocalParties) (p : NimbleServer) :
    NimbleServer :=
  mk _ _ _ _ _ _ (transportConnections p) v (game p) (applicationVersion p) (setup p)
    (statsCounter p) (authoritativeStepsPerSecondStat p) (updateQuality p)
    (freeTransportConnectionList p) (sessionSecret p).
Definition set_game (v : Game) (p : NimbleServer) :
    NimbleServer :=
  mk _ _ _ _ _ _ (transportConnections p) (localParties p) v (applicationVersion p)
    (setup p) (statsCounter p) (authoritativeStepsPerSecondStat p) (updateQuality p)
    (freeTransportConnectionList p) (sessionSecret p).
Definition set_statsCounter (v : Z) (p : NimbleServer) :
    NimbleServer :=
  mk _ _ _ _ _ _ (transportConnections p) (localParties p) (game p) (applicationVersion p)
    (setup p) v (authoritativeStepsPerSecondStat p) (updateQuality p)
    (freeTransportConnectionList p) (sessionSecret p).
Definition set_authoritativeStepsPerSecondStat (v : StatsIntPerSecond) (p : NimbleServer) :
    NimbleServer :=
  mk _ _ _ _ _ _ (transportConnections p) (localParties p) (game p) (applicationVersion p)
    (setup p) (statsCounter p) v (updateQuality p) (freeTransportConnectionList p)
    (sessionSecret p).
Definition set_updateQuality (v : UpdateQuality) (p : NimbleServer) :
    NimbleServer :=
  mk _ _ _ _ _ _ (transportConnections p) (localParties p) (game p) (applicationVersion p)
    (setup p) (statsCounter p) (authoritativeStepsPerSecondStat p) v
    (freeTransportConnectionList p) (sessionSecret p).
Definition set_freeTransportConnectionList (v : CBuf.NimbleServerCircularBuffer) (p : NimbleServer) :
    NimbleServer :=
  mk _ _ _ _ _ _ (transportConnections p) (localParties p) (game p) (applicationVersion p)
    (setup p) (statsCounter p) (authoritativeStepsPerSecondStat p) (updateQuality p) v
    (sessionSecret p).
End Setters.
End Server.
Abbreviation NimbleServer := Server.NimbleServer.

(** ** The invariant of the server *)
Section ServerInvariant.
Context `{Clog} `{OrderedDatagram} `{!BlobStream} `{NimbleSteps} `{!NimbleSerialize} `{Stats}.
Context `{!NimbleStepsLaws}.
Implicit Types (self : NimbleServer) (w : World) (conn : TransportConnection).

(** A connection, when there are [nparties] places for parties. *)
Record conn_ok (nparties : nat) conn : Prop := {
  conn_id : 0 <= Conn.id conn < 64;
  conn_party : forall p, Conn.assignedParty conn = Some p -> (p < nparties)%nat;
  conn_state : game_state_wf (Conn.gameState conn);
}.

Abbreviation parties_of self := (Parties.parties (Server.localParties self)).

Record server_ok self : Prop := {
  sv_connections : length (Server.transportConnections self) = 64%nat;
  sv_each : Forall (conn_ok (length (parties_of self))) (Server.transportConnections self);
  sv_session : session_ok 64 (parties_of self) (Server.game self);
  sv_parties : parties_wf (length (pool_of (Server.game self))) 64 (Server.localParties self);
  sv_free : cbuf_wf (Server.freeTransportConnectionList self);
  sv_free_ids :
    Forall (fun i => 0 <= i < 64) (contents (Server.freeTransportConnectionList self));
  sv_ticks : 0 <= maxWaitingForReconnectTicks (Server.setup self) < 18446744073709551616;
  sv_octets : 0 <= maxGameStateOctetCount (Server.setup self);
}.

(** What every part of an update keeps. *)
Record server_change self w self' w' : Prop := {
  sc_ok : server_ok self';
  sc_quality : Server.updateQuality self' = Server.updateQuality self;
  sc_setup : Server.setup self' = Server.setup self;
  sc_times : (times w <= times w')%nat;
  sc_log : log_extends (Game.authoritativeSteps (Server.game self))
    (Game.authoritativeSteps (Server.game self'));
}.

Lemma server_change_refl self w : server_ok self -> server_change self w self w.
Proof. by split. Qed.

Lemma server_change_trans s1 w1 s2 w2 s3 w3 :
  server_change s1 w1 s2 w2 -> server_change s2 w2 s3 w3 -> server_change s1 w1 s3 w3.
Proof. intros [] []. split; try congruence; [lia|by etrans]. Qed.

(** What every handler of a datagram keeps: also all parties in use live on. *)
Record server_step self w self' w' : Prop := {
  ss_change : server_change self w self' w';
  ss_lives : parties_live (parties_of self) (parties_of self');
}.

Lemma ss_ok self w self' w' : server_step self w self' w' -> server_ok self'.
Proof. by intros [[]]. Qed.

Lemma server_step_refl self w : server_ok self -> server_step self w self w.
Proof. by split; [apply server_change_refl|]. Qed.

Lemma server_step_trans s1 w1 s2 w2 s3 w3 :
  server_step s1 w1 s2 w2 -> server_step s2 w2 s3 w3 -> server_step s1 w1 s3 w3.
Proof. intros [] []. split; [by eapply server_change_trans|by etrans]. Qed.

(** The checks of clog stop the program in this build. *)
Definition checks_on : Prop := assertions_enabled = true /\ errors_halt = true.

Lemma checked_assert (b : bool) (Q : unit -> Prop) : checks_on ->
  (b = true -> Q tt) -> sat checked_halt (CLOG_ASSERT b) Q.
Proof.
  intros [Ha _] HQ. unfold CLOG_ASSERT. rewrite Ha. destruct b; simpl; auto.
Qed.

Lemma checked_error {B} (b : bool) (k : unit -> outcome B) (Q : B -> Prop) : checks_on ->
  (b = false -> sat checked_halt (k tt) Q) ->
  sat checked_halt ((if b then CLOG_ERROR else Ret tt) ≫= k) Q.
Proof.
  intros [_ He] HQ. unfold CLOG_ERROR. rewrite He. destruct b; simpl; auto.
Qed.

Lemma checked_read {A} (o : option A) (Q : A -> Prop) :
  (forall a, o = Some a -> Q a) -> sat checked_halt (initialized NumberOfDatagram o) Q.
Proof. intros HQ. apply runs_read_or_halt; [checked|done]. Qed.

Lemma server_conn_lookup self c : server_ok self -> (c < 64)%nat ->
  exists conn, Server.transportConnections self !! c = Some conn /\
    conn_ok (length (parties_of self)) conn.
Proof.
  intros Hs Hc. destruct (lookup_lt_is_Some_2 (Server.transportConnections self) c) as [conn Hl].
  { by rewrite (sv_connections _ Hs). }
  exists conn. split; [done|]. by eapply Forall_lookup_1, Hl; apply Hs.
Qed.

Lemma server_conn_insert self w c conn :
  server_ok self -> conn_ok (length (parties_of self)) conn ->
  server_step self w
    (Server.set_transportConnections (<[c := conn]> (Server.transportConnections self)) self) w.
Proof.
  intros [Hl He Hs Hp Hf Hi Ht Ho] Hc. split; [|done]. split; try done. split; try done.
  - simpl. by rewrite length_insert.
  - by apply Forall_insert.
Qed.

Lemma server_stat_step self w stat : server_ok self ->
  server_step self w (Server.set_authoritativeStepsPerSecondStat stat self) w.
Proof. intros []. by split; [split|]. Qed.

(** Parties and participants that the server may go on with. *)
Record session_after self (parties : LocalParties) (pool : NimbleServerParticipants) : Prop := {
  sa_session : session_ok 64 (Parties.parties parties)
    (Game.set_participants pool (Server.game self));
  sa_parties : parties_wf (length (Pool.participants pool)) 64 parties;
  sa_length : length (Parties.parties parties) = length (parties_of self);
}.

Lemma session_after_same self : server_ok self ->
  session_after self (Server.localParties self) (Game.participants (Server.game self)).
Proof. intros Hs. split; [by destruct (sv_session _ Hs)|apply Hs|done]. Qed.

(** Parties and game replaced. *)
Lemma server_parties_change self w parties game' :
  server_ok self -> session_ok 64 (Parties.parties parties) game' ->
  parties_wf (length (pool_of game')) 64 parties ->
  length (Parties.parties parties) = length (parties_of self) ->
  log_extends (Game.authoritativeSteps (Server.game self)) (Game.authoritativeSteps game') ->
  server_change self w (Server.set_localParties parties (Server.set_game game' self)) w.
Proof.
  intros [Hl He Hs Hp Hf Hi Ht Ho] Hok Hwf Hlen Hlog. split; try done.
  split; simpl; try done. by rewrite Hlen.
Qed.

Lemma session_after_ok self parties pool :
  server_ok self -> session_after self parties pool ->
  server_ok (Server.set_localParties parties
    (Server.set_game (Game.set_participants pool (Server.game self)) self)).
Proof.
  intros Hs [Hses Hwf Hlen]. set (w := mkWorld 0 0 0 [] []).
  apply (sc_ok self w _ w). by apply server_parties_change.
Qed.

(** Parties and game replaced by a step of the session. *)
Lemma server_session_step self w parties' game' :
  server_ok self -> session_step 64 (parties_of self) (Server.game self) parties' game' ->
  server_step self w
    (Server.set_localParties (Parties.set_parties parties' (Server.localParties self))
       (Server.set_game game' self)) w.
Proof.
  intros Hs [Hok Hpool Hlike Hlog Hlives]. split; [|done].
  apply server_parties_change; try done.
  - rewrite Hpool. apply parties_wf_like; [apply Hs|done].
  - by apply (parties_like_length _ _ _ _ Hlike).
Qed.
End ServerInvariant.

(** ** An example *)
Import Models.

#[export] Instance callback_model : CallbackObject := {
  authoritativeStateSerializeFn n := mkSerialized [1; 2; 3] 3 (Z.of_nat n);
}.
#[export, refine] Instance callback_model_laws : CallbackLaws := {}.
Proof. done. Defined.

Definition example_setup : Setup := mkSetup _ _ 1 true true 2 2 24 1 100 64 0 16.

(** Party 0 plays over connection 1 with participant 0; there is room for one
    more. Connections 5 and 6 are in the free list. *)
Definition example_server : NimbleServer :=
  Server.mk _ _ _ _ _ _ (example_connections 64) example_parties example_game 1 example_setup 0 0
    example_watch (written (written zero_buffer 5) 6) 0.

Definition example_world : World := mkWorld 1 0 0 [] [].

Lemma example_server_ok : server_ok example_server.
Proof.
  pose proof example_parties_wf as [Hcap Hlen Heach Hcount].
  assert (Hmore : Forall (party_wf 2 64) (Parties.parties example_parties)).
  { eapply Forall_impl; [|exact Heach]. intros party [? ? ? Hc]. split; try done.
    intros c Hp. specialize (Hc c Hp). lia. }
  destruct example_session as [_ Hpool Hok Hown Hsteps].
  assert (Hbuf : cbuf_wf (written (written zero_buffer 5) 6)).
  { apply written_wf, written_wf, zero_buffer_wf. }
  split; try done.
  - simpl Server.transportConnections. apply Forall_fmap, list.Forall_forall. intros i Hi.
    apply elem_of_seq in Hi. split; simpl; [lia|done|]. split; simpl; try done; lia.
  - replace (contents _) with [5; 6] by (vm_compute; reflexivity). repeat constructor; lia.
Qed.
