(* ===== verification/ConnectRequest.v ===== *)
(** * Connect requests (lib/req_connect.c) *)

From S2P Require Import Prelude.
From S2P Require Import ExternalLibs.
From S2P Require Import ExternalModels.
From S2P Require Import StepLog.
From S2P Require Import CircularBuffer.
From S2P Require Import ConnectionQuality.
From S2P Require Import UpdateQuality.
From S2P Require Import GameState.
From S2P Require Import Participants.
From S2P Require Import LocalParty.
From S2P Require Import TransportConnection.
From S2P Require Import LocalParties.
From S2P Require Import Game.
From S2P Require Import StepFormat.
From S2P Require Import AuthoritativeSteps.
From S2P Require Import Session.
From S2P Require Import StepRequest.
From S2P Require Import ServerState.

Section ConnectRequest.
Context `{Clog} `{OrderedDatagram} `{!BlobStream} `{NimbleSteps} `{!NimbleSerialize} `{Stats}
  `{ImprintAllocator} `{Environment}.
Implicit Types (self : NimbleServer) (w : World).

(** The connection found is its position in the array. *)
Definition findExistingConnectionRequest self (transportConnectionIndex connectionRequestId : Z) :
    outcome (option nat) :=
  r ← for_loop (Z.to_nat NIMBLE_NIMBLE_SERVER_MAX_TRANSPORT_CONNECTIONS) 0
    (fun i (_ : unit) =>
      connection ← load (Server.transportConnections self) i;
      if negb (Conn.isUsed connection) then Ret (Continue tt)
      else if (Conn.transportIndex connection =? transportConnectionIndex)
              && (Conn.connectedFromConnectRequestId connection =? connectionRequestId)
      then Ret (Return (Some i))
      else Ret (Continue tt)) tt;
  Ret (match r with Return p => p | Continue _ => None end).

(** The connection taken from the free list, before and after
    [transportConnectionInit]. *)
Definition connected (transportConnection : TransportConnection) (freeTransportIndex
    transportConnectionIndex clientRequestId secret : Z) (useDebugStreams : bool) :
    TransportConnection :=
  Conn.mk _ _ _ _ freeTransportIndex (Conn.transportConnectionId transportConnection)
    transportConnectionIndex clientRequestId secret (Conn.assignedParty transportConnection)
    (Conn.orderedDatagramInLogic transportConnection)
    (Conn.orderedDatagramOutLogic transportConnection)
    (Conn.blobStreamOut transportConnection) (Conn.blobStreamLogicOut transportConnection)
    (Conn.nextBlobStreamOutChannel transportConnection)
    (Conn.blobStreamOutClientRequestId transportConnection)
    (Conn.stepsBehindStats transportConnection) (Conn.debugCounter transportConnection)
    true useDebugStreams (Conn.noRangesToSendCounter transportConnection)
    NbTransportConnectionPhaseConnected (Conn.gameState transportConnection).

Definition nimbleServerReqConnect self w (transportConnectionIndex : Z) (inStream : FldInStream)
    (outStream : FldOutStream) : outcome (NimbleServer * World * FldInStream * FldOutStream * Z) :=
  let '(inStream, serializeErr, (version, clientRequestId, useDebugStreams)) :=
    nimbleSerializeServerInConnectRequest inStream in
  if serializeErr <? 0
  then Ret (self, w, inStream, outStream, NimbleServerErrSerializeVersion)
  else if negb (nimbleSerializeVersionIsEqual (Server.applicationVersion self) version)
  then Ret (self, w, inStream, outStream, NimbleServerErrSerializeVersion)
  else
    existing ← findExistingConnectionRequest self transportConnectionIndex clientRequestId;
    '(self, w, found) ←
      match existing with
      | Some c => Ret (self, w, Some c)
      | None =>
          if nimbleServerCircularBufferIsEmpty (Server.freeTransportConnectionList self)
          then Ret (self, w, None)
          else
            '(freeList, freeTransportIndex) ←
              nimbleServerCircularBufferRead (Server.freeTransportConnectionList self);
            let self := Server.set_freeTransportConnectionList freeList self in
            transportConnection ←
              load (Server.transportConnections self) (Z.to_nat freeTransportIndex);
            _ ← (if Conn.isUsed transportConnection then CLOG_ERROR else Ret tt);
            let transportConnection :=
              connected transportConnection freeTransportIndex transportConnectionIndex
                clientRequestId (secureRandomUInt64 (randoms w)) useDebugStreams in
            let transportConnection :=
              transportConnectionInit transportConnection
                (maxGameStateOctetCount (Server.setup self)) in
            connections ←
              store (Server.transportConnections self) (Z.to_nat freeTransportIndex)
                transportConnection;
            Ret (Server.set_transportConnections connections self, draw_random w,
                 Some (Z.to_nat freeTransportIndex))
      end;
    match found with
    | None => Ret (self, w, inStream, outStream, NimbleServerErrSerialize)
    | Some c =>
        transportConnection ← load (Server.transportConnections self) c;
        let '(outStream, code) :=
          nimbleSerializeServerOutConnectResponse outStream
            (Conn.useDebugStreams transportConnection) (Conn.id transportConnection)
            clientRequestId in
        Ret (self, w, inStream, outStream, code)
    end.

End ConnectRequest.

(** ** What a connect request keeps *)
Section ConnectRequestRuns.
Context `{Clog} `{OrderedDatagram} `{!BlobStream} `{NimbleSteps} `{!NimbleSerialize} `{Stats}
  `{ImprintAllocator} `{Environment}.
Context `{!NimbleStepsLaws} `{!NimbleSerializeLaws}.
Implicit Types (self : NimbleServer) (w : World).

(** A connection in use for the transport index and the request. *)
Definition serves (transportConnectionIndex requestId : Z) (conn : TransportConnection) : bool :=
  Conn.isUsed conn && (Conn.transportIndex conn =? transportConnectionIndex)
  && (Conn.connectedFromConnectRequestId conn =? requestId).

Abbreviation serving index id := (list_find (fun conn => serves index id conn = true)).

Lemma runs_find_existing {E} self index id :
  length (Server.transportConnections self) = 64%nat ->
  sat E (findExistingConnectionRequest self index id) (fun found =>
    found = fst <$> serving index id (Server.transportConnections self)).
Proof.
  intros Hl. unfold findExistingConnectionRequest, NIMBLE_NIMBLE_SERVER_MAX_TRANSPORT_CONNECTIONS.
  eapply runs_bind_mono.
  { apply (runs_for (fun i _ => forall j conn, (j < i)%nat ->
        Server.transportConnections self !! j = Some conn -> serves index id conn = false)
      (fun found => exists c conn, found = Some c /\
         serving index id (Server.transportConnections self) = Some (c, conn))); [lia|].
    intros j _ Hj Hnone.
    destruct (lookup_lt_is_Some_2 (Server.transportConnections self) j) as [conn Hc].
    { rewrite Hl. change (Z.to_nat 64) with 64%nat in Hj. lia. }
    run. destruct (serves index id conn) eqn:Hserves;
      pose proof Hserves as Hs; unfold serves in Hs.
    - destruct (Conn.isUsed conn); simpl in *; [|done]. rewrite Hs. simpl.
      exists j, conn. split; [done|]. apply list_find_Some. split; [done|]. split; [done|].
      intros k q Hq Hk. by rewrite (Hnone k q Hk Hq).
    - assert (Hgo : forall k q, (k < S j)%nat -> Server.transportConnections self !! k = Some q ->
                      serves index id q = false).
      { intros k q Hk Hq. destruct (decide (k = j)) as [->|]; [congruence|].
        apply (Hnone k q); [lia|done]. }
      destruct (Conn.isUsed conn); simpl in *; [|exact Hgo]. by rewrite Hs. }
  intros [s|found]; simpl; [|by intros (c & conn & -> & ->)].
  intros Hnone. destruct (serving index id _) as [[c conn]|] eqn:Hf; [|done].
  apply list_find_Some in Hf as (Hc & Hs & _). rewrite (Hnone c conn) in Hs; [done| |done].
  apply lookup_lt_Some in Hc. rewrite Hl in Hc. exact Hc.
Qed.

Lemma connected_ok n conn i index id secret debug octets :
  conn_ok n conn -> 0 <= i < 64 -> 0 <= octets ->
  conn_ok n (transportConnectionInit (connected conn i index id secret debug) octets).
Proof.
  intros [Hid Hp Hg] Hi Ho. split; simpl; [done|done|]. by apply game_state_init_wf.
Qed.

Lemma runs_req_connect self w index inStream outStream :
  checks_on -> server_ok self ->
  sat checked_halt (nimbleServerReqConnect self w index inStream outStream)
    (fun '(self', w', s, _, _) => server_step self w self' w' /\ forward inStream s).
Proof.
  intros Hon Hs. unfold nimbleServerReqConnect.
  pose proof (connect_request_forward inStream) as Hf.
  destruct (nimbleSerializeServerInConnectRequest inStream) as [[s err] [[version id] debug]].
  simpl in Hf. pose proof (server_step_refl self w Hs) as Hrefl.
  destruct (err <? 0); [done|]. destruct (negb _); [done|].
  eapply runs_bind_mono; [apply runs_find_existing, Hs|]. intros existing Hexisting.
  apply (runs_bind_mono _ _ (fun '(self', w', found) => server_step self w self' w' /\
    match found with Some c => (c < 64)%nat | None => True end)).
  - destruct existing as [c|].
    { destruct (serving index id _) as [[? conn]|] eqn:Hfind; [|done].
      injection Hexisting as ->. apply list_find_Some in Hfind as (Hc & _). split; [done|].
      rewrite <- (sv_connections _ Hs). by eapply lookup_lt_Some. }
    destruct (nimbleServerCircularBufferIsEmpty _) eqn:Hempty; [done|].
    rewrite isEmpty_contents in Hempty by apply Hs. apply bool_decide_eq_false in Hempty.
    destruct (contents (Server.freeTransportConnectionList self)) as [|i rest] eqn:Hcont; [done|].
    pose proof (sv_free_ids _ Hs) as Hids. rewrite Hcont in Hids.
    apply Forall_cons_iff in Hids as [Hi Hrest].
    apply runs_bind. eapply runs_read; [apply Hs|done|]. intros free Hfree _ Hfc.
    destruct (server_conn_lookup self (Z.to_nat i) Hs) as (conn & Hc & Hok); [lia|]. run.
    apply checked_error; [done|]. intros _. run. split; [|lia].
    pose proof (connected_ok _ _ i index id (secureRandomUInt64 (randoms w)) debug
      (maxGameStateOctetCount (Server.setup self)) Hok Hi (sv_octets _ Hs)) as Hnew.
    destruct (server_conn_insert self w (Z.to_nat i) _ Hs Hnew) as [[Hs' _ _ _ _] _].
    split; [|done]. split; try done. destruct Hs'. split; simpl in *; try done. by rewrite Hfc.
  - intros [[self' w'] [c|]] [Hstep Hc]; [|done].
    destruct (server_conn_lookup self' c (ss_ok _ _ _ _ Hstep) Hc) as (conn & Hl & _). run.
    by destruct (nimbleSerializeServerOutConnectResponse _ _ _ _).
Qed.
End ConnectRequestRuns.

(** ** Properties *)
Section ConnectRequestProperties.
Context `{Clog} `{OrderedDatagram} `{!BlobStream} `{NimbleSteps} `{!NimbleSerialize} `{Stats}
  `{ImprintAllocator} `{Environment}.
Context `{!NimbleStepsLaws}.
Implicit Types (self : NimbleServer) (w : World).

(** The server once a new connection took the place [i] of the free list. *)
Definition with_new_connection self (i : Z) conn (index id secret : Z) (debug : bool) free :
    NimbleServer :=
  Server.set_transportConnections
    (<[Z.to_nat i := transportConnectionInit (connected conn i index id secret debug)
                       (maxGameStateOctetCount (Server.setup self))]>
       (Server.transportConnections self))
    (Server.set_freeTransportConnectionList free self).

Abbreviation serving index id := (list_find (fun conn => serves index id conn = true)).

(** A new connection takes the place that was free the longest. *)
Lemma runs_connect_new {E} self w index inStream outStream s err version id debug i rest conn :
  server_ok self ->
  nimbleSerializeServerInConnectRequest inStream = (s, err, (version, id, debug)) -> 0 <= err ->
  nimbleSerializeVersionIsEqual (Server.applicationVersion self) version = true ->
  serving index id (Server.transportConnections self) = None ->
  contents (Server.freeTransportConnectionList self) = i :: rest ->
  Server.transportConnections self !! Z.to_nat i = Some conn -> Conn.isUsed conn = false ->
  sat E (nimbleServerReqConnect self w index inStream outStream)
    (fun '(self', w', s', outStream', code) =>
       s' = s /\ server_ok self' /\ exists free, contents free = rest /\ w' = draw_random w /\
       self' = with_new_connection self i conn index id (secureRandomUInt64 (randoms w)) debug
                 free /\
       (outStream', code) = nimbleSerializeServerOutConnectResponse outStream true i id).
Proof.
  intros Hs Hread Herr Hversion Hnone Hcont Hc Hu. unfold nimbleServerReqConnect.
  rewrite Hread, (proj2 (Z.ltb_ge _ _) Herr), Hversion. simpl.
  eapply runs_bind_mono; [apply runs_find_existing, Hs|]. intros existing ->. rewrite Hnone. simpl.
  pose proof (sv_free_ids _ Hs) as Hids. rewrite isEmpty_contents by apply Hs. rewrite Hcont in *.
  rewrite bool_decide_false by done. apply Forall_cons_iff in Hids as [Hi Hrest].
  apply runs_bind, runs_bind. eapply runs_read; [apply Hs|done|]. intros free Hcb _ Hfc.
  run.
  assert (Hl : (Z.to_nat i < length (Server.transportConnections self))%nat)
    by (by eapply lookup_lt_Some).
  apply (runs_load _ _ (transportConnectionInit (connected conn i index id
    (secureRandomUInt64 (randoms w)) debug) (maxGameStateOctetCount (Server.setup self)))).
  { simpl. by apply list_lookup_insert_eq. }
  simpl Conn.useDebugStreams. simpl Conn.id.
  destruct (nimbleSerializeServerOutConnectResponse outStream true i id) as [o code].
  split; [done|]. split; [|by exists free].
  pose proof (Forall_lookup_1 _ _ _ _ (sv_each _ Hs) Hc) as Hok.
  pose proof (connected_ok _ _ i index id (secureRandomUInt64 (randoms w)) debug
    (maxGameStateOctetCount (Server.setup self)) Hok Hi (sv_octets _ Hs)) as Hnew.
  destruct (ss_ok _ _ _ _ (server_conn_insert self w (Z.to_nat i) _ Hs Hnew)).
  split; simpl in *; try done. by rewrite Hfc.
Qed.

(** C25. A request to connect. A request that cannot be read or comes from
    another version of the application is refused. A client that asks again,
    with the same request id over the same transport connection, is given the
    connection it already has, and nothing changes. Otherwise the connection
    that was free the longest is opened for it, with a fresh secret; only when
    none is free it is refused. The program does not stop, unless the free list
    holds a connection in use, and the server stays consistent. *)
Theorem connect_request_correct self w index inStream outStream s err version id debug :
  server_ok self ->
  nimbleSerializeServerInConnectRequest inStream = (s, err, (version, id, debug)) ->
  Forall (fun i => exists conn, Server.transportConnections self !! Z.to_nat i = Some conn /\
                     Conn.isUsed conn = false)
    (contents (Server.freeTransportConnectionList self)) ->
  runs (nimbleServerReqConnect self w index inStream outStream)
    (fun '(self', w', s', outStream', code) =>
    s' = s /\ server_ok self' /\
    if (err <? 0) || negb (nimbleSerializeVersionIsEqual (Server.applicationVersion self) version)
    then self' = self /\ w' = w /\ outStream' = outStream /\ code = NimbleServerErrSerializeVersion
    else match list_find (fun conn => serves index id conn = true)
                 (Server.transportConnections self),
               contents (Server.freeTransportConnectionList self) with
    | Some (c, conn), _ => self' = self /\ w' = w /\
        (outStream', code) = nimbleSerializeServerOutConnectResponse outStream
                               (Conn.useDebugStreams conn) (Conn.id conn) id
    | None, [] => self' = self /\ w' = w /\ outStream' = outStream /\
        code = NimbleServerErrSerialize
    | None, i :: rest => exists conn free,
        Server.transportConnections self !! Z.to_nat i = Some conn /\
        contents free = rest /\ w' = draw_random w /\
        self' = with_new_connection self i conn index id (secureRandomUInt64 (randoms w)) debug
                  free /\
        (outStream', code) = nimbleSerializeServerOutConnectResponse outStream true i id
    end).
Proof.
  intros Hs Hread Hfree.
  destruct ((err <? 0) || negb _) eqn:Hrefused.
  { unfold nimbleServerReqConnect. rewrite Hread. destruct (err <? 0); [done|].
    simpl in Hrefused. by rewrite Hrefused. }
  apply orb_false_iff in Hrefused as [Herr%Z.ltb_ge Hversion%negb_false_iff].
  destruct (serving index id (Server.transportConnections self)) as [[c conn]|] eqn:Hf.
  { unfold nimbleServerReqConnect. rewrite Hread, (proj2 (Z.ltb_ge _ _) Herr), Hversion. simpl.
    eapply runs_bind_mono; [apply runs_find_existing, Hs|]. intros existing ->. rewrite Hf. simpl.
    apply list_find_Some in Hf as (Hc & _). run.
    by destruct (nimbleSerializeServerOutConnectResponse outStream _ _ id). }
  destruct (contents (Server.freeTransportConnectionList self)) as [|i rest] eqn:Hcont.
  { unfold nimbleServerReqConnect. rewrite Hread, (proj2 (Z.ltb_ge _ _) Herr), Hversion. simpl.
    eapply runs_bind_mono; [apply runs_find_existing, Hs|]. intros existing ->. rewrite Hf. simpl.
    rewrite isEmpty_contents, Hcont by apply Hs. by rewrite bool_decide_true. }
  apply Forall_inv in Hfree as (conn & Hc & Hu).
  eapply runs_mono; [by eapply runs_connect_new|].
  intros [[[[self' w'] s'] o'] code] (-> & Hok & free & Hnew). split; [done|]. split; [done|].
  by exists conn, free.
Qed.
End ConnectRequestProperties.

(** ** Witnesses *)
Import Models.

(** Version 1, request id 9, without debug streams. *)
Definition connect_octets : FldInStream := fldInStreamInit [1; 9; 0].

Lemma connect_request_correct_witness :
  runs (nimbleServerReqConnect (H := debug_build) example_server example_world 3 connect_octets
          (fldOutStreamInit 1200))
    (fun '(self', w', s', outStream', code) => server_ok self') /\
  match nimbleServerReqConnect (H := debug_build) example_server example_world 3 connect_octets
          (fldOutStreamInit 1200) with
  | Ret (self', _, _, outStream', code) =>
      code = 0 /\ out_octets outStream' = [1; 1; 5; 9] /\
      contents (Server.freeTransportConnectionList self') = [6]
  | Halt _ => False
  end.
Proof.
  split; [|vm_compute; auto].
  eapply runs_mono; [apply (connect_request_correct (H := debug_build) example_server example_world
    3 connect_octets (fldOutStreamInit 1200)
    (nimbleSerializeServerInConnectRequest connect_octets).1.1 0 1 9 false)|].
  - exact example_server_ok.
  - reflexivity.
  - assert (Hfree : contents (Server.freeTransportConnectionList example_server) = [5; 6])
      by (vm_compute; reflexivity).
    rewrite Hfree. constructor; [|constructor; [|constructor]]; eexists; split; reflexivity.
  - intros [[[[self' w'] s'] o'] code] (_ & Hok & _). exact Hok.
Defined.
