(* ===== verification/JoinRequest.v ===== *)
(** * Join requests (lib/req_game_join.c) *)

From S2P Require Import Prelude.
From S2P Require Import ExternalLibs.
From S2P Require Import ExternalModels.
From S2P Require Import StepLog.
From S2P Require Import CircularBuffer.
From S2P Require Import ConnectionQuality.
From S2P Require Import UpdateQuality.
From S2P Require Import GameState.
From S2P Require Import Participants.
From S2P Require Import LocalParty.
From S2P Require Import TransportConnection.
From S2P Require Import LocalParties.
From S2P Require Import Game.
From S2P Require Import StepFormat.
From S2P Require Import AuthoritativeSteps.
From S2P Require Import Session.
From S2P Require Import StepRequest.
From S2P Require Import ServerState.

Section JoinRequest.
Context `{Clog} `{OrderedDatagram} `{!BlobStream} `{NimbleSteps} `{!NimbleSerialize} `{Stats}.
Implicit Types (self : NimbleServer) (parties : LocalParties)
  (gameParticipants : NimbleServerParticipants).

(** [transportConnection] is a position in [connections]. The last component is
    what is stored in the out parameter: nothing, NULL or a party. *)
Definition joinLocalParty parties gameParticipants (connections : list TransportConnection)
    (transportConnection : nat) (joinRequest : NimbleSerializeJoinGameRequest)
    (latestAuthoritativeStepId : Z) :
    outcome (LocalParties * NimbleServerParticipants * Z * option (option nat)) :=
  connection ← load connections transportConnection;
  foundConnection ← nimbleServerLocalPartiesFindPartyForTransport parties connections
                      (Conn.transportConnectionId connection);
  match foundConnection with
  | Some p => Ret (parties, gameParticipants, 0, Some (Some p))
  | None =>
      match joinGameType joinRequest with
      | NimbleSerializeJoinGameTypePartySecret =>
          p ← nimbleServerLocalPartiesFindParty parties (request_partyId joinRequest);
          party ← load (Parties.parties parties) p;
          if negb (Refs.participantReferenceCount (Party.participantReferences party)
                   =? playerCount joinRequest)
          then Ret (parties, gameParticipants, 0, None)
          else
            parties' ← store (Parties.parties parties) p
              (nimbleServerLocalPartyRejoin party (Some transportConnection));
            Ret (Parties.set_parties parties' parties, gameParticipants, 0, Some (Some p))
      | NimbleSerializeJoinGameTypeNoSecret =>
          '(parties, gameParticipants, errorCode, out) ←
            nimbleServerLocalPartiesCreate parties gameParticipants (Some transportConnection)
              (players joinRequest) latestAuthoritativeStepId (playerCount joinRequest);
          if errorCode <? 0 then Ret (parties, gameParticipants, errorCode, Some None)
          else Ret (parties, gameParticipants, 0, out)
      end
  end.

Definition nimbleServerReadAndJoinParticipants parties gameParticipants
    (connections : list TransportConnection) (transportConnection : nat)
    (request : NimbleSerializeJoinGameRequest) (latestAuthoritativeStepId : Z) :
    outcome (LocalParties * NimbleServerParticipants * Z * option (option nat)) :=
  '(parties, gameParticipants, errorCode, party) ←
    joinLocalParty parties gameParticipants connections transportConnection request
      latestAuthoritativeStepId;
  if errorCode <? 0 then Ret (parties, gameParticipants, errorCode, party)
  else Ret (parties, gameParticipants, 0, party).

(** The participants of the response: id and local index of each. *)
Definition response_of (pool : list NimbleServerParticipant) (refs : ParticipantReferences) :
    outcome (list (Z * Z)) :=
  for_each (Z.to_nat (Refs.participantReferenceCount refs)) 0 (fun i participants =>
    p ← load (Refs.participantReferences refs) i;
    sourceParticipant ← load pool p;
    Ret (participants
         ++ [(Participant.id sourceParticipant, Participant.localIndex sourceParticipant)])) [].

Definition nimbleServerReqGameJoin self (transportConnection : nat) (inStream : FldInStream)
    (outStream : FldOutStream) : outcome (NimbleServer * FldInStream * FldOutStream * Z) :=
  let '(inStream, err, request) := nimbleSerializeServerInJoinGameRequest inStream in
  if err <? 0 then Ret (self, inStream, outStream, err)
  else
    '(localParties, participants, errorCode, out) ←
      nimbleServerReadAndJoinParticipants (Server.localParties self)
        (Game.participants (Server.game self)) (Server.transportConnections self)
        transportConnection request (expectedWriteId (Game.authoritativeSteps (Server.game self)));
    let self := Server.set_localParties localParties
      (Server.set_game (Game.set_participants participants (Server.game self)) self) in
    if errorCode <? 0 then
      let '(outStream, _) :=
        nimbleSerializeServerOutJoinGameOutOfParticipantSlotsResponse outStream (nonce request) in
      Ret (self, inStream, outStream, errorCode)
    else
      pointer ← initialized PartyOfRequest out;
      p ← deref pointer;
      party ← load (Parties.parties (Server.localParties self)) p;
      let party := Party.set_waitingForReconnectMaxTimer
        (maxWaitingForReconnectTicks (Server.setup self)) party in
      parties ← store (Parties.parties (Server.localParties self)) p party;
      let self := Server.set_localParties
        (Parties.set_parties parties (Server.localParties self)) self in
      connection ← load (Server.transportConnections self) transportConnection;
      connections ← store (Server.transportConnections self) transportConnection
        (Conn.set_assignedParty (Some p) connection);
      let self := Server.set_transportConnections connections self in
      participants ← response_of (Pool.participants (Game.participants (Server.game self)))
        (Party.participantReferences party);
      let '(outStream, _) :=
        nimbleSerializeServerOutJoinGameResponse outStream
          (mkJoinResponse (Party.id party) (Server.sessionSecret self) participants) in
      Ret (self, inStream, outStream, 0).

End JoinRequest.

(** ** What a join request keeps *)
Section JoinRequestRuns.
Context `{Clog} `{OrderedDatagram} `{!BlobStream} `{NimbleSteps} `{!NimbleSerialize} `{Stats}.
Context `{!NimbleStepsLaws} `{!NimbleSerializeLaws} `{!FldInLaws}.
Implicit Types (self : NimbleServer) (w : World) (parties : LocalParties)
  (pool : NimbleServerParticipants) (game : Game).

Abbreviation free_party := (list_find (fun party => Party.isUsed party = false)).

(** Creating a party, whatever the number of players. *)
Lemma runs_create_any npool nconn parties pool c players stepId count
    (Q : LocalParties * NimbleServerParticipants * Z * option (option nat) -> Prop) :
  checks_on -> parties_wf npool nconn parties -> pool_wf pool ->
  (forall code out, code < 0 -> Q (parties, pool, code, out)) ->
  (forall i party code out, code < 0 -> Parties.parties parties !! i = Some party ->
     (i < 64)%nat ->
     Q (Parties.set_parties (<[i := Party.set_id (Z.of_nat i) party]> (Parties.parties parties))
          parties, pool, code, out)) ->
  (forall i party player id rest p s,
     Parties.parties parties !! i = Some party -> Party.isUsed party = false -> (i < 64)%nat ->
     count = 1 -> players !! 0%nat = Some player ->
     contents (Pool.freeList pool) = Z.of_nat id :: rest ->
     Pool.participants pool !! id = Some p -> Participant.isUsed p = false -> (id < 64)%nat ->
     cbuf_wf s -> contents s = rest ->
     Q (with_new_party parties i (added (Party.set_id (Z.of_nat i) party) (Some c) id),
        Pool.mk _ (<[id := joined p id player i stepId]> (Pool.participants pool))
          (Pool.participantCapacity pool) (Pool.participantCount pool + 1) s,
        0, Some (Some i))) ->
  sat checked_halt (nimbleServerLocalPartiesCreate parties pool (Some c) players stepId count) Q.
Proof.
  intros Hon Hwf Hpool Hnone Hfull Hnew.
  pose proof (parties_count_range _ _ _ Hwf) as Hrange.
  destruct (Z.eq_dec count 1) as [->|Hne].
  - eapply runs_create; [done|done|intros; checked|].
    destruct (free_party (Parties.parties parties)) as [[i party]|] eqn:Hf; [|by apply Hnone].
    apply list_find_Some in Hf as (Hi & Hu & _). pose proof (lookup_lt_Some _ _ _ Hi).
    cbv zeta. destruct (_ =? _); [apply Hfull; [done|done|lia]|].
    intros player id rest p s Hp Hc Hid Hpu Hlt Hs Hrest. by eapply Hnew; [..|lia| | | | | | | |].
  - unfold nimbleServerLocalPartiesCreate. apply runs_bind.
    apply runs_find_free; [apply Hwf|apply Hwf|].
    destruct (free_party (Parties.parties parties)) as [[i party]|]; [|by apply Hnone].
    unfold nimbleServerParticipantsJoin. rewrite (proj2 (Z.eqb_neq _ _) Hne).
    apply runs_bind, runs_bind, checked_assert; [done|discriminate].
Qed.

Lemma session_after_id self i party : server_ok self -> (i < 64)%nat ->
  Parties.parties (Server.localParties self) !! i = Some party ->
  session_after self
    (Parties.set_parties (<[i := Party.set_id (Z.of_nat i) party]>
       (Parties.parties (Server.localParties self))) (Server.localParties self))
    (Game.participants (Server.game self)).
Proof.
  intros Hs Hlt Hi. pose proof (parties_wf_id _ _ _ i party (Z.of_nat i) ltac:(lia)
    (sv_parties _ Hs) Hi) as Hwf.
  split; [|exact Hwf|by simpl; rewrite length_insert].
  destruct (sv_session _ Hs) as [Hp Hpool Hok Hown Hsteps]. split; simpl; try done.
  - apply Hwf.
  - by rewrite length_insert.
  - by apply owned_id.
Qed.

Lemma session_after_new self i party c player id rest p s stepId :
  server_ok self -> (c < 64)%nat ->
  Parties.parties (Server.localParties self) !! i = Some party -> Party.isUsed party = false ->
  contents (Pool.freeList (Game.participants (Server.game self))) = Z.of_nat id :: rest ->
  pool_of (Server.game self) !! id = Some p -> Participant.isUsed p = false ->
  cbuf_wf s -> contents s = rest -> 0 <= stepId < 4294967296 ->
  let pool := Game.participants (Server.game self) in
  session_after self
    (with_new_party (Server.localParties self) i
       (added (Party.set_id (Z.of_nat i) party) (Some c) id))
    (Pool.mk _ (<[id := joined p id player i stepId]> (Pool.participants pool))
       (Pool.participantCapacity pool) (Pool.participantCount pool + 1) s).
Proof.
  intros Hs Hc Hi Hu Hcont Hp Hpu Hcb Hrest Hid pool.
  destruct (sv_session _ Hs) as [Hparties Hpool Hok Hown Hsteps].
  pose proof (Forall_lookup_1 _ _ _ _ Hok Hp) as Hpok. pose proof (lookup_lt_Some _ _ _ Hi).
  destruct (new_party_invariants _ 64 (Server.localParties self) pool i party (Some c) id p
    (joined p id player i stepId) (sv_parties _ Hs) Hpool Hok Hown eq_refl)
    as (Hwf & Hok' & Hown' & Hl & Hlen); try done; [by intros ? [= <-]|by apply participant_ok_reused|].
  split; [|by simpl; rewrite Hl|done]. split; simpl.
  - rewrite Hl. apply Hwf.
  - by eapply pool_wf_taken.
  - exact Hok'.
  - exact Hown'.
  - done.
Qed.

Lemma rejoin_like npool party c : (c < 64)%nat ->
  party_like npool 64 party (nimbleServerLocalPartyRejoin party (Some c)).
Proof.
  intros Hc. split; [done|]. split; [done|]. intros [Hid [Hr Ht Hm Hd] Hs Hconn].
  split; simpl; try done. by intros ? [= <-].
Qed.

Lemma rejoin_lives party c : party_lives party (nimbleServerLocalPartyRejoin party c).
Proof. by intros Hu; split. Qed.

Lemma session_after_rejoin self p party c : server_ok self -> (c < 64)%nat ->
  Parties.parties (Server.localParties self) !! p = Some party ->
  session_after self
    (Parties.set_parties (<[p := nimbleServerLocalPartyRejoin party (Some c)]>
       (Parties.parties (Server.localParties self))) (Server.localParties self))
    (Game.participants (Server.game self)).
Proof.
  intros Hs Hc Hp.
  pose proof (session_step_party _ _ _ _ _ _ (sv_session _ Hs) Hp
    (rejoin_like (length (pool_of (Server.game self))) party c Hc) (rejoin_lives party (Some c)))
    as [Hok Hpool Hlike _ _].
  split; simpl; [by destruct Hok| |by rewrite length_insert].
  apply parties_wf_like; [apply Hs|done].
Qed.

(** What [joinLocalParty] leaves: a consistent session in which all parties live
    on, and on success the position of a party, unless the number of players was
    wrong. *)
Definition join_result self
    (r : LocalParties * NimbleServerParticipants * Z * option (option nat)) : Prop :=
  let '(parties, pool, code, out) := r in
  session_after self parties pool /\
  parties_live (Parties.parties (Server.localParties self)) (Parties.parties parties) /\
  (0 <= code -> forall o, out = Some o ->
     exists p, o = Some p /\ (p < length (Parties.parties parties))%nat).

Lemma runs_join_local_party self c request stepId :
  checks_on -> server_ok self -> (c < 64)%nat -> 0 <= stepId < 4294967296 ->
  0 <= request_partyId request ->
  sat checked_halt
    (joinLocalParty (Server.localParties self) (Game.participants (Server.game self))
       (Server.transportConnections self) c request stepId)
    (join_result self).
Proof.
  intros Hon Hs Hc Hid Hpid. unfold joinLocalParty.
  destruct (server_conn_lookup self c Hs Hc) as (conn & Hl & _). run.
  eapply runs_mono.
  { eapply (runs_find_for_transport (length (pool_of (Server.game self)))).
    rewrite (sv_connections _ Hs). apply Hs. }
  intros [p|]; cbv zeta.
  { intros (_ & party & Hp & _). split; [by apply session_after_same|]. split; [done|].
    intros _ o [= <-]. exists p. split; [done|]. by eapply lookup_lt_Some. }
  intros _. destruct (joinGameType request).
  - apply runs_bind. apply (runs_create_any (length (pool_of (Server.game self))) 64); try done.
    + apply Hs.
    + apply (sv_session _ Hs).
    + intros code out Hneg. rewrite (proj2 (Z.ltb_lt _ _) Hneg).
      split; [by apply session_after_same|]. split; [done|lia].
    + intros i party code out Hneg Hi Hlt. rewrite (proj2 (Z.ltb_lt _ _) Hneg).
      split; [by apply session_after_id|]. split; [|lia]. by eapply parties_live_insert.
    + intros i party player id rest p s Hi Hu _ _ _ Hcont Hp Hpu _ Hcb Hrest.
      split; [by eapply session_after_new|].
      split; [eapply parties_live_insert; [done|by intros Hused; congruence]|].
      intros _ o [= <-]. exists i. split; [done|].
      simpl. rewrite length_insert. by eapply lookup_lt_Some.
  - unfold nimbleServerLocalPartiesFindParty. apply runs_bind, checked_error; [done|].
    intros Hcap. apply Z.leb_gt in Hcap. simpl.
    pose proof (parties_length _ _ _ (sv_parties _ Hs)).
    destruct (lookup_lt_is_Some_2 (Parties.parties (Server.localParties self))
      (Z.to_nat (request_partyId request))) as [party Hp]; [lia|].
    run. destruct (negb _).
    + split; [by apply session_after_same|done].
    + run. split; [by apply session_after_rejoin|].
      split; [by eapply parties_live_insert, rejoin_lives|]. intros _ o [= <-].
      eexists. split; [done|]. simpl. rewrite length_insert. by eapply lookup_lt_Some.
Qed.

Lemma runs_response_of {E} (pool : list NimbleServerParticipant) refs :
  refs_ok (length pool) refs ->
  sat E (response_of pool refs) (fun participants =>
    participants = (fun p => (Participant.id p, Participant.localIndex p)) <$>
                   omap (pool !!.) (referenced refs)).
Proof.
  intros Hrefs. unfold response_of. apply runs_collect; [done|].
  intros i p participant l _ Hr Hp. by run.
Qed.

Lemma max_timer_like npool party n : 0 <= n < 18446744073709551616 ->
  party_like npool 64 party (Party.set_waitingForReconnectMaxTimer n party).
Proof.
  intros Hn. split; [done|]. split; [done|]. intros [Hid [Hr Ht Hm Hd] Hs Hconn].
  by split; simpl.
Qed.

Lemma assigned_ok n conn p : (p < n)%nat ->
  conn_ok n conn -> conn_ok n (Conn.set_assignedParty (Some p) conn).
Proof. intros Hp [Hid _ Hg]. split; simpl; [done|by intros ? [= <-]|done]. Qed.

(** The server once the party at [p] answers for the connection at [c]. *)
Definition seated self parties pool (c : nat) (conn : TransportConnection) (p : nat)
    (party : NimbleServerLocalParty) : NimbleServer :=
  Server.set_transportConnections
    (<[c := Conn.set_assignedParty (Some p) conn]> (Server.transportConnections self))
    (Server.set_localParties
       (Parties.set_parties
          (<[p := Party.set_waitingForReconnectMaxTimer
                    (maxWaitingForReconnectTicks (Server.setup self)) party]>
             (Parties.parties parties)) parties)
       (Server.set_game (Game.set_participants pool (Server.game self)) self)).

Lemma seated_step self w parties pool c conn p party :
  server_ok self -> session_after self parties pool ->
  Server.transportConnections self !! c = Some conn -> Parties.parties parties !! p = Some party ->
  server_step (Server.set_localParties parties
      (Server.set_game (Game.set_participants pool (Server.game self)) self)) w
    (seated self parties pool c conn p party) w.
Proof.
  intros Hs Hjs Hc Hp. pose proof (session_after_ok _ _ _ Hs Hjs) as Hs1.
  destruct Hjs as [Hses Hwf Hlen].
  pose proof (session_step_party 64 (Parties.parties parties)
    (Game.set_participants pool (Server.game self)) p party
    (Party.set_waitingForReconnectMaxTimer (maxWaitingForReconnectTicks (Server.setup self)) party)
    Hses Hp (max_timer_like _ _ _ (sv_ticks _ Hs)) (fun Hu => conj Hu (conj eq_refl (fun Hn => Hn)))) as Hmax.
  pose proof (server_session_step _ w _ _ Hs1 Hmax) as Hstep2.
  pose proof (Forall_lookup_1 _ _ _ _ (sv_each _ Hs) Hc) as Hconn.
  assert (Hnew : conn_ok (length (Parties.parties parties)) (Conn.set_assignedParty (Some p) conn)).
  { apply assigned_ok; [by eapply lookup_lt_Some|]. by rewrite Hlen. }
  rewrite <- (parties_like_length _ _ _ _ (st_parties _ _ _ _ _ Hmax)) in Hnew.
  eapply server_step_trans; [exact Hstep2|].
  apply (server_conn_insert _ w c (Conn.set_assignedParty (Some p) conn)
    (ss_ok _ _ _ _ Hstep2) Hnew).
Qed.

Lemma seated_ok self w parties pool c conn p party :
  server_ok self -> session_after self parties pool ->
  parties_live (Parties.parties (Server.localParties self)) (Parties.parties parties) ->
  Server.transportConnections self !! c = Some conn -> Parties.parties parties !! p = Some party ->
  server_step self w (seated self parties pool c conn p party) w.
Proof.
  intros Hs Hjs Hlive Hc Hp.
  eapply server_step_trans; [|by apply (seated_step self w parties pool c conn p party)].
  destruct Hjs as [Hses Hwf Hlen]. split; [by apply server_parties_change|done].
Qed.

Lemma seated_server_ok self parties pool c conn p party :
  server_ok self -> session_after self parties pool ->
  Server.transportConnections self !! c = Some conn -> Parties.parties parties !! p = Some party ->
  server_ok (seated self parties pool c conn p party).
Proof.
  intros Hs Hjs Hc Hp. set (w := mkWorld 0 0 0 [] []).
  by apply (ss_ok _ w _ w (seated_step self w parties pool c conn p party Hs Hjs Hc Hp)).
Qed.

Lemma runs_req_join self w c inStream outStream :
  checks_on -> server_ok self -> (c < 64)%nat ->
  sat checked_halt (nimbleServerReqGameJoin self c inStream outStream)
    (fun '(self', s, _, _) => server_step self w self' w /\ forward inStream s).
Proof.
  intros Hon Hs Hc. unfold nimbleServerReqGameJoin.
  pose proof (join_request_forward inStream) as Hf.
  pose proof (join_request_party_id inStream) as Hid.
  destruct (nimbleSerializeServerInJoinGameRequest inStream) as [[s err] request].
  simpl in Hf, Hid. destruct (err <? 0); [by split; [apply server_step_refl|]|].
  pose proof (steps_write_id_range _ (so_steps _ _ _ (sv_session _ Hs))) as Hw.
  apply runs_bind. unfold nimbleServerReadAndJoinParticipants.
  eapply runs_bind_mono; [apply runs_join_local_party; [done..|lia]|].
  intros [[[parties pool] code] out] ([Hses Hwf Hlen] & Hlive & Hout).
  destruct (Z.ltb_spec code 0) as [Hneg|Hpos]; simpl.
  { rewrite (proj2 (Z.ltb_lt _ _) Hneg).
    destruct (nimbleSerializeServerOutJoinGameOutOfParticipantSlotsResponse _ _).
    split; [split; [by apply server_parties_change|done]|done]. }
  destruct out as [o|]; simpl; [|checked].
  destruct (Hout Hpos o eq_refl) as (p & -> & Hp). simpl.
  destruct (lookup_lt_is_Some_2 _ _ Hp) as [party Hparty]. run.
  destruct (server_conn_lookup self c Hs Hc) as (conn & Hl & _). run.
  eapply runs_mono; [apply runs_response_of|].
  { apply (party_refs _ _ (party_valid _ _ _ (session_party _ _ _ _ _ Hses Hparty))). }
  intros participants _. destruct (nimbleSerializeServerOutJoinGameResponse _ _).
  split; [|done]. by apply (seated_ok self w parties pool c conn p party).
Qed.

End JoinRequestRuns.

(** ** The answer to a join request *)
Section JoinRequestAnswer.
Context `{Clog} `{OrderedDatagram} `{!BlobStream} `{NimbleSteps} `{!NimbleSerialize} `{Stats}.
Context `{!NimbleStepsLaws} `{!NimbleSerializeLaws}.
Implicit Types (self : NimbleServer) (parties : LocalParties) (pool : NimbleServerParticipants).

Abbreviation free_party := (list_find (fun party => Party.isUsed party = false)).

(** What the party and its participants are told. *)
Definition join_reply self pool (party : NimbleServerLocalParty) : NimbleSerializeJoinGameResponse :=
  mkJoinResponse (Party.id party) (Server.sessionSecret self)
    ((fun p => (Participant.id p, Participant.localIndex p)) <$>
     omap (Pool.participants pool !!.) (referenced (Party.participantReferences party))).

Lemma runs_join_seated {E} self c inStream outStream s err request parties pool conn p party
    (Q : NimbleServer * FldInStream * FldOutStream * Z -> Prop) :
  nimbleSerializeServerInJoinGameRequest inStream = (s, err, request) -> 0 <= err ->
  joinLocalParty (Server.localParties self) (Game.participants (Server.game self))
    (Server.transportConnections self) c request
    (expectedWriteId (Game.authoritativeSteps (Server.game self)))
  = Ret (parties, pool, 0, Some (Some p)) ->
  Server.transportConnections self !! c = Some conn ->
  Parties.parties parties !! p = Some party ->
  refs_ok (length (Pool.participants pool)) (Party.participantReferences party) ->
  Q (seated self parties pool c conn p party, s,
     (nimbleSerializeServerOutJoinGameResponse outStream (join_reply self pool party)).1, 0) ->
  sat E (nimbleServerReqGameJoin self c inStream outStream) Q.
Proof.
  intros Hread Herr Hjoin Hc Hp Hrefs HQ. unfold nimbleServerReqGameJoin. rewrite Hread.
  rewrite (proj2 (Z.ltb_ge _ _) Herr). unfold nimbleServerReadAndJoinParticipants.
  rewrite Hjoin. simpl. run. eapply runs_mono; [by apply runs_response_of|].
  intros participants ->. unfold join_reply in HQ.
  by destruct (nimbleSerializeServerOutJoinGameResponse _ _).
Qed.

Lemma runs_join_refused {E} self c inStream outStream s err request parties pool code out
    (Q : NimbleServer * FldInStream * FldOutStream * Z -> Prop) :
  nimbleSerializeServerInJoinGameRequest inStream = (s, err, request) -> 0 <= err ->
  joinLocalParty (Server.localParties self) (Game.participants (Server.game self))
    (Server.transportConnections self) c request
    (expectedWriteId (Game.authoritativeSteps (Server.game self)))
  = Ret (parties, pool, code, out) -> code < 0 ->
  Q (Server.set_localParties parties
       (Server.set_game (Game.set_participants pool (Server.game self)) self), s,
     (nimbleSerializeServerOutJoinGameOutOfParticipantSlotsResponse outStream (nonce request)).1,
     code) ->
  sat E (nimbleServerReqGameJoin self c inStream outStream) Q.
Proof.
  intros Hread Herr Hjoin Hcode HQ. unfold nimbleServerReqGameJoin. rewrite Hread.
  rewrite (proj2 (Z.ltb_ge _ _) Herr). unfold nimbleServerReadAndJoinParticipants.
  rewrite Hjoin. simpl. rewrite (proj2 (Z.ltb_lt _ _) Hcode). simpl.
  rewrite (proj2 (Z.ltb_lt _ _) Hcode).
  by destruct (nimbleSerializeServerOutJoinGameOutOfParticipantSlotsResponse _ _).
Qed.

(** The result of [Create] for one player. *)
Definition create_result parties pool (c : nat) (player : NimbleSerializeJoinGameRequestPlayer)
    (stepId : Z) (r : LocalParties * NimbleServerParticipants * Z * option (option nat)) : Prop :=
  match free_party (Parties.parties parties) with
  | None => r = (parties, pool, NimbleServerErrOutOfParticipantMemory, None)
  | Some (i, party) =>
      let party := Party.set_id (Z.of_nat i) party in
      if Pool.participantCount pool =? Pool.participantCapacity pool
      then r = (Parties.set_parties (<[i := party]> (Parties.parties parties)) parties, pool,
                NimbleServerErrSessionFull, Some None)
      else exists id rest p free,
        contents (Pool.freeList pool) = Z.of_nat id :: rest /\
        Pool.participants pool !! id = Some p /\ Participant.isUsed p = false /\
        cbuf_wf free /\ contents free = rest /\
        r = (with_new_party parties i (added party (Some c) id),
             Pool.mk _ (<[id := joined p id player i stepId]> (Pool.participants pool))
               (Pool.participantCapacity pool) (Pool.participantCount pool + 1) free,
             0, Some (Some i))
  end.

Lemma runs_create_exactly npool nconn parties pool c players player stepId :
  parties_wf npool nconn parties -> pool_wf pool -> players !! 0%nat = Some player ->
  runs (nimbleServerLocalPartiesCreate parties pool (Some c) players stepId 1)
    (create_result parties pool c player stepId).
Proof.
  intros Hwf Hpool Hplayer. eapply runs_create; [done|done|by rewrite Hplayer|].
  unfold create_result. destruct (free_party _) as [[i party]|]; [|done].
  cbv zeta. destruct (_ =? _); [done|]. intros player' id rest p free Hplayer'.
  rewrite Hplayer in Hplayer'. injection Hplayer' as <-. eauto 20.
Qed.

(** The whole answer for one new player. *)
Definition join_post self (c : nat) (conn : TransportConnection) (s : FldInStream)
    (outStream : FldOutStream) (request : NimbleSerializeJoinGameRequest)
    (player : NimbleSerializeJoinGameRequestPlayer)
    (r : NimbleServer * FldInStream * FldOutStream * Z) : Prop :=
  let '(self', s', out, code) := r in
  let parties := Server.localParties self in
  let pool := Game.participants (Server.game self) in
  let stepId := expectedWriteId (Game.authoritativeSteps (Server.game self)) in
  let refusal := (nimbleSerializeServerOutJoinGameOutOfParticipantSlotsResponse outStream
                    (nonce request)).1 in
  s' = s /\ server_ok self' /\
  exists found,
  nimbleServerLocalPartiesFindPartyForTransport parties (Server.transportConnections self)
    (Conn.transportConnectionId conn) = Ret found /\
  match found, free_party (Parties.parties parties) with
  | Some p, _ => exists party, Parties.parties parties !! p = Some party /\
      self' = seated self parties pool c conn p party /\
      out = (nimbleSerializeServerOutJoinGameResponse outStream (join_reply self pool party)).1 /\
      code = 0
  | None, None => Server.localParties self' = parties /\ Game.participants (Server.game self') = pool /\
      out = refusal /\ code = NimbleServerErrOutOfParticipantMemory
  | None, Some (i, party) =>
      let party := Party.set_id (Z.of_nat i) party in
      if Pool.participantCount pool =? Pool.participantCapacity pool
      then Parties.parties (Server.localParties self') = <[i := party]> (Parties.parties parties) /\
           Game.participants (Server.game self') = pool /\ out = refusal /\
           code = NimbleServerErrSessionFull
      else exists id p pool',
        let party := added party (Some c) id in
        Pool.participants pool !! id = Some p /\ Participant.isUsed p = false /\
        Pool.participants pool' = <[id := joined p id player i stepId]> (Pool.participants pool) /\
        self' = seated self (with_new_party parties i party) pool' c conn i party /\
        out = (nimbleSerializeServerOutJoinGameResponse outStream
                 (mkJoinResponse (Z.of_nat i) (Server.sessionSecret self)
                    [(Z.of_nat id, player_localIndex player)])).1 /\
        code = 0
  end.

(** A client that gives no secret keeps the party its connection plays in, and
    makes a new one when there is none. *)
Lemma join_without_secret parties pool connections c conn request found stepId :
  connections !! c = Some conn ->
  nimbleServerLocalPartiesFindPartyForTransport parties connections
    (Conn.transportConnectionId conn) = Ret found ->
  joinGameType request = NimbleSerializeJoinGameTypeNoSecret -> playerCount request = 1 ->
  joinLocalParty parties pool connections c request stepId
  = match found with
    | Some p => Ret (parties, pool, 0, Some (Some p))
    | None =>
      '(parties, pool, code, out) ←
        nimbleServerLocalPartiesCreate parties pool (Some c) (players request) stepId 1;
      if code <? 0 then Ret (parties, pool, code, Some None) else Ret (parties, pool, 0, out)
    end.
Proof.
  intros Hc Hfound Htype Hcount. unfold joinLocalParty, load. rewrite Hc. simpl.
  rewrite Hfound. simpl. by rewrite Htype, Hcount.
Qed.

(** What is replied about a party that was just made for one player. *)
Lemma join_reply_added self pool party c id p player i stepId :
  (0 < length (Refs.participantReferences (Party.participantReferences party)))%nat ->
  Pool.participants pool !! id = Some (joined p id player i stepId) ->
  join_reply self pool (added party c id)
  = mkJoinResponse (Party.id party) (Server.sessionSecret self)
      [(Z.of_nat id, player_localIndex player)].
Proof.
  intros Hlen Hp. unfold join_reply. rewrite referenced_added by done. simpl. by rewrite Hp.
Qed.

Section JoinCases.
Context (self : NimbleServer) (c : nat) (conn : TransportConnection)
  (inStream s : FldInStream) (outStream : FldOutStream) (err : Z)
  (request : NimbleSerializeJoinGameRequest) (player : NimbleSerializeJoinGameRequestPlayer).
Hypotheses (Hs : server_ok self) (Hc : Server.transportConnections self !! c = Some conn)
  (Hread : nimbleSerializeServerInJoinGameRequest inStream = (s, err, request)) (Herr : 0 <= err).
Notation parties := (Server.localParties self).
Notation pool := (Game.participants (Server.game self)).
Notation stepId := (expectedWriteId (Game.authoritativeSteps (Server.game self))).
Notation find_result found :=
  (nimbleServerLocalPartiesFindPartyForTransport parties (Server.transportConnections self)
     (Conn.transportConnectionId conn) = Ret found).
Notation join_result r :=
  (joinLocalParty parties pool (Server.transportConnections self) c request stepId = Ret r).
Notation answers :=
  (runs (nimbleServerReqGameJoin self c inStream outStream)
     (join_post self c conn s outStream request player)).

(** The connection plays already. *)
Lemma runs_join_playing p party :
  find_result (Some p) -> Parties.parties parties !! p = Some party ->
  join_result (parties, pool, 0, Some (Some p)) -> answers.
Proof.
  intros Hfound Hp Hjoin. eapply runs_join_seated; [exact Hread|exact Herr|exact Hjoin|done..| |].
  { apply (party_refs _ _ (party_valid _ _ _ (session_party _ _ _ _ _ (sv_session _ Hs) Hp))). }
  split; [done|]. split.
  { by apply seated_server_ok; [|apply session_after_same|..]. }
  exists (Some p). split; [done|]. by exists party.
Qed.

(** No party is free. *)
Lemma runs_join_no_party :
  find_result None -> free_party (Parties.parties parties) = None ->
  join_result (parties, pool, NimbleServerErrOutOfParticipantMemory, Some None) -> answers.
Proof.
  intros Hfound Hfree Hjoin.
  eapply runs_join_refused; [exact Hread|exact Herr|exact Hjoin|done|].
  split; [done|]. split; [by apply session_after_ok, session_after_same|].
  exists None. rewrite Hfree. done.
Qed.

(** No participant is free. *)
Lemma runs_join_full i party :
  find_result None -> free_party (Parties.parties parties) = Some (i, party) ->
  (Pool.participantCount pool =? Pool.participantCapacity pool) = true ->
  join_result (Parties.set_parties
      (<[i := Party.set_id (Z.of_nat i) party]> (Parties.parties parties)) parties,
    pool, NimbleServerErrSessionFull, Some None) -> answers.
Proof.
  intros Hfound Hfree Hfull Hjoin.
  eapply runs_join_refused; [exact Hread|exact Herr|exact Hjoin|done|].
  apply list_find_Some in Hfree as Hf. destruct Hf as (Hi & _ & _).
  pose proof (parties_count_range _ _ _ (sv_parties _ Hs)). pose proof (lookup_lt_Some _ _ _ Hi).
  split; [done|]. split; [by apply session_after_ok, session_after_id; [..|lia|]|].
  exists None. rewrite Hfree, Hfull. done.
Qed.

(** A party and a participant are made. *)
Lemma runs_join_new i party id rest p free :
  let party' := Party.set_id (Z.of_nat i) party in
  find_result None -> free_party (Parties.parties parties) = Some (i, party) ->
  (Pool.participantCount pool =? Pool.participantCapacity pool) = false ->
  contents (Pool.freeList pool) = Z.of_nat id :: rest ->
  Pool.participants pool !! id = Some p -> Participant.isUsed p = false ->
  cbuf_wf free -> contents free = rest ->
  join_result (with_new_party parties i (added party' (Some c) id),
    Pool.mk _
      (<[id := joined p id player i stepId]> (Pool.participants pool))
      (Pool.participantCapacity pool) (Pool.participantCount pool + 1) free,
    0, Some (Some i)) -> answers.
Proof.
  intros party' Hfound Hfree Hroom Hcont Hp Hu Hcb Hrest Hjoin.
  apply list_find_Some in Hfree as Hf. destruct Hf as (Hi & Hpu & _).
  pose proof (steps_write_id_range _ (so_steps _ _ _ (sv_session _ Hs))) as Hw.
  assert (Hlt : (c < 64)%nat).
  { rewrite <- (sv_connections _ Hs). by eapply lookup_lt_Some. }
  pose proof (session_after_new self i party c player id rest p free stepId Hs Hlt Hi Hpu
    Hcont Hp Hu Hcb Hrest Hw) as Hjs. pose proof (sa_session _ _ _ Hjs) as Hses.
  assert (Hnew : Parties.parties (with_new_party parties i (added party' (Some c) id)) !! i
    = Some (added party' (Some c) id)).
  { simpl. apply list_lookup_insert_eq. by eapply lookup_lt_Some. }
  eapply runs_join_seated; [exact Hread|exact Herr|exact Hjoin|exact Hc|exact Hnew| |].
  { apply (party_refs _ _ (party_valid _ _ _ (session_party _ _ _ _ _ Hses Hnew))). }
  split; [done|]. split; [by apply seated_server_ok|].
  exists None. rewrite Hfree, Hroom. split; [done|].
  exists id, p. eexists (Pool.mk _ _ _ _ _). do 2 (split; [done|]).
  split; [reflexivity|]. split; [reflexivity|]. split; [|done].
  erewrite join_reply_added; [done| |].
  - pose proof (party_slots _ _ _ (session_party _ _ _ _ _ (sv_session _ Hs) Hi)).
    pose proof max_local_players. simpl. lia.
  - simpl. by rewrite list_lookup_insert_eq by (by eapply lookup_lt_Some).
Qed.

Lemma runs_join_cases :
  joinGameType request = NimbleSerializeJoinGameTypeNoSecret ->
  playerCount request = 1 -> players request !! 0%nat = Some player -> answers.
Proof.
  intros Htype Hcount Hplayer.
  assert (Hpwf : parties_wf (length (pool_of (Server.game self)))
    (length (Server.transportConnections self)) parties).
  { rewrite (sv_connections _ Hs). apply Hs. }
  destruct (runs_inv _ _ (runs_find_for_transport (E := fun _ => False) _ _ _
    (Conn.transportConnectionId conn) Hpwf)) as (found & Hfound & Hspec).
  pose proof (join_without_secret _ pool _ _ _ _ _ stepId Hc Hfound Htype Hcount) as Hjoin.
  destruct found as [p|].
  { destruct Hspec as (_ & party & Hp & _). by eapply runs_join_playing. }
  destruct (runs_inv _ _ (runs_create_exactly _ 64 parties _ c (players request) player stepId
    (sv_parties _ Hs) (so_pool _ _ _ (sv_session _ Hs)) Hplayer)) as (r & Hcreate & Hr).
  rewrite Hcreate in Hjoin. unfold create_result in Hr.
  destruct (free_party (Parties.parties parties)) as [[i party]|] eqn:Hfree.
  2:{ subst r. by apply runs_join_no_party. }
  destruct (_ =? _) eqn:Hfull.
  { subst r. by eapply runs_join_full. }
  destruct Hr as (id & rest & p & free & Hcont & Hp & Hu & Hcb & Hrest & ->).
  by eapply runs_join_new.
Qed.
End JoinCases.

(** A party is the one that is found for a connection. *)
Definition first_playing parties (connections : list TransportConnection) (id : Z) (p : nat)
    (party : NimbleServerLocalParty) : Prop :=
  Z.of_nat p < Parties.partiesCount parties /\ Parties.parties parties !! p = Some party /\
  plays connections party id = true /\
  forall j party', (j < p)%nat -> Parties.parties parties !! j = Some party' ->
    plays connections party' id = false.

Lemma plays_assigned connections c conn p party id :
  connections !! c = Some conn ->
  plays (<[c := Conn.set_assignedParty p conn]> connections) party id
  = plays connections party id.
Proof.
  intros Hc. unfold plays. f_equal. destruct (Party.transportConnection party) as [k|]; [|done].
  simpl. destruct (decide (c = k)) as [<-|Hne].
  - by rewrite list_lookup_insert_eq, Hc by (by eapply lookup_lt_Some).
  - by rewrite list_lookup_insert_ne.
Qed.

(** The party that was seated is found again, and seating it changes nothing. *)
Lemma seated_first self parties pool c conn p party :
  Server.transportConnections self !! c = Some conn ->
  first_playing parties (Server.transportConnections self) (Conn.transportConnectionId conn)
    p party ->
  let self' := seated self parties pool c conn p party in
  first_playing (Server.localParties self') (Server.transportConnections self')
    (Conn.transportConnectionId conn) p
    (Party.set_waitingForReconnectMaxTimer
       (maxWaitingForReconnectTicks (Server.setup self)) party).
Proof.
  intros Hc (Hlt & Hp & Hplays & Hfirst) self'. split; [done|]. split.
  { simpl. apply list_lookup_insert_eq. by eapply lookup_lt_Some. }
  split.
  { simpl. rewrite plays_assigned by done. exact Hplays. }
  intros j party' Hj. simpl. rewrite list_lookup_insert_ne by lia. intros Hp'.
  rewrite plays_assigned by done. by eapply Hfirst.
Qed.

Lemma seated_again self parties pool c conn p party :
  Server.transportConnections self !! c = Some conn ->
  Parties.parties parties !! p = Some party ->
  let self' := seated self parties pool c conn p party in
  seated self' (Server.localParties self') (Game.participants (Server.game self')) c
    (Conn.set_assignedParty (Some p) conn) p
    (Party.set_waitingForReconnectMaxTimer
       (maxWaitingForReconnectTicks (Server.setup self)) party)
  = self'.
Proof.
  intros Hc Hp self'. unfold self', seated. destruct self, parties, pool. simpl.
  rewrite !list_insert_insert_eq. done.
Qed.

(** So is the party that was just created. *)
Lemma new_party_first npool parties connections c conn i party id :
  parties_wf npool 64 parties -> connections !! c = Some conn ->
  free_party (Parties.parties parties) = Some (i, party) ->
  (forall j party', (j < Z.to_nat (Parties.partiesCount parties))%nat ->
     Parties.parties parties !! j = Some party' ->
     plays connections party' (Conn.transportConnectionId conn) = false) ->
  let party := added (Party.set_id (Z.of_nat i) party) (Some c) id in
  first_playing (with_new_party parties i party) connections (Conn.transportConnectionId conn)
    i party.
Proof.
  intros Hwf Hc (Hi & Hu & Hused)%list_find_Some Hnone party'.
  assert (Hcount : Z.of_nat i <= Parties.partiesCount parties).
  { rewrite (parties_count _ _ _ Hwf). apply count_if_prefix.
    - apply lookup_lt_Some in Hi. lia.
    - intros j q Hj Hq. by destruct (Party.isUsed q) eqn:Hqu; [|destruct (Hused j q Hq Hj)]. }
  split; [simpl; lia|]. split; [simpl; by apply list_lookup_insert_eq; eapply lookup_lt_Some|].
  split.
  - unfold plays. simpl. rewrite Hc. by apply Z.eqb_eq.
  - intros j q Hj. simpl. rewrite list_lookup_insert_ne by lia. apply Hnone. lia.
Qed.

(** What a successful join leaves. *)
Lemma join_post_seated self c conn s outStream request player r :
  server_ok self -> Server.transportConnections self !! c = Some conn ->
  join_post self c conn s outStream request player r -> 0 <= r.2 ->
  exists parties pool p party, r.1.1.1 = seated self parties pool c conn p party /\
    first_playing parties (Server.transportConnections self) (Conn.transportConnectionId conn)
      p party.
Proof.
  intros Hs Hc. destruct r as [[[self' s'] out] code]. simpl.
  intros (_ & _ & found & Hfound & Hr) Hcode.
  assert (Hpwf : parties_wf (length (pool_of (Server.game self)))
    (length (Server.transportConnections self)) (Server.localParties self)).
  { rewrite (sv_connections _ Hs). apply Hs. }
  pose proof (runs_find_for_transport (E := fun _ => False) _ _ _
    (Conn.transportConnectionId conn) Hpwf) as Hspec.
  rewrite Hfound in Hspec. cbv zeta in Hspec. simpl in Hspec. destruct found as [p|].
  - destruct Hr as (party & Hp & -> & _). destruct Hspec as (Hlt & q & Hq & Hplays & Hfirst).
    rewrite Hp in Hq. injection Hq as <-. do 4 eexists. split; [done|].
    split; [lia|]. by split.
  - destruct (free_party _) as [[i party]|] eqn:Hfree; [|by destruct Hr as (_ & _ & _ & ->)].
    cbv zeta in Hr. destruct (_ =? _); [by destruct Hr as (_ & _ & _ & ->)|].
    destruct Hr as (id & p & pool' & _ & _ & _ & -> & _). do 4 eexists. split; [done|].
    eapply new_party_first; [apply Hs|done..].
Qed.

(** A client that already has a party gets it again, whatever it asks for. *)
Lemma runs_join_existing self c conn inStream outStream s err request p party :
  server_ok self -> Server.transportConnections self !! c = Some conn ->
  nimbleSerializeServerInJoinGameRequest inStream = (s, err, request) -> 0 <= err ->
  first_playing (Server.localParties self) (Server.transportConnections self)
    (Conn.transportConnectionId conn) p party ->
  runs (nimbleServerReqGameJoin self c inStream outStream) (fun r =>
    r = (seated self (Server.localParties self) (Game.participants (Server.game self)) c conn
           p party, s,
         (nimbleSerializeServerOutJoinGameResponse outStream
            (join_reply self (Game.participants (Server.game self)) party)).1, 0)).
Proof.
  intros Hs Hc Hread Herr (Hlt & Hp & Hplays & Hfirst).
  assert (Hfound : nimbleServerLocalPartiesFindPartyForTransport (Server.localParties self)
    (Server.transportConnections self) (Conn.transportConnectionId conn) = Ret (Some p)).
  { apply (find_first (length (pool_of (Server.game self))) _ _ _ p party); try done.
    rewrite (sv_connections _ Hs). apply Hs. }
  eapply runs_join_seated; [exact Hread|exact Herr| |exact Hc|exact Hp| |done].
  - unfold joinLocalParty, load. rewrite Hc. simpl. by rewrite Hfound.
  - apply (party_refs _ _ (party_valid _ _ _ (session_party _ _ _ _ _ (sv_session _ Hs) Hp))).
Qed.

(** Nobody plays over the connection: no party is found for it. *)
Lemma find_nobody npool parties connections id :
  parties_wf npool (length connections) parties ->
  (forall p party, Parties.parties parties !! p = Some party ->
     plays connections party id = false) ->
  nimbleServerLocalPartiesFindPartyForTransport parties connections id = Ret None.
Proof.
  intros Hwf Hnone.
  destruct (runs_inv _ _ (runs_find_for_transport (E := fun _ => False) _ _ _ id Hwf))
    as ([i|] & -> & Hr); [|done].
  destruct Hr as (_ & party & Hi & Hplays & _). by rewrite (Hnone i party Hi) in Hplays.
Qed.

(** Joining the party that the request names. *)
Lemma join_named_party self c conn request p party stepId :
  server_ok self -> Server.transportConnections self !! c = Some conn ->
  (forall q other, Parties.parties (Server.localParties self) !! q = Some other ->
     plays (Server.transportConnections self) other (Conn.transportConnectionId conn) = false) ->
  joinGameType request = NimbleSerializeJoinGameTypePartySecret ->
  request_partyId request = Z.of_nat p ->
  Parties.parties (Server.localParties self) !! p = Some party ->
  playerCount request = Refs.participantReferenceCount (Party.participantReferences party) ->
  joinLocalParty (Server.localParties self) (Game.participants (Server.game self))
    (Server.transportConnections self) c request stepId
  = Ret (Parties.set_parties (<[p := nimbleServerLocalPartyRejoin party (Some c)]>
           (Parties.parties (Server.localParties self))) (Server.localParties self),
         Game.participants (Server.game self), 0, Some (Some p)).
Proof.
  intros Hs Hc Hnone Htype Hpid Hp Hcount. unfold joinLocalParty, load. rewrite Hc. simpl.
  rewrite (find_nobody (length (pool_of (Server.game self)))); [|rewrite (sv_connections _ Hs); apply Hs|done].
  simpl. rewrite Htype, Hpid. unfold nimbleServerLocalPartiesFindParty.
  pose proof (parties_length _ _ _ (sv_parties _ Hs)). pose proof (lookup_lt_Some _ _ _ Hp).
  rewrite (proj2 (Z.leb_gt _ _)) by lia. simpl. rewrite Nat2Z.id, Hp. simpl.
  rewrite Hcount, Z.eqb_refl. simpl. unfold store. by rewrite Hp.
Qed.

Lemma join_mismatch self c conn request stepId :
  server_ok self -> Server.transportConnections self !! c = Some conn ->
  (forall q other, Parties.parties (Server.localParties self) !! q = Some other ->
     plays (Server.transportConnections self) other (Conn.transportConnectionId conn) = false) ->
  joinGameType request = NimbleSerializeJoinGameTypePartySecret -> 0 <= request_partyId request ->
  (forall party,
     Parties.parties (Server.localParties self) !! Z.to_nat (request_partyId request) = Some party ->
     playerCount request <> Refs.participantReferenceCount (Party.participantReferences party)) ->
  joinLocalParty (Server.localParties self) (Game.participants (Server.game self))
    (Server.transportConnections self) c request stepId
  = if Parties.capacityCount (Server.localParties self) <=? request_partyId request
    then Halt (if errors_halt then ErrorLogged else OutOfBounds)
    else Ret (Server.localParties self, Game.participants (Server.game self), 0, None).
Proof.
  intros Hs Hc Hnone Htype Hpid Hcount. unfold joinLocalParty, load. rewrite Hc. simpl.
  rewrite (find_nobody (length (pool_of (Server.game self))));
    [|rewrite (sv_connections _ Hs); apply Hs|done].
  simpl. rewrite Htype. unfold nimbleServerLocalPartiesFindParty, CLOG_ERROR.
  pose proof (parties_length _ _ _ (sv_parties _ Hs)) as Hlen.
  destruct (Z.leb_spec (Parties.capacityCount (Server.localParties self)) (request_partyId request)).
  - destruct errors_halt; [done|]. simpl. by rewrite lookup_ge_None_2 by lia.
  - simpl. destruct (lookup_lt_is_Some_2 (Parties.parties (Server.localParties self))
      (Z.to_nat (request_partyId request))) as [party Hp]; [lia|].
    rewrite Hp. simpl. specialize (Hcount party Hp).
    by rewrite (proj2 (Z.eqb_neq _ _)) by congruence.
Qed.
End JoinRequestAnswer.

(** ** Properties *)
Section JoinRequestProperties.
Context `{Clog} `{OrderedDatagram} `{!BlobStream} `{NimbleSteps} `{!NimbleSerialize} `{Stats}.
Context `{!NimbleStepsLaws} `{!NimbleSerializeLaws}.
Implicit Types (self : NimbleServer).

(** C10. A request to join without a secret and with one player, which could be
    read, from a connection of a consistent server. A party already found for the
    connection answers again. Otherwise the first free party is taken for the
    connection with one participant that no one used, joined at the next
    authoritative step; it is assigned to the connection and the reply names the
    party, the participant and the local index the client asked for. Without a
    free party or participant the reply is a refusal and no participant changes.
    In all cases the server stays consistent, and the program does not stop. *)
Theorem join_request_correct self c conn inStream outStream s err request player :
  server_ok self -> Server.transportConnections self !! c = Some conn ->
  nimbleSerializeServerInJoinGameRequest inStream = (s, err, request) -> 0 <= err ->
  joinGameType request = NimbleSerializeJoinGameTypeNoSecret ->
  playerCount request = 1 -> players request !! 0%nat = Some player ->
  runs (nimbleServerReqGameJoin self c inStream outStream)
    (join_post self c conn s outStream request player).
Proof. apply runs_join_cases. Qed.

(** C11. Joining twice. When a request to join without a secret and with one
    player was answered with a party, the next request to join over the same
    connection, the same one because the reply was lost or any other that can be
    read, is answered with the same party: the server does not change a second
    time and no further participant is made. (Only the parties at the first places
    are searched, as many as there are parties; after such a first request the
    party of the client is always among them.) *)
Theorem join_again_same_party self c conn in1 out1 s1 err1 request1 player in2 out2 s2 err2 request2 :
  server_ok self -> Server.transportConnections self !! c = Some conn ->
  nimbleSerializeServerInJoinGameRequest in1 = (s1, err1, request1) -> 0 <= err1 ->
  joinGameType request1 = NimbleSerializeJoinGameTypeNoSecret ->
  playerCount request1 = 1 -> players request1 !! 0%nat = Some player ->
  nimbleSerializeServerInJoinGameRequest in2 = (s2, err2, request2) -> 0 <= err2 ->
  runs ('(self1, _, _, code1) ← nimbleServerReqGameJoin self c in1 out1;
        if code1 <? 0 then Ret None
        else
          '(self2, _, reply, code2) ← nimbleServerReqGameJoin self1 c in2 out2;
          Ret (Some (self1, self2, reply, code2)))
    (fun r => match r with
     | None => True
     | Some (self1, self2, reply, code2) =>
         self2 = self1 /\ code2 = 0 /\ exists conn' p party,
         Server.transportConnections self1 !! c = Some conn' /\
         Conn.assignedParty conn' = Some p /\
         Parties.parties (Server.localParties self1) !! p = Some party /\
         reply = (nimbleSerializeServerOutJoinGameResponse out2
                    (join_reply self1 (Game.participants (Server.game self1)) party)).1
     end).
Proof.
  intros Hs Hc Hread1 Herr1 Htype Hcount Hplayer Hread2 Herr2.
  eapply runs_bind_mono; [by eapply runs_join_cases|].
  intros [[[self1 s1'] reply1] code1] Hpost.
  destruct (Z.ltb_spec code1 0) as [|Hcode]; [done|].
  destruct (join_post_seated _ _ _ _ _ _ _ _ Hs Hc Hpost Hcode)
    as (parties & pool & p & party & Hself1 & Hfirst). simpl in Hself1.
  destruct Hpost as (_ & Hok & _). subst self1.
  set (self1 := seated self parties pool c conn p party) in *.
  assert (Hc1 : Server.transportConnections self1 !! c
                = Some (Conn.set_assignedParty (Some p) conn)).
  { simpl. apply list_lookup_insert_eq. by eapply lookup_lt_Some. }
  pose proof (seated_first self parties pool c conn p party Hc Hfirst) as Hfirst1.
  eapply runs_bind_mono; [by eapply runs_join_existing|].
  intros ? ->. split; [|split; [done|]].
  - apply seated_again; [done|apply Hfirst].
  - do 3 eexists. split; [exact Hc1|]. split; [done|]. split; [apply Hfirst1|done].
Qed.

(** C21. Rejoining by the id of a party, from a connection nobody plays over, with
    as many players as the party has participants. The secret of the request
    plays no part, nor whether the party waits for its client: the party is moved
    to the connection and is in normal state again, and the reply names its
    participants. The participants themselves do not change, so those that wait to
    rejoin go on waiting; the connection that had the party before keeps it
    assigned. The program does not stop. *)
Theorem rejoin_takes_party self c conn inStream outStream s err request p party :
  server_ok self -> Server.transportConnections self !! c = Some conn ->
  (forall q other, Parties.parties (Server.localParties self) !! q = Some other ->
     plays (Server.transportConnections self) other (Conn.transportConnectionId conn) = false) ->
  nimbleSerializeServerInJoinGameRequest inStream = (s, err, request) -> 0 <= err ->
  joinGameType request = NimbleSerializeJoinGameTypePartySecret ->
  request_partyId request = Z.of_nat p ->
  Parties.parties (Server.localParties self) !! p = Some party ->
  playerCount request = Refs.participantReferenceCount (Party.participantReferences party) ->
  runs (nimbleServerReqGameJoin self c inStream outStream) (fun '(self', s', out, code) =>
    server_ok self' /\ code = 0 /\ s' = s /\
    Server.game self' = Server.game self /\
    (exists party', Parties.parties (Server.localParties self') !! p = Some party' /\
       Party.transportConnection party' = Some c /\
       Party.state party' = NimbleServerLocalPartyStateNormal /\
       Party.isUsed party' = Party.isUsed party /\
       Party.participantReferences party' = Party.participantReferences party /\
       Party.waitingForReconnectMaxTimer party' = maxWaitingForReconnectTicks (Server.setup self)) /\
    (forall q, q <> p -> Parties.parties (Server.localParties self') !! q
                       = Parties.parties (Server.localParties self) !! q) /\
    Server.transportConnections self'
    = <[c := Conn.set_assignedParty (Some p) conn]> (Server.transportConnections self) /\
    out = (nimbleSerializeServerOutJoinGameResponse outStream
             (join_reply self (Game.participants (Server.game self)) party)).1).
Proof.
  intros Hs Hc Hnone Hread Herr Htype Hpid Hp Hcount.
  assert (Hlt : (c < 64)%nat).
  { rewrite <- (sv_connections _ Hs). by eapply lookup_lt_Some. }
  pose proof (lookup_lt_Some _ _ _ Hp) as Hplt.
  pose proof (session_after_rejoin self p party c Hs Hlt Hp) as Hjs.
  eapply runs_join_seated; [exact Hread|exact Herr|by eapply join_named_party|exact Hc| | |].
  - simpl. by apply list_lookup_insert_eq.
  - apply (party_refs _ _ (party_valid _ _ _ (session_party _ _ _ _ _ (sv_session _ Hs) Hp))).
  - split; [apply seated_server_ok; [done|done|done|]; simpl; by apply list_lookup_insert_eq|].
    do 2 (split; [done|]). split; [simpl; by destruct (Server.game self)|]. split.
    { eexists. split; [simpl; apply list_lookup_insert_eq; by rewrite length_insert|done]. }
    split; [|done]. intros q Hq. simpl. by rewrite !list_lookup_insert_ne by done.
Qed.

(** C40. Rejoining, from a connection nobody plays over, by an id that is no place
    for a party, or with another number of players than the party has: there is no
    refusal. In the first case the program stops at its check or, when errors do
    not stop it, reads past the array of parties; in the second it follows a
    pointer that was never set. *)
Theorem rejoin_mismatch_stops_server self c conn inStream outStream s err request :
  server_ok self -> Server.transportConnections self !! c = Some conn ->
  (forall q other, Parties.parties (Server.localParties self) !! q = Some other ->
     plays (Server.transportConnections self) other (Conn.transportConnectionId conn) = false) ->
  nimbleSerializeServerInJoinGameRequest inStream = (s, err, request) -> 0 <= err ->
  joinGameType request = NimbleSerializeJoinGameTypePartySecret -> 0 <= request_partyId request ->
  (forall party,
     Parties.parties (Server.localParties self) !! Z.to_nat (request_partyId request) = Some party ->
     playerCount request <> Refs.participantReferenceCount (Party.participantReferences party)) ->
  nimbleServerReqGameJoin self c inStream outStream
  = Halt (if Parties.capacityCount (Server.localParties self) <=? request_partyId request
          then (if errors_halt then ErrorLogged else OutOfBounds) else UninitializedRead PartyOfRequest).
Proof.
  intros Hs Hc Hnone Hread Herr Htype Hpid Hcount.
  unfold nimbleServerReqGameJoin. rewrite Hread, (proj2 (Z.ltb_ge _ _) Herr).
  unfold nimbleServerReadAndJoinParticipants.
  rewrite (join_mismatch self c conn) by done. by destruct (_ <=? _).
Qed.
End JoinRequestProperties.

(** ** Witnesses *)
Import Models.

(** A request to join with one player, local index 0 and nonce 9. *)
Definition join_octets : FldInStream := fldInStreamInit [0; 0; 0; 9; 1; 0].
Definition join_read : FldInStream := (nimbleSerializeServerInJoinGameRequest join_octets).1.1.
Definition one_player : NimbleSerializeJoinGameRequest :=
  mkJoinRequest NimbleSerializeJoinGameTypeNoSecret 0 0 1 [mkJoinPlayer 0] 9.
Definition connection_3 : TransportConnection := Conn.set_transportConnectionId 3 zero_connection.

Lemma join_request_correct_witness :
  runs (nimbleServerReqGameJoin (H := debug_build) example_server 3 join_octets
          (fldOutStreamInit 1200))
    (fun '(self', s', out, code) => server_ok self') /\
  match nimbleServerReqGameJoin (H := debug_build) example_server 3 join_octets
          (fldOutStreamInit 1200) with
  | Ret (self', s', out, code) =>
      code = 0 /\ out_octets out = [3; 1; 0; 1; 1; 0] /\
      Parties.partiesCount (Server.localParties self') = 2
  | Halt _ => False
  end.
Proof.
  split; [|vm_compute; auto].
  eapply runs_mono; [apply (join_request_correct (H := debug_build) example_server 3 connection_3
    join_octets (fldOutStreamInit 1200) join_read 0 one_player (mkJoinPlayer 0))|].
  - exact example_server_ok.
  - reflexivity.
  - reflexivity.
  - lia.
  - reflexivity.
  - reflexivity.
  - reflexivity.
  - intros [[[self' s'] out] code] (_ & Hok & _). exact Hok.
Defined.

Lemma join_again_same_party_witness :
  runs ('(self1, _, _, code1) ← nimbleServerReqGameJoin (H := debug_build) example_server 3
          join_octets (fldOutStreamInit 1200);
        if code1 <? 0 then Ret None
        else
          '(self2, _, reply, code2) ←
            nimbleServerReqGameJoin (H := debug_build) self1 3 join_octets (fldOutStreamInit 1200);
          Ret (Some (self1, self2, reply, code2)))
    (fun r => match r with
     | None => True
     | Some (self1, self2, reply, code2) => self2 = self1 /\ code2 = 0
     end).
Proof.
  eapply runs_mono; [apply (join_again_same_party (H := debug_build) example_server 3 connection_3
    join_octets (fldOutStreamInit 1200) join_read 0 one_player (mkJoinPlayer 0)
    join_octets (fldOutStreamInit 1200) join_read 0 one_player)|].
  - exact example_server_ok.
  - reflexivity.
  - reflexivity.
  - lia.
  - reflexivity.
  - reflexivity.
  - reflexivity.
  - reflexivity.
  - lia.
  - intros [[[[self1 self2] reply] code2]|]; [|exact (fun H => H)].
    intros (Hself & Hcode & _). split; [exact Hself|exact Hcode].
Defined.

(** From connection 3, with any secret, into the party of connection 1. *)
Definition rejoin_octets : FldInStream := fldInStreamInit [1; 0; 77; 9; 1; 0].
Definition rejoin_read : FldInStream := (nimbleSerializeServerInJoinGameRequest rejoin_octets).1.1.
Definition rejoin_request : NimbleSerializeJoinGameRequest :=
  (nimbleSerializeServerInJoinGameRequest rejoin_octets).2.

Lemma rejoin_takes_party_witness :
  runs (nimbleServerReqGameJoin (H := debug_build) example_server 3 rejoin_octets
          (fldOutStreamInit 1200)) (fun '(self', s', out, code) =>
    server_ok self' /\ code = 0 /\ Server.game self' = Server.game example_server).
Proof.
  eapply runs_mono; [apply (rejoin_takes_party (H := debug_build) example_server 3 connection_3
    rejoin_octets (fldOutStreamInit 1200) rejoin_read 0 rejoin_request 0
    (Party.set_participantReferences (Refs.mk 1 (replicate 8 0%nat))
       (Party.set_transportConnection (Some 1%nat) example_party)))|].
  - exact example_server_ok.
  - reflexivity.
  - intros [|[|[|q]]] other Hq; try discriminate Hq; injection Hq as <-; vm_compute; reflexivity.
  - reflexivity.
  - lia.
  - reflexivity.
  - reflexivity.
  - reflexivity.
  - reflexivity.
  - intros [[[self' s'] out] code] (Hok & Hcode & _ & Hgame & _). auto.
Defined.

(** A request with the id of a party that does not exist. *)
Definition stray_octets : FldInStream := fldInStreamInit [1; 7; 0; 9; 1; 0].

Lemma rejoin_mismatch_stops_server_witness :
  nimbleServerReqGameJoin (H := quiet_build) example_server 3 stray_octets (fldOutStreamInit 1200)
  = Halt OutOfBounds.
Proof.
  rewrite (rejoin_mismatch_stops_server (H := quiet_build) example_server 3 connection_3 stray_octets
    (fldOutStreamInit 1200) (nimbleSerializeServerInJoinGameRequest stray_octets).1.1 0
    (nimbleSerializeServerInJoinGameRequest stray_octets).2).
  - reflexivity.
  - exact example_server_ok.
  - reflexivity.
  - intros [|[|[|q]]] other Hq; try discriminate Hq; injection Hq as <-; vm_compute; reflexivity.
  - reflexivity.
  - lia.
  - reflexivity.
  - vm_compute. discriminate.
  - intros party Hp. discriminate Hp.
Defined.

(** With the wrong number of players the party to answer for is never set. *)
Lemma join_with_wrong_count_uninitialized :
  halted (nimbleServerReqGameJoin (H := debug_build) example_server 3
    (fldInStreamInit [1; 0; 0; 9; 2; 0; 1]) (fldOutStreamInit 1200)) = Some (UninitializedRead PartyOfRequest).
Proof. vm_compute. reflexivity. Qed.
