(* ===== verification/StateDownload.v ===== *)
(** * Downloads of the game state (lib/req_game_state.c,
      lib/req_game_state_ack.c)

    A client that joins asks for the state of the game; it is copied to the
    connection and sent as a blob stream. *)

From S2P Require Import Prelude.
From S2P Require Import ExternalLibs.
From S2P Require Import ExternalModels.
From S2P Require Import StepLog.
From S2P Require Import CircularBuffer.
From S2P Require Import ConnectionQuality.
From S2P Require Import UpdateQuality.
From S2P Require Import GameState.
From S2P Require Import Participants.
From S2P Require Import LocalParty.
From S2P Require Import TransportConnection.
From S2P Require Import LocalParties.
From S2P Require Import Game.
From S2P Require Import StepFormat.
From S2P Require Import AuthoritativeSteps.
From S2P Require Import Session.
From S2P Require Import StepRequest.
From S2P Require Import ServerState.

Section StateDownload.
Context `{Clog} `{OrderedDatagram} `{!BlobStream} `{NimbleSteps} `{!NimbleSerialize} `{Stats}
  `{DatagramTransport} `{Environment} `{CallbackObject}.
Implicit Types (transportConnection : TransportConnection) (w : World).

(** ** req_game_state_ack.c

    [transportOut] is the connection that replies go to. *)
Definition nimbleServerSendBlobStream w transportConnection (transportOut clientTime : Z) :
    outcome (World * TransportConnection * Z) :=
  let now := monotonicTimeMsNow (times w) in
  let w := tick_clock w in
  blobStreamLogicOut ← initialized TransferOfConnection (Conn.blobStreamLogicOut transportConnection);
  let '(blobStreamLogicOut, entries) := blobStreamLogicOutPrepareSend blobStreamLogicOut now 4 in
  let transportConnection :=
    Conn.set_blobStreamLogicOut (Some blobStreamLogicOut) transportConnection in
  r ← for_loop (length entries) 0 (fun i '(w, transportConnection) =>
    entry ← load entries i;
    let stream := set_writeDebugInfo true (fldOutStreamInit DATAGRAM_TRANSPORT_MAX_SIZE) in
    let '(stream, _) := transportConnectionWriteHeader transportConnection stream clientTime in
    let stream := nimbleSerializeWriteCommand stream NimbleSerializeCmdServerOutBlobStream in
    let stream :=
      blobStreamLogicOutSendEntry stream entry (transferId blobStreamLogicOut) in
    let transportConnection := transportConnectionCommitHeader transportConnection in
    if datagramTransportMaxSize <? out_pos stream
    then Ret (Return (w, transportConnection, NimbleServerErrSerialize))
    else Ret (Continue (send transportOut (out_octets stream) w, transportConnection)))
    (w, transportConnection);
  match r with
  | Return result => Ret result
  | Continue (w, transportConnection) => Ret (w, transportConnection, 0)
  end.

Definition nimbleServerReqBlobStream w transportConnection (inStream : FldInStream)
    (transportOut clientTime : Z) :
    outcome (World * TransportConnection * FldInStream * Z) :=
  blobStreamLogicOut ← initialized TransferOfConnection (Conn.blobStreamLogicOut transportConnection);
  let '(blobStreamLogicOut, inStream, receiveResult) :=
    blobStreamLogicOutReceive blobStreamLogicOut inStream in
  let transportConnection :=
    Conn.set_blobStreamLogicOut (Some blobStreamLogicOut) transportConnection in
  if receiveResult <? 0 then Ret (w, transportConnection, inStream, receiveResult)
  else
    '(w, transportConnection, code) ←
      nimbleServerSendBlobStream w transportConnection transportOut clientTime;
    Ret (w, transportConnection, inStream, code).

(** ** req_game_state.c *)

(** The connection after the state was copied to it and its transfer prepared;
    the result of [nimbleServerGameStateSet] is not looked at. *)
Definition start_download w transportConnection (downloadClientRequestId : Z) :
    outcome (World * TransportConnection) :=
  let serialized := authoritativeStateSerializeFn (serializations w) in
  '(copied, _) ← nimbleServerGameStateSet (Conn.gameState transportConnection)
    (serialized_stepId serialized) (gameState serialized) (gameStateOctetCount serialized);
  let blobStreamOut :=
    blobStreamOutInit (take (Z.to_nat (GState.octetCount copied)) (GState.state copied))
      BLOB_STREAM_CHUNK_SIZE in
  let blobStreamLogicOut :=
    blobStreamLogicOutInit blobStreamOut (Conn.nextBlobStreamOutChannel transportConnection) in
  Ret (serialize_again w,
       transportConnectionSetGameStateTickId
         (Conn.mk _ _ _ _ (Conn.id transportConnection)
            (Conn.transportConnectionId transportConnection)
            (Conn.transportIndex transportConnection)
            (Conn.connectedFromConnectRequestId transportConnection)
            (Conn.secret transportConnection) (Conn.assignedParty transportConnection)
            (Conn.orderedDatagramInLogic transportConnection)
            (Conn.orderedDatagramOutLogic transportConnection)
            (Some blobStreamOut) (Some blobStreamLogicOut)
            (nextTransferId (Conn.nextBlobStreamOutChannel transportConnection))
            downloadClientRequestId
            (Conn.stepsBehindStats transportConnection) (Conn.debugCounter transportConnection)
            (Conn.isUsed transportConnection) (Conn.useDebugStreams transportConnection)
            (Conn.noRangesToSendCounter transportConnection) (Conn.phase transportConnection)
            copied)).

Definition nimbleServerReqDownloadGameState w transportConnection (inStream : FldInStream)
    (transportOut clientTime : Z) :
    outcome (World * TransportConnection * FldInStream * Z) :=
  let '(inStream, read) := fldInStreamReadUInt8 inStream in
  downloadClientRequestId ← initialized NumberOfDatagram (u8 <$> read);
  _ ← CLOG_ASSERT (negb (downloadClientRequestId =? 0));
  '(w, transportConnection) ←
    (if downloadClientRequestId =? Conn.blobStreamOutClientRequestId transportConnection
     then Ret (w, transportConnection)
     else start_download w transportConnection downloadClientRequestId);
  let latestState := Conn.gameState transportConnection in
  let '(outStream, _) :=
    transportConnectionWriteHeader transportConnection (fldOutStreamInit 256) clientTime in
  blobStreamLogicOut ← initialized TransferOfConnection (Conn.blobStreamLogicOut transportConnection);
  let '(outStream, err) :=
    nimbleSerializeServerOutGameStateResponse outStream (GState.stepId latestState)
      (take (Z.to_nat (GState.octetCount latestState)) (GState.state latestState))
      (Conn.blobStreamOutClientRequestId transportConnection) (transferId blobStreamLogicOut) in
  if err <? 0 then Ret (w, transportConnection, inStream, err)
  else
    let outStream := nimbleSerializeWriteCommand outStream NimbleSerializeCmdServerOutBlobStream in
    let '(blobStreamLogicOut, outStream, err) :=
      blobStreamLogicOutStartTransfer blobStreamLogicOut outStream in
    let transportConnection :=
      Conn.set_blobStreamLogicOut (Some blobStreamLogicOut) transportConnection in
    if err <? 0 then Ret (w, transportConnection, inStream, err)
    else
      let transportConnection := transportConnectionCommitHeader transportConnection in
      let w := send transportOut (out_octets outStream) w in
      '(w, transportConnection, code) ←
        nimbleServerSendBlobStream w transportConnection transportOut clientTime;
      Ret (w, transportConnection, inStream, code).

End StateDownload.

(** ** What the handlers keep *)
Section StateDownloadRuns.
Context `{Clog} `{OrderedDatagram} `{!BlobStream} `{NimbleSteps} `{!NimbleSerialize} `{Stats}
  `{DatagramTransport} `{Environment} `{CallbackObject}.
Context `{!FldInLaws} `{!BlobStreamLaws} `{!CallbackLaws}.
Implicit Types (conn : TransportConnection) (w : World).

(** Only the progress of the transfer and the datagram numbers change. *)
Record sending conn conn' : Prop := {
  sd_id : Conn.id conn' = Conn.id conn;
  sd_used : Conn.isUsed conn' = Conn.isUsed conn;
  sd_index : Conn.transportIndex conn' = Conn.transportIndex conn;
  sd_party : Conn.assignedParty conn' = Conn.assignedParty conn;
  sd_phase : Conn.phase conn' = Conn.phase conn;
  sd_state : Conn.gameState conn' = Conn.gameState conn;
  sd_out : Conn.blobStreamOut conn' = Conn.blobStreamOut conn;
  sd_request : Conn.blobStreamOutClientRequestId conn' = Conn.blobStreamOutClientRequestId conn;
  sd_channel : Conn.nextBlobStreamOutChannel conn' = Conn.nextBlobStreamOutChannel conn;
  sd_logic : is_Some (Conn.blobStreamLogicOut conn) -> is_Some (Conn.blobStreamLogicOut conn');
}.

#[export] Instance sending_preorder : PreOrder sending.
Proof.
  split; [by intros conn; split|]. intros a b c [] []. split; try congruence. auto.
Qed.

Lemma sending_commit conn : sending conn (transportConnectionCommitHeader conn).
Proof. by split. Qed.

Lemma sending_logic conn l : sending conn (Conn.set_blobStreamLogicOut (Some l) conn).
Proof. by split. Qed.

Lemma sending_ok n conn conn' : sending conn conn' -> conn_ok n conn -> conn_ok n conn'.
Proof.
  intros Hs [Hid Hp Hg]. split.
  - by rewrite (sd_id _ _ Hs).
  - intros p. rewrite (sd_party _ _ Hs). apply Hp.
  - by rewrite (sd_state _ _ Hs).
Qed.

(** The world after sending: the clock was read, the callback was not called. *)
Record sent_more w w' : Prop := {
  sm_times : (times w <= times w')%nat;
  sm_serializations : serializations w' = serializations w;
  sm_sent : exists datagrams, sent w' = sent w ++ datagrams;
}.

#[export] Instance sent_more_preorder : PreOrder sent_more.
Proof.
  split; [intros w; split; [lia|done|]; by exists []; rewrite app_nil_r|].
  intros a b c [Ht1 Hs1 [l1 Hl1]] [Ht2 Hs2 [l2 Hl2]]. split; [lia|congruence|].
  exists (l1 ++ l2). by rewrite Hl2, Hl1, app_assoc.
Qed.

Lemma sent_more_send to octets w : sent_more w (send to octets w).
Proof. split; [simpl; lia|done|]. by eexists. Qed.

Lemma sent_more_tick w : sent_more w (tick_clock w).
Proof. split; [simpl; lia|done|]. exists []. by rewrite app_nil_r. Qed.

Lemma runs_send_blob {E} w conn to ct l :
  Conn.blobStreamLogicOut conn = Some l ->
  sat E (nimbleServerSendBlobStream w conn to ct) (fun '(w', conn', _) =>
    sending conn conn' /\ sent_more w w').
Proof.
  intros Hl. unfold nimbleServerSendBlobStream. run.
  destruct (blobStreamLogicOutPrepareSend l _ 4) as [l' entries].
  set (P := fun '(w', conn') => sending conn conn' /\ sent_more w w').
  eapply runs_bind_mono.
  { apply (runs_for (fun _ => P) (fun '(w', conn', _) => P (w', conn'))).
    - split; [apply sending_logic|apply sent_more_tick].
    - intros j [w' conn'] Hj [Hconn Hw].
      destruct (lookup_lt_is_Some_2 entries j) as [entry He]; [lia|]. run.
      destruct (transportConnectionWriteHeader _ _ _).
      assert (Hc : sending conn (transportConnectionCommitHeader conn')).
      { etrans; [exact Hconn|apply sending_commit]. }
      destruct (_ <? _); simpl; split; try done. etrans; [exact Hw|apply sent_more_send]. }
  intros [[w' conn']|[[w' conn'] code]]; simpl; done.
Qed.

Lemma runs_req_blob w conn inStream to ct :
  sat (eq (UninitializedRead TransferOfConnection)) (nimbleServerReqBlobStream w conn inStream to ct)
    (fun '(w', conn', s, _) =>
       sending conn conn' /\ sent_more w w' /\ forward inStream s).
Proof.
  unfold nimbleServerReqBlobStream.
  destruct (Conn.blobStreamLogicOut conn) as [l|] eqn:Hl; [|done]. run.
  pose proof (blob_receive_forward l inStream) as Hf.
  destruct (blobStreamLogicOutReceive l inStream) as [[l' s] code]. simpl in Hf.
  pose proof (sending_logic conn l'). destruct (code <? 0); [done|].
  apply runs_bind. eapply runs_mono; [by eapply runs_send_blob|].
  intros [[w' conn'] code'] [Hconn Hw]. split; [by etrans|done].
Qed.

(** The connection that the state was copied to, when the copy is [copied]. *)
Record download_started conn (request : Z) (copied : GameState) conn' : Prop := {
  dl_id : Conn.id conn' = Conn.id conn;
  dl_used : Conn.isUsed conn' = Conn.isUsed conn;
  dl_index : Conn.transportIndex conn' = Conn.transportIndex conn;
  dl_party : Conn.assignedParty conn' = Conn.assignedParty conn;
  dl_phase : Conn.phase conn' = NbTransportConnectionPhaseInitialStateDetermined;
  dl_state : Conn.gameState conn' = copied;
  dl_out : Conn.blobStreamOut conn'
    = Some (blobStreamOutInit (take (Z.to_nat (GState.octetCount copied)) (GState.state copied))
              BLOB_STREAM_CHUNK_SIZE);
  dl_request : Conn.blobStreamOutClientRequestId conn' = request;
  dl_channel : Conn.nextBlobStreamOutChannel conn'
    = nextTransferId (Conn.nextBlobStreamOutChannel conn);
  dl_logic : is_Some (Conn.blobStreamLogicOut conn');
}.

(** The copy of a serialized state: refused when it is not later than the one
    held or does not fit. *)
Definition copy_of (self : GameState) (serialized : NimbleServerSerializedGameState) : GameState :=
  if obsolete self (serialized_stepId serialized) then self
  else if GState.capacity self <? Z.of_nat (length (gameState serialized)) then self
  else replaced self (serialized_stepId serialized) (gameState serialized).

Lemma copy_of_wf self serialized : game_state_wf self -> game_state_wf (copy_of self serialized).
Proof.
  intros Hwf. unfold copy_of. destruct (obsolete _ _); [done|].
  destruct (Z.ltb_spec (GState.capacity self) (Z.of_nat (length (gameState serialized))));
    [done|]. apply replaced_wf; [done|lia].
Qed.

(** The transfer of a copied state, before anything is sent. *)
Definition first_logic conn (copied : GameState) : BlobStreamLogicOut :=
  blobStreamLogicOutInit
    (blobStreamOutInit (take (Z.to_nat (GState.octetCount copied)) (GState.state copied))
       BLOB_STREAM_CHUNK_SIZE)
    (Conn.nextBlobStreamOutChannel conn).

(** The first datagram of the reply: the state's step id and size, and the
    start of the transfer. *)
Definition download_reply conn (state : GameState) (request clientTime : Z)
    (l : BlobStreamLogicOut) : FldOutStream :=
  let stream := (transportConnectionWriteHeader conn (fldOutStreamInit 256) clientTime).1 in
  let stream := (nimbleSerializeServerOutGameStateResponse stream (GState.stepId state)
    (take (Z.to_nat (GState.octetCount state)) (GState.state state)) request (transferId l)).1 in
  (blobStreamLogicOutStartTransfer l
     (nimbleSerializeWriteCommand stream NimbleSerializeCmdServerOutBlobStream)).1.2.

(** The transfer that a request is answered from. *)
Definition answering_logic w conn (request : Z) : option BlobStreamLogicOut :=
  if request =? Conn.blobStreamOutClientRequestId conn then Conn.blobStreamLogicOut conn
  else Some (first_logic conn
         (copy_of (Conn.gameState conn) (authoritativeStateSerializeFn (serializations w)))).

Lemma runs_start_download {E} w conn request :
  game_state_wf (Conn.gameState conn) ->
  sat E (start_download w conn request) (fun '(w', conn') =>
    let copied :=
      copy_of (Conn.gameState conn) (authoritativeStateSerializeFn (serializations w)) in
    w' = serialize_again w /\ download_started conn request copied conn' /\
    Conn.orderedDatagramOutLogic conn' = Conn.orderedDatagramOutLogic conn /\
    Conn.blobStreamLogicOut conn' = Some (first_logic conn copied)).
Proof.
  intros Hwf. unfold start_download. rewrite <- serialized_length, set_eq by done.
  unfold copy_of. simpl.
  destruct (obsolete _ _); [|destruct (_ <? _)]; simpl; (split; [done|split; [by split|done]]).
Qed.

(** The connection after the request for a download with the given id. *)
Definition downloaded w conn (request : Z) w' conn' : Prop :=
  if request =? Conn.blobStreamOutClientRequestId conn
  then sending conn conn' /\ serializations w' = serializations w
  else serializations w' = S (serializations w) /\
       download_started conn request
         (copy_of (Conn.gameState conn) (authoritativeStateSerializeFn (serializations w))) conn'.

Lemma download_started_sending conn request copied c1 c2 :
  download_started conn request copied c1 -> sending c1 c2 ->
  download_started conn request copied c2.
Proof. intros [] []. split; try congruence. auto. Qed.

Lemma downloaded_sending w conn request w1 c1 w2 c2 :
  downloaded w conn request w1 c1 -> sending c1 c2 -> sent_more w1 w2 ->
  downloaded w conn request w2 c2.
Proof.
  unfold downloaded. intros Hd Hs [_ Hw _]. destruct (_ =? _).
  - destruct Hd as [Hd ?]. split; [by etrans|congruence].
  - destruct Hd as [? Hd]. split; [congruence|]. by eapply download_started_sending.
Qed.

Lemma downloaded_ok n w conn request w' conn' :
  conn_ok n conn -> downloaded w conn request w' conn' -> conn_ok n conn'.
Proof.
  intros Hok. unfold downloaded. destruct (_ =? _).
  - intros [Hs _]. by eapply sending_ok.
  - intros [_ Hd]. destruct Hok as [Hid Hp Hg]. split.
    + by rewrite (dl_id _ _ _ _ Hd).
    + intros p. rewrite (dl_party _ _ _ _ Hd). apply Hp.
    + rewrite (dl_state _ _ _ _ Hd). by apply copy_of_wf.
Qed.

(** A new request starts a transfer, a repeated one keeps the transfer. *)
Lemma runs_prepare_download {E} w conn request :
  game_state_wf (Conn.gameState conn) ->
  sat E (if request =? Conn.blobStreamOutClientRequestId conn then Ret (w, conn)
         else start_download w conn request)
    (fun '(w1, c1) =>
       times w1 = times w /\ sent w1 = sent w /\ downloaded w conn request w1 c1 /\
       Conn.orderedDatagramOutLogic c1 = Conn.orderedDatagramOutLogic conn /\
       Conn.blobStreamOutClientRequestId c1 = request /\
       Conn.blobStreamLogicOut c1 = answering_logic w conn request).
Proof.
  intros Hwf. unfold downloaded, answering_logic.
  destruct (Z.eqb_spec request (Conn.blobStreamOutClientRequestId conn)); [done|].
  eapply runs_mono; [by apply runs_start_download|]. intros [w1 c1] (-> & Hd & Hout & Hl).
  do 4 (split; [done|]). split; [apply Hd|done].
Qed.

Lemma write_header_same conn c1 o ct :
  Conn.orderedDatagramOutLogic c1 = Conn.orderedDatagramOutLogic conn ->
  transportConnectionWriteHeader c1 o ct = transportConnectionWriteHeader conn o ct.
Proof. unfold transportConnectionWriteHeader. by intros ->. Qed.

(** The whole request, from a stream that holds the id of the request. *)
Lemma runs_req_download {E : halt -> Prop} w conn inStream s request to ct :
  game_state_wf (Conn.gameState conn) ->
  fldInStreamReadUInt8 inStream = (s, Some request) ->
  (assertions_enabled = true -> u8 request = 0 -> E AssertionFailed) ->
  (u8 request = Conn.blobStreamOutClientRequestId conn -> Conn.blobStreamLogicOut conn = None ->
   E (UninitializedRead TransferOfConnection)) ->
  sat E (nimbleServerReqDownloadGameState w conn inStream to ct) (fun '(w', conn', s', code) =>
    s' = s /\ (times w <= times w')%nat /\ downloaded w conn (u8 request) w' conn' /\
    (0 <= code -> exists l datagrams, answering_logic w conn (u8 request) = Some l /\
       sent w' = sent w ++ (to, out_octets (download_reply conn (Conn.gameState conn')
                                              (u8 request) ct l)) :: datagrams)).
Proof.
  intros Hwf Hread Hzero Hnone. unfold nimbleServerReqDownloadGameState. rewrite Hread.
  change (u8 <$> Some request) with (Some (u8 request)). run.
  apply (runs_mono _ (fun _ => True)).
  { unfold CLOG_ASSERT.
    destruct assertions_enabled; destruct (Z.eqb_spec (u8 request) 0); simpl; auto. }
  intros [] _. run.
  eapply runs_mono; [by apply runs_prepare_download|].
  intros [w1 c1] (Htimes & Hsent & Hd & Hout & Hreq & Hl).
  assert (Hlogic : Conn.blobStreamLogicOut c1 = None -> E (UninitializedRead TransferOfConnection)).
  { rewrite Hl. unfold answering_logic. destruct (Z.eqb_spec (u8 request)
      (Conn.blobStreamOutClientRequestId conn)); [by apply Hnone|done]. }
  rewrite <- Hl. pose proof (fun o => write_header_same conn c1 o ct Hout) as Hheader.
  unfold download_reply. rewrite Hheader, Hreq.
  destruct (transportConnectionWriteHeader conn _ ct) as [o1 e1].
  destruct (Conn.blobStreamLogicOut c1) as [l|]; [|by apply Hlogic]. run.
  destruct (nimbleSerializeServerOutGameStateResponse o1 _ _ _ _) as [o2 e2] eqn:Hresponse.
  destruct (Z.ltb_spec e2 0).
  { split; [done|]. split; [by rewrite Htimes|]. split; [done|lia]. }
  destruct (blobStreamLogicOutStartTransfer l _) as [[l' o3] e3] eqn:Hstart.
  assert (Hd' : forall c w2, sending (Conn.set_blobStreamLogicOut (Some l') c1) c ->
    sent_more w1 w2 -> downloaded w conn (u8 request) w2 c).
  { intros c w2 Hc Hw. eapply downloaded_sending; [exact Hd| |exact Hw].
    etrans; [apply sending_logic|exact Hc]. }
  destruct (Z.ltb_spec e3 0).
  { split; [done|]. split; [by rewrite Htimes|]. split; [by apply Hd'|lia]. }
  apply runs_bind. eapply runs_mono; [by eapply runs_send_blob|].
  intros [[w2 c2] code] [Hc Hw]. split; [done|].
  assert (Hw' : sent_more w1 w2) by (etrans; [apply sent_more_send|exact Hw]).
  split; [rewrite <- Htimes; apply Hw'|]. split.
  { apply Hd'; [|done]. etrans; [apply sending_commit|exact Hc]. }
  intros _. destruct Hw as [_ _ [datagrams Hmore]]. exists l, datagrams. split; [done|].
  rewrite Hmore. simpl. rewrite Hsent, <- app_assoc. simpl.
  rewrite (sd_state _ _ Hc). simpl. rewrite Hresponse. simpl. by rewrite Hstart.
Qed.
End StateDownloadRuns.

(** ** Properties *)
Section StateDownloadProperties.
Context `{Clog} `{OrderedDatagram} `{!BlobStream} `{NimbleSteps} `{!NimbleSerialize} `{Stats}
  `{DatagramTransport} `{Environment} `{CallbackObject}.
Context `{!CallbackLaws}.
Implicit Types (conn : TransportConnection) (w : World).

(** C23. A request for the state of the game under a new request id. The
    application serializes its state once; the connection holds it, unless it
    is not later than the one it holds or is too large, and the transfer under
    the next transfer id carries what the connection holds. When nothing fails
    the first datagram names that state and the transfer, and starts it. The
    program does not stop. *)
Theorem download_request_correct w conn inStream s request to ct :
  game_state_wf (Conn.gameState conn) ->
  fldInStreamReadUInt8 inStream = (s, Some request) -> u8 request <> 0 ->
  u8 request <> Conn.blobStreamOutClientRequestId conn ->
  runs (nimbleServerReqDownloadGameState w conn inStream to ct) (fun '(w', conn', s', code) =>
    let copied :=
      copy_of (Conn.gameState conn) (authoritativeStateSerializeFn (serializations w)) in
    s' = s /\ serializations w' = S (serializations w) /\
    download_started conn (u8 request) copied conn' /\
    (0 <= code -> exists datagrams,
       sent w' = sent w ++ (to, out_octets (download_reply conn copied (u8 request) ct
                                              (first_logic conn copied))) :: datagrams)).
Proof.
  intros Hwf Hread Hzero Hnew. eapply runs_mono; [by eapply runs_req_download|].
  intros [[[w' conn'] s'] code] (-> & _ & Hd & Hsent).
  unfold downloaded, answering_logic in *. rewrite (proj2 (Z.eqb_neq _ _) Hnew) in *.
  destruct Hd as [Hs Hd]. split_and!; [done..|]. intros Hcode.
  destruct (Hsent Hcode) as (l & datagrams & [= <-] & Hw). exists datagrams.
  by rewrite Hw, (dl_state _ _ _ _ Hd).
Qed.

(** C24. The same request again, because the reply was lost: the state of the
    first time is sent again, under the same transfer, although the game has
    gone on; the application is not asked a second time. *)
Theorem download_request_repeated w conn in1 s1 in2 s2 request to ct1 ct2 :
  game_state_wf (Conn.gameState conn) ->
  fldInStreamReadUInt8 in1 = (s1, Some request) ->
  fldInStreamReadUInt8 in2 = (s2, Some request) -> u8 request <> 0 ->
  u8 request <> Conn.blobStreamOutClientRequestId conn ->
  runs ('(w1, conn1, _, _) ← nimbleServerReqDownloadGameState w conn in1 to ct1;
        '(w2, conn2, _, code) ← nimbleServerReqDownloadGameState w1 conn1 in2 to ct2;
        Ret (w1, conn1, w2, conn2, code))
    (fun '(w1, conn1, w2, conn2, code) =>
       serializations w2 = S (serializations w) /\
       Conn.gameState conn2 = Conn.gameState conn1 /\
       Conn.blobStreamOut conn2 = Conn.blobStreamOut conn1 /\
       Conn.nextBlobStreamOutChannel conn2 = Conn.nextBlobStreamOutChannel conn1 /\
       (0 <= code -> exists l datagrams, Conn.blobStreamLogicOut conn1 = Some l /\
          sent w2 = sent w1 ++ (to, out_octets (download_reply conn1 (Conn.gameState conn1)
                                                  (u8 request) ct2 l)) :: datagrams)).
Proof.
  intros Hwf Hread1 Hread2 Hzero Hnew.
  eapply runs_bind_mono; [by eapply runs_req_download|].
  intros [[[w1 conn1] s1'] code1] (_ & _ & Hd & _).
  unfold downloaded in Hd. rewrite (proj2 (Z.eqb_neq _ _) Hnew) in Hd. destruct Hd as [Hs Hd].
  apply runs_bind. eapply runs_mono; [eapply runs_req_download; [|done..|]|].
  - rewrite (dl_state _ _ _ _ Hd). by apply copy_of_wf.
  - intros _ Hnone. destruct (dl_logic _ _ _ _ Hd) as [l Hl]. congruence.
  - intros [[[w2 conn2] s2'] code] (_ & _ & Hd2 & Hsent).
    unfold downloaded, answering_logic in *. rewrite (dl_request _ _ _ _ Hd), Z.eqb_refl in *.
    destruct Hd2 as [Hsame Hser]. run. split; [congruence|].
    split; [apply Hsame|]. split; [apply Hsame|]. split; [apply Hsame|]. intros Hcode.
    rewrite <- (sd_state _ _ Hsame). by apply Hsent.
Qed.
End StateDownloadProperties.

(** ** Witnesses *)
Import Models.

(** A connection with room for four octets of state; request 5. *)
Definition download_connection : TransportConnection :=
  transportConnectionInit zero_connection 4.
Definition download_stream : FldInStream := fldInStreamInit [5].

Lemma download_connection_wf : game_state_wf (Conn.gameState download_connection).
Proof. apply game_state_init_wf. lia. Qed.

Lemma download_request_correct_witness :
  runs (nimbleServerReqDownloadGameState (H := debug_build) example_world download_connection
          download_stream 3 7)
    (fun '(w', conn', s', code) =>
       Conn.phase conn' = NbTransportConnectionPhaseInitialStateDetermined /\
       Conn.blobStreamOut conn' = Some [1; 2; 3]) /\
  match nimbleServerReqDownloadGameState (H := debug_build) example_world download_connection
          download_stream 3 7 with
  | Ret (w', _, _, code) =>
      code = 0 /\ sent w' = [(3, [0; 0; 7; 5; 0; 3; 5; 127; 6; 127]); (3, [1; 0; 7; 6; 127; 1; 2; 3])]
  | Halt _ => False
  end.
Proof.
  split; [|vm_compute; auto].
  eapply runs_mono; [apply (download_request_correct (H := debug_build) example_world
    download_connection download_stream (fldInStreamReadUInt8 download_stream).1 5)|].
  - exact download_connection_wf.
  - reflexivity.
  - discriminate.
  - discriminate.
  - intros [[[w' conn'] s'] code] (_ & _ & Hd & _).
    split; [exact (dl_phase _ _ _ _ Hd)|exact (dl_out _ _ _ _ Hd)].
Defined.

Lemma download_request_repeated_witness :
  runs ('(w1, conn1, _, _) ←
          nimbleServerReqDownloadGameState (H := debug_build) example_world download_connection
            download_stream 3 7;
        '(w2, conn2, _, code) ←
          nimbleServerReqDownloadGameState (H := debug_build) w1 conn1 download_stream 3 9;
        Ret (w1, conn1, w2, conn2, code))
    (fun '(w1, conn1, w2, conn2, code) =>
       serializations w2 = 1%nat /\ Conn.gameState conn2 = Conn.gameState conn1).
Proof.
  eapply runs_mono; [apply (download_request_repeated (H := debug_build) example_world
    download_connection download_stream (fldInStreamReadUInt8 download_stream).1
    download_stream (fldInStreamReadUInt8 download_stream).1 5)|].
  - exact download_connection_wf.
  - reflexivity.
  - reflexivity.
  - discriminate.
  - discriminate.
  - intros [[[[w1 conn1] w2] conn2] code] (Hser & Hstate & _). split; [exact Hser|exact Hstate].
Defined.
