(* ===== verification/Server.v ===== *)
(** * The server (lib/server.c)

    Initialisation, the feeding of datagrams to the handlers of the requests,
    and the periodic update. *)

From S2P Require Import Prelude.
From S2P Require Import ExternalLibs.
From S2P Require Import ExternalModels.
From S2P Require Import StepLog.
From S2P Require Import CircularBuffer.
From S2P Require Import ConnectionQuality.
From S2P Require Import UpdateQuality.
From S2P Require Import GameState.
From S2P Require Import Participants.
From S2P Require Import LocalParty.
From S2P Require Import TransportConnection.
From S2P Require Import LocalParties.
From S2P Require Import Game.
From S2P Require Import StepFormat.
From S2P Require Import AuthoritativeSteps.
From S2P Require Import Session.
From S2P Require Import StepRequest.
From S2P Require Import ServerState.
From S2P Require Import ConnectRequest.
From S2P Require Import JoinRequest.
From S2P Require Import StateDownload.

Section Server.
Context `{Clog} `{TinyLibc} `{OrderedDatagram} `{!BlobStream} `{NimbleSteps} `{!NimbleSerialize}
  `{!NimbleStepsSerialize} `{Stats} `{DatagramTransport} `{Environment} `{ImprintAllocator}
  `{CallbackObject}.
Implicit Types (self : NimbleServer) (w : World) (parties : LocalParties).

(** ** Parties that are given up *)
Definition markReferencesAsLeaving (pool : list NimbleServerParticipant)
    (participantReferences : ParticipantReferences) : outcome (list NimbleServerParticipant) :=
  for_each (Z.to_nat (Refs.participantReferenceCount participantReferences)) 0 (fun i pool =>
    p ← load (Refs.participantReferences participantReferences) i;
    participant ← load pool p;
    store pool p (nimbleServerParticipantMarkAsLeaving participant)) pool.

Definition destroyParty (pool : list NimbleServerParticipant) parties (p : nat) :
    outcome (list NimbleServerParticipant * LocalParties) :=
  party ← load (Parties.parties parties) p;
  let party := nimbleServerLocalPartyDestroy party in
  l ← store (Parties.parties parties) p party;
  let parties := Parties.set_parties l parties in
  pool ← markReferencesAsLeaving pool (Party.participantReferences party);
  parties ← nimbleServerLocalPartiesRemove parties p;
  Ret (pool, parties).

Definition disconnectTransportConnection self (transportConnection : nat) : outcome NimbleServer :=
  connection ← load (Server.transportConnections self) transportConnection;
  freeList ← nimbleServerCircularBufferWrite (Server.freeTransportConnectionList self)
               (u8 (Conn.id connection));
  connections ← store (Server.transportConnections self) transportConnection
                  (transportConnectionDisconnect connection);
  Ret (Server.set_transportConnections connections
         (Server.set_freeTransportConnectionList freeList self)).

(** The array of participants of the game replaced. *)
Definition set_pool self (pool : list NimbleServerParticipant) : NimbleServer :=
  let game := Server.game self in
  Server.set_game
    (Game.set_participants (Pool.set_participants pool (Game.participants game)) game) self.

(** The end of the party at [i]: it is destroyed and its connection, if it has
    one, is disconnected. *)
Definition give_up_party (i : nat) self : outcome NimbleServer :=
  let pool := Pool.participants (Game.participants (Server.game self)) in
  '(pool, parties) ← destroyParty pool (Server.localParties self) i;
  let self := Server.set_localParties parties (set_pool self pool) in
  party ← load (Parties.parties (Server.localParties self)) i;
  match Party.transportConnection party with
  | Some c => disconnectTransportConnection self c
  | None => Ret self
  end.

(** One round of the loop over the parties. *)
Definition tick_party (i : nat) self : outcome NimbleServer :=
  let pool := Pool.participants (Game.participants (Server.game self)) in
  party ← load (Parties.parties (Server.localParties self)) i;
  if negb (Party.isUsed party) then Ret self
  else
    '(pool, party, isWorking) ← nimbleServerLocalPartyTick pool party;
    l ← store (Parties.parties (Server.localParties self)) i party;
    let self := set_pool self pool in
    let self := Server.set_localParties (Parties.set_parties l (Server.localParties self)) self in
    if negb isWorking then give_up_party i self else Ret self.

Definition tickParties self : outcome NimbleServer :=
  for_each (Z.to_nat (Parties.capacityCount (Server.localParties self))) 0 tick_party self.

(** ** Datagrams *)
Definition nimbleServerIsErrorExternal (err : Z) : bool :=
  (err =? NimbleServerErrSerialize) || (err =? NimbleServerErrSessionFull)
  || (err =? NimbleServerErrDatagramFromDisconnectedConnection)
  || (err =? NimbleServerErrOutOfParticipantMemory).

Definition ESTIMATED_TRANSPORT_SPECIFIC_OVERHEAD : Z := 32.
Definition MAX_SEND_OCTET_SIZE : Z :=
  DATAGRAM_TRANSPORT_MAX_SIZE - ESTIMATED_TRANSPORT_SPECIFIC_OVERHEAD.

(** The connection of a transport index that is not in use yet. *)
Definition opened (transportConnection : TransportConnection) (transportIndex : Z) :
    TransportConnection :=
  Conn.mk _ _ _ _ transportIndex (Conn.transportConnectionId transportConnection)
    transportIndex 0 0 (Conn.assignedParty transportConnection)
    (Conn.orderedDatagramInLogic transportConnection)
    (Conn.orderedDatagramOutLogic transportConnection)
    (Conn.blobStreamOut transportConnection) (Conn.blobStreamLogicOut transportConnection)
    (Conn.nextBlobStreamOutChannel transportConnection)
    (Conn.blobStreamOutClientRequestId transportConnection)
    (Conn.stepsBehindStats transportConnection) (Conn.debugCounter transportConnection)
    true false (Conn.noRangesToSendCounter transportConnection)
    NbTransportConnectionPhaseConnected (Conn.gameState transportConnection).

(** A handler that takes the connection itself runs on the connection at [c]. *)
Definition with_connection {A} self (c : nat)
    (f : TransportConnection -> outcome (TransportConnection * A)) : outcome (NimbleServer * A) :=
  transportConnection ← load (Server.transportConnections self) c;
  '(transportConnection, a) ← f transportConnection;
  connections ← store (Server.transportConnections self) c transportConnection;
  Ret (Server.set_transportConnections connections self, a).

(** The request for a step, on the game and the connection of the server. *)
Definition feed_game_step self (c : nat) (inStream : FldInStream) (outStream : FldOutStream) :
    outcome (NimbleServer * FldInStream * FldOutStream * Z) :=
  transportConnection ← load (Server.transportConnections self) c;
  '(l, game, transportConnection, stat, inStream, outStream, result) ←
    nimbleServerReqGameStep (Parties.parties (Server.localParties self)) (Server.game self)
      transportConnection (Server.authoritativeStepsPerSecondStat self) inStream outStream;
  connections ← store (Server.transportConnections self) c transportConnection;
  let self := Server.set_localParties (Parties.set_parties l (Server.localParties self))
    (Server.set_game game (Server.set_authoritativeStepsPerSecondStat stat
       (Server.set_transportConnections connections self))) in
  Ret (self, inStream, outStream, result).

(** The handler of a command with one reply; [None] for an unknown command. *)
Definition handle_command self w (cmd : Z) (c : nat) (transportIndex clientTime replyTo : Z)
    (inStream : FldInStream) (outStream : FldOutStream) :
    outcome (option (NimbleServer * World * FldInStream * FldOutStream * Z)) :=
  if cmd =? NimbleSerializeCmdConnectRequest then
    r ← nimbleServerReqConnect self w transportIndex inStream outStream; Ret (Some r)
  else if cmd =? NimbleSerializeCmdGameStep then
    '(self, inStream, outStream, result) ← feed_game_step self c inStream outStream;
    Ret (Some (self, w, inStream, outStream, result))
  else if cmd =? NimbleSerializeCmdJoinGameRequest then
    '(self, inStream, outStream, result) ← nimbleServerReqGameJoin self c inStream outStream;
    Ret (Some (self, w, inStream, outStream, result))
  else if cmd =? NimbleSerializeCmdDownloadGameStateRequest then
    '(self, (w, inStream, result)) ← with_connection self c (fun transportConnection =>
      '(w, transportConnection, inStream, result) ←
        nimbleServerReqDownloadGameState w transportConnection inStream replyTo clientTime;
      Ret (transportConnection, (w, inStream, result)));
    Ret (Some (self, w, inStream, outStream, result))
  else Ret None.

(** One round of the loop over the commands of a datagram. *)
Definition feed_command (c : nat) (transportIndex clientTime replyTo : Z)
    (s : NimbleServer * World * FldInStream) :
    outcome (flow (NimbleServer * World * FldInStream) (NimbleServer * World * Z)) :=
  let '(self, w, inStream) := s in
  if in_pos inStream =? in_size inStream then Ret (Return (self, w, 0))
  else
    let '(inStream, read) := fldInStreamReadUInt8 inStream in
    cmd ← initialized NumberOfDatagram (u8 <$> read);
    if cmd =? NimbleSerializeCmdClientOutBlobStream then
      '(self, (w, inStream, err)) ← with_connection self c (fun transportConnection =>
        '(w, transportConnection, inStream, err) ←
          nimbleServerReqBlobStream w transportConnection inStream replyTo clientTime;
        Ret (transportConnection, (w, inStream, err)));
      if err <? 0 then Ret (Return (self, w, err)) else Ret (Continue (self, w, inStream))
    else
      transportConnection ← load (Server.transportConnections self) c;
      let outStream := set_writeDebugInfo false (fldOutStreamInit MAX_SEND_OCTET_SIZE) in
      let '(outStream, err) :=
        transportConnectionWriteHeader transportConnection outStream clientTime in
      if err <? 0 then Ret (Return (self, w, err))
      else
        r ← handle_command self w cmd c transportIndex clientTime replyTo inStream outStream;
        match r with
        | None => Ret (Return (self, w, 0))
        | Some (self, w, inStream, outStream, result) =>
            if result <? 0 then Ret (Return (self, w, result))
            else if out_pos outStream <=? 4
            then Ret (Return (self, w, NimbleServerErrSerialize))
            else
              '(self, _) ← with_connection self c (fun transportConnection =>
                Ret (transportConnectionCommitHeader transportConnection, tt));
              if datagramTransportMaxSize <? out_pos outStream
              then Ret (Return (self, w, NimbleServerErrSerialize))
              else Ret (Continue (self, send replyTo (out_octets outStream) w, inStream))
        end.

(** The loop has no bound in the code; every round reads at least one octet of
    the datagram, so one round more than there are octets is enough. *)
Definition nimbleServerFeed self w (transportIndex : Z) (data : list Z) (replyTo : Z) :
    outcome (NimbleServer * World * Z) :=
  let inStream := set_readDebugInfo true (fldInStreamInit data) in
  if NIMBLE_NIMBLE_SERVER_MAX_TRANSPORT_CONNECTIONS <=? transportIndex
  then Ret (self, w, NimbleServerErrSerialize)
  else
    let c := Z.to_nat transportIndex in
    transportConnection ← load (Server.transportConnections self) c;
    let transportConnection :=
      if negb (Conn.isUsed transportConnection)
      then transportConnectionInit (opened transportConnection transportIndex)
             (maxGameStateOctetCount (Server.setup self))
      else transportConnection in
    connections ← store (Server.transportConnections self) c transportConnection;
    let self := Server.set_transportConnections connections self in
    if negb (Conn.transportIndex transportConnection =? transportIndex)
    then Ret (self, w, NimbleServerErrSerialize)
    else
      let '(inLogic, inStream, error) :=
        orderedDatagramInLogicReceive (Conn.orderedDatagramInLogic transportConnection)
          inStream in
      connections ← store (Server.transportConnections self) c
        (Conn.set_orderedDatagramInLogic inLogic transportConnection);
      let self := Server.set_transportConnections connections self in
      if error <? 0 then Ret (self, w, NimbleServerErrSerialize)
      else
        let '(inStream, read) := fldInStreamReadUInt16 inStream in
        if in_pos inStream =? in_size inStream then Ret (self, w, 0)
        else
          clientTime ← initialized NumberOfDatagram read;
          while_loop (S (length data)) (feed_command c transportIndex clientTime replyTo)
            (self, w, inStream).

Definition maximumNumberOfDatagramsPerTick : nat := 64.

Definition nimbleServerReadFromMultiTransport self w : outcome (NimbleServer * World * Z) :=
  r ← for_loop maximumNumberOfDatagramsPerTick 0 (fun _ '(self, w) =>
    match inbox w with
    | [] => Ret (Return (self, w, 0))
    | r :: rest =>
        let w := set_inbox rest w in
        if octetCountReceived r =? 0 then Ret (Return (self, w, 0))
        else if octetCountReceived r <? 0
        then Ret (Return (self, w, s32 (octetCountReceived r)))
        else
          _ ← CLOG_ASSERT (octetCountReceived r <=? DATAGRAM_TRANSPORT_MAX_SIZE);
          '(self, w, errorCode) ←
            nimbleServerFeed self w (u8 (received_connectionId r))
              (take (Z.to_nat (octetCountReceived r)) (received_octets r))
              (received_connectionId r);
          if errorCode <? 0 then Ret (Return (self, w, errorCode))
          else Ret (Continue (self, w))
    end) (self, w);
  match r with
  | Return result => Ret result
  | Continue (self, w) => Ret (self, w, 0)
  end.

(** [now] is the time the caller passes. *)
Definition nimbleServerUpdate self w (now : Z) : outcome (NimbleServer * World * Z) :=
  '(quality, qualityError) ←
    nimbleServerUpdateQualityTick (Server.updateQuality self) (monotonicTimeMsNow (times w));
  let w := if bool_decide (UpdateQ.state (Server.updateQuality self)
                           = NimbleServerUpdateQualityStateWorking)
           then tick_clock w else w in
  let self := Server.set_updateQuality quality self in
  if qualityError <? 0 then Ret (self, w, qualityError)
  else
    self ← tickParties self;
    '(self, w, _) ← nimbleServerReadFromMultiTransport self w;
    let self := Server.set_authoritativeStepsPerSecondStat
      (statsIntPerSecondUpdate (Server.authoritativeStepsPerSecondStat self) now) self in
    Ret (Server.set_statsCounter (u16 (Server.statsCounter self + 1)) self, w, 0).

(** ** Initialisation *)

(** The fields of the connection at position [i] that [nimbleServerInit] sets. *)
Definition init_connection (i : nat) (transportConnection : TransportConnection) :
    TransportConnection :=
  Conn.set_isUsed false
    (Conn.set_transportConnectionId (u8 (Z.of_nat i))
       (Conn.set_assignedParty None transportConnection)).

(** [self] is the memory of the server. *)
Definition nimbleServerInit self w (setup : Setup) : outcome (NimbleServer * World * Z) :=
  _ ← CLOG_ASSERT (memory setup);
  _ ← CLOG_ASSERT (blobAllocator setup);
  _ ← (if NIMBLE_NIMBLE_SERVER_MAX_TRANSPORT_CONNECTIONS <? maxConnectionCount setup
       then CLOG_ERROR else Ret tt);
  _ ← (if NimbleStepMaxSingleStepOctetCount <? maxSingleParticipantStepOctetCount setup
       then CLOG_ERROR else Ret tt);
  let maximumNumberOfParticipantsAllowed := NIMBLE_NIMBLE_SERVER_MAX_TRANSPORT_CONNECTIONS in
  _ ← (if maximumNumberOfParticipantsAllowed <? maxParticipantCount setup
       then CLOG_ERROR else Ret tt);
  localParties ← nimbleServerLocalPartiesInit (maxConnectionCount setup)
    (maxParticipantCountForEachConnection setup) (maxSingleParticipantStepOctetCount setup);
  connection0 ← load (Server.transportConnections self) 0;
  connections ← store (Server.transportConnections self) 0 (init_connection 0 connection0);
  let freeList := nimbleServerCircularBufferInit (Server.freeTransportConnectionList self) in
  '(connections, freeList) ←
    for_each (Z.to_nat (NIMBLE_NIMBLE_SERVER_MAX_TRANSPORT_CONNECTIONS - 1)) 1
      (fun i '(connections, freeList) =>
        connection ← load connections i;
        connections ← store connections i (init_connection i connection);
        freeList ← nimbleServerCircularBufferWrite freeList (u8 (Z.of_nat i));
        Ret (connections, freeList)) (connections, freeList);
  Ret (Server.mk _ _ _ _ _ _ connections localParties (Server.game self)
         (setup_applicationVersion setup) setup (Server.statsCounter self)
         (statsIntPerSecondInit (now setup) 1000)
         (nimbleServerUpdateQualityInit (Server.updateQuality self) (targetTickTimeMs setup)
            (monotonicTimeMsNow (times w)))
         freeList (Server.sessionSecret self),
       tick_clock w, 0).

Definition nimbleServerReInitWithGame self w (stepId now : Z) :
    outcome (NimbleServer * World * Z) :=
  game ← nimbleServerGameInit (Server.game self)
    (maxSingleParticipantStepOctetCount (Server.setup self))
    (maxParticipantCount (Server.setup self));
  let game := Game.set_authoritativeSteps
    (nbsStepsReInit (Game.authoritativeSteps game) stepId) game in
  let self := Server.set_authoritativeStepsPerSecondStat (statsIntPerSecondInit now 1000)
    (Server.set_game game self) in
  parties ← nimbleServerLocalPartiesReset (Server.localParties self);
  let self := Server.set_localParties parties self in
  let self := Server.set_updateQuality
    (nimbleServerUpdateQualityReInit (Server.updateQuality self) (monotonicTimeMsNow (times w)))
    self in
  Ret (Server.set_statsCounter 0 self, tick_clock w, 0).

(** ** Notifications of the transport layer *)
Definition nimbleServerConnectionConnected self (connectionIndex : Z) :
    outcome (NimbleServer * Z) :=
  transportConnection ← load (Server.transportConnections self) (Z.to_nat connectionIndex);
  if Conn.isUsed transportConnection then Ret (self, -44)
  else
    connections ← store (Server.transportConnections self) (Z.to_nat connectionIndex)
      (Conn.set_isUsed true transportConnection);
    Ret (Server.set_transportConnections connections self, 0).

(** The pointer that [FindParty] returns is never NULL. *)
Definition nimbleServerConnectionDisconnected self (connectionIndex : Z) :
    outcome (NimbleServer * Z) :=
  p ← nimbleServerLocalPartiesFindParty (Server.localParties self) connectionIndex;
  foundConnection ← load (Parties.parties (Server.localParties self)) p;
  if negb (Party.isUsed foundConnection) then Ret (self, -4)
  else
    parties ← store (Parties.parties (Server.localParties self)) p
      (Party.set_isUsed false (Party.set_id 255 foundConnection));
    let self := Server.set_localParties
      (Parties.set_parties parties (Server.localParties self)) self in
    transportConnection ← load (Server.transportConnections self) (Z.to_nat connectionIndex);
    connections ← store (Server.transportConnections self) (Z.to_nat connectionIndex)
      (Conn.set_orderedDatagramInLogic
         (set_hasReceivedInitialDatagram false (Conn.orderedDatagramInLogic transportConnection))
         transportConnection);
    Ret (Server.set_transportConnections connections self, 0).

(** Does nothing. *)
Definition nimbleServerReset self : NimbleServer := self.

End Server.

(** ** The ticks of the parties *)
Section TickParties.
Context `{Clog} `{OrderedDatagram} `{!BlobStream} `{NimbleSteps} `{!NimbleSerialize} `{Stats}.
Context `{!NimbleStepsLaws} `{!NimbleSerializeLaws}.
Implicit Types (self : NimbleServer) (w : World) (parties : LocalParties)
  (party : NimbleServerLocalParty) (pool : list NimbleServerParticipant).

Abbreviation parties_of self := (Parties.parties (Server.localParties self)).
Abbreviation players_of self := (pool_of (Server.game self)).

(** A party that waited for its client as long as it may. *)
Definition gives_up party : bool :=
  bool_decide (Party.state party = NimbleServerLocalPartyStateWaitingForReJoin)
  && (Party.waitingForReconnectMaxTimer party <=? u64 (Party.waitingForReconnectTimer party + 1)).

(** What the tick makes of a party. *)
Definition party_ticked party : NimbleServerLocalParty :=
  match Party.state party with
  | NimbleServerLocalPartyStateNormal =>
      let '(delayed, healthy) :=
        nimbleServerConnectionQualityDelayedTick (Party.delayedQuality party)
          (Party.quality party) in
      if healthy then Party.set_delayedQuality delayed party else waiting party delayed
  | NimbleServerLocalPartyStateWaitingForReJoin =>
      Party.set_waitingForReconnectTimer (u64 (Party.waitingForReconnectTimer party + 1)) party
  | NimbleServerLocalPartyStateDissolved => party
  end.

(** Participants of other parties are left alone. *)
Definition only_marked (ps : list nat) pool pool' : Prop :=
  forall q, q ∉ ps -> pool' !! q = pool !! q.

Lemma only_marked_marked st ps pool : only_marked ps pool (marked st ps pool).
Proof. intros q Hq. rewrite lookup_marked. by rewrite decide_False. Qed.

Lemma marked_kept st ps pool :
  st <> NimbleServerParticipantStateLeaving -> pool_kept pool (marked st ps pool).
Proof.
  intros Hst. apply Forall2_same_length_lookup_2; [by rewrite length_marked|].
  intros q p p' Hp Hp'. rewrite lookup_marked, Hp in Hp'.
  destruct (decide _); simplify_eq/=; done.
Qed.

Record ticked_party pool party pool' party' (keep : bool) : Prop := {
  tp_like : forall npool, party_like npool 64 party party';
  tp_conn : Party.transportConnection party' = Party.transportConnection party;
  tp_party : party' = party_ticked party;
  tp_keep : keep = negb (gives_up party);
  tp_pool : forall n, pool_like n pool pool';
  tp_kept : pool_kept pool pool';
  tp_only : only_marked (referenced (Party.participantReferences party)) pool pool';
}.

Lemma pool_kept_refl pool : pool_kept pool pool.
Proof. by apply Forall2_same_length_lookup_2; [|intros; simplify_eq]. Qed.

Lemma timer_like npool party t : 0 <= t < 18446744073709551616 ->
  party_like npool 64 party (Party.set_waitingForReconnectTimer t party).
Proof.
  intros Ht. split; [done|]. split; [done|]. intros [Hid [Hr _ Hm Hd] Hs Hc]. by split; simpl.
Qed.

Lemma delayed_like npool party d :
  (0 <= Delayed.impedingDisconnectCounter (Party.delayedQuality party) < 18446744073709551616 ->
   0 <= Delayed.impedingDisconnectCounter d < 18446744073709551616) ->
  party_like npool 64 party (Party.set_delayedQuality d party).
Proof.
  intros Hd. split; [done|]. split; [done|]. intros [Hid [Hr Ht Hm Hd'] Hs Hc].
  split; simpl; try done. split; simpl; auto.
Qed.

Lemma waiting_like npool party d :
  (0 <= Delayed.impedingDisconnectCounter (Party.delayedQuality party) < 18446744073709551616 ->
   0 <= Delayed.impedingDisconnectCounter d < 18446744073709551616) ->
  party_like npool 64 party (waiting party d).
Proof.
  intros Hd. split; [done|]. split; [done|]. intros [Hid [Hr Ht Hm Hd'] Hs Hc].
  split; simpl; try done. split; simpl; auto. lia.
Qed.

Lemma runs_tick_party {E} pool party :
  refs_ok (length pool) (Party.participantReferences party) ->
  sat E (nimbleServerLocalPartyTick pool party) (fun '(pool', party', keep) =>
    ticked_party pool party pool' party' keep).
Proof.
  intros Hr. apply runs_tick; [done|].
  pose proof (delayed_tick_range (Party.delayedQuality party) (Party.quality party)) as Hd.
  assert (Hsame : forall party' keep, (forall npool, party_like npool 64 party party') ->
    Party.transportConnection party' = Party.transportConnection party ->
    party' = party_ticked party -> keep = negb (gives_up party) ->
    ticked_party pool party pool party' keep).
  { intros party' keep Hl Hc Hp Hk. split; try done. apply pool_kept_refl. }
  assert (Hticked : party_ticked party = party_ticked party) by done.
  unfold party_ticked at 2 in Hticked. unfold gives_up in *.
  destruct (Party.state party) eqn:Hst.
  - destruct (nimbleServerConnectionQualityDelayedTick _ _) as [delayed [|]]; simpl in *.
    + by apply Hsame; [intros npool; apply delayed_like|..].
    + split; try done.
      * intros npool. by apply waiting_like.
      * unfold gives_up. by rewrite Hst.
      * intros n. apply marked_like.
      * by apply marked_kept.
      * apply only_marked_marked.
  - simpl. apply Hsame; [intros npool; apply timer_like, u64_range|done..|].
    rewrite bool_decide_true by done. simpl. by rewrite Z.leb_antisym, negb_involutive.
  - by apply Hsame.
Qed.

Lemma tick_session self i party pool' party' keep :
  server_ok self -> parties_of self !! i = Some party ->
  ticked_party (players_of self) party pool' party' keep ->
  session_after self
    (Parties.set_parties (<[i := party']> (parties_of self)) (Server.localParties self))
    (Pool.set_participants pool' (Game.participants (Server.game self))).
Proof.
  intros Hs Hi Ht. pose proof (sv_session _ Hs) as Hses.
  pose proof (session_pool _ _ _ _ (tp_pool _ _ _ _ _ Ht _) (tp_kept _ _ _ _ _ Ht) Hses) as Hpool.
  pose proof (session_parties_like _ _ _ _
    (parties_like_insert _ _ _ _ _ _ Hi (tp_like _ _ _ _ _ Ht _)) Hpool) as Hok.
  split; simpl; [done| |by rewrite length_insert].
  rewrite (pool_like_length _ _ _ (tp_pool _ _ _ _ _ Ht 0)).
  apply parties_wf_like; [apply Hs|]. apply (parties_like_insert _ _ _ _ party); [done|].
  apply Ht.
Qed.

(** The party at [p] dissolved: its participants leave, its place is free. *)
Definition dissolved parties (p : nat) party : LocalParties :=
  Parties.mk _
    (<[p := nimbleServerLocalPartyReset (nimbleServerLocalPartyDestroy party)]>
       (Parties.parties parties))
    (Parties.partiesCount parties - 1) (Parties.capacityCount parties)
    (Parties.maxLocalPartyParticipantCount parties)
    (Parties.maxSingleParticipantStepOctetCount parties).

Abbreviation marked_leaving pool party :=
  (marked NimbleServerParticipantStateLeaving
     (referenced (Party.participantReferences party)) pool).

Lemma runs_destroy_party {E} npool pool parties p party
    (Q : list NimbleServerParticipant * LocalParties -> Prop) :
  parties_wf npool 64 parties -> Parties.parties parties !! p = Some party ->
  Party.isUsed party = true -> refs_ok (length pool) (Party.participantReferences party) ->
  Q (marked_leaving pool party, dissolved parties p party) ->
  sat E (destroyParty pool parties p) Q.
Proof.
  intros Hwf Hp Hu Hr HQ. unfold destroyParty. run.
  apply (mark_references_marked NimbleServerParticipantStateLeaving); [done|].
  apply runs_bind.
  assert (Hnew : <[p := nimbleServerLocalPartyDestroy party]> (Parties.parties parties) !! p
                 = Some (nimbleServerLocalPartyDestroy party)).
  { apply list_lookup_insert_eq. by eapply lookup_lt_Some. }
  eapply (runs_remove npool 64); [|exact Hnew|exact Hu|].
  - apply parties_wf_like; [done|]. apply (parties_like_insert _ _ _ _ party); [done|].
    split; [done|]. split; [done|]. by intros [? [] ? ?].
  - run. simpl. by rewrite list_insert_insert_eq.
Qed.

(** Participants leave without any other party losing one. *)
Lemma owned_dissolved (l : list NimbleServerLocalParty) pool p party party' :
  owned l pool -> l !! p = Some party -> Party.isUsed party = true ->
  Party.isUsed party' = false ->
  owned (<[p := party']> l) (marked_leaving pool party).
Proof.
  intros Hown Hp Hu Hu' i q Hi Hq.
  destruct (decide (p = i)) as [<-|Hne].
  { rewrite list_lookup_insert_eq in Hi by (by eapply lookup_lt_Some). congruence. }
  rewrite list_lookup_insert_ne in Hi by done. intros k Hk.
  destruct (Hown i q Hi Hq k Hk) as (o & Ho & Hou & Hin & Hst).
  exists o. rewrite lookup_marked, decide_False; [done|].
  intros Hk'. destruct (Hown p party Hp Hu k Hk') as (o' & Ho' & _ & Hin' & _). congruence.
Qed.

Lemma session_after_dissolved self p party :
  server_ok self -> parties_of self !! p = Some party -> Party.isUsed party = true ->
  session_after self (dissolved (Server.localParties self) p party)
    (Pool.set_participants (marked_leaving (players_of self) party)
       (Game.participants (Server.game self))).
Proof.
  intros Hs Hp Hu. destruct (sv_session _ Hs) as [Hparties Hpool Hok Hown Hsteps].
  set (ps := referenced (Party.participantReferences party)).
  pose proof (marked_like (length (parties_of self)) NimbleServerParticipantStateLeaving ps
    (players_of self)) as Hl.
  set (party' := nimbleServerLocalPartyReset (nimbleServerLocalPartyDestroy party)).
  assert (Hwf : parties_wf (length (players_of self)) 64
                  (dissolved (Server.localParties self) p party)).
  { pose proof (Forall_lookup_1 _ _ _ _ Hparties Hp) as Hparty.
    assert (Hparty' : party_wf (length (players_of self)) 64 party').
    { eapply (reset_wf (length (players_of self))). by destruct Hparty as [? [] ? ?]. }
    pose proof (parties_wf_insert _ _ _ _ _ _ (sv_parties _ Hs) Hp Hparty') as Hnew.
    rewrite Hu in Hnew. simpl in Hnew. by rewrite Z.add_0_r in Hnew. }
  split; simpl; [|by rewrite length_marked|by rewrite length_insert]. split; simpl.
  - rewrite length_marked. apply Hwf.
  - by eapply pool_wf_like.
  - rewrite length_insert. by eapply pool_like_ok.
  - by apply owned_dissolved.
  - done.
Qed.

(** The connection of a dissolved party goes back to the free list. *)
Lemma disconnected_ok n conn :
  conn_ok n conn -> conn_ok n (transportConnectionDisconnect conn).
Proof. by intros []. Qed.

Lemma runs_disconnect self c conn :
  checks_on -> server_ok self -> Server.transportConnections self !! c = Some conn ->
  sat checked_halt (disconnectTransportConnection self c) (fun self' =>
    server_ok self' /\ exists free,
    self' = Server.set_transportConnections
              (<[c := transportConnectionDisconnect conn]> (Server.transportConnections self))
              (Server.set_freeTransportConnectionList free self) /\
    contents free = contents (Server.freeTransportConnectionList self) ++ [Conn.id conn]).
Proof.
  intros Hon Hs Hc. unfold disconnectTransportConnection. run.
  pose proof (Forall_lookup_1 _ _ _ _ (sv_each _ Hs) Hc) as Hconn.
  pose proof (conn_id _ _ Hconn) as Hid. rewrite u8_small by lia.
  destruct (CBuf.isFull (Server.freeTransportConnectionList self)) eqn:Hfull.
  { unfold nimbleServerCircularBufferWrite. rewrite Hfull. by apply (checked_error true). }
  apply runs_write; [apply Hs|done|]. intros free Hcb Hcont. run.
  split; [|by exists free].
  set (w := mkWorld 0 0 0 [] []).
  destruct (ss_ok _ _ _ _ (server_conn_insert self w c _ Hs (disconnected_ok _ _ Hconn))).
  split; simpl in *; try done. rewrite Hcont. apply Forall_app. split; [apply Hs|].
  by constructor.
Qed.

(** What the round for party [k] leaves alone. *)
Record tick_frame (k : nat) self self' : Prop := {
  tf_parties : forall i, i <> k -> parties_of self' !! i = parties_of self !! i;
  tf_players : forall q o, players_of self !! q = Some o -> Participant.inParty o <> Some k ->
    players_of self' !! q = Some o;
  tf_connections : forall c conn, Server.transportConnections self !! c = Some conn ->
    Server.transportConnections self' !! c = Some conn \/
    Server.transportConnections self' !! c = Some (transportConnectionDisconnect conn);
}.

Lemma tick_frame_trans k s1 s2 s3 : tick_frame k s1 s2 -> tick_frame k s2 s3 -> tick_frame k s1 s3.
Proof.
  intros [Hp1 Ho1 Hc1] [Hp2 Ho2 Hc2]. split.
  - intros i Hi. by rewrite Hp2, Hp1.
  - intros q o Ho Hin. by apply Ho2, Hin; apply Ho1.
  - intros c conn Hc. destruct (Hc1 c conn Hc) as [H1'|H1'].
    + by apply Hc2.
    + right. by destruct (Hc2 c _ H1') as [|].
Qed.

(** A party that is gone. *)
Record gone self' (k : nat) party : Prop := {
  gone_party : exists party', parties_of self' !! k = Some party' /\ Party.isUsed party' = false;
  gone_players : forall q, q ∈ referenced (Party.participantReferences party) ->
    exists o, players_of self' !! q = Some o /\ Participant.inParty o = Some k /\
      Participant.state o = NimbleServerParticipantStateLeaving;
  gone_connection : forall c, Party.transportConnection party = Some c ->
    exists conn, Server.transportConnections self' !! c = Some conn /\
      Conn.isUsed conn = false /\ Conn.phase conn = NbTransportConnectionPhaseDisconnected;
}.

Lemma lookup_dissolved parties p party :
  Parties.parties parties !! p = Some party ->
  Parties.parties (dissolved parties p party) !! p
  = Some (nimbleServerLocalPartyReset (nimbleServerLocalPartyDestroy party)).
Proof. intros Hp. simpl. apply list_lookup_insert_eq. by eapply lookup_lt_Some. Qed.

(** The server once the party at [p] is dissolved. *)
Definition without_party self (p : nat) party : NimbleServer :=
  Server.set_localParties (dissolved (Server.localParties self) p party)
    (set_pool self (marked_leaving (players_of self) party)).

Lemma without_party_step self w p party :
  server_ok self -> parties_of self !! p = Some party -> Party.isUsed party = true ->
  server_change self w (without_party self p party) w /\
  tick_frame p self (without_party self p party).
Proof.
  intros Hs Hp Hu. destruct (session_after_dissolved self p party Hs Hp Hu) as [Hses Hwf Hlen].
  split; [by apply server_parties_change|]. split; simpl.
  - intros i Hi. by rewrite list_lookup_insert_ne.
  - intros q o Ho Hin. rewrite lookup_marked, decide_False; [done|]. intros Hq.
    destruct (so_owned _ _ _ (sv_session _ Hs) p party Hp Hu q Hq) as (o' & Ho' & _ & Hin' & _).
    congruence.
  - by left.
Qed.

Lemma without_party_players self p party q :
  server_ok self -> parties_of self !! p = Some party -> Party.isUsed party = true ->
  q ∈ referenced (Party.participantReferences party) ->
  exists o, players_of (without_party self p party) !! q = Some o /\
    Participant.inParty o = Some p /\ Participant.state o = NimbleServerParticipantStateLeaving.
Proof.
  intros Hs Hp Hu Hq.
  destruct (so_owned _ _ _ (sv_session _ Hs) p party Hp Hu q Hq) as (o & Ho & _ & Hin & _).
  exists (Participant.set_state NimbleServerParticipantStateLeaving o). simpl.
  by rewrite lookup_marked, decide_True, Ho.
Qed.

Lemma runs_give_up self w k party :
  checks_on -> server_ok self -> parties_of self !! k = Some party -> Party.isUsed party = true ->
  sat checked_halt (give_up_party k self) (fun self' =>
    server_change self w self' w /\ tick_frame k self self' /\ gone self' k party).
Proof.
  intros Hon Hs Hk Hu. unfold give_up_party.
  pose proof (session_party _ _ _ _ _ (sv_session _ Hs) Hk) as Hparty.
  destruct (without_party_step self w k party Hs Hk Hu) as [Hstep Hframe].
  pose proof (lookup_dissolved _ _ _ Hk) as Hgone.
  apply runs_bind. eapply runs_destroy_party; [apply Hs|exact Hk|exact Hu|apply Hparty|].
  run. change (Party.transportConnection (nimbleServerLocalPartyReset _))
    with (Party.transportConnection party).
  destruct (Party.transportConnection party) as [c|] eqn:Hconn; cycle 1.
  { run. split; [exact Hstep|]. split; [exact Hframe|]. split; [by eexists| |congruence].
    intros q Hq. by apply without_party_players. }
  destruct (server_conn_lookup self c Hs) as (conn & Hc & _).
  { by apply (party_connection _ _ _ Hparty). }
  pose proof (lookup_lt_Some _ _ _ Hc).
  eapply runs_mono; [apply (runs_disconnect _ c conn); [done|apply Hstep|exact Hc]|].
  intros self' [Hok (free & -> & _)]. destruct Hstep as [_ Hq Hset Htimes]. split; [by split|].
  destruct Hframe as [Hp Ho _]. split.
  - split; [exact Hp|exact Ho|]. simpl. intros d conn' Hd.
    destruct (decide (c = d)) as [<-|Hne].
    + rewrite Hc in Hd. injection Hd as <-. right. by apply list_lookup_insert_eq.
    + left. by rewrite list_lookup_insert_ne.
  - split; [by eexists|intros q Hq'; by apply (without_party_players self k party)|].
    rewrite Hconn. intros ? [= <-]. exists (transportConnectionDisconnect conn). split; [|done].
    by apply list_lookup_insert_eq.
Qed.

(** What a round makes of the party itself, when in use. *)
Definition tick_result self' (k : nat) party : Prop :=
  if gives_up party then gone self' k party
  else parties_of self' !! k = Some (party_ticked party).

(** It is the same party all the same. *)
Lemma party_ticked_same party :
  Party.isUsed (party_ticked party) = Party.isUsed party /\
  Party.participantReferences (party_ticked party) = Party.participantReferences party /\
  Party.transportConnection (party_ticked party) = Party.transportConnection party /\
  Party.quality (party_ticked party) = Party.quality party /\
  Party.waitingForReconnectMaxTimer (party_ticked party)
  = Party.waitingForReconnectMaxTimer party.
Proof.
  unfold party_ticked. destruct (Party.state party); [|done..].
  by destruct (nimbleServerConnectionQualityDelayedTick _ _) as [delayed [|]].
Qed.

(** The server after the tick of the party itself. *)
Lemma ticked_step self w k party pool party' keep :
  server_ok self -> parties_of self !! k = Some party -> Party.isUsed party = true ->
  ticked_party (players_of self) party pool party' keep ->
  let self1 := Server.set_localParties
    (Parties.set_parties (<[k := party']> (parties_of self)) (Server.localParties self))
    (set_pool self pool) in
  server_change self w self1 w /\ tick_frame k self self1 /\
  parties_of self1 !! k = Some party'.
Proof.
  intros Hs Hk Hu Ht self1. destruct (tick_session _ _ _ _ _ _ Hs Hk Ht) as [Hses Hwf Hlen].
  split; [by apply server_parties_change|]. split.
  - split; simpl; [intros i Hi; by rewrite list_lookup_insert_ne| |by left].
    intros q o Ho Hin. rewrite (tp_only _ _ _ _ _ Ht); [done|]. intros Hq.
    destruct (so_owned _ _ _ (sv_session _ Hs) k party Hk Hu q Hq) as (o' & Ho' & _ & Hin' & _).
    congruence.
  - apply list_lookup_insert_eq. by eapply lookup_lt_Some.
Qed.

Lemma runs_tick_one self w k party :
  checks_on -> server_ok self -> parties_of self !! k = Some party -> Party.isUsed party = true ->
  sat checked_halt (tick_party k self) (fun self' =>
    server_change self w self' w /\ tick_frame k self self' /\ tick_result self' k party).
Proof.
  intros Hon Hs Hk Hu. unfold tick_party. run. rewrite Hu. simpl.
  pose proof (session_party _ _ _ _ _ (sv_session _ Hs) Hk) as Hparty.
  eapply runs_bind_mono; [apply runs_tick_party, Hparty|].
  intros [[pool party'] keep] Ht. run.
  destruct (ticked_step _ w _ _ _ _ _ Hs Hk Hu Ht) as (Hstep & Hframe & Hk').
  destruct (tp_like _ _ _ _ _ Ht 0%nat) as (Hu' & Hrefs & _). rewrite Hu in Hu'.
  rewrite (tp_keep _ _ _ _ _ Ht), negb_involutive. unfold tick_result.
  destruct (gives_up party); simpl.
  - eapply runs_mono; [by apply (runs_give_up _ w k party'); [|apply Hstep|..]|].
    intros self' (Hstep2 & Hframe2 & [Hparty' Hplayers Hconn]).
    split; [by eapply server_change_trans|]. split; [by eapply tick_frame_trans|].
    split; [exact Hparty'|by rewrite <- Hrefs|by rewrite <- (tp_conn _ _ _ _ _ Ht)].
  - split; [exact Hstep|]. split; [exact Hframe|]. by rewrite <- (tp_party _ _ _ _ _ Ht).
Qed.

(** What became of a party is not changed by the rounds of the others. *)
Lemma tick_result_frame s s' i k party :
  i <> k -> tick_frame k s s' -> tick_result s i party -> tick_result s' i party.
Proof.
  intros Hi [Hp Ho Hc]. unfold tick_result. rewrite (Hp i Hi).
  destruct (gives_up party); [|done]. intros [Hparty Hplayers Hconn]. split.
  - by rewrite (Hp i Hi).
  - intros q Hq. destruct (Hplayers q Hq) as (o & Hq' & Hin & Hst). exists o.
    split; [|done]. apply Ho; [done|congruence].
  - intros c Hpc. destruct (Hconn c Hpc) as (conn & Hl & Hu & Hph).
    destruct (Hc c conn Hl); [by exists conn|]. by exists (transportConnectionDisconnect conn).
Qed.

(** The parties that the rounds before [j] went over. *)
Definition ticked_until self (j : nat) self' : Prop :=
  forall i party, parties_of self !! i = Some party ->
    if bool_decide (i < j)%nat && Party.isUsed party then tick_result self' i party
    else parties_of self' !! i = Some party.

Lemma ticked_until_round self j s s' party :
  ticked_until self j s -> parties_of self !! j = Some party -> tick_frame j s s' ->
  (if Party.isUsed party then tick_result s' j party else parties_of s' !! j = Some party) ->
  ticked_until self (S j) s'.
Proof.
  intros Hs Hj Hframe Hnew i q Hi. specialize (Hs i q Hi).
  destruct (decide (i = j)) as [->|Hne].
  - rewrite Hj in Hi. injection Hi as <-. rewrite bool_decide_true by lia. exact Hnew.
  - rewrite (bool_decide_ext (i < S j)%nat (i < j)%nat) by lia.
    destruct (_ && _); [by eapply tick_result_frame|]. by rewrite (tf_parties _ _ _ Hframe).
Qed.

Lemma runs_tick_parties self w :
  checks_on -> server_ok self ->
  sat checked_halt (tickParties self) (fun self' =>
    server_change self w self' w /\ ticked_until self (length (parties_of self)) self').
Proof.
  intros Hon Hs. unfold tickParties.
  rewrite <- (parties_length _ _ _ (sv_parties _ Hs)), Nat2Z.id.
  apply (runs_for_each (fun j s => server_change self w s w /\ ticked_until self j s)).
  - split; [by apply server_change_refl|]. intros i party Hi. by rewrite bool_decide_false by lia.
  - intros j s Hj [Hstep Huntil].
    destruct (lookup_lt_is_Some_2 (parties_of self) j) as [party Hp]; [lia|].
    pose proof (Huntil j party Hp) as Hnow. rewrite bool_decide_false in Hnow by lia.
    simpl in Hnow. destruct (Party.isUsed party) eqn:Hu.
    + eapply runs_mono; [by apply (runs_tick_one s w j party); [|apply Hstep|..]|].
      intros s' (Hstep' & Hframe & Hres). split; [by eapply server_change_trans|].
      eapply ticked_until_round; [done..|]. by rewrite Hu.
    + unfold tick_party. run. rewrite Hu. simpl. split; [done|].
      apply (ticked_until_round self j s s party); [done..| |by rewrite Hu].
      split; [done..|]. intros; by left.
Qed.

(** What the ticks of the parties made of [self]. *)
Definition parties_ticked self self' : Prop :=
  forall i party, parties_of self !! i = Some party ->
    if Party.isUsed party then tick_result self' i party
    else parties_of self' !! i = Some party.

Lemma ticked_until_all self self' :
  ticked_until self (length (parties_of self)) self' -> parties_ticked self self'.
Proof.
  intros Huntil i party Hi. specialize (Huntil i party Hi).
  rewrite bool_decide_true in Huntil; [done|]. by eapply lookup_lt_Some.
Qed.
End TickParties.

(** ** Feeding datagrams *)
Section Feed.
Context `{Clog} `{OrderedDatagram} `{!BlobStream} `{NimbleSteps} `{!NimbleSerialize}
  `{!NimbleStepsSerialize} `{TinyLibc} `{Stats} `{DatagramTransport} `{Environment}
  `{ImprintAllocator} `{CallbackObject}.
Context `{!FldInLaws} `{!OrderedDatagramLaws} `{!BlobStreamLaws} `{!NimbleStepsLaws}
  `{!NimbleStepsSerializeLaws} `{!NimbleSerializeLaws} `{!FldOutLaws} `{!TinyLibcLaws}
  `{!CallbackLaws}.
Implicit Types (self : NimbleServer) (w : World) (conn : TransportConnection).

Abbreviation parties_of self := (Parties.parties (Server.localParties self)).

Lemma runs_with_connection {A} self w c f (P : A -> Prop) :
  server_ok self -> (c < 64)%nat ->
  (forall conn, conn_ok (length (parties_of self)) conn ->
     sat checked_halt (f conn) (fun '(conn', a) =>
       conn_ok (length (parties_of self)) conn' /\ P a)) ->
  sat checked_halt (with_connection self c f) (fun '(self', a) =>
    server_step self w self' w /\ P a).
Proof.
  intros Hs Hc Hf. destruct (server_conn_lookup self c Hs Hc) as (conn & Hl & Hok).
  unfold with_connection. run. eapply runs_mono; [by apply Hf|].
  intros [conn' a] [Hok' HP]. run. split; [by apply server_conn_insert|done].
Qed.

Lemma runs_feed_game_step self w c inStream outStream :
  checks_on -> server_ok self -> (c < 64)%nat ->
  sat checked_halt (feed_game_step self c inStream outStream) (fun '(self', s, _, _) =>
    server_step self w self' w /\ forward inStream s).
Proof.
  intros Hon Hs Hc. destruct (server_conn_lookup self c Hs Hc) as (conn & Hl & Hok).
  unfold feed_game_step. run.
  pose proof (sat_both _ _ _ _ _
    (runs_req_game_step 64 (parties_of self) (Server.game self) conn
      (Server.authoritativeStepsPerSecondStat self) inStream outStream (sv_session _ Hs)
      (conn_party _ _ Hok))
    (req_game_step_forward (parties_of self) (Server.game self) conn
      (Server.authoritativeStepsPerSecondStat self) inStream outStream)) as Hboth.
  apply (sat_weaken (E := checked_halt)) in Hboth.
  2:{ intros h [->|(-> & _)]; checked. }
  eapply runs_mono; [exact Hboth|]. clear Hboth.
  intros [[[[[[l game] conn'] stat] s] o] code] [(Hst & Hk & _) Hf]. run. split; [|exact Hf].
  destruct Hk as (stats & debug & ranges & ->).
  assert (Hok' : conn_ok (length (parties_of self)) (Conn.set_noRangesToSendCounter ranges
    (Conn.set_debugCounter debug (Conn.set_stepsBehindStats stats conn)))) by (by destruct Hok).
  pose proof (server_conn_insert self w c _ Hs Hok') as Hstep1.
  pose proof (server_stat_step _ w stat (ss_ok _ _ _ _ Hstep1)) as Hstep2.
  pose proof (server_session_step _ w _ _ (ss_ok _ _ _ _ Hstep2) Hst) as Hstep3.
  eapply server_step_trans; [exact Hstep1|].
  eapply server_step_trans; [exact Hstep2|exact Hstep3].
Qed.

Lemma runs_feed_download self w c inStream to ct :
  checks_on -> server_ok self -> (c < 64)%nat ->
  sat checked_halt (with_connection self c (fun transportConnection =>
      '(w, transportConnection, inStream, result) ←
        nimbleServerReqDownloadGameState w transportConnection inStream to ct;
      Ret (transportConnection, (w, inStream, result))))
    (fun '(self', (w', s, _)) => server_step self w self' w' /\ forward inStream s).
Proof.
  intros Hon Hs Hc.
  eapply runs_mono; [apply (runs_with_connection self w c _ (fun '(w', s, _) =>
    (times w <= times w')%nat /\ forward inStream s)); [done..|]|].
  - intros conn Hok. apply runs_bind.
    pose proof (in_read_u8_forward inStream) as Hf.
    destruct (fldInStreamReadUInt8 inStream) as [s [request|]] eqn:Hread.
    + eapply runs_mono; [eapply runs_req_download; [apply Hok|exact Hread|done|intros; checked]|].
      intros [[[w' conn'] s'] code] (-> & Ht & Hd & _). split; [|done].
      by eapply downloaded_ok.
    + unfold nimbleServerReqDownloadGameState. rewrite Hread. simpl. checked.
  - intros [self' [[w' s] code]] [[[Hok Hq Hset _ Hlog] Hlive] [Ht Hf]].
    split; [by split; [split|]|done].
Qed.

Lemma runs_feed_blob self w c inStream to ct :
  server_ok self -> (c < 64)%nat ->
  sat checked_halt (with_connection self c (fun transportConnection =>
      '(w, transportConnection, inStream, err) ←
        nimbleServerReqBlobStream w transportConnection inStream to ct;
      Ret (transportConnection, (w, inStream, err))))
    (fun '(self', (w', s, _)) => server_step self w self' w' /\ forward inStream s).
Proof.
  intros Hs Hc.
  eapply runs_mono; [apply (runs_with_connection self w c _ (fun '(w', s, _) =>
    (times w <= times w')%nat /\ forward inStream s)); [done..|]|].
  - intros conn Hok. apply runs_bind.
    apply (sat_weaken (eq (UninitializedRead TransferOfConnection))); [intros h <-; checked|].
    eapply runs_mono; [apply runs_req_blob|].
    intros [[[w' conn'] s'] code] (Hsend & Hw & Hf). split; [by eapply sending_ok|].
    split; [apply Hw|done].
  - intros [self' [[w' s] code]] [[[Hok Hq Hset _ Hlog] Hlive] [Ht Hf]].
    split; [by split; [split|]|done].
Qed.

Lemma runs_handle_command self w cmd c index ct to inStream outStream :
  checks_on -> server_ok self -> (c < 64)%nat ->
  sat checked_halt (handle_command self w cmd c index ct to inStream outStream) (fun r =>
    match r with
    | Some (self', w', s, _, _) => server_step self w self' w' /\ forward inStream s
    | None => True
    end).
Proof.
  intros Hon Hs Hc. unfold handle_command.
  destruct (cmd =? _); [|destruct (cmd =? _); [|destruct (cmd =? _); [|destruct (cmd =? _); [|done]]]].
  - eapply runs_bind_mono; [by apply runs_req_connect|]. intros [[[[self' w'] s] o] code] Hr. exact Hr.
  - eapply runs_bind_mono; [by apply (runs_feed_game_step self w)|].
    intros [[[self' s] o] code] Hr. exact Hr.
  - eapply runs_bind_mono; [by apply (runs_req_join self w)|].
    intros [[[self' s] o] code] Hr. exact Hr.
  - eapply runs_bind_mono; [by apply runs_feed_download|].
    intros [self' [[w' s] code]] Hr. exact Hr.
Qed.

Lemma server_step_send self w self' w' to octets :
  server_step self w self' w' -> server_step self w self' (send to octets w').
Proof. intros [[] ?]. by split; [split|]. Qed.

(** A round of the loop: it ends the loop, or it has read on in the datagram. *)
Lemma runs_feed_command self w c index ct to s :
  checks_on -> server_ok self -> (c < 64)%nat -> 0 <= in_pos s <= in_size s ->
  sat checked_halt (feed_command c index ct to (self, w, s)) (flow_post
    (fun '(self', w', s') => server_step self w self' w' /\
       in_size s' = in_size s /\ in_pos s < in_pos s' <= in_size s')
    (fun '(self', w', _) => server_step self w self' w')).
Proof.
  intros Hon Hs Hc Hpos. unfold feed_command.
  pose proof (server_step_refl self w Hs) as Hrefl.
  destruct (Z.eqb_spec (in_pos s) (in_size s)); [done|].
  destruct (in_read_u8 s) as (v & Hv & _ & Hpos1 & Hsize1); [lia|].
  destruct (fldInStreamReadUInt8 s) as [s1 read]. simpl in Hv, Hpos1, Hsize1. subst read.
  change (u8 <$> Some v) with (Some (u8 v)). run.
  assert (Hread : forall s', forward s1 s' ->
    in_size s' = in_size s /\ in_pos s < in_pos s' <= in_size s').
  { intros s' [Hsz Hp]. lia. }
  destruct (u8 v =? NimbleSerializeCmdClientOutBlobStream).
  - eapply runs_bind_mono; [by apply runs_feed_blob|].
    intros [self' [[w' s'] code]] [Hstep Hf]. destruct (code <? 0); simpl; auto.
  - destruct (server_conn_lookup self c Hs Hc) as (conn & Hl & _). run.
    destruct (transportConnectionWriteHeader _ _ _) as [o e]. destruct (e <? 0); [done|].
    eapply runs_bind_mono; [by apply runs_handle_command|].
    intros [[[[[self' w'] s'] o'] code]|] Hr; [|done]. destruct Hr as [Hstep Hf].
    destruct (code <? 0); [done|]. destruct (out_pos o' <=? 4); [done|].
    eapply runs_bind_mono.
    { apply (runs_with_connection self' w' c _ (fun _ => True)); [apply Hstep|done|].
      intros conn' Hok. split; [|done]. eapply sending_ok; [apply sending_commit|done]. }
    intros [self2 []] [Hstep2 _]. pose proof (server_step_trans _ _ _ _ _ _ Hstep Hstep2).
    destruct (_ <? _); simpl; [done|]. split; [by apply server_step_send|by apply Hread].
Qed.

Lemma opened_ok n conn index octets :
  conn_ok n conn -> 0 <= index < 64 -> 0 <= octets ->
  conn_ok n (transportConnectionInit (opened conn index) octets).
Proof.
  intros [Hid Hp Hg] Hi Ho. split; simpl; [done|done|]. by apply game_state_init_wf.
Qed.

(** A datagram over a transport connection whose place is used for another one
    is refused. *)
Lemma runs_feed_elsewhere {E} self w index conn data to :
  0 <= index < 64 -> Server.transportConnections self !! Z.to_nat index = Some conn ->
  Conn.isUsed conn = true -> Conn.transportIndex conn <> index ->
  sat E (nimbleServerFeed self w index data to) (fun '(self', w', code) =>
    self' = self /\ w' = w /\ code = NimbleServerErrSerialize).
Proof.
  intros Hi Hc Hu Hindex. unfold nimbleServerFeed, NIMBLE_NIMBLE_SERVER_MAX_TRANSPORT_CONNECTIONS.
  rewrite (proj2 (Z.leb_gt _ _)) by lia. run. rewrite Hu. simpl.
  rewrite (proj2 (Z.eqb_neq _ _) Hindex). simpl. split; [|done].
  rewrite (list_insert_id _ _ _ Hc). by destruct self.
Qed.

Lemma runs_feed self w index data to :
  checks_on -> server_ok self -> 0 <= index < 256 ->
  sat checked_halt (nimbleServerFeed self w index data to) (fun '(self', w', _) =>
    server_step self w self' w').
Proof.
  intros Hon Hs Hindex. unfold nimbleServerFeed, NIMBLE_NIMBLE_SERVER_MAX_TRANSPORT_CONNECTIONS.
  pose proof (server_step_refl self w Hs) as Hrefl.
  destruct (Z.leb_spec 64 index); [done|]. set (c := Z.to_nat index).
  assert (Hc : (c < 64)%nat) by lia.
  destruct (server_conn_lookup self c Hs Hc) as (conn & Hl & Hok). run.
  set (conn1 := if negb (Conn.isUsed conn) then _ else conn).
  assert (Hok1 : conn_ok (length (parties_of self)) conn1).
  { unfold conn1. destruct (negb _); [|done]. apply opened_ok; [done|lia|apply Hs]. }
  pose proof (server_conn_insert self w c conn1 Hs Hok1) as Hstep1.
  destruct (negb (Conn.transportIndex conn1 =? index)); [done|].
  pose proof (ordered_receive_forward (Conn.orderedDatagramInLogic conn1)
    (set_readDebugInfo true (fldInStreamInit data))) as Hf1.
  destruct (orderedDatagramInLogicReceive _ _) as [[inLogic s1] error]. simpl in Hf1.
  apply runs_bind, runs_store.
  { simpl. rewrite length_insert. by eapply lookup_lt_Some. }
  assert (Hok2 : conn_ok (length (parties_of self)) (Conn.set_orderedDatagramInLogic inLogic conn1))
    by (by destruct Hok1).
  pose proof (server_step_trans _ _ _ _ _ _ Hstep1
    (server_conn_insert _ w c _ (ss_ok _ _ _ _ Hstep1) Hok2)) as Hstep2.
  destruct (error <? 0); [done|].
  pose proof (in_read_u16_forward s1) as Hf2.
  destruct (fldInStreamReadUInt16 s1) as [s2 read]. simpl in Hf2.
  destruct (in_pos s2 =? in_size s2); [done|].
  apply runs_bind, checked_read. intros ct _.
  destruct (in_init data) as [Hp0 Hs0]. destruct (in_debug true (fldInStreamInit data)) as [Hp Hsz].
  assert (Hf : forward (set_readDebugInfo true (fldInStreamInit data)) s2) by (by etrans).
  destruct Hf as [Hsize Hrange].
  apply (runs_while (fun '(self', w', s') => server_step self w self' w' /\
      in_size s' = Z.of_nat (length data) /\ 0 <= in_pos s' <= in_size s')
    (fun '(_, _, s') => Z.to_nat (in_size s' - in_pos s'))).
  - split; [exact Hstep2|]. lia.
  - lia.
  - intros [[self' w'] s'] (Hstep & Hsz' & Hpos').
    eapply runs_mono; [apply runs_feed_command; [done|apply Hstep|done|done]|].
    intros [[[self2 w2] s3]|[[self2 w2] code]]; simpl.
    + intros (Hstep' & Hsz3 & Hpos3). split; [|lia]. split; [by eapply server_step_trans|]. lia.
    + intros Hstep'. by eapply server_step_trans.
Qed.

(** ** The periodic update *)
Lemma server_step_inbox self w self' w' l :
  server_step self (set_inbox l w) self' w' -> server_step self w self' w'.
Proof. by intros [[] ?]; split; [split|]. Qed.

Lemma runs_read_all self w :
  checks_on -> server_ok self ->
  sat checked_halt (nimbleServerReadFromMultiTransport self w) (fun '(self', w', _) =>
    server_step self w self' w').
Proof.
  intros Hon Hs. unfold nimbleServerReadFromMultiTransport.
  eapply runs_bind_mono.
  { apply (runs_for (fun _ '(self', w') => server_step self w self' w')
      (fun '(self', w', _) => server_step self w self' w')).
    - by apply server_step_refl.
    - intros j [self' w'] _ Hstep. destruct (inbox w') as [|r rest]; [done|].
      assert (Hin : server_step self w self' (set_inbox rest w'))
        by (destruct Hstep as [[] ?]; by split; [split|]).
      destruct (_ =? 0); [done|]. destruct (_ <? 0); [done|].
      apply runs_bind, checked_assert; [done|]. intros _.
      eapply runs_bind_mono; [apply runs_feed; [done|apply Hstep|apply u8_range]|].
      intros [[self2 w2] code] Hstep2. apply server_step_inbox in Hstep2.
      pose proof (server_step_trans _ _ _ _ _ _ Hstep Hstep2). by destruct (code <? 0). }
  by intros [[self' w']|[[self' w'] code]].
Qed.

(** Feeding the waiting datagrams in their order, at most [n] of them: until none
    waits, or one was not received, or one is refused with an error. *)
Inductive datagrams_fed : nat -> NimbleServer * World -> NimbleServer * World -> Prop :=
  | fed_limit s : datagrams_fed 0 s s
  | fed_all n self w : inbox w = [] -> datagrams_fed n (self, w) (self, w)
  | fed_not_received n self w r rest :
      inbox w = r :: rest -> octetCountReceived r <= 0 ->
      datagrams_fed (S n) (self, w) (self, set_inbox rest w)
  | fed_refused n self w r rest self' w' code :
      inbox w = r :: rest -> 0 < octetCountReceived r ->
      nimbleServerFeed self (set_inbox rest w) (u8 (received_connectionId r))
        (take (Z.to_nat (octetCountReceived r)) (received_octets r)) (received_connectionId r)
      = Ret (self', w', code) -> code < 0 ->
      datagrams_fed (S n) (self, w) (self', w')
  | fed_next n self w r rest self' w' code s :
      inbox w = r :: rest -> 0 < octetCountReceived r ->
      nimbleServerFeed self (set_inbox rest w) (u8 (received_connectionId r))
        (take (Z.to_nat (octetCountReceived r)) (received_octets r)) (received_connectionId r)
      = Ret (self', w', code) -> 0 <= code ->
      datagrams_fed n (self', w') s -> datagrams_fed (S n) (self, w) s.

Lemma for_loop_fed n i
    (body : nat -> _ -> outcome (flow (NimbleServer * World) (NimbleServer * World * Z))) :
  forall self w,
  (forall j s, returns (body j s) (flow_post
     (fun s' => forall n r, datagrams_fed n s' r -> datagrams_fed (S n) s r)
     (fun '(self', w', _) => forall n, datagrams_fed (S n) s (self', w')))) ->
  returns (for_loop n i body (self, w)) (flow_post
    (fun s' => datagrams_fed n (self, w) s')
    (fun '(self', w', _) => datagrams_fed n (self, w) (self', w'))).
Proof.
  revert i. induction n as [|n IH]; intros i self w Hbody; [by constructor|]. cbn [for_loop].
  eapply runs_bind_mono; [apply Hbody|].
  intros [[self1 w1]|[[self1 w1] code]] Hstep; simpl in Hstep; [|apply Hstep].
  eapply runs_mono; [by apply IH|].
  intros [s'|[[self' w'] code]] Hfed; simpl in *; by apply Hstep.
Qed.

Lemma read_all_fed self w :
  returns (nimbleServerReadFromMultiTransport self w) (fun '(self', w', _) =>
    datagrams_fed maximumNumberOfDatagramsPerTick (self, w) (self', w')).
Proof.
  unfold nimbleServerReadFromMultiTransport. eapply runs_bind_mono.
  { apply for_loop_fed. intros _ [self1 w1]. destruct (inbox w1) as [|r rest] eqn:Hin.
    { intros k. by constructor. }
    destruct (Z.eqb_spec (octetCountReceived r) 0).
    { intros k. eapply fed_not_received; [exact Hin|lia]. }
    destruct (Z.ltb_spec (octetCountReceived r) 0).
    { intros k. eapply fed_not_received; [exact Hin|lia]. }
    apply returns_bind. intros _.
    destruct (nimbleServerFeed _ _ _ _ _) as [[[self2 w2] code]|h] eqn:Hfeed; [|done].
    simpl. destruct (Z.ltb_spec code 0); simpl; intros k.
    - by eapply fed_refused; [exact Hin|lia|exact Hfeed|].
    - intros s Hs. by eapply fed_next; [exact Hin|lia|exact Hfeed|..]. }
  by intros [[self' w']|[[self' w'] code]].
Qed.

(** A server between two calls, in a world whose clock it has followed. *)
Record running self w : Prop := {
  rn_ok : server_ok self;
  rn_quality : update_quality_wf (Server.updateQuality self);
  rn_time : UpdateQ.lastTimeMs (Server.updateQuality self) <= monotonicTimeMsNow (times w);
}.

Lemma running_step `{!EnvironmentLaws} self w self' w' :
  running self w -> server_change self w self' w' -> running self' w'.
Proof.
  intros [Hok Hq Ht] [Hok' Hq' _ Htimes _]. split; rewrite ?Hq'; try done.
  pose proof (clock_monotonic _ _ Htimes). lia.
Qed.

Abbreviation authoritative self := (Game.authoritativeSteps (Server.game self)).

Lemma runs_update `{!EnvironmentLaws} self w now :
  checks_on -> running self w ->
  sat checked_halt (nimbleServerUpdate self w now) (fun '(self', w', code) =>
    running self' w' /\ log_extends (authoritative self) (authoritative self') /\
    (code = 0 \/ code = -1) /\
    (code = 0 <-> UpdateQ.state (Server.updateQuality self')
                  = NimbleServerUpdateQualityStateWorking) /\
    (UpdateQ.state (Server.updateQuality self) <> NimbleServerUpdateQualityStateWorking ->
     self' = self /\ w' = w)).
Proof.
  intros Hon [Hok Hq Ht]. unfold nimbleServerUpdate.
  eapply runs_bind_mono.
  { apply runs_weaken, runs_and; [by apply tick_wf|by apply tick_time]. }
  intros [quality code] [(Hq' & Hfailed & Hworking & Hcode) Htime]. simpl in *.
  set (w1 := if bool_decide _ then tick_clock w else w).
  set (self1 := Server.set_updateQuality quality self).
  assert (Hok1 : server_ok self1) by (by destruct Hok).
  assert (Hrun1 : running self1 w1).
  { split; try done. simpl. etrans; [exact Htime|]. unfold w1.
    case_bool_decide; [apply clock_monotonic; simpl; lia|done]. }
  destruct (Z.ltb_spec code 0) as [Hneg|Hpos].
  { split; [done|]. split; [done|]. split; [lia|]. split; [exact Hworking|]. intros Hs.
    specialize (Hfailed Hs). injection Hfailed as Hsame _. subst w1 self1.
    split; [rewrite Hsame; by destruct self|]. by case_bool_decide. }
  assert (Hzero : code = 0) by lia. rewrite Hzero in Hworking.
  eapply runs_bind_mono; [by apply (runs_tick_parties self1 w1)|].
  intros self2 [Hstep2 _]. eapply runs_bind_mono; [apply runs_read_all; [done|apply Hstep2]|].
  intros [[self3 w3] code3] Hstep3.
  pose proof (server_change_trans _ _ _ _ _ _ Hstep2 (ss_change _ _ _ _ Hstep3)) as Hstep.
  destruct (running_step _ _ _ _ Hrun1 Hstep) as [Hok3 Hq3 Ht3]. split.
  { split; [by destruct Hok3|done..]. }
  split; [exact (sc_log _ _ _ _ Hstep)|]. split; [by left|]. split.
  { simpl. rewrite (sc_quality _ _ _ _ Hstep). simpl. tauto. }
  intros Hs. specialize (Hfailed Hs). injection Hfailed as _ Hc. lia.
Qed.
(** A whole update: the parties tick, then the datagrams that wait are fed, and
    the statistics are brought up to date. *)
Definition updated self w (now : Z) self' w' : Prop :=
  exists ticked fed,
    parties_ticked self ticked /\
    datagrams_fed maximumNumberOfDatagramsPerTick (ticked, tick_clock w) (fed, w') /\
    self' = Server.set_statsCounter (u16 (Server.statsCounter fed + 1))
              (Server.set_authoritativeStepsPerSecondStat
                 (statsIntPerSecondUpdate (Server.authoritativeStepsPerSecondStat fed) now) fed).

Lemma runs_update_parts self w now :
  checks_on -> running self w ->
  sat checked_halt (nimbleServerUpdate self w now) (fun '(self', w', code) =>
    code = 0 -> updated self w now self' w').
Proof.
  intros Hon [Hok Hq Ht]. unfold nimbleServerUpdate.
  eapply runs_bind_mono; [by apply runs_weaken, tick_wf|].
  intros [quality code] (_ & Hfailed & _). simpl in Hfailed.
  destruct (Z.ltb_spec code 0); [simpl; lia|]. case_bool_decide as Hworking; cycle 1.
  { specialize (Hfailed Hworking). injection Hfailed as _ ->. lia. }
  set (self1 := Server.set_updateQuality quality self).
  assert (Hok1 : server_ok self1) by (by destruct Hok).
  eapply runs_bind_mono; [by apply (runs_tick_parties self1 (tick_clock w))|].
  intros self2 [Hstep Huntil]. eapply runs_bind_mono.
  { eapply sat_both; [apply (runs_read_all self2 (tick_clock w)); [done|apply Hstep]|].
    apply read_all_fed. }
  intros [[self3 w3] code3] [_ Hfed]. simpl. intros _. exists self2, self3.
  split; [by apply ticked_until_all|]. by split.
Qed.
End Feed.

(** ** Initialisation *)
Section Init.
Context `{Clog} `{OrderedDatagram} `{!BlobStream} `{NimbleSteps} `{!NimbleSerialize}
  `{!NimbleStepsSerialize} `{Stats} `{Environment}.
Context `{!NimbleStepsLaws} `{!NimbleStepsSerializeLaws} `{!NimbleSerializeLaws}.
Implicit Types (self : NimbleServer) (w : World) (conn : TransportConnection) (setup : Setup).

Abbreviation parties_of self := (Parties.parties (Server.localParties self)).

(** A setup that the server accepts. *)
Record setup_ok setup : Prop := {
  su_memory : memory setup = true;
  su_blob : blobAllocator setup = true;
  su_connections : 0 <= maxConnectionCount setup <= 64;
  su_participants : 0 < maxParticipantCount setup < 64;
  su_octets : 0 <= maxSingleParticipantStepOctetCount setup < 256;
  su_max_octets : maxSingleParticipantStepOctetCount setup <= NimbleStepMaxSingleStepOctetCount;
  su_ticks : 0 <= maxWaitingForReconnectTicks setup < 18446744073709551616;
  su_state : 0 <= maxGameStateOctetCount setup;
}.

(** Memory that the server may be initialised in, cleared memory for example. *)
Record memory_ok self : Prop := {
  me_connections : length (Server.transportConnections self) = 64%nat;
  me_each : Forall (fun conn => 0 <= Conn.id conn < 64 /\ game_state_wf (Conn.gameState conn))
    (Server.transportConnections self);
  me_free : length (CBuf.data (Server.freeTransportConnectionList self)) = 64%nat;
  me_players : length (CBuf.data (Pool.freeList (Game.participants (Server.game self)))) = 64%nat;
}.

(** The connections after the first [j] rounds. *)
Record connections_until (j : nat) (l : list TransportConnection) : Prop := {
  cu_length : length l = 64%nat;
  cu_each : forall i conn, l !! i = Some conn ->
    0 <= Conn.id conn < 64 /\ game_state_wf (Conn.gameState conn) /\
    ((i < j)%nat -> Conn.isUsed conn = false /\ Conn.assignedParty conn = None /\
                    Conn.transportConnectionId conn = Z.of_nat i);
}.

Lemma connections_until_insert j l conn :
  connections_until j l -> (j < 64)%nat -> l !! j = Some conn ->
  connections_until (S j) (<[j := init_connection j conn]> l).
Proof.
  intros [Hl Heach] Hj Hc. split; [by rewrite length_insert|]. intros i conn' Hi.
  destruct (decide (j = i)) as [<-|Hne].
  - rewrite list_lookup_insert_eq in Hi by lia. injection Hi as <-.
    destruct (Heach j conn Hc) as (Hid & Hg & _). split; [done|]. split; [done|]. intros _.
    split; [done|]. split; [done|]. simpl. rewrite u8_small; lia.
  - rewrite list_lookup_insert_ne in Hi by done. destruct (Heach i conn' Hi) as (Hid & Hg & Hdone).
    split; [done|]. split; [done|]. intros Hlt. apply Hdone. lia.
Qed.

Lemma runs_init_connections {E} l free :
  connections_until 1 l -> cbuf_wf free -> contents free = [] ->
  sat E (for_each (Z.to_nat (64 - 1)) 1 (fun i '(connections, freeList) =>
      connection ← load connections i;
      connections ← store connections i (init_connection i connection);
      freeList ← nimbleServerCircularBufferWrite freeList (u8 (Z.of_nat i));
      Ret (connections, freeList)) (l, free))
    (fun '(l', free') => connections_until 64 l' /\ cbuf_wf free' /\
       contents free' = seqZ 1 63).
Proof.
  intros Hl Hfree Hcont.
  eapply runs_mono; [apply (runs_for_each (fun j '(l', free') => connections_until j l' /\
    cbuf_wf free' /\ contents free' = seqZ 1 (Z.of_nat (j - 1))))|].
  - split; [done|]. split; [done|]. by rewrite Hcont.
  - change (Z.to_nat (64 - 1)) with 63%nat. intros j [l' free'] Hj (Hl' & Hf & Hc).
    destruct (lookup_lt_is_Some_2 l' j) as [conn Hconn]; [rewrite (cu_length _ _ Hl'); lia|]. run.
    apply runs_write; [done| |].
    + rewrite isFull_contents by done. apply bool_decide_false. rewrite Hc, length_seqZ. lia.
    + intros s Hs Hcs. run. split; [apply connections_until_insert; [done|lia|done]|].
      split; [done|]. rewrite Hcs, Hc, u8_small by lia.
      replace (S j - 1)%nat with (S (j - 1)) by lia. rewrite seqZ_S. do 2 f_equal. lia.
  - by intros [l' free'].
Qed.

(** A server that was initialised and waits for its game. *)
Record initialised setup self : Prop := {
  ini_connections : connections_until 64 (Server.transportConnections self);
  ini_parties : forall npool, parties_wf npool 64 (Server.localParties self);
  ini_none : Parties.partiesCount (Server.localParties self) = 0;
  ini_free : cbuf_wf (Server.freeTransportConnectionList self);
  ini_free_ids : contents (Server.freeTransportConnectionList self) = seqZ 1 63;
  ini_setup : Server.setup self = setup;
  ini_players : length (CBuf.data (Pool.freeList (Game.participants (Server.game self)))) = 64%nat;
}.

Lemma runs_init {E} self w setup :
  setup_ok setup -> memory_ok self ->
  sat E (nimbleServerInit self w setup) (fun '(self', w', code) =>
    initialised setup self' /\ w' = tick_clock w /\ code = 0).
Proof.
  intros [Hmem Hblob Hconn Hpart Hoct Hmax Hticks Hstate] [Hl Heach Hfree Hplayers].
  unfold nimbleServerInit, NIMBLE_NIMBLE_SERVER_MAX_TRANSPORT_CONNECTIONS.
  rewrite Hmem, Hblob. run.
  eapply runs_mono; [by apply runs_parties_init|].
  intros parties (Hwf & Hnone & _). destruct (lookup_lt_is_Some_2 (Server.transportConnections self) 0)
    as [conn0 Hc0]; [lia|]. run.
  destruct (init_wf _ Hfree) as [Hcb Hcont].
  eapply runs_mono; [apply runs_init_connections; [|done..]|].
  - rewrite <- (firstn_all (Server.transportConnections self)) in Hc0.
    apply connections_until_insert; [|lia|by rewrite firstn_all in Hc0].
    split; [done|]. intros i conn Hi. destruct (Forall_lookup_1 _ _ _ _ Heach Hi).
    split; [done|]. split; [done|]. lia.
  - intros [connections free] (Hcu & Hcb' & Hcont'). run. split; [|done].
    by split; simpl.
Qed.

Lemma unused_owned (l : list NimbleServerLocalParty) (pool : list NimbleServerParticipant) :
  Forall (fun party => Party.isUsed party = false) l -> owned l pool.
Proof. intros Hl i party Hi Hu. pose proof (Forall_lookup_1 _ _ _ _ Hl Hi). simpl in *. congruence. Qed.

Lemma runs_game_init game maxOctets maxParticipants parties :
  0 <= maxOctets < 256 -> 0 < maxParticipants < 64 ->
  length (CBuf.data (Pool.freeList (Game.participants game))) = 64%nat ->
  runs (nimbleServerGameInit game maxOctets maxParticipants) (fun game' =>
    steps_wf (Game.authoritativeSteps game') /\
    pool_wf (Game.participants game') /\
    Forall (participant_ok parties) (pool_of game') /\
    Pool.participantCapacity (Game.participants game') = maxParticipants /\
    Pool.participantCount (Game.participants game') = 0).
Proof.
  intros Ho Hp Hl. unfold nimbleServerGameInit. apply runs_bind.
  eapply runs_mono; [by apply runs_participants_init|].
  intros pool (Hwf & Hcap & Hcount & Hpool & _). run.
  destruct (steps_init _ (combined_size maxParticipants maxOctets ltac:(lia) ltac:(lia))) as [Hs _].
  destruct (steps_reinit _ 0 Hs) as [Hs' _]; [lia|].
  split; [exact Hs'|]. split; [exact Hwf|]. split; [|done]. simpl. rewrite Hpool.
  by apply initial_participants_ok.
Qed.

(** A new session: nobody plays, and the steps start at the given id. *)
Record new_session self (stepId : Z) : Prop := {
  ns_parties : Forall (fun party => Party.isUsed party = false) (parties_of self);
  ns_players : Pool.participantCount (Game.participants (Server.game self)) = 0;
  ns_step : expectedWriteId (Game.authoritativeSteps (Server.game self)) = stepId;
  ns_quality : UpdateQ.state (Server.updateQuality self) = NimbleServerUpdateQualityStateWorking;
}.

(** No transport connection is in use; all but the first wait in the free list. *)
Record nobody_connected self : Prop := {
  nc_unused : Forall (fun conn => Conn.isUsed conn = false) (Server.transportConnections self);
  nc_free : contents (Server.freeTransportConnectionList self) = seqZ 1 63;
}.

Lemma initialised_nobody setup self : initialised setup self -> nobody_connected self.
Proof.
  intros [Hconns _ _ _ Hids _ _]. split; [|done]. apply Forall_lookup. intros i conn Hi.
  destruct (cu_each _ _ Hconns i conn Hi) as (_ & _ & Hd).
  pose proof (lookup_lt_Some _ _ _ Hi) as Hlt. rewrite (cu_length _ _ Hconns) in Hlt. by apply Hd.
Qed.

(** Starting a game leaves the transport connections as they are. *)
Lemma reinit_connections self w stepId now :
  returns (nimbleServerReInitWithGame self w stepId now) (fun '(self', _, _) =>
    Server.transportConnections self' = Server.transportConnections self /\
    Server.freeTransportConnectionList self' = Server.freeTransportConnectionList self).
Proof.
  unfold nimbleServerReInitWithGame. apply returns_bind. intros game. apply returns_bind.
  by intros parties.
Qed.

Lemma runs_reinit `{!EnvironmentLaws} self w setup stepId now :
  setup_ok setup -> initialised setup self -> 0 <= stepId < 4294967296 ->
  runs (nimbleServerReInitWithGame self w stepId now) (fun '(self', w', code) =>
    running self' w' /\ new_session self' stepId /\ w' = tick_clock w /\ code = 0).
Proof.
  intros Hsu [Hconns Hparties Hnone Hfree Hids Hset Hplayers] Hid.
  unfold nimbleServerReInitWithGame. rewrite Hset.
  eapply runs_bind_mono; [apply (runs_game_init _ _ _ (length (parties_of self)));
    [apply Hsu|apply Hsu|done]|].
  intros game (Hsteps & Hpool & Hok & _ & Hcount).
  destruct (steps_reinit _ stepId Hsteps Hid) as (Hsteps' & _ & _ & Hwrite & _).
  eapply runs_bind_mono; [apply (runs_parties_reset (length (pool_of game)) 64), Hparties|].
  intros parties (Hps & _ & _ & Hwf). specialize (Hwf Hnone (length (pool_of game))). simpl in Hps. run.
  assert (Hlen : length (Parties.parties parties) = length (parties_of self)).
  { by rewrite Hps, length_fmap. }
  assert (Hunused : Forall (fun party => Party.isUsed party = false) (Parties.parties parties)).
  { rewrite Hps. by apply Forall_fmap, Forall_true. }
  split; [|by split]. split; simpl.
  - split; simpl; try done; [apply Hconns| | | | |].
    + apply Forall_lookup. intros i conn Hi. destruct (cu_each _ _ Hconns i conn Hi) as (Hc & Hg & Hd).
      pose proof (lookup_lt_Some _ _ _ Hi) as Hlt. rewrite (cu_length _ _ Hconns) in Hlt.
      destruct (Hd Hlt) as (_ & Hp & _). split; [done|by rewrite Hp|done].
    + split; simpl; [apply Hwf|done|by rewrite Hlen|by apply unused_owned|done].
    + rewrite Hids. apply Forall_seqZ. lia.
    + rewrite Hset. apply Hsu.
    + rewrite Hset. apply Hsu.
  - split; simpl; lia.
  - apply clock_monotonic. lia.
Qed.
End Init.

(** ** The life of a server

    The calls that the application makes between two sessions, and the arrival
    of datagrams. *)
Inductive server_event :=
  | Arrived (datagrams : list received)
  | Updated (now : Z)
  | Fed (transportIndex : Z) (data : list Z) (replyTo : Z)
  | Connected (connectionIndex : Z).

Definition event_possible (e : server_event) : Prop :=
  match e with
  | Fed transportIndex _ _ => 0 <= transportIndex < 256
  | Connected connectionIndex => 0 <= connectionIndex < 64
  | _ => True
  end.

Section Life.
Context `{Clog} `{OrderedDatagram} `{!BlobStream} `{NimbleSteps} `{!NimbleSerialize}
  `{!NimbleStepsSerialize} `{TinyLibc} `{Stats} `{DatagramTransport} `{Environment}
  `{ImprintAllocator} `{CallbackObject}.
Context `{!FldInLaws} `{!OrderedDatagramLaws} `{!BlobStreamLaws} `{!NimbleStepsLaws}
  `{!NimbleStepsSerializeLaws} `{!NimbleSerializeLaws} `{!FldOutLaws} `{!TinyLibcLaws}
  `{!CallbackLaws} `{!EnvironmentLaws}.
Implicit Types (self : NimbleServer) (w : World).

Definition server_call (e : server_event) self w : outcome (NimbleServer * World * Z) :=
  match e with
  | Arrived datagrams => Ret (self, set_inbox (inbox w ++ datagrams) w, 0)
  | Updated now => nimbleServerUpdate self w now
  | Fed transportIndex data replyTo => nimbleServerFeed self w transportIndex data replyTo
  | Connected connectionIndex =>
      '(self, code) ← nimbleServerConnectionConnected self connectionIndex; Ret (self, w, code)
  end.

(** The codes of the calls are collected; the application goes on whatever they
    are. *)
Fixpoint server_calls (es : list server_event) self w : outcome (NimbleServer * World * list Z) :=
  match es with
  | [] => Ret (self, w, [])
  | e :: es =>
      '(self, w, code) ← server_call e self w;
      '(self, w, codes) ← server_calls es self w;
      Ret (self, w, code :: codes)
  end.

Lemma runs_connected {E} self w index :
  server_ok self -> 0 <= index < 64 ->
  sat E (nimbleServerConnectionConnected self index) (fun '(self', _) =>
    server_step self w self' w).
Proof.
  intros Hs Hi. unfold nimbleServerConnectionConnected.
  destruct (server_conn_lookup self (Z.to_nat index) Hs) as (conn & Hl & Hok); [lia|]. run.
  destruct (Conn.isUsed conn); [by apply server_step_refl|]. run.
  apply server_conn_insert; [done|]. by destruct Hok.
Qed.

Abbreviation authoritative self := (Game.authoritativeSteps (Server.game self)).

Lemma runs_server_call e self w :
  checks_on -> running self w -> event_possible e ->
  sat checked_halt (server_call e self w) (fun '(self', w', _) =>
    running self' w' /\ log_extends (authoritative self) (authoritative self')).
Proof.
  intros Hon Hrun He. destruct e as [l|now|index data to|index]; simpl in *.
  - split; [by destruct Hrun|done].
  - eapply runs_mono; [by apply runs_update|]. intros [[self' w'] code] (Hr & Hlog & _). by split.
  - eapply runs_mono; [apply runs_feed; [done|apply Hrun|done]|].
    intros [[self' w'] code] [Hstep _]. split; [by eapply running_step|apply (sc_log _ _ _ _ Hstep)].
  - eapply runs_bind_mono; [apply (runs_connected self w); [apply Hrun|done]|].
    intros [self' code] [Hstep _]. split; [by eapply running_step|apply (sc_log _ _ _ _ Hstep)].
Qed.

Lemma runs_server_calls es : forall self w,
  checks_on -> running self w -> Forall event_possible es ->
  sat checked_halt (server_calls es self w) (fun '(self', w', codes) =>
    running self' w' /\ log_extends (authoritative self) (authoritative self') /\
    length codes = length es).
Proof.
  induction es as [|e es IH]; intros self w Hon Hrun Hes; simpl; [done|].
  apply Forall_cons_iff in Hes as [He Hes].
  eapply runs_bind_mono; [by apply runs_server_call|]. intros [[self1 w1] code] [Hrun1 Hlog1].
  eapply runs_bind_mono; [by apply IH|]. intros [[self2 w2] codes] (Hrun2 & Hlog2 & Hl).
  split; [done|]. split; [by etrans|]. simpl. by rewrite Hl.
Qed.
End Life.

(** ** Properties *)
Section ServerProperties.
Context `{Clog} `{OrderedDatagram} `{!BlobStream} `{NimbleSteps} `{!NimbleSerialize}
  `{!NimbleStepsSerialize} `{TinyLibc} `{Stats} `{DatagramTransport} `{Environment}
  `{ImprintAllocator} `{CallbackObject}.
Context `{!FldInLaws} `{!OrderedDatagramLaws} `{!BlobStreamLaws} `{!NimbleStepsLaws}
  `{!NimbleStepsSerializeLaws} `{!NimbleSerializeLaws} `{!FldOutLaws} `{!TinyLibcLaws}
  `{!CallbackLaws} `{!EnvironmentLaws}.
Implicit Types (self : NimbleServer) (w : World).

Abbreviation parties_of self := (Parties.parties (Server.localParties self)).

(** C6. Feeding a datagram to a consistent server ends, whatever its octets and
    its connection, in the build in which assertions and errors stop the program:
    the loop over its commands needs no more rounds than it has octets. The
    program stops only at its own assertions and errors, or where it uses one of
    four things that were not set: a number that the datagram was too short for,
    a player that a request to join counts but does not hold, the party of a
    request to rejoin with another number of players, or the blob stream of a
    connection that no transfer was started on. It never leaves an array or
    follows NULL. Otherwise the server is consistent again. *)
Theorem feed_safe self w transportIndex data replyTo :
  checks_on -> server_ok self -> 0 <= transportIndex < 256 ->
  sat (fun h => h = AssertionFailed \/ h = ErrorLogged \/ exists what,
         h = UninitializedRead what /\
         what ∈ [NumberOfDatagram; PlayerOfRequest; PartyOfRequest; TransferOfConnection])
    (nimbleServerFeed self w transportIndex data replyTo) (fun '(self', w', _) =>
      server_ok self' /\ Server.setup self' = Server.setup self).
Proof.
  intros Hon Hs Hi. eapply (sat_weaken checked_halt).
  { intros [| | | |what|] Hh; simpl in Hh; try done; [by left|by right; left|].
    right. right. by exists what. }
  eapply runs_mono; [by apply runs_feed|]. by intros [[self' w'] code] [[Hok _ Hset _ _] _].
Qed.

(** C18. The update of a running server, in the build in which assertions and
    errors stop the program. It fails with -1 exactly when the server cannot keep
    its tick rate; a server that had failed before is not touched. Otherwise
    every party in use ticks once, those that waited too long are given up, and
    then the waiting datagrams are fed in their order, at most 64, until one is
    not received or is refused. The server goes on running. *)
Theorem update_keeps_running self w now :
  checks_on -> running self w ->
  sat checked_halt (nimbleServerUpdate self w now) (fun '(self', w', code) =>
    running self' w' /\ (code = 0 \/ code = -1) /\
    (code = 0 <-> UpdateQ.state (Server.updateQuality self')
                  = NimbleServerUpdateQualityStateWorking) /\
    (UpdateQ.state (Server.updateQuality self) <> NimbleServerUpdateQualityStateWorking ->
     self' = self /\ w' = w) /\
    (code = 0 -> updated self w now self' w')).
Proof.
  intros Hon Hrun. eapply runs_mono.
  { apply runs_and; [by apply runs_update|by apply runs_update_parts]. }
  intros [[self' w'] code] [(Hrun' & _ & Hcode & Hwork & Hfail) Hparts].
  split; [done|]. split; [done|]. split; [done|]. by split.
Qed.

(** C14. The tick of all parties of a consistent server, in the build in which
    assertions and errors stop the program, if it returns. A party that is not in
    use stays as it is. A party that waited for its client too long is gone: its
    place is free, its participants are leaving, and its connection, if it has
    one, is disconnected. Any other party becomes what its tick makes of it, and
    nothing else. The server stays consistent. *)
Theorem tick_parties_correct self :
  checks_on -> server_ok self ->
  sat checked_halt (tickParties self) (fun self' =>
    server_ok self' /\
    forall i party, Parties.parties (Server.localParties self) !! i = Some party ->
      if Party.isUsed party then tick_result self' i party
      else Parties.parties (Server.localParties self') !! i = Some party).
Proof.
  intros Hon Hs. eapply runs_mono; [by apply (runs_tick_parties self (mkWorld 0 0 0 [] []))|].
  intros self' [Hstep Huntil]. split; [apply Hstep|]. intros i party Hi.
  specialize (Huntil i party Hi). rewrite bool_decide_true in Huntil; [done|].
  by eapply lookup_lt_Some.
Qed.

(** C20. Initialising a server in cleared memory with an acceptable setup, and
    starting a game at a step, makes a consistent server that keeps its tick
    rate, in which nobody plays and whose next authoritative step is the given
    one. No transport connection is in use; all but the first wait, in their
    order, in the free list. *)
Theorem init_starts_session self w setup stepId now :
  setup_ok setup -> memory_ok self -> 0 <= stepId < 4294967296 ->
  runs ('(self, w, code1) ← nimbleServerInit self w setup;
        '(self, w, code2) ← nimbleServerReInitWithGame self w stepId now;
        Ret (self, w, code1, code2))
    (fun '(self', w', code1, code2) =>
       running self' w' /\ new_session self' stepId /\ nobody_connected self' /\
       code1 = 0 /\ code2 = 0).
Proof.
  intros Hsu Hmem Hid. eapply runs_bind_mono; [by apply runs_init|].
  intros [[self1 w1] code1] (Hini & _ & ->). eapply runs_bind_mono.
  { eapply sat_both; [by eapply runs_reinit|apply reinit_connections]. }
  intros [[self2 w2] code2] [(Hrun & Hnew & _ & ->) [Hconns Hfree]].
  destruct (initialised_nobody _ _ Hini) as [Hunused Hids].
  split; [done|]. split; [done|]. split; [|done]. by split; rewrite ?Hconns, ?Hfree.
Qed.


(** C7. No datagram frees a party, in the build in which assertions and errors
    stop the program. Whatever datagram arrives on whatever connection, if its
    handling returns and does not stop the program, a party in use is still in use
    with the same participants, each of them is still in use in this party and is
    not told to leave, and a party in normal state does not start to wait for its
    client. *)
Theorem datagram_never_ends_party self w transportIndex data replyTo i party :
  checks_on -> server_ok self -> 0 <= transportIndex < 256 ->
  parties_of self !! i = Some party -> Party.isUsed party = true ->
  sat checked_halt (nimbleServerFeed self w transportIndex data replyTo) (fun '(self', _, _) =>
    exists party', parties_of self' !! i = Some party' /\ Party.isUsed party' = true /\
      Party.participantReferences party' = Party.participantReferences party /\
      (Party.state party = NimbleServerLocalPartyStateNormal ->
       Party.state party' = NimbleServerLocalPartyStateNormal) /\
      forall q, q ∈ referenced (Party.participantReferences party) ->
        exists o, pool_of (Server.game self') !! q = Some o /\ Participant.isUsed o = true /\
          Participant.inParty o = Some i /\
          Participant.state o <> NimbleServerParticipantStateLeaving).
Proof.
  intros Hon Hs Hindex Hi Hu. eapply runs_mono; [by apply runs_feed|].
  intros [[self' w'] code] [Hchange Hlives].
  destruct (Forall2_lookup_l _ _ _ _ _ Hlives Hi) as (party' & Hi' & Hp).
  destruct (Hp Hu) as (Hu' & Hrefs & Hstate). exists party'.
  split; [done|]. split; [done|]. split; [done|]. split; [done|].
  rewrite <- Hrefs. apply (so_owned _ _ _ (sv_session _ (sc_ok _ _ _ _ Hchange)) i party' Hi' Hu').
Qed.

(** C2. What clients may rely on: the authoritative steps of a running server
    are a log. Whatever updates, datagrams and connections come, steps are only
    appended, numbered on from the last one, and the oldest ones forgotten. So
    unless all step ids are used up in between, a step that is held before and
    after has the same octets; the steps that clients are sent are taken from this
    buffer. In the build in which assertions and errors stop the program. *)
Theorem authoritative_steps_agree self w es :
  checks_on -> running self w -> Forall event_possible es ->
  sat checked_halt (server_calls es self w) (fun '(self', _, _) => exists new dropped,
    steps_appended (Game.authoritativeSteps (Server.game self))
      (Game.authoritativeSteps (Server.game self')) new dropped /\
    (Z.of_nat (length new) + NBS_WINDOW_SIZE <= 4294967296 -> forall id o o',
       held_step (Game.authoritativeSteps (Server.game self)) id = Some o ->
       held_step (Game.authoritativeSteps (Server.game self')) id = Some o' -> o = o')).
Proof.
  intros Hon Hrun Hes. eapply runs_mono; [by apply runs_server_calls|].
  intros [[self' w'] codes] (Hrun' & (new & dropped & Happ) & _). exists new, dropped.
  split; [done|]. intros Hnew id o o'.
  apply (held_step_same _ _ new dropped); [apply (sv_session _ (rn_ok _ _ Hrun))
    |apply (sv_session _ (rn_ok _ _ Hrun'))|done|done].
Qed.

(** C38. Starting another game on a server that already runs one. Every party is
    freed and the pool of participants and the steps are new, but the number of
    parties stays what it was: the server is consistent again exactly when no
    party was in use. *)
Theorem reinit_keeps_party_count self w stepId now :
  server_ok self -> setup_ok (Server.setup self) -> 0 <= stepId < 4294967296 ->
  runs (nimbleServerReInitWithGame self w stepId now) (fun '(self', w', code) =>
    new_session self' stepId /\ code = 0 /\
    Parties.partiesCount (Server.localParties self')
    = Parties.partiesCount (Server.localParties self) /\
    (server_ok self' <-> Parties.partiesCount (Server.localParties self) = 0)).
Proof.
  intros Hs Hsu Hid. unfold nimbleServerReInitWithGame.
  eapply runs_bind_mono; [apply (runs_game_init _ _ _ (length (parties_of self)));
    [apply Hsu|apply Hsu|apply (sv_session _ Hs)]|].
  intros game (Hsteps & Hpool & Hok & _ & Hzero).
  destruct (steps_reinit _ stepId Hsteps Hid) as (Hsteps' & _ & _ & Hwrite & _).
  eapply runs_bind_mono; [eapply runs_parties_reset, Hs|].
  intros parties (Hps & Hcount & Hcap & Hwf). simpl in Hps, Hcount, Hwf, Hcap. run.
  assert (Hunused : Forall (fun party => Party.isUsed party = false) (Parties.parties parties)).
  { rewrite Hps. by apply Forall_fmap, Forall_true. }
  split; [by split|]. split; [done|]. split; [done|]. split.
  - intros Hs'. pose proof (parties_count _ _ _ (sv_parties _ Hs')) as Hc. simpl in Hc.
    rewrite Hcount in Hc. rewrite Hc. by apply count_if_zero.
  - intros Hnone. specialize (Hwf Hnone).
    assert (Hlen : length (Parties.parties parties) = length (parties_of self)).
    { by rewrite Hps, length_fmap. }
    destruct Hs as [Hconns Heach _ _ Hfree Hids Hticks Hoctets].
    split; simpl; try done; [by rewrite Hlen|].
    split; simpl; [|done|by rewrite Hlen|by apply unused_owned|done].
    apply (parties_each _ _ _ (Hwf _)).
Qed.

(** C39. The transport reports that a connection is gone: its index is taken for
    the id of a party. A party in use there is freed, whichever connection plays
    it, but stays counted, so that the server is not consistent any more; its
    participants are not told. Without such a party nothing changes. With an
    index that is no place for a party the program stops at its check, or reads
    past the array. *)
Theorem disconnected_frees_party_uncounted self connectionIndex :
  server_ok self -> 0 <= connectionIndex < 256 ->
  sat (fun h => Parties.capacityCount (Server.localParties self) <= connectionIndex /\
                h = if errors_halt then ErrorLogged else OutOfBounds)
    (nimbleServerConnectionDisconnected self connectionIndex) (fun '(self', code) =>
    exists party, parties_of self !! Z.to_nat connectionIndex = Some party /\
    if Party.isUsed party
    then code = 0 /\
      parties_of self' = <[Z.to_nat connectionIndex
                           := Party.set_isUsed false (Party.set_id 255 party)]> (parties_of self) /\
      Parties.partiesCount (Server.localParties self')
      = Parties.partiesCount (Server.localParties self) /\
      Server.game self' = Server.game self /\ (server_ok self' -> False)
    else code = -4 /\ self' = self).
Proof.
  intros Hs Hi. unfold nimbleServerConnectionDisconnected, nimbleServerLocalPartiesFindParty, CLOG_ERROR.
  pose proof (parties_length _ _ _ (sv_parties _ Hs)) as Hlen.
  pose proof (parties_capacity _ _ _ (sv_parties _ Hs)) as Hcap.
  destruct (Z.leb_spec (Parties.capacityCount (Server.localParties self)) connectionIndex).
  { destruct errors_halt; [done|]. simpl. unfold load. by rewrite (lookup_ge_None_2 (parties_of self)) by lia. }
  destruct (lookup_lt_is_Some_2 (parties_of self) (Z.to_nat connectionIndex)) as [party Hp]; [lia|].
  run. destruct (Party.isUsed party) eqn:Hu; simpl; [|by exists party; rewrite Hu].
  destruct (server_conn_lookup self (Z.to_nat connectionIndex) Hs) as (conn & Hl & _); [lia|].
  run. exists party. rewrite Hu. split; [done|].
  do 4 (split; [done|]). intros Hs'.
  pose proof (parties_count _ _ _ (sv_parties _ Hs')) as Hc. simpl in Hc.
  rewrite (count_if_insert _ _ _ _ _ Hp), Hu, (parties_count _ _ _ (sv_parties _ Hs)) in Hc.
  simpl in Hc. lia.
Qed.

(** The transport reports a new connection before its first datagram, and
    the place was used by no transport connection with this index before: it is
    marked as used, but not initialised, so that every datagram that the client
    sends is refused and changes nothing. *)
Theorem announced_connection_refused self w index conn data replyTo :
  0 <= index < 64 -> Server.transportConnections self !! Z.to_nat index = Some conn ->
  Conn.isUsed conn = false -> Conn.transportIndex conn <> index ->
  runs ('(self1, code1) ← nimbleServerConnectionConnected self index;
        '(self2, w2, code2) ← nimbleServerFeed self1 w index data replyTo;
        Ret (self1, self2, w2, code1, code2))
    (fun '(self1, self2, w2, code1, code2) =>
       code1 = 0 /\ code2 = NimbleServerErrSerialize /\ self2 = self1 /\ w2 = w).
Proof.
  intros Hi Hc Hu Hindex. unfold nimbleServerConnectionConnected. run. rewrite Hu. run.
  eapply runs_mono.
  { eapply (runs_feed_elsewhere _ _ _ (Conn.set_isUsed true conn)); [done|..]; [|done|exact Hindex]. simpl.
    apply list_lookup_insert_eq. by eapply lookup_lt_Some. }
  intros [[self2 w2] code2] (-> & -> & ->). by run.
Qed.
End ServerProperties.

(** ** Witnesses *)
Import Models.

(** A server in cleared memory. *)
Definition cleared_server : NimbleServer :=
  Server.mk _ _ _ _ _ _ (replicate 64 zero_connection) (Parties.mk _ [] 0 0 0 0)
    (Game.mk _ (nbsStepsInit 0) (Pool.mk _ [] 0 0 zero_buffer) false) 0 example_setup 0 0
    example_watch zero_buffer 0.

(** On connection 3: the datagram with id 1 and client time 7, in which one
    player asks to join; and the datagram with id 2, that asks for the state. *)
Definition join_datagram : list Z := [1; 0; 7; 3; 0; 0; 0; 9; 1; 0].
Definition download_datagram : list Z := [2; 0; 9; 4; 5].
Definition example_events : list server_event :=
  [Arrived [mkReceived 10 3 join_datagram; mkReceived 5 3 download_datagram]; Updated 0].

Lemma debug_checks_on : checks_on (H := debug_build).
Proof. done. Qed.

Lemma example_running : running example_server example_world.
Proof. split; [exact example_server_ok|split; simpl; lia|simpl; lia]. Qed.

Lemma example_setup_ok : setup_ok example_setup.
Proof. split; simpl; lia || done. Qed.

Lemma cleared_memory_ok : memory_ok cleared_server.
Proof. split; try done. apply Forall_replicate. split; [simpl; lia|]. split; simpl; lia. Qed.

Lemma feed_safe_witness :
  sat (fun h => h = AssertionFailed \/ h = ErrorLogged \/ exists what,
         h = UninitializedRead what /\
         what ∈ [NumberOfDatagram; PlayerOfRequest; PartyOfRequest; TransferOfConnection])
    (nimbleServerFeed (H := debug_build) example_server example_world 3 join_datagram 3)
    (fun '(self', w', _) => server_ok self') /\
  match nimbleServerFeed (H := debug_build) example_server example_world 3 join_datagram 3 with
  | Ret (_, w', code) => code = 0 /\ sent w' = [(3, [0; 0; 7; 3; 1; 0; 1; 1; 0])]
  | Halt _ => False
  end.
Proof.
  split; [|vm_compute; auto].
  eapply runs_mono; [apply (feed_safe (H := debug_build))|].
  - exact debug_checks_on.
  - exact example_server_ok.
  - lia.
  - intros [[self' w'] code] [Hok _]. exact Hok.
Defined.

(** Datagrams that stop the server by what was not set: the id of the download is
    missing; a rejoin with two players of a party that has one; and the receipt of
    a transfer that was never started. *)
Lemma datagrams_stop_server :
  (fun data => halted (nimbleServerFeed (H := debug_build) example_server example_world 3 data 3))
    <$> [[1; 0; 7; 4]; [1; 0; 7; 3; 1; 0; 0; 9; 2; 0; 0]; [1; 0; 7; 5; 0]]
  = [Some (UninitializedRead NumberOfDatagram); Some (UninitializedRead PartyOfRequest);
     Some (UninitializedRead TransferOfConnection)].
Proof. vm_compute. reflexivity. Qed.

Lemma update_keeps_running_witness :
  sat checked_halt (nimbleServerUpdate (H := debug_build) example_server example_world 0)
    (fun '(self', w', code) => running self' w') /\
  match nimbleServerUpdate (H := debug_build) example_server
          (set_inbox [mkReceived 10 3 join_datagram] example_world) 0 with
  | Ret (_, w', code) => code = 0 /\ inbox w' = [] /\ sent w' = [(3, [0; 0; 7; 3; 1; 0; 1; 1; 0])]
  | Halt _ => False
  end.
Proof.
  split; [|vm_compute; auto].
  eapply runs_mono; [apply (update_keeps_running (H := debug_build))|].
  - exact debug_checks_on.
  - exact example_running.
  - intros [[self' w'] code] [Hrun _]. exact Hrun.
Defined.

(** The example, with its party 0 changed. *)
Definition with_party_0 (f : NimbleServerLocalParty -> NimbleServerLocalParty) : NimbleServer :=
  Server.set_localParties
    (Parties.set_parties (alter f 0%nat (Parties.parties example_parties)) example_parties)
    example_server.

Lemma with_party_0_ok f :
  (forall party, party_like (length (pool_of example_game)) 64 party (f party)) ->
  server_ok (with_party_0 f).
Proof.
  intros Hf.
  destruct (lookup_lt_is_Some_2 (Parties.parties example_parties) 0) as [party Hp]; [simpl; lia|].
  assert (Hlike : parties_like (length (pool_of example_game)) 64
    (Parties.parties example_parties) (alter f 0%nat (Parties.parties example_parties))).
  { rewrite (alter_insert f _ _ _ Hp). by apply (parties_like_insert _ _ _ _ party). }
  apply (sc_ok example_server example_world _ example_world).
  apply (server_parties_change example_server example_world (Parties.set_parties
    (alter f 0%nat (Parties.parties example_parties)) example_parties) example_game).
  - exact example_server_ok.
  - exact (session_parties_like _ _ _ _ Hlike (sv_session _ example_server_ok)).
  - exact (parties_wf_like _ _ _ _ (sv_parties _ example_server_ok) Hlike).
  - reflexivity.
  - reflexivity.
Qed.

(** Party 0, that has waited for 99 of its 100 ticks. *)
Definition patient_server : NimbleServer :=
  with_party_0 (fun party => Party.set_waitingForReconnectTimer 99
    (Party.set_waitingForReconnectMaxTimer 100
       (Party.set_state NimbleServerLocalPartyStateWaitingForReJoin party))).

Lemma patient_server_ok : server_ok patient_server.
Proof.
  apply with_party_0_ok. intros party. split; [done|]. split; [done|].
  intros [Hid [Hr Ht Hm Hd] Hs Hc]. by split; simpl.
Qed.

Lemma tick_parties_correct_witness :
  sat checked_halt (tickParties (H := debug_build) patient_server) (fun self' => server_ok self') /\
  match tickParties (H := debug_build) patient_server with
  | Ret self' => Parties.partiesCount (Server.localParties self') = 0 /\
      contents (Server.freeTransportConnectionList self') = [5; 6; 0]
  | Halt _ => False
  end.
Proof.
  split; [|vm_compute; auto].
  eapply runs_mono; [apply (tick_parties_correct (H := debug_build))|].
  - exact debug_checks_on.
  - exact patient_server_ok.
  - intros self' [Hok _]. exact Hok.
Defined.

Lemma init_starts_session_witness :
  runs ('(self, w, code1) ← nimbleServerInit (H := debug_build) cleared_server example_world
                              example_setup;
        '(self, w, code2) ← nimbleServerReInitWithGame (H := debug_build) self w 7 0;
        Ret (self, w, code1, code2))
    (fun '(self', w', code1, code2) =>
       server_ok self' /\
       expectedWriteId (Game.authoritativeSteps (Server.game self')) = 7).
Proof.
  eapply runs_mono; [apply (init_starts_session (H := debug_build))|].
  - exact example_setup_ok.
  - exact cleared_memory_ok.
  - lia.
  - intros [[[self' w'] code1] code2] (Hrun & Hnew & _).
    split; [exact (rn_ok _ _ Hrun)|exact (ns_step _ _ Hnew)].
Defined.


(** The same session, run: the client has joined, and is sent the state. *)
Lemma session_example_runs :
  match '(self, w, _) ← nimbleServerInit (H := debug_build) cleared_server example_world
                       example_setup;
        '(self, w, _) ← nimbleServerReInitWithGame (H := debug_build) self w 7 0;
        server_calls (H := debug_build) example_events self w with
  | Ret (self', w', codes) => codes = [0; 0] /\
      Parties.partiesCount (Server.localParties self') = 1 /\ length (sent w') = 3%nat
  | Halt _ => False
  end.
Proof. vm_compute. auto. Qed.

Lemma reinit_keeps_party_count_witness :
  runs (nimbleServerReInitWithGame (H := debug_build) example_server example_world 7 0)
    (fun '(self', w', code) => code = 0 /\ (server_ok self' -> False)).
Proof.
  eapply runs_mono; [apply (reinit_keeps_party_count (H := debug_build))|].
  - exact example_server_ok.
  - exact example_setup_ok.
  - lia.
  - intros [[self' w'] code] (_ & Hcode & _ & Hiff). split; [exact Hcode|].
    intros Hok. apply Hiff in Hok. discriminate Hok.
Defined.

Lemma disconnected_frees_party_uncounted_witness :
  sat (fun h => 2 <= 0 /\ h = ErrorLogged)
    (nimbleServerConnectionDisconnected (H := debug_build) example_server 0)
    (fun '(self', code) => code = 0 /\ (server_ok self' -> False)).
Proof.
  eapply runs_mono;
    [apply (disconnected_frees_party_uncounted (H := debug_build) example_server 0)|].
  - exact example_server_ok.
  - lia.
  - intros [self' code] (party & Hp & Hr). injection Hp as <-. simpl in Hr.
    destruct Hr as (Hcode & _ & _ & _ & Hbroken). split; [exact Hcode|exact Hbroken].
Defined.

Lemma announced_connection_refused_witness :
  runs ('(self1, code1) ← nimbleServerConnectionConnected cleared_server 3;
        '(self2, w2, code2) ← nimbleServerFeed (H := debug_build) self1 example_world 3
                                join_datagram 3;
        Ret (self1, self2, w2, code1, code2))
    (fun '(self1, self2, w2, code1, code2) => code2 = NimbleServerErrSerialize).
Proof.
  eapply runs_mono; [apply (announced_connection_refused (H := debug_build) cleared_server
    example_world 3 zero_connection join_datagram 3)|].
  - lia.
  - reflexivity.
  - reflexivity.
  - discriminate.
  - intros [[[[self1 self2] w2] code1] code2] (_ & Hcode & _). exact Hcode.
Defined.

(** Connection 3 sends its request to join; party 0 plays on. *)
Lemma datagram_never_ends_party_witness :
  sat checked_halt
    (nimbleServerFeed (H := debug_build) example_server example_world 3 join_datagram 3)
    (fun '(self', _, _) => exists party',
       Parties.parties (Server.localParties self') !! 0%nat = Some party' /\
       Party.isUsed party' = true).
Proof.
  eapply runs_mono; [apply (datagram_never_ends_party (H := debug_build) example_server
    example_world 3 join_datagram 3 0 (Party.set_participantReferences (Refs.mk 1 (replicate 8 0%nat))
       (Party.set_transportConnection (Some 1%nat) example_party)))|].
  - exact debug_checks_on.
  - exact example_server_ok.
  - lia.
  - reflexivity.
  - reflexivity.
  - intros [[self' w'] code] (party' & Hp & Hu & _). exists party'. split; [exact Hp|exact Hu].
Defined.

Lemma authoritative_steps_agree_witness :
  sat checked_halt (server_calls (H := debug_build) example_events example_server example_world)
    (fun '(self', _, _) => exists new dropped,
       steps_appended (Game.authoritativeSteps (Server.game example_server))
         (Game.authoritativeSteps (Server.game self')) new dropped).
Proof.
  eapply runs_mono; [apply (authoritative_steps_agree (H := debug_build))|].
  - exact debug_checks_on.
  - exact example_running.
  - repeat constructor.
  - intros [[self' w'] codes] (new & dropped & Happ & _). exists new, dropped. exact Happ.
Defined.
