(* ===== verification/Silence.v ===== *)
(** * A client that falls silent

    The life of a party whose client provides nothing any more, over the
    updates of the whole server (lib/server.c, lib/local_party.c,
    lib/delayed_quality.c): it is kept for a fixed number of updates and is
    gone after the next one. *)

From S2P Require Import Prelude.
From S2P Require Import ExternalLibs.
From S2P Require Import ExternalModels.
From S2P Require Import StepLog.
From S2P Require Import CircularBuffer.
From S2P Require Import ConnectionQuality.
From S2P Require Import UpdateQuality.
From S2P Require Import GameState.
From S2P Require Import Participants.
From S2P Require Import LocalParty.
From S2P Require Import TransportConnection.
From S2P Require Import LocalParties.
From S2P Require Import Game.
From S2P Require Import AuthoritativeSteps.
From S2P Require Import Session.
From S2P Require Import ServerState.
From S2P Require Import Server.

(** ** A party on its own *)
Section SilentParty.
Context `{Stats}.
Implicit Types (party : NimbleServerLocalParty).

(** A party that follows its connection, whose quality is failing. *)
Record falls_silent (c N : Z) party : Prop := {
  fs_used : Party.isUsed party = true;
  fs_state : Party.state party = NimbleServerLocalPartyStateNormal;
  fs_failing : isFailingToProvideStepsInTime (Party.quality party) = true;
  fs_delayed : Party.delayedQuality party = Delayed.mk c;
  fs_count : 0 <= c <= 180;
  fs_max : Party.waitingForReconnectMaxTimer party = N;
  fs_range : 1 <= N < 18446744073709551616;
}.

(** The party after [n] ticks: the bad ticks are counted, then the wait is. *)
Definition silent_after (c n : Z) party : NimbleServerLocalParty :=
  if bool_decide (c + n <= 180) then Party.set_delayedQuality (Delayed.mk (c + n)) party
  else Party.set_waitingForReconnectTimer (c + n - 181) (waiting party (Delayed.mk 181)).

(** The number of the tick that gives the party up. *)
Definition ticks_of_silence (c N : Z) : Z := 181 - c + N.

Lemma silent_after_0 c N party : falls_silent c N party -> silent_after c 0 party = party.
Proof.
  intros [_ _ _ Hd Hc _ _]. unfold silent_after. rewrite bool_decide_true by lia.
  rewrite Z.add_0_r, <- Hd. by destruct party.
Qed.

Lemma silent_after_succ c N n party :
  falls_silent c N party -> 0 <= n < ticks_of_silence c N ->
  party_ticked (silent_after c n party) = silent_after c (n + 1) party.
Proof.
  unfold ticks_of_silence. intros [_ Hs Hq Hd Hc Hm HN] Hn. unfold silent_after.
  destruct (Z.le_gt_cases (c + n) 180) as [Hle|Hgt].
  - rewrite bool_decide_true by lia. unfold party_ticked. simpl. rewrite Hs.
    rewrite delayed_tick_bad by (done || simpl; lia). simpl.
    rewrite (bool_decide_ext (c + n + 1 <= 180) (c + (n + 1) <= 180)) by lia.
    replace (c + n + 1) with (c + (n + 1)) by lia. case_bool_decide as Hnext; [done|].
    replace (c + (n + 1)) with 181 by lia. done.
  - rewrite !bool_decide_false by lia. unfold party_ticked. simpl.
    rewrite u64_small by lia. by replace (c + n - 181 + 1) with (c + (n + 1) - 181) by lia.
Qed.

Lemma silent_after_kept c N n party :
  falls_silent c N party -> 0 <= n < ticks_of_silence c N ->
  gives_up (silent_after c n party) = bool_decide (n + 1 = ticks_of_silence c N).
Proof.
  unfold ticks_of_silence. intros [_ Hs Hq Hd Hc Hm HN] Hn. unfold gives_up, silent_after.
  destruct (Z.le_gt_cases (c + n) 180) as [Hle|Hgt].
  - rewrite (bool_decide_true (c + n <= 180)) by lia. simpl. rewrite Hs.
    by rewrite !bool_decide_false by (done || lia).
  - rewrite (bool_decide_false (c + n <= 180)) by lia. simpl.
    rewrite u64_small, Hm by lia.
    case_bool_decide; [apply Z.leb_le|apply Z.leb_gt]; lia.
Qed.

(** It stays the same party meanwhile. *)
Lemma silent_after_same c n party :
  Party.isUsed (silent_after c n party) = Party.isUsed party /\
  Party.participantReferences (silent_after c n party) = Party.participantReferences party /\
  Party.transportConnection (silent_after c n party) = Party.transportConnection party.
Proof. unfold silent_after. by case_bool_decide. Qed.
End SilentParty.

(** ** The updates of the server *)
Section SilentServer.
Context `{Clog} `{OrderedDatagram} `{!BlobStream} `{NimbleSteps} `{!NimbleSerialize}
  `{!NimbleStepsSerialize} `{TinyLibc} `{Stats} `{DatagramTransport} `{Environment}
  `{ImprintAllocator} `{CallbackObject}.
Context `{!FldInLaws} `{!OrderedDatagramLaws} `{!BlobStreamLaws} `{!NimbleStepsLaws}
  `{!NimbleStepsSerializeLaws} `{!NimbleSerializeLaws} `{!FldOutLaws} `{!TinyLibcLaws}
  `{!CallbackLaws} `{!EnvironmentLaws}.
Implicit Types (self : NimbleServer) (w : World) (party : NimbleServerLocalParty).

Abbreviation parties_of self := (Parties.parties (Server.localParties self)).

(** Updates at the given times, until one fails, as the host's loop does. *)
Fixpoint updates (nows : list Z) self w : outcome (NimbleServer * World * Z) :=
  match nows with
  | [] => Ret (self, w, 0)
  | now :: nows =>
      '(self, w, code) ← nimbleServerUpdate self w now;
      if code <? 0 then Ret (self, w, code) else updates nows self w
  end.

Lemma read_nothing self w :
  inbox w = [] -> nimbleServerReadFromMultiTransport self w = Ret (self, w, 0).
Proof. intros Hw. unfold nimbleServerReadFromMultiTransport, maximumNumberOfDatagramsPerTick.
  cbn [for_loop]. by rewrite Hw.
Qed.

(** An update in which no datagram waits: only the parties tick. *)
Lemma runs_update_idle self w now :
  checks_on -> running self w -> inbox w = [] ->
  sat checked_halt (nimbleServerUpdate self w now) (fun '(self', w', code) =>
    inbox w' = [] /\ (0 <= code -> parties_ticked self self')).
Proof.
  intros Hon [Hok Hq Ht] Hw. unfold nimbleServerUpdate.
  eapply runs_bind_mono; [by apply runs_weaken, tick_wf|]. intros [quality code] _.
  set (w1 := if bool_decide _ then tick_clock w else w).
  assert (Hw1 : inbox w1 = []) by (unfold w1; by case_bool_decide).
  set (self1 := Server.set_updateQuality quality self).
  assert (Hok1 : server_ok self1) by (by destruct Hok).
  destruct (Z.ltb_spec code 0); [split; [done|lia]|].
  eapply runs_bind_mono; [by apply (runs_tick_parties self1 w1)|].
  intros self2 [_ Huntil]. rewrite read_nothing by done. split; [done|]. intros _ i party Hi.
  apply ticked_until_all in Huntil. specialize (Huntil i party Hi).
  destruct (Party.isUsed party); [|done].
  apply (tick_result_frame self2 _ i (S i)); [lia| |done]. split; [done..|]. by left.
Qed.

(** What became of party [k] after [n] updates. *)
Definition silent_result (c N : Z) (k : nat) party (n : Z) self' : Prop :=
  match n ?= ticks_of_silence c N with
  | Lt => parties_of self' !! k = Some (silent_after c n party)
  | Eq => gone self' k party
  | Gt => exists party', parties_of self' !! k = Some party' /\ Party.isUsed party' = false
  end.

Lemma gone_same self' k party party' :
  Party.participantReferences party' = Party.participantReferences party ->
  Party.transportConnection party' = Party.transportConnection party ->
  gone self' k party' -> gone self' k party.
Proof. intros Hr Hc []. by split; rewrite <- ?Hr, <- ?Hc. Qed.

Lemma silent_result_step c N k party n self1 self2 :
  falls_silent c N party -> 0 <= n ->
  silent_result c N k party n self1 -> parties_ticked self1 self2 ->
  silent_result c N k party (n + 1) self2.
Proof.
  intros Hs Hn Hres Hticked. unfold silent_result in *.
  destruct (Z.compare_spec n (ticks_of_silence c N)) as [->|Hlt|Hgt].
  - rewrite (proj2 (Z.compare_gt_iff _ _)) by lia. destruct Hres as [(q & Hq & Hu) _ _].
    exists q. specialize (Hticked k q Hq). by rewrite Hu in Hticked.
  - specialize (Hticked k _ Hres). destruct (silent_after_same c n party) as (Hu & Hr & Hc).
    rewrite Hu, (fs_used _ _ _ Hs) in Hticked. unfold tick_result in Hticked.
    rewrite (silent_after_kept c N), (silent_after_succ c N) in Hticked by done.
    case_bool_decide as Hlast.
    + rewrite Hlast, Z.compare_refl. by eapply gone_same.
    + by rewrite (proj2 (Z.compare_lt_iff _ _)) by lia.
  - rewrite (proj2 (Z.compare_gt_iff _ _)) by lia. destruct Hres as (q & Hq & Hu).
    exists q. specialize (Hticked k q Hq). by rewrite Hu in Hticked.
Qed.

Lemma runs_updates_silent c N k party nows : forall n self w,
  checks_on -> falls_silent c N party -> 0 <= n ->
  running self w -> inbox w = [] -> silent_result c N k party n self ->
  sat checked_halt (updates nows self w) (fun '(self', w', code) =>
    running self' w' /\ (0 <= code ->
      silent_result c N k party (n + Z.of_nat (length nows)) self')).
Proof.
  induction nows as [|now nows IH]; intros n self w Hon Hs Hn Hrun Hw Hres; cbn [updates].
  { split; [done|]. by rewrite Z.add_0_r. }
  eapply runs_bind_mono.
  { apply runs_and; [by apply runs_update|by apply runs_update_idle]. }
  intros [[self1 w1] code] [(Hrun1 & _) (Hw1 & Hticked)].
  destruct (Z.ltb_spec code 0); [split; [done|lia]|].
  cbn [length]. replace (n + Z.of_nat (S (length nows))) with (n + 1 + Z.of_nat (length nows)) by lia.
  apply IH; try done; [lia|]. by eapply silent_result_step; [..|apply Hticked].
Qed.

(** C9. A client that falls silent does not hold its party for ever, nor does it
    lose it at once; in the build in which assertions and errors stop the program.
    From a running server whose party [k] follows a failing connection, with [c]
    bad ticks counted so far and [N] the length of the wait for a rejoin, updates
    in which no datagram arrives, at whatever times and as long as all of them
    succeed, keep the party with its participants and connection for
    [180 - c + N] updates. After exactly one more it is gone: its participants are
    leaving, its connection is disconnected, its place is free; and the place
    stays free. The server keeps running. *)
Theorem silent_client_loses_party self w nows k party c N :
  checks_on -> running self w -> inbox w = [] ->
  Parties.parties (Server.localParties self) !! k = Some party -> falls_silent c N party ->
  sat checked_halt (updates nows self w) (fun '(self', w', code) =>
    running self' w' /\ (0 <= code ->
      match Z.of_nat (length nows) ?= 181 - c + N with
      | Lt => exists party', Parties.parties (Server.localParties self') !! k = Some party' /\
          Party.isUsed party' = true /\
          Party.participantReferences party' = Party.participantReferences party /\
          Party.transportConnection party' = Party.transportConnection party
      | Eq => gone self' k party
      | Gt => exists party', Parties.parties (Server.localParties self') !! k = Some party' /\
          Party.isUsed party' = false
      end)).
Proof.
  intros Hon Hrun Hw Hk Hs. eapply runs_mono.
  { apply (runs_updates_silent c N k party nows 0); try done. unfold silent_result.
    rewrite (proj2 (Z.compare_lt_iff _ _)); [by rewrite (silent_after_0 c N)|].
    unfold ticks_of_silence. destruct Hs. lia. }
  intros [[self' w'] code] [Hrun' Hres]. split; [done|]. intros Hcode. specialize (Hres Hcode).
  unfold silent_result, ticks_of_silence in Hres. simpl in Hres.
  destruct (_ ?= _); [done| |done]. destruct (silent_after_same c (Z.of_nat (length nows)) party)
    as (Hu & Hsame). exists (silent_after c (Z.of_nat (length nows)) party).
  by rewrite Hu, (fs_used _ _ _ Hs).
Qed.
End SilentServer.

(** ** Witnesses *)
Import Models.

(** Party 0 has counted 179 bad ticks and may wait for one tick. *)
Definition silent_server : NimbleServer :=
  with_party_0 (fun party => Party.set_quality (Quality.mk 300 0 0 false)
    (Party.set_delayedQuality (Delayed.mk 179) (Party.set_waitingForReconnectMaxTimer 1 party))).

Lemma silent_server_ok : server_ok silent_server.
Proof.
  apply with_party_0_ok. intros party. split; [done|]. split; [done|].
  intros [Hid [Hr Ht Hm Hd] Hs Hc]. by split; simpl.
Qed.

Lemma silent_running : running silent_server example_world.
Proof. split; [exact silent_server_ok|split; simpl; lia|simpl; lia]. Qed.

(** The states of the server after each of the first updates. *)
Definition used_after (n : nat) : option bool :=
  match updates (H := debug_build) (replicate n 0) silent_server example_world with
  | Ret (self, _, code) =>
      if code <? 0 then None
      else Party.isUsed <$> Parties.parties (Server.localParties self) !! 0%nat
  | Halt _ => None
  end.

Lemma silent_client_loses_party_witness :
  sat checked_halt (updates (H := debug_build) [0; 0; 0] silent_server example_world)
    (fun '(self', w', code) => running self' w' /\
       (0 <= code -> exists party, gone self' 0 party)) /\
  used_after <$> [0; 1; 2; 3; 4]%nat
  = [Some true; Some true; Some true; Some false; Some false].
Proof.
  split; [|vm_compute; reflexivity].
  destruct (lookup_lt_is_Some_2 (Parties.parties (Server.localParties silent_server)) 0)
    as [party Hp]; [simpl; lia|].
  eapply runs_mono; [apply (silent_client_loses_party (H := debug_build) _ _ _ 0 party 179 1)|].
  - exact debug_checks_on.
  - exact silent_running.
  - reflexivity.
  - exact Hp.
  - simpl in Hp. injection Hp as <-. split; try reflexivity; lia.
  - intros [[self' w'] code] [Hrun Hgone]. split; [exact Hrun|].
    intros Hcode. exists party. exact (Hgone Hcode).
Defined.
