(* ===== verification/Connecting.v ===== *)
(** * Connecting clients (lib/req_connect.c and lib/server.c together)

    What a request to connect does to the clients on other transport
    connections. A datagram is fed to the connection at the index of its
    transport, but a request to connect takes the place that was free the
    longest, whatever its index. Also, what the feeding loop makes of a request
    for a download. *)

From S2P Require Import Prelude.
From S2P Require Import ExternalLibs.
From S2P Require Import ExternalModels.
From S2P Require Import StepLog.
From S2P Require Import CircularBuffer.
From S2P Require Import ConnectionQuality.
From S2P Require Import UpdateQuality.
From S2P Require Import GameState.
From S2P Require Import Participants.
From S2P Require Import LocalParty.
From S2P Require Import TransportConnection.
From S2P Require Import LocalParties.
From S2P Require Import Game.
From S2P Require Import StepFormat.
From S2P Require Import AuthoritativeSteps.
From S2P Require Import Session.
From S2P Require Import StepRequest.
From S2P Require Import ServerState.
From S2P Require Import ConnectRequest.
From S2P Require Import JoinRequest.
From S2P Require Import StateDownload.
From S2P Require Import Server.

Section Connecting.
Context `{Clog} `{OrderedDatagram} `{!BlobStream} `{NimbleSteps} `{!NimbleSerialize}
  `{!NimbleStepsSerialize} `{TinyLibc} `{Stats} `{DatagramTransport} `{Environment}
  `{ImprintAllocator} `{CallbackObject}.
Context `{!NimbleStepsLaws}.
Implicit Types (self : NimbleServer) (w : World) (conn : TransportConnection).

(** The place of a transport connection once its first datagram was received. *)
Definition opened_place self conn (index : Z) inLogic : TransportConnection :=
  Conn.set_orderedDatagramInLogic inLogic
    (transportConnectionInit (opened conn index) (maxGameStateOctetCount (Server.setup self))).

(** The datagram holds a request to connect under the request id [id], which is
    reached and can be answered. *)
Definition requests_to_connect self conn (index : Z) (data : list Z) (id : Z) : Prop :=
  exists inLogic s1 e s2 time s3 cmd s4 err version debug,
    orderedDatagramInLogicReceive orderedDatagramInLogicInit
      (set_readDebugInfo true (fldInStreamInit data)) = (inLogic, s1, e) /\ 0 <= e /\
    fldInStreamReadUInt16 s1 = (s2, Some time) /\ in_pos s2 <> in_size s2 /\
    fldInStreamReadUInt8 s2 = (s3, Some cmd) /\ u8 cmd = NimbleSerializeCmdConnectRequest /\
    0 <= (transportConnectionWriteHeader (opened_place self conn index inLogic)
            (set_writeDebugInfo false (fldOutStreamInit MAX_SEND_OCTET_SIZE)) time).2 /\
    nimbleSerializeServerInConnectRequest s3 = (s4, err, (version, id, debug)) /\ 0 <= err /\
    nimbleSerializeVersionIsEqual (Server.applicationVersion self) version = true.

Lemma sat_halts {A} (m : outcome A) h : sat (eq h) m (fun _ => False) -> m = Halt h.
Proof. destruct m; simpl; [done|by intros ->]. Qed.

(** A request to connect that is given a place in use. *)
Lemma runs_connect_used self w index inStream outStream s err version id debug i rest conn :
  errors_halt = true -> server_ok self ->
  nimbleSerializeServerInConnectRequest inStream = (s, err, (version, id, debug)) -> 0 <= err ->
  nimbleSerializeVersionIsEqual (Server.applicationVersion self) version = true ->
  list_find (fun conn => serves index id conn = true) (Server.transportConnections self) = None ->
  contents (Server.freeTransportConnectionList self) = i :: rest ->
  Server.transportConnections self !! Z.to_nat i = Some conn -> Conn.isUsed conn = true ->
  sat (eq ErrorLogged) (nimbleServerReqConnect self w index inStream outStream) (fun _ => False).
Proof.
  intros Hon Hs Hread Herr Hversion Hnone Hcont Hc Hu. unfold nimbleServerReqConnect.
  rewrite Hread, (proj2 (Z.ltb_ge _ _) Herr), Hversion. simpl.
  eapply runs_bind_mono; [apply runs_find_existing, Hs|]. intros existing ->. rewrite Hnone. simpl.
  rewrite isEmpty_contents, Hcont by apply Hs. rewrite bool_decide_false by done.
  apply runs_bind, runs_bind. eapply runs_read; [apply Hs|done|]. intros free _ _ _.
  apply runs_bind. simpl. apply (runs_load _ _ _ _ Hc). rewrite Hu. apply runs_bind.
  unfold CLOG_ERROR. by rewrite Hon.
Qed.

Lemma nobody_serves index id connections :
  existsb (serves index id) connections = false ->
  list_find (fun conn => serves index id conn = true) connections = None.
Proof.
  intros Hnone. apply list_find_None.
  induction connections as [|conn connections IH]; [constructor|]. simpl in Hnone.
  apply orb_false_iff in Hnone as [Hconn Hnone]. constructor; [congruence|by apply IH].
Qed.

(** Opening a place keeps the server consistent, and serves no request but 0. *)
Lemma opened_server_ok self conn index inLogic :
  server_ok self -> Server.transportConnections self !! Z.to_nat index = Some conn ->
  0 <= index < 64 ->
  server_ok (Server.set_transportConnections
    (<[Z.to_nat index := opened_place self conn index inLogic]> (Server.transportConnections self))
    self).
Proof.
  intros Hs Hc Hi. eapply ss_ok, (server_conn_insert self (mkWorld 0 0 0 [] [])); [done|].
  pose proof (opened_ok _ conn index (maxGameStateOctetCount (Server.setup self))
    (Forall_lookup_1 _ _ _ _ (sv_each _ Hs) Hc) ltac:(lia) (sv_octets _ Hs)) as Hok.
  by destruct Hok.
Qed.

Lemma opened_serves self conn index inLogic id :
  list_find (fun conn => serves index id conn = true) (Server.transportConnections self) = None ->
  id <> 0 ->
  list_find (fun conn => serves index id conn = true)
    (<[Z.to_nat index := opened_place self conn index inLogic]> (Server.transportConnections self))
  = None.
Proof.
  rewrite !list_find_None. intros Hnone Hid. apply Forall_insert; [done|].
  unfold serves, opened_place. simpl. rewrite Z.eqb_refl. simpl.
  by destruct id.
Qed.

(** C37. A client that connects locks out another one. It is given the place
    that was free the longest; when that is not the place of its own transport
    connection, every datagram over the transport connection of that place is
    refused from then on, and changes nothing. *)
Theorem connecting_locks_out self w index inStream outStream s err version id debug i rest conn
    data replyTo :
  server_ok self ->
  nimbleSerializeServerInConnectRequest inStream = (s, err, (version, id, debug)) -> 0 <= err ->
  nimbleSerializeVersionIsEqual (Server.applicationVersion self) version = true ->
  list_find (fun conn => serves index id conn = true) (Server.transportConnections self) = None ->
  contents (Server.freeTransportConnectionList self) = i :: rest ->
  Server.transportConnections self !! Z.to_nat i = Some conn -> Conn.isUsed conn = false ->
  i <> index ->
  runs ('(self1, w1, _, _, _) ← nimbleServerReqConnect self w index inStream outStream;
        '(self2, w2, code) ← nimbleServerFeed self1 w1 i data replyTo;
        Ret (self1, w1, self2, w2, code))
    (fun '(self1, w1, self2, w2, code) =>
       server_ok self1 /\ self2 = self1 /\ w2 = w1 /\ code = NimbleServerErrSerialize).
Proof.
  intros Hs Hread Herr Hversion Hnone Hcont Hc Hu Hi.
  pose proof (sv_free_ids _ Hs) as Hids. rewrite Hcont in Hids. apply Forall_inv in Hids as Hrange.
  eapply runs_bind_mono; [by eapply runs_connect_new|].
  intros [[[[self1 w1] s1] o1] code1] (_ & Hok & free & _ & _ & Hself & _).
  eapply runs_bind_mono.
  { eapply (runs_feed_elsewhere _ _ _ (transportConnectionInit (connected conn i index id
      (secureRandomUInt64 (randoms w)) debug) (maxGameStateOctetCount (Server.setup self))));
      [exact Hrange| |done|simpl; congruence].
    rewrite Hself. simpl. apply list_lookup_insert_eq. by eapply lookup_lt_Some. }
  intros [[self2 w2] code] (-> & -> & ->). by apply runs_ret.
Qed.

(** C36. A client whose own place was free the longest. Its first datagram opens
    the place, and the request to connect in it, under a request id other than
    zero, then takes the same place from the free list, which is in use by now:
    where errors stop the program, the request stops the server. *)
Theorem connecting_own_place_stops_server self w index data replyTo id rest conn :
  errors_halt = true -> server_ok self ->
  NimbleSerializeCmdConnectRequest <> NimbleSerializeCmdClientOutBlobStream ->
  contents (Server.freeTransportConnectionList self) = index :: rest ->
  Server.transportConnections self !! Z.to_nat index = Some conn -> Conn.isUsed conn = false ->
  list_find (fun conn => serves index id conn = true) (Server.transportConnections self) = None ->
  id <> 0 -> requests_to_connect self conn index data id ->
  nimbleServerFeed self w index data replyTo = Halt ErrorLogged.
Proof.
  intros Hon Hs Hcmd Hcont Hc Hu Hnone Hid
    (inLogic & s1 & e & s2 & time & s3 & cmd & s4 & err & version & debug &
     Hreceive & He & Htime & Hmore & Hread & Hconnect & Hheader & Hrequest & Herr & Hversion).
  pose proof (sv_free_ids _ Hs) as Hids. rewrite Hcont in Hids. apply Forall_inv in Hids as Hrange.
  apply sat_halts. unfold nimbleServerFeed, NIMBLE_NIMBLE_SERVER_MAX_TRANSPORT_CONNECTIONS.
  rewrite (proj2 (Z.leb_gt _ _)) by lia. run. rewrite Hu. simpl. rewrite Z.eqb_refl. simpl.
  rewrite Hreceive. apply runs_bind, runs_store.
  { rewrite length_insert. by eapply lookup_lt_Some. }
  rewrite (proj2 (Z.ltb_ge _ _) He), Htime, (proj2 (Z.eqb_neq _ _) Hmore). simpl.
  rewrite list_insert_insert_eq. fold (opened_place self conn index inLogic).
  set (self1 := Server.set_transportConnections _ _).
  assert (Hs1 : server_ok self1) by exact (opened_server_ok self conn index inLogic Hs Hc Hrange).
  rewrite Hread. simpl. rewrite Hconnect.
  rewrite (proj2 (Z.eqb_neq _ _) Hcmd).
  assert (Hplace : Server.transportConnections self1 !! Z.to_nat index
    = Some (opened_place self conn index inLogic)).
  { apply list_lookup_insert_eq. by eapply lookup_lt_Some. }
  run. destruct (transportConnectionWriteHeader _ _ _) as [outStream headerErr]. simpl in Hheader.
  rewrite (proj2 (Z.ltb_ge _ _) Hheader). unfold handle_command. rewrite Z.eqb_refl.
  apply runs_bind, runs_bind.
  eapply runs_mono; [eapply (runs_connect_used self1); try done|done].
  apply opened_serves; done.
Qed.

(** A request for a download writes its replies itself: whatever becomes of it,
    the loop over the commands ends with an error, and the commands behind it
    in the datagram are not read. The stream that the loop prepared for a reply
    holds the header only, which is at most four octets. *)
Theorem download_reported_as_error self w c index ct to s s1 cmd :
  in_pos s <> in_size s -> fldInStreamReadUInt8 s = (s1, Some cmd) ->
  u8 cmd = NimbleSerializeCmdDownloadGameStateRequest ->
  NimbleSerializeCmdDownloadGameStateRequest ∉
    [NimbleSerializeCmdClientOutBlobStream; NimbleSerializeCmdConnectRequest;
     NimbleSerializeCmdGameStep; NimbleSerializeCmdJoinGameRequest] ->
  (forall conn, out_pos (transportConnectionWriteHeader conn
     (set_writeDebugInfo false (fldOutStreamInit MAX_SEND_OCTET_SIZE)) ct).1 <= 4) ->
  returns (feed_command c index ct to (self, w, s)) (fun result =>
    exists self' w' code, result = Return (self', w', code) /\ code < 0).
Proof.
  intros Hmore Hread Hcmd Hother Hheader. rewrite !not_elem_of_cons in Hother.
  destruct Hother as (Hblob & Hconnect & Hstep & Hjoin & _). unfold feed_command.
  rewrite (proj2 (Z.eqb_neq _ _) Hmore), Hread. simpl. rewrite Hcmd.
  rewrite (proj2 (Z.eqb_neq _ _) Hblob). apply returns_bind. intros conn.
  pose proof (Hheader conn) as Hpos.
  destruct (transportConnectionWriteHeader _ _ _) as [o e]. simpl in Hpos.
  destruct (Z.ltb_spec e 0); [by do 3 eexists|]. unfold handle_command.
  rewrite (proj2 (Z.eqb_neq _ _) Hconnect), (proj2 (Z.eqb_neq _ _) Hstep),
    (proj2 (Z.eqb_neq _ _) Hjoin), Z.eqb_refl.
  eapply (runs_bind_mono _ _ (fun r => exists self' w' s' code, r = Some (self', w', s', o, code))).
  - apply returns_bind. intros [self' [[w' s'] code]]. by do 4 eexists.
  - intros r (self' & w' & s' & code & ->). destruct (Z.ltb_spec code 0); [by do 3 eexists|].
    rewrite (proj2 (Z.leb_le _ _) Hpos). by do 3 eexists.
Qed.
End Connecting.

(** ** Witnesses *)
Import Models.

Definition connection_5 : TransportConnection := Conn.set_transportConnectionId 5 zero_connection.

(** Place 5 was free the longest; the client on connection 3 takes it, and the
    one on connection 5 is locked out. *)
Lemma connecting_locks_out_witness :
  runs ('(self1, w1, _, _, _) ← nimbleServerReqConnect (H := debug_build) example_server
                                  example_world 3 connect_octets (fldOutStreamInit 1200);
        '(self2, w2, code) ← nimbleServerFeed (H := debug_build) self1 w1 5 join_datagram 5;
        Ret (self1, w1, self2, w2, code))
    (fun '(self1, w1, self2, w2, code) => self2 = self1 /\ code = NimbleServerErrSerialize).
Proof.
  eapply runs_mono; [apply (connecting_locks_out (H := debug_build) example_server example_world 3
    connect_octets (fldOutStreamInit 1200)
    (nimbleSerializeServerInConnectRequest connect_octets).1.1 0 1 9 false 5 [6] connection_5)|].
  - exact example_server_ok.
  - reflexivity.
  - lia.
  - reflexivity.
  - apply nobody_serves. vm_compute. reflexivity.
  - vm_compute. reflexivity.
  - reflexivity.
  - reflexivity.
  - lia.
  - intros [[[[self1 w1] self2] w2] code] (_ & Hself & _ & Hcode). split; [exact Hself|exact Hcode].
Defined.

(** Datagram 1 at time 7 with a request to connect under the id 9. *)
Definition connect_datagram : list Z := [1; 0; 7; 1; 1; 9; 0].

Lemma connecting_own_place_stops_server_witness :
  nimbleServerFeed (H := debug_build) example_server example_world 5 connect_datagram 5
  = Halt ErrorLogged.
Proof.
  apply (connecting_own_place_stops_server (H := debug_build) example_server example_world 5
    connect_datagram 5 9 [6] connection_5).
  - reflexivity.
  - exact example_server_ok.
  - discriminate.
  - vm_compute. reflexivity.
  - reflexivity.
  - reflexivity.
  - apply nobody_serves. vm_compute. reflexivity.
  - lia.
  - do 11 eexists. split; [reflexivity|]. split; [lia|]. split; [reflexivity|].
    split; [discriminate|]. split; [reflexivity|]. split; [reflexivity|].
    split; [vm_compute; discriminate|]. split; [reflexivity|]. split; [lia|reflexivity].
Defined.

(** A download that succeeds is reported as an error, and the datagram behind it
    is not read. *)
Lemma download_stops_reading :
  match nimbleServerReadFromMultiTransport (H := debug_build) example_server
          (set_inbox [mkReceived 5 3 download_datagram; mkReceived 10 4 join_datagram] example_world)
  with
  | Ret (_, w, code) =>
      code = NimbleServerErrSerialize /\ inbox w = [mkReceived 10 4 join_datagram] /\
      (0 < length (sent w))%nat
  | Halt _ => False
  end.
Proof. vm_compute. split; [reflexivity|]. split; [reflexivity|]. lia. Qed.

(** On a server just started, the first client connects over transport
    connection 1. *)
Lemma first_client_stops_fresh_server :
  halted ('(self, w, _) ← nimbleServerInit (H := debug_build) cleared_server example_world
                            example_setup;
          '(self, w, _) ← nimbleServerReInitWithGame (H := debug_build) self w 0 100;
          nimbleServerFeed (H := debug_build) self w 1 connect_datagram 1) = Some ErrorLogged.
Proof. vm_compute. reflexivity. Qed.
