(* ===== verification/Isolation.v ===== *)
(** * Connections do not disturb each other

    What the datagrams of one transport connection may do to the connections of
    the others (lib/server.c, lib/req_connect.c and the handlers they call):
    nothing at all, except to take places that are not in use. *)

From S2P Require Import Prelude.
From S2P Require Import ExternalLibs.
From S2P Require Import ExternalModels.
From S2P Require Import StepLog.
From S2P Require Import CircularBuffer.
From S2P Require Import UpdateQuality.
From S2P Require Import GameState.
From S2P Require Import Participants.
From S2P Require Import LocalParty.
From S2P Require Import TransportConnection.
From S2P Require Import LocalParties.
From S2P Require Import Game.
From S2P Require Import AuthoritativeSteps.
From S2P Require Import Session.
From S2P Require Import StepRequest.
From S2P Require Import ServerState.
From S2P Require Import ConnectRequest.
From S2P Require Import JoinRequest.
From S2P Require Import StateDownload.
From S2P Require Import Server.
From S2P Require Import Connecting.

(** ** What a transport connection may do to a place *)
Section Places.
Context `{OrderedDatagram} `{!BlobStream} `{NimbleSteps} `{Stats}.
Implicit Types (conn : TransportConnection) (l : list TransportConnection).

(** In use for the transport connection [index]. *)
Definition used_for (index : Z) conn : Prop :=
  Conn.isUsed conn = true /\ Conn.transportIndex conn = index.

(** A place stays as it is, or it was its own or not in use and is its own. *)
Definition own_place (index : Z) conn conn' : Prop :=
  conn' = conn \/
  (Conn.isUsed conn = false \/ Conn.transportIndex conn = index) /\ used_for index conn'.

#[export] Instance own_place_preorder index : PreOrder (own_place index).
Proof.
  split; [by left|]. intros a b c [->|[Ha Hb]] [->|[Hb' Hc]]; [by left|by right..].
Qed.

Abbreviation isolated index := (Forall2 (own_place index)).

Lemma isolated_insert index l c conn conn' :
  l !! c = Some conn -> own_place index conn conn' -> isolated index l (<[c := conn']> l).
Proof.
  intros Hc Ho. rewrite <- (list_insert_id _ _ _ Hc) at 1.
  apply Forall2_insert; [by apply reflexivity|done].
Qed.

(** A place that is in use for [index] stays so. *)
Lemma used_for_isolated index l l' c conn :
  isolated index l l' -> l !! c = Some conn -> used_for index conn ->
  exists conn', l' !! c = Some conn' /\ used_for index conn'.
Proof.
  intros Hl Hc Hu. destruct (Forall2_lookup_l _ _ _ _ _ Hl Hc) as (conn' & Hc' & Ho).
  exists conn'. split; [done|]. by destruct Ho as [->|[_ Ho]].
Qed.

(** The use and the transport connection of a place stay. *)
Definition same_use conn conn' : Prop :=
  Conn.isUsed conn' = Conn.isUsed conn /\ Conn.transportIndex conn' = Conn.transportIndex conn.

Lemma same_use_own index conn conn' :
  used_for index conn -> same_use conn conn' -> own_place index conn conn'.
Proof. intros [Hu Hi] [Hu' Hi']. right. split; [by right|]. by split; congruence. Qed.
End Places.

(** ** The handlers *)
Section Handlers.
Context `{Clog} `{OrderedDatagram} `{!BlobStream} `{NimbleSteps} `{!NimbleSerialize}
  `{!NimbleStepsSerialize} `{TinyLibc} `{Stats} `{DatagramTransport} `{Environment}
  `{ImprintAllocator} `{CallbackObject}.
Context `{!FldInLaws} `{!OrderedDatagramLaws} `{!BlobStreamLaws} `{!NimbleStepsLaws}
  `{!NimbleStepsSerializeLaws} `{!NimbleSerializeLaws} `{!FldOutLaws} `{!TinyLibcLaws}
  `{!CallbackLaws}.
Implicit Types (self : NimbleServer) (w : World) (conn : TransportConnection).

Abbreviation connections_of := Server.transportConnections.
Abbreviation isolated index self self' :=
  (Forall2 (own_place index) (connections_of self) (connections_of self')).

(** The connection at [c] is in use for [index]. *)
Definition owns (index : Z) (c : nat) self : Prop :=
  exists conn, connections_of self !! c = Some conn /\ used_for index conn.

Lemma isolated_refl index self : isolated index self self.
Proof. by apply reflexivity. Qed.

Lemma owns_isolated index c self self' :
  isolated index self self' -> owns index c self -> owns index c self'.
Proof. intros Hl (conn & Hc & Hu). by eapply used_for_isolated. Qed.

Lemma with_connection_isolated {A} index self c (f : _ -> outcome (TransportConnection * A)) :
  server_ok self -> owns index c self ->
  (forall conn, game_state_wf (Conn.gameState conn) ->
     returns (f conn) (fun '(conn', _) => same_use conn conn')) ->
  returns (with_connection self c f) (fun '(self', _) => isolated index self self').
Proof.
  intros Hs (conn & Hc & Hu) Hf. unfold with_connection.
  apply returns_load. intros ? Hc'. rewrite Hc in Hc'. injection Hc' as <-.
  eapply runs_bind_mono; [apply Hf, (conn_state _ _ (Forall_lookup_1 _ _ _ _ (sv_each _ Hs) Hc))|].
  intros [conn' a] Hsame. apply returns_store. simpl.
  eapply isolated_insert; [exact Hc|by apply same_use_own].
Qed.

Lemma sending_same conn conn' : sending conn conn' -> same_use conn conn'.
Proof. by intros []. Qed.

Lemma downloaded_same w conn request w' conn' :
  downloaded w conn request w' conn' -> same_use conn conn'.
Proof.
  unfold downloaded. destruct (_ =? _); [intros [? _]; by apply sending_same|].
  by intros [_ []].
Qed.

Lemma feed_blob_isolated index self w c inStream to ct :
  server_ok self -> owns index c self ->
  returns (with_connection self c (fun transportConnection =>
      '(w, transportConnection, inStream, err) ←
        nimbleServerReqBlobStream w transportConnection inStream to ct;
      Ret (transportConnection, (w, inStream, err))))
    (fun '(self', _) => isolated index self self').
Proof.
  intros Hs Ho. apply with_connection_isolated; [done..|]. intros conn _.
  eapply runs_bind_mono; [eapply sat_returns, runs_req_blob|].
  intros [[[w' conn'] s] code] [Hsend _]. by apply sending_same.
Qed.

Lemma feed_download_isolated index self w c inStream to ct :
  server_ok self -> owns index c self ->
  returns (with_connection self c (fun transportConnection =>
      '(w, transportConnection, inStream, result) ←
        nimbleServerReqDownloadGameState w transportConnection inStream to ct;
      Ret (transportConnection, (w, inStream, result))))
    (fun '(self', _) => isolated index self self').
Proof.
  intros Hs Ho. apply with_connection_isolated; [done..|]. intros conn Hwf.
  destruct (fldInStreamReadUInt8 inStream) as [s [request|]] eqn:Hread.
  - eapply runs_bind_mono; [by eapply (runs_req_download (E := fun _ => True))|].
    intros [[[w' conn'] s'] code] (_ & _ & Hd & _). by eapply downloaded_same.
  - unfold nimbleServerReqDownloadGameState. by rewrite Hread.
Qed.

Lemma feed_game_step_isolated index self c inStream outStream :
  server_ok self -> owns index c self ->
  returns (feed_game_step self c inStream outStream)
    (fun '(self', _, _, _) => isolated index self self').
Proof.
  intros Hs (conn & Hc & Hu). unfold feed_game_step.
  pose proof (Forall_lookup_1 _ _ _ _ (sv_each _ Hs) Hc) as Hok.
  apply returns_load. intros ? Hc'. rewrite Hc in Hc'. injection Hc' as <-.
  eapply runs_bind_mono; [eapply sat_returns, runs_req_game_step; [apply Hs|apply Hok]|].
  intros [[[[[[l game] conn'] stat] s] o] code] (_ & (stats & debug & ranges & ->) & _).
  apply returns_store. simpl. eapply isolated_insert; [exact Hc|by apply same_use_own].
Qed.

Lemma req_join_isolated index self c inStream outStream :
  owns index c self ->
  returns (nimbleServerReqGameJoin self c inStream outStream)
    (fun '(self', _, _, _) => isolated index self self').
Proof.
  intros (conn & Hc & Hu). unfold nimbleServerReqGameJoin.
  pose proof (isolated_refl index self) as Hrefl.
  destruct (nimbleSerializeServerInJoinGameRequest inStream) as [[s err] request].
  destruct (err <? 0); [done|]. apply returns_bind. intros [[[parties pool] code] out].
  destruct (code <? 0).
  { by destruct (nimbleSerializeServerOutJoinGameOutOfParticipantSlotsResponse _ _). }
  do 3 (apply returns_bind; intros ?). apply returns_bind. intros parties'.
  apply returns_load. intros conn' Hc'. simpl in Hc'. rewrite Hc in Hc'. injection Hc' as <-.
  apply returns_store, returns_bind. intros participants.
  destruct (nimbleSerializeServerOutJoinGameResponse _ _). simpl.
  eapply isolated_insert; [exact Hc|by apply same_use_own].
Qed.

(** A request to connect takes a place that is not in use. *)
Lemma req_connect_isolated index self w inStream outStream :
  checks_on ->
  returns (nimbleServerReqConnect self w index inStream outStream)
    (fun '(self', _, _, _, _) => isolated index self self').
Proof.
  intros [_ Hon]. unfold nimbleServerReqConnect.
  pose proof (isolated_refl index self) as Hrefl.
  destruct (nimbleSerializeServerInConnectRequest inStream) as [[s err] [[version id] debug]].
  destruct (err <? 0); [done|]. destruct (negb _); [done|]. apply returns_bind. intros existing.
  apply (runs_bind_mono _ _ (fun '(self', _, _) => isolated index self self')).
  - destruct existing as [c|]; [done|]. destruct (nimbleServerCircularBufferIsEmpty _); [done|].
    apply returns_bind. intros [free i]. apply returns_load. intros conn Hc. simpl in Hc.
    destruct (Conn.isUsed conn) eqn:Hu; [unfold CLOG_ERROR; by rewrite Hon|].
    simpl. apply returns_store. simpl. eapply isolated_insert; [exact Hc|].
    right. split; [by left|done].
  - intros [[self' w'] [c|]] Hl; [|done]. apply returns_bind. intros conn.
    by destruct (nimbleSerializeServerOutConnectResponse _ _ _ _).
Qed.

Lemma handle_command_isolated index self w cmd c ct to inStream outStream :
  checks_on -> server_ok self -> owns index c self ->
  returns (handle_command self w cmd c index ct to inStream outStream) (fun r =>
    match r with
    | Some (self', _, _, _, _) => isolated index self self'
    | None => True
    end).
Proof.
  intros Hon Hs Ho. unfold handle_command.
  destruct (cmd =? _); [|destruct (cmd =? _); [|destruct (cmd =? _); [|destruct (cmd =? _); [|done]]]].
  - eapply runs_bind_mono; [by apply req_connect_isolated|]. by intros [[[[self' w'] s] o] code].
  - eapply runs_bind_mono; [by apply feed_game_step_isolated|]. by intros [[[self' s] o] code].
  - eapply runs_bind_mono; [by apply req_join_isolated|]. by intros [[[self' s] o] code].
  - eapply runs_bind_mono; [by apply feed_download_isolated|]. by intros [self' [[w' s] code]].
Qed.

Lemma feed_command_isolated index self w c ct to s :
  checks_on -> server_ok self -> (c < 64)%nat -> owns index c self ->
  returns (feed_command c index ct to (self, w, s)) (flow_post
    (fun '(self', _, _) => isolated index self self')
    (fun '(self', _, _) => isolated index self self')).
Proof.
  intros Hon Hs Hlt Ho. unfold feed_command.
  pose proof (isolated_refl index self) as Hrefl.
  destruct (in_pos s =? in_size s); [done|].
  destruct (fldInStreamReadUInt8 s) as [s1 read]. apply returns_bind. intros cmd.
  destruct (cmd =? NimbleSerializeCmdClientOutBlobStream).
  - eapply runs_bind_mono; [by apply feed_blob_isolated|].
    intros [self' [[w' s'] code]] Hl. by destruct (code <? 0).
  - apply returns_bind. intros conn.
    destruct (transportConnectionWriteHeader _ _ _) as [o e]. destruct (e <? 0); [done|].
    eapply runs_bind_mono.
    { eapply runs_and; [by apply handle_command_isolated|].
      by eapply sat_returns, runs_handle_command. }
    intros [[[[[self' w'] s'] o'] code]|] [Hl Hr]; [|done]. destruct Hr as [Hstep _].
    destruct (code <? 0); [done|]. destruct (out_pos o' <=? 4); [done|].
    eapply runs_bind_mono.
    { apply with_connection_isolated; [apply Hstep|by eapply owns_isolated|done]. }
    intros [self2 []] Hl2. assert (isolated index self self2) by (by etrans).
    by destruct (_ <? _).
Qed.

(** The start of a datagram: a place that is not in use is opened. *)
Lemma open_isolated index conn octets :
  own_place index conn
    (if negb (Conn.isUsed conn) then transportConnectionInit (opened conn index) octets else conn).
Proof. destruct (Conn.isUsed conn) eqn:Hu; [by left|]. right. split; [by left|done]. Qed.

Lemma opened_used index conn octets :
  let conn' :=
    if negb (Conn.isUsed conn) then transportConnectionInit (opened conn index) octets else conn in
  Conn.transportIndex conn' = index -> used_for index conn'.
Proof. intros conn' Hi. split; [|done]. unfold conn'. by destruct (Conn.isUsed conn) eqn:Hu. Qed.

Lemma feed_loop_isolated fuel index self w c ct to s :
  checks_on -> server_ok self -> (c < 64)%nat -> owns index c self -> 0 <= in_pos s <= in_size s ->
  returns (while_loop fuel (feed_command c index ct to) (self, w, s))
    (fun '(self', _, _) => isolated index self self').
Proof.
  intros Hon Hs Hc Ho Hpos. apply (returns_while (fun '(self', _, s') =>
    server_ok self' /\ isolated index self self' /\ 0 <= in_pos s' <= in_size s')).
  { split; [done|]. split; [by apply reflexivity|done]. }
  intros [[self' w'] s'] (Hs' & Hl & Hpos').
  eapply runs_mono.
  { eapply runs_and; [apply feed_command_isolated; [done..|by eapply owns_isolated]|].
    by eapply sat_returns, runs_feed_command. }
  intros [[[self2 w2] s2]|[[self2 w2] code]] [Hl2 Hstep]; simpl in *; [|by etrans].
  destruct Hstep as (Hstep & Hsize & Hpos2). split; [apply Hstep|]. split; [by etrans|lia].
Qed.

Lemma feed_rest_isolated index self w c data to s :
  checks_on -> server_ok self -> (c < 64)%nat -> owns index c self ->
  forward (set_readDebugInfo true (fldInStreamInit data)) s ->
  returns (let '(inStream, read) := fldInStreamReadUInt16 s in
           if in_pos inStream =? in_size inStream then Ret (self, w, 0)
           else clientTime ← initialized NumberOfDatagram read;
                while_loop (S (length data)) (feed_command c index clientTime to)
                  (self, w, inStream))
    (fun '(self', _, _) => isolated index self self').
Proof.
  intros Hon Hs Hc Ho Hf. pose proof (in_read_u16_forward s) as Hf2.
  destruct (fldInStreamReadUInt16 s) as [s2 read]. simpl in Hf2.
  destruct (in_pos s2 =? in_size s2); [exact (isolated_refl index self)|]. apply returns_bind. intros ct.
  destruct (in_init data) as [Hp0 Hs0]. destruct (in_debug true (fldInStreamInit data)) as [Hp Hsz].
  assert (Hf' : forward (set_readDebugInfo true (fldInStreamInit data)) s2) by (by etrans).
  destruct Hf' as [Hsize Hrange]. apply feed_loop_isolated; [done..|lia].
Qed.

Lemma feed_isolated self w index data to :
  checks_on -> server_ok self -> 0 <= index < 256 ->
  returns (nimbleServerFeed self w index data to) (fun '(self', _, _) => isolated index self self').
Proof.
  intros Hon Hs Hindex. unfold nimbleServerFeed, NIMBLE_NIMBLE_SERVER_MAX_TRANSPORT_CONNECTIONS.
  destruct (Z.leb_spec 64 index); [exact (isolated_refl index self)|]. set (c := Z.to_nat index).
  assert (Hc : (c < 64)%nat) by lia. apply returns_load. intros conn Hl.
  set (conn1 := if negb (Conn.isUsed conn) then _ else conn). apply returns_store.
  pose proof (Forall_lookup_1 _ _ _ _ (sv_each _ Hs) Hl) as Hok.
  assert (Hok1 : conn_ok (length (Parties.parties (Server.localParties self))) conn1).
  { unfold conn1. destruct (negb _); [|done]. apply opened_ok; [done|lia|apply Hs]. }
  pose proof (open_isolated index conn (maxGameStateOctetCount (Server.setup self))) as Hown.
  pose proof (opened_used index conn (maxGameStateOctetCount (Server.setup self))) as Hused.
  fold conn1 in Hown, Hused. simpl in Hused.
  destruct (Z.eqb_spec (Conn.transportIndex conn1) index) as [Hi|_]; simpl negb; cbv iota;
    [|by eapply isolated_insert].
  specialize (Hused Hi).
  pose proof (ordered_receive_forward (Conn.orderedDatagramInLogic conn1)
    (set_readDebugInfo true (fldInStreamInit data))) as Hf.
  destruct (orderedDatagramInLogicReceive _ _) as [[inLogic s] error]. simpl in Hf.
  apply returns_store. simpl connections_of. rewrite list_insert_insert_eq.
  set (conn2 := Conn.set_orderedDatagramInLogic inLogic conn1).
  set (self2 := Server.set_transportConnections _ _).
  assert (Hl2 : isolated index self self2).
  { eapply isolated_insert; [exact Hl|]. etrans; [exact Hown|]. by apply same_use_own. }
  destruct (error <? 0); [exact Hl2|]. eapply runs_mono.
  { apply feed_rest_isolated; try done.
    - assert (Hok2 : conn_ok (length (Parties.parties (Server.localParties self))) conn2)
        by (by destruct Hok1).
      exact (ss_ok _ _ _ _ (server_conn_insert self w c conn2 Hs Hok2)).
    - exists conn2. split; [|done]. apply list_lookup_insert_eq. by eapply lookup_lt_Some. }
  intros [[self' w'] code] Hl'. by etrans.
Qed.

(** C8. The datagrams of one transport connection leave the others alone, in the
    build in which assertions and errors stop the program. When the handling of a
    datagram that arrives over the transport connection [index] returns, whatever
    its octets are, no connection in use for another transport connection has
    changed. A connection that has changed was in use for [index], or was not in
    use, and is in use for [index] now. The server stays consistent. (Where errors
    do not stop the program, a request to connect may take a place that is in use,
    see [quiet_build_takes_place].) *)
Theorem datagram_leaves_others_alone self w index data to :
  checks_on -> server_ok self -> 0 <= index < 256 ->
  sat checked_halt (nimbleServerFeed self w index data to) (fun '(self', w', _) =>
    server_ok self' /\
    forall c conn, Server.transportConnections self !! c = Some conn ->
      exists conn', Server.transportConnections self' !! c = Some conn' /\
        if Conn.isUsed conn && negb (Conn.transportIndex conn =? index) then conn' = conn
        else conn' = conn \/ Conn.isUsed conn' = true /\ Conn.transportIndex conn' = index).
Proof.
  intros Hon Hs Hi. eapply runs_mono.
  { eapply sat_both; [by apply runs_feed|by apply feed_isolated]. }
  intros [[self' w'] code] [Hstep Hl]. split; [apply Hstep|]. intros c conn Hc.
  destruct (Forall2_lookup_l _ _ _ _ _ Hl Hc) as (conn' & Hc' & Ho). exists conn'. split; [done|].
  destruct Ho as [->|[Hor Hown]]; [by destruct (_ && _); [|left]|].
  destruct (Conn.isUsed conn); simpl; [|by right].
  destruct Hor as [|Hsame]; [done|]. rewrite Hsame, Z.eqb_refl. by right.
Qed.
End Handlers.

(** ** Witnesses *)
Import Models.

(** Of the connection at [c]: whether it is in use, and for which transport
    connection. *)
Definition use_of (self : NimbleServer) (c : nat) : option (bool * Z) :=
  (fun conn => (Conn.isUsed conn, Conn.transportIndex conn))
    <$> Server.transportConnections self !! c.

(** The example, with a client on transport connection 1. *)
Definition connection_1 : TransportConnection :=
  transportConnectionInit (opened zero_connection 1) 64.
Definition busy_server : NimbleServer :=
  Server.set_transportConnections
    (<[1%nat := connection_1]> (Server.transportConnections example_server)) example_server.

Lemma busy_server_ok : server_ok busy_server.
Proof.
  apply (ss_ok example_server example_world _ example_world), server_conn_insert;
    [exact example_server_ok|].
  apply opened_ok; [|lia..]. by split; simpl; [lia|..].
Qed.

(** The client on connection 3 takes place 5; the one on connection 1 sees
    nothing of it. *)
Lemma datagram_leaves_others_alone_witness :
  sat checked_halt
    (nimbleServerFeed (H := debug_build) busy_server example_world 3 connect_datagram 3)
    (fun '(self', _, _) => server_ok self' /\
       Server.transportConnections self' !! 1%nat = Some connection_1) /\
  match nimbleServerFeed (H := debug_build) busy_server example_world 3 connect_datagram 3 with
  | Ret (self', _, code) => (code, use_of busy_server <$> [1; 3; 5; 6]%nat,
      use_of self' <$> [1; 3; 5; 6]%nat)
      = (0, [Some (true, 1); Some (false, 0); Some (false, 0); Some (false, 0)],
         [Some (true, 1); Some (true, 3); Some (true, 3); Some (false, 0)])
  | Halt _ => False
  end.
Proof.
  split; [|vm_compute; reflexivity].
  eapply runs_mono; [apply (datagram_leaves_others_alone (H := debug_build))|].
  - exact debug_checks_on.
  - exact busy_server_ok.
  - lia.
  - intros [[self' w'] code] [Hok Hleft]. split; [exact Hok|].
    destruct (Hleft 1%nat connection_1 eq_refl) as (conn' & Hc' & Hsame).
    rewrite Hc'. f_equal. exact Hsame.
Defined.

(** Where errors do not stop the program, the place 5, opened by a datagram over
    transport connection 5, is taken by a request to connect over 3. *)
Lemma quiet_build_takes_place :
  match '(self1, w1, _) ← nimbleServerFeed (H := quiet_build) example_server example_world 5
                            join_datagram 5;
        '(self2, _, _) ← nimbleServerFeed (H := quiet_build) self1 w1 3 connect_datagram 3;
        Ret (use_of self1 5, use_of self2 5) with
  | Ret uses => uses = (Some (true, 5), Some (true, 3))
  | Halt _ => False
  end.
Proof. vm_compute. reflexivity. Qed.
