(* ===== verification/HostMigration.v ===== *)
(** * Host migration (lib/server.c)

    A client that becomes the new host starts a game on its own server and
    prepares it for the parties of the old one: nimbleServerHostMigration makes a
    party that waits for its client out of every entry, takes the participants
    with the ids of the entries, and builds the list of free ids anew. *)

From S2P Require Import Prelude.
From S2P Require Import ExternalLibs.
From S2P Require Import ExternalModels.
From S2P Require Import StepLog.
From S2P Require Import CircularBuffer.
From S2P Require Import ConnectionQuality.
From S2P Require Import UpdateQuality.
From S2P Require Import GameState.
From S2P Require Import Participants.
From S2P Require Import LocalParty.
From S2P Require Import TransportConnection.
From S2P Require Import LocalParties.
From S2P Require Import Game.
From S2P Require Import StepFormat.
From S2P Require Import AuthoritativeSteps.
From S2P Require Import Session.
From S2P Require Import StepRequest.
From S2P Require Import ServerState.
From S2P Require Import ConnectRequest.
From S2P Require Import JoinRequest.
From S2P Require Import StateDownload.
From S2P Require Import Server.

Section HostMigration.
Context `{Clog} `{OrderedDatagram} `{!BlobStream} `{NimbleSteps} `{!NimbleSerialize} `{Stats}.
Implicit Types (self : NimbleServer).

Definition containsParticipantId (infos : list NimbleSerializeLocalPartyInfo) (partyCount : Z)
    (searchFor : Z) : outcome bool :=
  r ← for_loop (Z.to_nat partyCount) 0 (fun partyIndex (_ : unit) =>
    party ← load infos partyIndex;
    r ← for_loop (Z.to_nat (info_participantCount party)) 0 (fun participantIndex (_ : unit) =>
      id ← load (info_participantIds party) participantIndex;
      Ret (if searchFor =? id then Return true else Continue tt)) tt;
    Ret (match r with Return b => Return b | Continue _ => Continue tt end)) tt;
  Ret (match r with Return b => b | Continue _ => false end).

Definition nimbleServerHostMigration self (localPartyInfos : list NimbleSerializeLocalPartyInfo)
    (localPartyCount : Z) : outcome (NimbleServer * Z) :=
  parties ← nimbleServerLocalPartiesReset (Server.localParties self);
  let self := Server.set_localParties parties self in
  r ← for_loop (Z.to_nat localPartyCount) 0 (fun i self =>
    info ← load localPartyInfos i;
    '(parties, pool, err, _) ←
      nimbleServerLocalPartiesPrepare (Server.localParties self)
        (Game.participants (Server.game self))
        (u32 (expectedWriteId (Game.authoritativeSteps (Server.game self)) - 1)) info;
    let self := Server.set_localParties parties
      (Server.set_game (Game.set_participants pool (Server.game self)) self) in
    if err <? 0 then Ret (Return (self, err)) else Ret (Continue self)) self;
  match r with
  | Return result => Ret result
  | Continue self =>
      let pool := Game.participants (Server.game self) in
      freeList ← for_each (Z.to_nat (Pool.participantCapacity pool)) 0 (fun i freeList =>
        contained ← containsParticipantId localPartyInfos localPartyCount (Z.of_nat i);
        if contained : bool then Ret freeList
        else nimbleServerCircularBufferWrite freeList (Z.of_nat i))
        (nimbleServerCircularBufferInit (Pool.freeList pool));
      Ret (Server.set_game
             (Game.set_participants (Pool.set_freeList freeList pool) (Server.game self)) self, 0)
  end.
End HostMigration.

(** ** Which participant goes to which party *)
Section Assignments.
Implicit Types (info : NimbleSerializeLocalPartyInfo) (infos : list NimbleSerializeLocalPartyInfo).

Definition ids_of info : list nat :=
  Z.to_nat <$> take (Z.to_nat (info_participantCount info)) (info_participantIds info).

Definition all_ids infos : list nat := concat (ids_of <$> infos).

(** The participants of the entries, each with the place of its party. *)
Fixpoint assignments (i : nat) infos : list (nat * nat) :=
  match infos with
  | [] => []
  | info :: infos => ((fun x => (x, i)) <$> ids_of info) ++ assignments (S i) infos
  end.

Lemma assignments_snoc infos info : forall i,
  assignments i (infos ++ [info])
  = assignments i infos ++ ((fun x => (x, i + length infos)%nat) <$> ids_of info).
Proof.
  induction infos as [|info' infos IH]; intros i; simpl.
  - by rewrite app_nil_r, Nat.add_0_r.
  - by rewrite IH, <- app_assoc, Nat.add_succ_r.
Qed.

Lemma assignments_ids infos : forall i, (assignments i infos).*1 = all_ids infos.
Proof.
  induction infos as [|info infos IH]; intros i; simpl; [done|].
  rewrite fmap_app, IH, <- list_fmap_compose. unfold all_ids. simpl. f_equal.
  rewrite <- (list_fmap_id (ids_of info)) at 2. by apply list_fmap_ext.
Qed.

Lemma elem_of_assignments infos x p : forall i,
  (x, p) ∈ assignments i infos <->
  exists j info, p = (i + j)%nat /\ infos !! j = Some info /\ x ∈ ids_of info.
Proof.
  induction infos as [|info infos IH]; intros i; simpl.
  - split; [by intros ?%elem_of_nil|]. intros (j & info & _ & Hj & _). by rewrite lookup_nil in Hj.
  - rewrite elem_of_app, IH, list_elem_of_fmap. split.
    + intros [(y & [= -> ->] & Hy)|(j & info' & -> & Hj & Hx)].
      * exists O, info. split; [lia|done].
      * exists (S j), info'. split; [lia|done].
    + intros ([|j] & info' & -> & Hj & Hx).
      * injection Hj as ->. left. exists x. by rewrite Nat.add_0_r.
      * right. exists j, info'. split; [lia|done].
Qed.

Lemma elem_of_all_ids infos x :
  x ∈ all_ids infos <-> exists j info, infos !! j = Some info /\ x ∈ ids_of info.
Proof.
  rewrite <- (assignments_ids infos 0), list_elem_of_fmap. split.
  - intros ([y p] & -> & (j & info & _ & ?)%elem_of_assignments). by exists j, info.
  - intros (j & info & Hj & Hx). exists (x, j). split; [done|].
    apply elem_of_assignments. by exists j, info.
Qed.

Lemma distinct_below (l : list nat) n :
  NoDup l -> (forall x, x ∈ l -> (x < n)%nat) -> (length l <= n)%nat.
Proof.
  intros Hl Hn. rewrite <- (length_seq n 0). apply submseteq_length, NoDup_submseteq; [done|].
  intros x Hx. apply elem_of_seq. specialize (Hn x Hx). lia.
Qed.
End Assignments.

(** ** The participants that are prepared *)
Section PreparedPool.
Context `{NimbleSteps} `{!NimbleStepsLaws}.
Implicit Types (l : list NimbleServerParticipant) (asg : list (nat * nat)).

Definition prepare_all (stepId : Z) asg l : list NimbleServerParticipant :=
  foldl (fun l '(x, i) => alter (fun p => prepared p x i stepId) x l) l asg.

Lemma alter_as_insert {A} (f : A -> A) (xs : list A) (x : nat) a :
  xs !! x = Some a -> alter f x xs = <[x := f a]> xs.
Proof.
  intros Ha. rewrite list_insert_alter. apply list_alter_ext; [|done]. congruence.
Qed.

Lemma prepare_all_snoc stepId asg x i l :
  prepare_all stepId (asg ++ [(x, i)]) l
  = alter (fun p => prepared p x i stepId) x (prepare_all stepId asg l).
Proof. unfold prepare_all. by rewrite foldl_app. Qed.

Lemma length_prepare_all stepId asg : forall l, length (prepare_all stepId asg l) = length l.
Proof.
  induction asg as [|[x i] asg IH]; intros l; simpl; [done|].
  unfold prepare_all in *. simpl. by rewrite IH, length_alter.
Qed.

Lemma lookup_unprepared stepId asg x : forall l,
  x ∉ asg.*1 -> prepare_all stepId asg l !! x = l !! x.
Proof.
  unfold prepare_all.
  induction asg as [|[y i] asg IH]; intros l Hx; simpl in *; [done|].
  apply not_elem_of_cons in Hx as [Hne Hx]. by rewrite IH, list_lookup_alter_ne by done.
Qed.

Lemma lookup_prepared stepId asg x i p : forall l,
  NoDup asg.*1 -> (x, i) ∈ asg -> l !! x = Some p ->
  prepare_all stepId asg l !! x = Some (prepared p x i stepId).
Proof.
  induction asg as [|[y j] asg IH]; intros l Hnd Hx Hp; [by apply elem_of_nil in Hx|].
  simpl in Hnd. apply list.NoDup_cons in Hnd as [Hy Hnd].
  change (prepare_all stepId ((y, j) :: asg) l)
    with (prepare_all stepId asg (alter (fun p => prepared p y j stepId) y l)).
  apply elem_of_cons in Hx as [[= -> ->]|Hx].
  - rewrite lookup_unprepared, list_lookup_alter, decide_True, Hp by done. done.
  - apply IH; [done|done|]. rewrite list_lookup_alter_ne; [done|]. intros <-.
    apply Hy, list_elem_of_fmap. by exists (y, i).
Qed.

(** A participant of the result was there before, or was prepared. *)
Lemma prepare_all_inv stepId asg l x p' :
  NoDup asg.*1 -> prepare_all stepId asg l !! x = Some p' ->
  exists p, l !! x = Some p /\
    (((x ∉ asg.*1) /\ p' = p) \/ exists i, (x, i) ∈ asg /\ p' = prepared p x i stepId).
Proof.
  intros Hnd Hp'. pose proof (lookup_lt_Some _ _ _ Hp') as Hlt.
  rewrite length_prepare_all in Hlt.
  destruct (lookup_lt_is_Some_2 l x Hlt) as [p Hp]. exists p. split; [done|].
  destruct (decide (x ∈ asg.*1)) as [Hin|Hout].
  - right. apply list_elem_of_fmap in Hin as ([y i] & -> & Hin). exists i. split; [done|].
    rewrite (lookup_prepared _ _ _ _ _ _ Hnd Hin Hp) in Hp'. by injection Hp' as <-.
  - left. rewrite lookup_unprepared in Hp' by done. split; [done|]. congruence.
Qed.

Lemma prepare_all_ok stepId asg l n :
  NoDup asg.*1 -> 0 <= stepId < 4294967296 -> Forall (participant_ok n) l ->
  (forall x i, (x, i) ∈ asg -> (i < n)%nat) ->
  Forall (participant_ok n) (prepare_all stepId asg l).
Proof.
  intros Hnd Hid Hl Hn. apply Forall_lookup. intros x p' Hp'.
  destruct (prepare_all_inv _ _ _ _ _ Hnd Hp') as (p & Hp & [[_ ->]|(i & Hi & ->)]).
  - by eapply Forall_lookup_1.
  - apply participant_ok_reused; [by eapply Forall_lookup_1|done|by eapply Hn].
Qed.

Lemma free_ids_NoDup l : forall k, NoDup (free_ids k l).
Proof.
  induction l as [|p l IH]; intros k; simpl; [constructor|].
  destruct (Participant.isUsed p); [apply IH|]. constructor; [|apply IH].
  rewrite elem_of_free_ids. intros (i & q & ? & _). lia.
Qed.

(** The ids that the new list of free ids holds. *)
Definition left_ids (ids : list nat) (n : nat) : list Z :=
  Z.of_nat <$> filter (fun x => x ∉ ids) (seq 0 n).

Lemma elem_of_left_ids ids n z :
  z ∈ left_ids ids n <-> exists x, z = Z.of_nat x /\ (x < n)%nat /\ x ∉ ids.
Proof.
  unfold left_ids. rewrite list_elem_of_fmap. split.
  - intros (x & -> & (Hx & Hn%elem_of_seq)%list_elem_of_filter). exists x. split; [done|]. split; [lia|done].
  - intros (x & -> & Hn & Hx). exists x. split; [done|].
    apply list_elem_of_filter. split; [done|]. apply elem_of_seq. lia.
Qed.

Lemma prepare_all_free stepId asg l :
  NoDup asg.*1 -> Forall (fun p => Participant.isUsed p = false) l ->
  left_ids asg.*1 (length l) ≡ₚ free_ids 0 (prepare_all stepId asg l).
Proof.
  intros Hnd Hl. apply NoDup_Permutation.
  - apply NoDup_fmap_2; [apply _|]. apply list.NoDup_filter, NoDup_ListNoDup, seq_NoDup.
  - apply free_ids_NoDup.
  - intros z. rewrite elem_of_left_ids, elem_of_free_ids. split.
    + intros (x & -> & Hlt & Hx). destruct (lookup_lt_is_Some_2 l x Hlt) as [p Hp].
      exists x, p. rewrite lookup_unprepared by done. split; [lia|]. split; [done|].
      by apply (Forall_lookup_1 _ _ _ _ Hl Hp).
    + intros (x & p' & -> & Hp' & Hu). exists x. split; [lia|].
      destruct (prepare_all_inv _ _ _ _ _ Hnd Hp') as (p & Hp & [[Hx _]|(i & _ & ->)]); [|done].
      split; [by eapply lookup_lt_Some|done].
Qed.

Lemma prepare_all_used stepId asg l :
  NoDup asg.*1 -> (forall x, x ∈ asg.*1 -> (x < length l)%nat) ->
  Forall (fun p => Participant.isUsed p = false) l ->
  used_count (prepare_all stepId asg l) = Z.of_nat (length asg).
Proof.
  induction asg as [|[x i] asg IH] using rev_ind; intros Hnd Hlt Hl; simpl.
  - by apply (free_ids_unused l Hl 0).
  - rewrite fmap_app in Hnd, Hlt. apply list.NoDup_app in Hnd as (Hnd & Hout & _).
    assert (Hx : x ∉ asg.*1). { intros Hin. apply (Hout x Hin). by left. }
    destruct (lookup_lt_is_Some_2 l x) as [p Hp].
    { apply Hlt, elem_of_app. right. by left. }
    pose proof Hp as Hp'. rewrite <- (lookup_unprepared stepId asg x) in Hp' by done.
    rewrite prepare_all_snoc, (alter_as_insert _ _ _ _ Hp').
    destruct (free_ids_take 0 _ x p (prepared p x i stepId) Hp') as [_ Hc]; [|done|].
    { by apply (Forall_lookup_1 _ _ _ _ Hl Hp). }
    rewrite Hc, IH, length_app; simpl; [lia|done| |done].
    intros y Hy. apply Hlt, elem_of_app. by left.
Qed.

(** The pool after the migration. *)
Definition migrated_pool (stepId : Z) asg (pool : NimbleServerParticipants) freeList :
    NimbleServerParticipants :=
  Pool.mk _ (prepare_all stepId asg (Pool.participants pool)) (Pool.participantCapacity pool)
    (Z.of_nat (length asg)) freeList.

Lemma migrated_pool_wf stepId asg pool freeList :
  pool_wf pool -> Forall (fun p => Participant.isUsed p = false) (Pool.participants pool) ->
  NoDup asg.*1 -> (forall x, x ∈ asg.*1 -> Z.of_nat x < Pool.participantCapacity pool) ->
  cbuf_wf freeList ->
  contents freeList = left_ids asg.*1 (length (Pool.participants pool)) ->
  pool_wf (migrated_pool stepId asg pool freeList).
Proof.
  intros Hwf Hfree Hnd Hlt Hc Hcont. pose proof (pool_length _ Hwf).
  split; simpl; [apply Hwf| | | |done|].
  - by rewrite length_prepare_all.
  - intros i p' Hp'.
    destruct (prepare_all_inv _ _ _ _ _ Hnd Hp') as (p & Hp & [[_ ->]|(j & _ & ->)]); [|done].
    by apply (pool_ids _ Hwf).
  - rewrite prepare_all_used; [done|done| |done]. intros x Hx. specialize (Hlt x Hx). lia.
  - rewrite Hcont. by apply prepare_all_free.
Qed.
End PreparedPool.

(** ** The preparation of one party *)
Section PrepareParty.
Context `{Clog} `{OrderedDatagram} `{!BlobStream} `{NimbleSteps} `{!NimbleSerialize} `{Stats}.
Context `{!NimbleStepsLaws} `{!NimbleSerializeLaws}.
Implicit Types (info : NimbleSerializeLocalPartyInfo) (asg : list (nat * nat))
  (pool : NimbleServerParticipants) (parties : LocalParties).

(** An entry with at least one participant, that fits the array of the code. *)
Record info_ok (capacity : Z) info : Prop := {
  info_count : 0 < info_participantCount info <= 16;
  info_length : info_participantCount info <= Z.of_nat (length (info_participantIds info));
  info_each : Forall (fun id => 0 <= id < capacity)
    (take (Z.to_nat (info_participantCount info)) (info_participantIds info));
}.

Lemma length_ids_of capacity info : info_ok capacity info ->
  length (ids_of info) = Z.to_nat (info_participantCount info).
Proof.
  intros [Hc Hl _]. unfold ids_of. rewrite length_fmap, length_take. lia.
Qed.

Lemma lookup_ids_of capacity info k : info_ok capacity info ->
  (k < Z.to_nat (info_participantCount info))%nat ->
  exists x, info_participantIds info !! k = Some (Z.of_nat x) /\ ids_of info !! k = Some x /\
    Z.of_nat x < capacity.
Proof.
  intros [Hc Hl Heach] Hk.
  destruct (lookup_lt_is_Some_2 (info_participantIds info) k) as [id Hid]; [lia|].
  pose proof Hid as Hr. rewrite <- (lookup_take_lt _ _ _ Hk) in Hr.
  apply (Forall_lookup_1 _ _ _ _ Heach) in Hr.
  exists (Z.to_nat id). rewrite Z2Nat.id by lia. split; [done|]. split; [|lia].
  unfold ids_of. rewrite list_lookup_fmap, lookup_take_lt, Hid by done. done.
Qed.

Lemma ids_of_below capacity info x : info_ok capacity info ->
  x ∈ ids_of info -> Z.of_nat x < capacity.
Proof.
  intros Hok (k & Hk)%list_elem_of_lookup_1. pose proof (lookup_lt_Some _ _ _ Hk) as Hlt.
  rewrite (length_ids_of _ _ Hok) in Hlt.
  destruct (lookup_ids_of _ _ k Hok Hlt) as (y & _ & Hy & ?). congruence.
Qed.

Lemma created_snoc (results : list nat) x : (length results < 16)%nat ->
  <[length results := Some x]> (createdParticipants results)
  = createdParticipants (results ++ [x]).
Proof.
  intros Hl. unfold createdParticipants.
  rewrite fmap_app, length_app, <- app_assoc. simpl.
  rewrite insert_app_r_alt by (rewrite length_fmap; lia). rewrite length_fmap, Nat.sub_diag.
  replace (16 - length results)%nat with (S (16 - (length results + 1))) by lia. done.
Qed.

(** The pairs of the participants of an entry. *)
Abbreviation to_party i ids := ((fun x : nat => (x, i)) <$> ids).

Lemma to_party_ids (i : nat) (ids : list nat) : (to_party i ids).*1 = ids.
Proof.
  rewrite <- list_fmap_compose. rewrite <- (list_fmap_id ids) at 2. by apply list_fmap_ext.
Qed.

Lemma to_party_next asg (i : nat) (ids : list nat) k x : ids !! k = Some x ->
  (asg ++ to_party i (take k ids)) ++ [(x, i)] = asg ++ to_party i (take (S k) ids).
Proof.
  intros Hx. by rewrite (take_S_r _ _ _ Hx), fmap_app, <- app_assoc.
Qed.

Lemma assigned_ids asg (i : nat) (ids : list nat) :
  (asg ++ to_party i ids).*1 = asg.*1 ++ ids.
Proof. by rewrite fmap_app, to_party_ids. Qed.

(** One participant of the entry. *)
Lemma runs_prepare_next {E} stepId asg pool freeList x (i : nat)
    (Q : NimbleServerParticipants * (Z * option nat) -> Prop) :
  pool_wf pool -> Forall (fun p => Participant.isUsed p = false) (Pool.participants pool) ->
  NoDup (asg ++ [(x, i)]).*1 ->
  (forall y, y ∈ (asg ++ [(x, i)]).*1 -> Z.of_nat y < Pool.participantCapacity pool) ->
  Q (migrated_pool stepId (asg ++ [(x, i)]) pool freeList, (0, Some x)) ->
  sat E (nimbleServerParticipantsPrepare (migrated_pool stepId asg pool freeList)
           (Z.of_nat x) (Some i) stepId) Q.
Proof.
  intros Hwf Hfree Hnd Hlt HQ. pose proof (pool_length _ Hwf) as Hlen.
  pose proof (pool_capacity _ Hwf).
  assert (Hle : (length (asg ++ [(x, i)]).*1 <= length (Pool.participants pool))%nat).
  { apply distinct_below; [done|]. intros y Hy. specialize (Hlt y Hy). lia. }
  rewrite length_fmap, length_app in Hle. simpl in Hle.
  rewrite fmap_app in Hnd, Hlt. apply list.NoDup_app in Hnd as (Hnd & Hout & _).
  assert (Hx : x ∉ asg.*1). { intros Hin. apply (Hout x Hin). by left. }
  destruct (lookup_lt_is_Some_2 (Pool.participants pool) x) as [p Hp].
  { specialize (Hlt x). rewrite elem_of_app in Hlt. apply Nat2Z.inj_lt. rewrite Hlen.
    apply Hlt. right. by left. }
  pose proof Hp as Hp'. rewrite <- (lookup_unprepared stepId asg x) in Hp' by done.
  pose proof (Forall_lookup_1 _ _ _ _ Hfree Hp) as Hu. simpl in Hu.
  apply (runs_prepare _ _ _ _ _ p); simpl; rewrite ?length_prepare_all; [lia|lia|lia|done| |lia].
  rewrite (proj2 (Z.ltb_ge _ _)) by lia. rewrite Hu.
  unfold migrated_pool in HQ. rewrite prepare_all_snoc, (alter_as_insert _ _ _ _ Hp') in HQ.
  rewrite length_app in HQ. simpl in HQ.
  by replace (Z.of_nat (length asg) + 1) with (Z.of_nat (length asg + 1)) by lia.
Qed.

(** All participants of the entry. *)
Lemma runs_prepare_ids {E} stepId asg pool freeList info (i : nat) :
  pool_wf pool -> Forall (fun p => Participant.isUsed p = false) (Pool.participants pool) ->
  info_ok (Pool.participantCapacity pool) info -> NoDup (asg.*1 ++ ids_of info) ->
  (forall y, y ∈ asg.*1 -> Z.of_nat y < Pool.participantCapacity pool) ->
  sat E (for_loop (Z.to_nat (info_participantCount info)) 0 (fun k '(pool, created) =>
        participantId ← load (info_participantIds info) k;
        '(pool, (errorCode, participant)) ←
          nimbleServerParticipantsPrepare pool participantId (Some i) stepId;
        if errorCode <? 0 then Ret (Return (pool, errorCode))
        else
          created ← store created k participant;
          Ret (Continue (pool, created)))
      (migrated_pool stepId asg pool freeList, createdParticipants []))
    (flow_post (fun '(pool', created) =>
       pool' = migrated_pool stepId (asg ++ to_party i (ids_of info)) pool freeList /\
       created = createdParticipants (ids_of info)) (fun _ : NimbleServerParticipants * Z => False)).
Proof.
  intros Hwf Hfree Hinfo Hnd Hlt. pose proof (info_count _ _ Hinfo).
  pose proof (length_ids_of _ _ Hinfo) as Hlen.
  eapply runs_mono.
  { apply (runs_for (fun k '(pool', created) =>
      pool' = migrated_pool stepId (asg ++ to_party i (take k (ids_of info))) pool freeList /\
      created = createdParticipants (take k (ids_of info))) (fun _ => False)).
    - simpl. by rewrite app_nil_r.
    - intros k [pool' created] [_ Hk] [-> ->]. simpl in Hk.
      destruct (lookup_ids_of _ _ k Hinfo Hk) as (x & Hid & Hx & Hxlt).
      run. apply runs_prepare_next; [done|done| | |]; rewrite (to_party_next _ _ _ _ _ Hx).
      + rewrite assigned_ids. rewrite <- (take_drop (S k) (ids_of info)), app_assoc in Hnd.
        by apply list.NoDup_app in Hnd as (Hnd & _).
      + intros y. rewrite assigned_ids, elem_of_app. intros [Hy|Hy]; [by apply Hlt|].
        eapply ids_of_below; [done|]. rewrite <- (take_drop (S k) (ids_of info)).
        apply elem_of_app. by left.
      + assert (Hlk : length (take k (ids_of info)) = k) by (rewrite length_take; lia).
        run. apply runs_bind, runs_store.
        { unfold createdParticipants. rewrite length_app, length_fmap, length_replicate. lia. }
        run. split; [done|]. rewrite <- Hlk at 1. rewrite created_snoc by lia.
        by rewrite (take_S_r _ _ _ Hx). }
  intros [[pool' created]|[]]; simpl; [|done]. rewrite <- Hlen, firstn_all. done.
Qed.

(** The party of an entry: it waits for its client, and refers to the first
    participant only. *)
Definition migrated_party (party : NimbleServerLocalParty) (i q : nat) :
    NimbleServerLocalParty :=
  Party.set_waitingForReconnectTimer 0
    (Party.set_state NimbleServerLocalPartyStateWaitingForReJoin
       (Party.set_isUsed true (added (Party.set_id (Z.of_nat i) party) None q))).

Lemma migrated_party_wf npool nconn party i q :
  party_wf npool nconn party -> (i < 64)%nat -> (q < npool)%nat ->
  party_wf npool nconn (migrated_party party i q).
Proof.
  intros Hp Hi Hq. unfold migrated_party.
  assert (Ha : party_wf npool nconn (added (Party.set_id (Z.of_nat i) party) None q)).
  { apply added_wf; [apply set_id_wf; [lia|done]|done|done]. }
  destruct Ha as [Hid [Hr Ht Hm Hd] Hs Hc]. split; [done| |done|done]. by split.
Qed.

Lemma runs_prepare_party {E} npool nconn parties asg pool freeList stepId info i party q
    (Q : LocalParties * NimbleServerParticipants * Z * option (option nat) -> Prop) :
  parties_wf npool nconn parties -> Parties.parties parties !! i = Some party ->
  Party.isUsed party = false ->
  (forall j other, (j < i)%nat -> Parties.parties parties !! j = Some other ->
     Party.isUsed other = true) ->
  pool_wf pool -> Forall (fun p => Participant.isUsed p = false) (Pool.participants pool) ->
  info_ok (Pool.participantCapacity pool) info -> NoDup (asg.*1 ++ ids_of info) ->
  (forall y, y ∈ asg.*1 -> Z.of_nat y < Pool.participantCapacity pool) ->
  ids_of info !! 0%nat = Some q ->
  Q (with_new_party parties i (migrated_party party i q),
     migrated_pool stepId (asg ++ to_party i (ids_of info)) pool freeList, 0, Some (Some i)) ->
  sat E (nimbleServerLocalPartiesPrepare parties (migrated_pool stepId asg pool freeList)
           stepId info) Q.
Proof.
  intros Hwf Hi Hu Hbefore Hpool Hfree Hinfo Hnd Hlt Hq HQ.
  pose proof (parties_count_range _ _ _ Hwf). pose proof (lookup_lt_Some _ _ _ Hi).
  pose proof (Forall_lookup_1 _ _ _ _ (parties_each _ _ _ Hwf) Hi) as Hparty.
  pose proof (party_slots _ _ _ Hparty). pose proof max_local_players.
  unfold nimbleServerLocalPartiesPrepare. apply runs_bind, runs_find_free; [apply Hwf|apply Hwf|].
  rewrite (proj2 (list_find_Some _ _ i party)).
  2:{ split; [done|]. split; [done|]. intros j other Hother Hj.
      by rewrite (Hbefore j other Hj Hother). }
  cbn beta iota. eapply runs_bind_mono; [by apply runs_prepare_ids|].
  intros [[pool' created]|[]]; simpl; [|done]. intros [-> ->]. apply runs_bind.
  eapply (runs_add_party _ i (Party.set_id (Z.of_nat i) party) _ _ q).
  - simpl. by apply list_lookup_insert_eq.
  - unfold createdParticipants. rewrite lookup_app_l, list_lookup_fmap, Hq; [done|].
    rewrite length_fmap. by eapply lookup_lt_Some.
  - simpl. lia.
  - cbn [Parties.set_parties Parties.parties]. rewrite list_insert_insert_eq.
    set (l := <[i := _]> (Parties.parties parties)).
    assert (Hl : l !! i = Some (added (Party.set_id (Z.of_nat i) party) None q)).
    { by apply list_lookup_insert_eq. }
    run. cbn [Parties.parties]. run. unfold with_new_party, migrated_party in HQ.
    cbn -[migrated_pool]. subst l.
    rewrite list_insert_insert_eq, u64_small by lia. exact HQ.
Qed.
End PrepareParty.

(** ** The whole migration *)
Section Migration.
Context `{Clog} `{OrderedDatagram} `{!BlobStream} `{NimbleSteps} `{!NimbleSerialize} `{Stats}.
Context `{!NimbleStepsLaws} `{!NimbleSerializeLaws}.
Implicit Types (self : NimbleServer) (infos : list NimbleSerializeLocalPartyInfo)
  (parties : LocalParties) (pool : NimbleServerParticipants).

(** Entries that a server with this room for parties and participants can take
    over. *)
Record infos_ok (places : nat) (capacity : Z) infos : Prop := {
  infos_places : (length infos <= places)%nat;
  infos_each : Forall (info_ok capacity) infos;
  infos_distinct : NoDup (all_ids infos);
}.

Lemma infos_below places capacity infos x : infos_ok places capacity infos ->
  x ∈ all_ids infos -> Z.of_nat x < capacity.
Proof.
  intros Hok (j & info & Hj & Hx)%elem_of_all_ids.
  eapply ids_of_below, Hx. by apply (Forall_lookup_1 _ _ _ _ (infos_each _ _ _ Hok) Hj).
Qed.

(** The parties after [j] entries. *)
Record parties_until (npool nconn : nat) infos (n j : nat) parties : Prop := {
  pu_wf : parties_wf npool nconn parties;
  pu_length : length (Parties.parties parties) = n;
  pu_count : Parties.partiesCount parties = Z.of_nat j;
  pu_each : forall i party, Parties.parties parties !! i = Some party ->
    if decide (i < j)%nat
    then exists info q party0, infos !! i = Some info /\ ids_of info !! 0%nat = Some q /\
           party = migrated_party party0 i q
    else Party.isUsed party = false;
}.

Lemma parties_until_used npool nconn infos n j parties i party :
  parties_until npool nconn infos n j parties -> (i < j)%nat ->
  Parties.parties parties !! i = Some party -> Party.isUsed party = true.
Proof.
  intros Hpu Hi Hp. pose proof (pu_each _ _ _ _ _ _ Hpu i party Hp) as He.
  rewrite decide_True in He by done. by destruct He as (? & ? & ? & _ & _ & ->).
Qed.

Lemma parties_until_next npool nconn infos n j parties party info q :
  parties_until npool nconn infos n j parties -> Parties.parties parties !! j = Some party ->
  infos !! j = Some info -> ids_of info !! 0%nat = Some q -> (q < npool)%nat -> (n <= 64)%nat ->
  parties_until npool nconn infos n (S j) (with_new_party parties j (migrated_party party j q)).
Proof.
  intros [Hwf Hlen Hcount Heach] Hj Hinfo Hq Hlt Hn. pose proof (lookup_lt_Some _ _ _ Hj) as Hjn.
  pose proof (Heach j party Hj) as Hu. rewrite decide_False in Hu by lia.
  pose proof (Forall_lookup_1 _ _ _ _ (parties_each _ _ _ Hwf) Hj) as Hparty. split; simpl.
  - eapply parties_wf_new; [done..|]. apply migrated_party_wf; [done|lia|done].
  - by rewrite length_insert.
  - lia.
  - intros i party' Hi. destruct (decide (j = i)) as [<-|Hne].
    + rewrite list_lookup_insert_eq in Hi by done. injection Hi as <-.
      rewrite decide_True by lia. by exists info, q, party.
    + rewrite list_lookup_insert_ne in Hi by done. specialize (Heach i party' Hi).
      destruct (decide (i < j)%nat); [by rewrite decide_True by lia|by rewrite decide_False by lia].
Qed.

(** Server, parties and participants during the migration. *)
Definition migrating self parties pool : NimbleServer :=
  Server.set_localParties parties
    (Server.set_game (Game.set_participants pool (Server.game self)) self).

Lemma migrating_start self parties :
  Server.set_localParties parties self
  = migrating self parties (Game.participants (Server.game self)).
Proof. by destruct self as [? ? []]. Qed.

Lemma migrated_pool_nobody stepId pool : Pool.participantCount pool = 0 ->
  pool = migrated_pool stepId [] pool (Pool.freeList pool).
Proof. destruct pool; simpl. by intros ->. Qed.

Lemma assignments_below places capacity infos j x :
  infos_ok places capacity infos -> x ∈ (assignments 0 (take j infos)).*1 ->
  Z.of_nat x < capacity.
Proof.
  intros Hok. rewrite assignments_ids, elem_of_all_ids. intros (i & info & Hi & Hx).
  eapply infos_below; [done|]. apply elem_of_all_ids. exists i, info. split; [|done].
  by apply lookup_take_Some in Hi as [? _].
Qed.

Lemma assignments_next places capacity infos j info :
  infos_ok places capacity infos -> infos !! j = Some info ->
  assignments 0 (take (S j) infos)
  = assignments 0 (take j infos) ++ ((fun x => (x, j)) <$> ids_of info) /\
  NoDup ((assignments 0 (take j infos)).*1 ++ ids_of info).
Proof.
  intros Hok Hj. pose proof (take_S_r _ _ _ Hj) as Htake.
  pose proof (lookup_lt_Some _ _ _ Hj) as Hlt. split.
  - rewrite Htake, assignments_snoc, length_take_le by lia. done.
  - pose proof (infos_distinct _ _ _ Hok) as Hnd. unfold all_ids in Hnd.
    rewrite <- (take_drop (S j) infos), fmap_app, concat_app, Htake, fmap_app, concat_app in Hnd.
    apply list.NoDup_app in Hnd as (Hnd & _). rewrite assignments_ids.
    simpl in Hnd. by rewrite app_nil_r in Hnd.
Qed.

Abbreviation parties_of self := (Parties.parties (Server.localParties self)).

(** The loop over the entries. *)
Lemma runs_migrate_parties {E} npool self parties pool infos stepId :
  stepId = u32 (expectedWriteId (Game.authoritativeSteps (Server.game self)) - 1) ->
  pool_wf pool -> Forall (fun p => Participant.isUsed p = false) (Pool.participants pool) ->
  Pool.participantCount pool = 0 -> length (Pool.participants pool) = npool ->
  parties_until npool 64 infos (length (Parties.parties parties)) 0 parties ->
  infos_ok (length (Parties.parties parties)) (Pool.participantCapacity pool) infos ->
  sat E (for_loop (Z.to_nat (Z.of_nat (length infos))) 0 (fun i self =>
    info ← load infos i;
    '(parties, pool, err, _) ←
      nimbleServerLocalPartiesPrepare (Server.localParties self)
        (Game.participants (Server.game self))
        (u32 (expectedWriteId (Game.authoritativeSteps (Server.game self)) - 1)) info;
    let self := Server.set_localParties parties
      (Server.set_game (Game.set_participants pool (Server.game self)) self) in
    if err <? 0 then Ret (Return (self, err)) else Ret (Continue self))
    (migrating self parties pool))
  (flow_post (fun self' => exists parties',
     self' = migrating self parties'
       (migrated_pool stepId (assignments 0 infos) pool (Pool.freeList pool)) /\
     parties_until npool 64 infos (length (Parties.parties parties)) (length infos) parties')
     (fun _ : NimbleServer * Z => False)).
Proof.
  intros Hstep Hpool Hfree Hnone Hnpool Hpu Hok. rewrite Nat2Z.id.
  pose proof (pool_length _ Hpool). pose proof (parties_count_range _ _ _ (pu_wf _ _ _ _ _ _ Hpu)).
  eapply runs_mono.
  { apply (runs_for (fun j self' => exists parties',
      self' = migrating self parties'
        (migrated_pool stepId (assignments 0 (take j infos)) pool (Pool.freeList pool)) /\
      parties_until npool 64 infos (length (Parties.parties parties)) j parties') (fun _ => False)).
    - exists parties. split; [|done]. simpl. by rewrite <- migrated_pool_nobody.
    - intros j self' [_ Hj] (parties' & -> & Hpu').
      destruct (lookup_lt_is_Some_2 infos j Hj) as [info Hinfo].
      pose proof (infos_places _ _ _ Hok) as Hplaces. pose proof (pu_length _ _ _ _ _ _ Hpu') as Hlen.
      destruct (lookup_lt_is_Some_2 (Parties.parties parties') j) as [party Hparty]; [lia|].
      pose proof (Forall_lookup_1 _ _ _ _ (infos_each _ _ _ Hok) Hinfo) as Hiok.
      destruct (assignments_next _ _ _ _ _ Hok Hinfo) as [Hnext Hnd].
      destruct (lookup_ids_of _ _ 0 Hiok) as (q & _ & Hq & Hqlt).
      { pose proof (info_count _ _ Hiok). lia. }
      run. cbn [migrating Server.set_localParties Server.set_game Server.localParties Server.game
        Game.participants Game.set_participants Game.authoritativeSteps]. rewrite <- Hstep.
      eapply (runs_prepare_party npool 64 _ _ _ _ _ _ j party q); try done; [apply Hpu'| | | |].
      + pose proof (pu_each _ _ _ _ _ _ Hpu' j party Hparty) as Hu. by rewrite decide_False in Hu by lia.
      + intros i other Hi Ho. by eapply parties_until_used.
      + intros y. by eapply assignments_below.
      + run. eexists. split; [by rewrite Hnext|].
        eapply parties_until_next; try done; lia. }
  intros [self'|[]]; simpl; [|done]. by rewrite firstn_all.
Qed.

(** ** The new list of free ids *)
Lemma runs_contained_in {E} capacity info x : info_ok capacity info ->
  sat E (for_loop (Z.to_nat (info_participantCount info)) 0 (fun k (_ : unit) =>
      id ← load (info_participantIds info) k;
      Ret (if Z.of_nat x =? id then Return true else Continue tt)) tt)
    (flow_post (fun _ => x ∉ ids_of info) (fun b => b = true /\ x ∈ ids_of info)).
Proof.
  intros Hok. eapply runs_mono.
  { apply (runs_for (fun k _ => x ∉ take k (ids_of info)) (fun b => b = true /\ x ∈ ids_of info)).
    - apply not_elem_of_nil.
    - intros k [] [_ Hk] Hout. simpl in Hk.
      destruct (lookup_ids_of _ _ k Hok Hk) as (y & Hid & Hy & _). run.
      destruct (Z.eqb_spec (Z.of_nat x) (Z.of_nat y)) as [->%Nat2Z.inj|Hne]; simpl.
      + split; [done|]. by eapply list_elem_of_lookup_2.
      + rewrite (take_S_r _ _ _ Hy), elem_of_app, list_elem_of_singleton.
        intros [?| ->]; [done|lia]. }
  intros [?|b]; simpl; [|done]. by rewrite <- (length_ids_of _ _ Hok), firstn_all.
Qed.

Lemma runs_contains {E} capacity infos x : Forall (info_ok capacity) infos ->
  sat E (containsParticipantId infos (Z.of_nat (length infos)) (Z.of_nat x))
    (fun b => b = bool_decide (x ∈ all_ids infos)).
Proof.
  intros Hok. unfold containsParticipantId. rewrite Nat2Z.id. eapply runs_bind_mono.
  { apply (runs_for (fun j _ => x ∉ all_ids (take j infos))
      (fun b => b = true /\ x ∈ all_ids infos)).
    - apply not_elem_of_nil.
    - intros j [] [_ Hj] Hout. simpl in Hj.
      destruct (lookup_lt_is_Some_2 infos j Hj) as [info Hinfo]. run.
      eapply runs_mono; [by eapply runs_contained_in, Forall_lookup_1|].
      intros [?|b]; simpl; [intros Hnot|intros [-> Hin]]; run; simpl.
      + rewrite (take_S_r _ _ _ Hinfo). unfold all_ids in *.
        rewrite fmap_app, concat_app, elem_of_app. simpl. rewrite app_nil_r. tauto.
      + split; [done|]. apply elem_of_all_ids. by exists j, info. }
  intros [?|b]; simpl; rewrite ?firstn_all; [intros Hout|intros [-> Hin]]; run.
  - by rewrite bool_decide_false.
  - by rewrite bool_decide_true.
Qed.

Lemma left_ids_next (ids : list nat) j :
  left_ids ids (S j) = left_ids ids j ++ (if decide (j ∈ ids) then [] else [Z.of_nat j]).
Proof.
  unfold left_ids. rewrite seq_S, list.filter_app, fmap_app, Nat.add_0_l. f_equal.
  rewrite list.filter_cons, list.filter_nil.
  destruct (decide (j ∈ ids)); [by rewrite decide_False by tauto|by rewrite decide_True].
Qed.

Lemma length_left_ids (ids : list nat) n : (length (left_ids ids n) <= n)%nat.
Proof.
  unfold left_ids. rewrite length_fmap. etrans; [apply length_filter|]. by rewrite length_seq.
Qed.

Lemma runs_free_list {E} capacity infos freeList :
  Forall (info_ok capacity) infos -> 0 < capacity < 64 ->
  length (CBuf.data freeList) = 64%nat ->
  sat E (for_each (Z.to_nat capacity) 0 (fun i freeList =>
      contained ← containsParticipantId infos (Z.of_nat (length infos)) (Z.of_nat i);
      if contained : bool then Ret freeList
      else nimbleServerCircularBufferWrite freeList (Z.of_nat i))
      (nimbleServerCircularBufferInit freeList))
    (fun s => cbuf_wf s /\ contents s = left_ids (all_ids infos) (Z.to_nat capacity)).
Proof.
  intros Hok Hcap Hl. destruct (init_wf _ Hl) as [Hwf Hc].
  apply (runs_for_each (fun j s => cbuf_wf s /\ contents s = left_ids (all_ids infos) j)); [done|].
  intros j s [_ Hj] [Hs Hcont]. apply runs_bind.
  eapply runs_mono; [by eapply runs_contains|]. intros b ->.
  pose proof (left_ids_next (all_ids infos) j) as Hnext.
  case_bool_decide as Hin.
  - run. rewrite decide_True in Hnext by done. rewrite Hnext, app_nil_r. done.
  - apply runs_write; [done| |].
    + rewrite isFull_contents by done. apply bool_decide_false. rewrite Hcont.
      pose proof (length_left_ids (all_ids infos) j). lia.
    + intros s' Hs' Hc'. split; [done|]. rewrite decide_False in Hnext by done.
      by rewrite Hc', Hcont, Hnext.
Qed.

(** ** Migration of a server on which nobody plays *)

Lemma nobody_used l : used_count l = 0 -> Forall (fun p => Participant.isUsed p = false) l.
Proof.
  induction l as [|p l IH]; simpl; [done|]. pose proof (used_count_range l).
  destruct (Participant.isUsed p) eqn:Hu; [lia|]. intros Hl. constructor; [done|]. apply IH. lia.
Qed.

(** What an entry makes of its party. *)
Record waits_for_host (info : NimbleSerializeLocalPartyInfo) (party : NimbleServerLocalParty) :
    Prop := {
  wh_used : Party.isUsed party = true;
  wh_state : Party.state party = NimbleServerLocalPartyStateWaitingForReJoin;
  wh_timer : Party.waitingForReconnectTimer party = 0;
  wh_connection : Party.transportConnection party = None;
  wh_references : exists q, ids_of info !! 0%nat = Some q /\
    referenced (Party.participantReferences party) = [q];
}.

Lemma parties_until_done npool nconn infos n parties i party :
  parties_until npool nconn infos n (length infos) parties ->
  Parties.parties parties !! i = Some party ->
  match infos !! i with
  | Some info => waits_for_host info party
  | None => Party.isUsed party = false
  end.
Proof.
  intros Hpu Hi. pose proof (pu_each _ _ _ _ _ _ Hpu i party Hi) as He.
  pose proof (Forall_lookup_1 _ _ _ _ (parties_each _ _ _ (pu_wf _ _ _ _ _ _ Hpu)) Hi) as Hwf.
  destruct (decide (i < length infos)%nat).
  - destruct He as (info & q & party0 & -> & Hq & ->). split; try done. exists q. split; [done|].
    unfold migrated_party. apply (referenced_added (Party.set_id _ party0)).
    pose proof (party_slots _ _ _ Hwf) as Hs. simpl in Hs. rewrite length_insert in Hs.
    pose proof max_local_players. simpl. lia.
  - by rewrite lookup_ge_None_2 by lia.
Qed.

Lemma migrated_session self parties pool infos stepId freeList :
  server_ok self -> pool = Game.participants (Server.game self) ->
  Pool.participantCount pool = 0 -> 0 <= stepId < 4294967296 ->
  parties_until (length (Pool.participants pool)) 64 infos (length (parties_of self))
    (length infos) parties ->
  infos_ok (length (parties_of self)) (Pool.participantCapacity pool) infos ->
  cbuf_wf freeList ->
  contents freeList = left_ids (all_ids infos) (length (Pool.participants pool)) ->
  session_after self parties (migrated_pool stepId (assignments 0 infos) pool freeList).
Proof.
  intros Hs -> Hnone Hstep Hpu Hok Hfl Hcont. destruct (sv_session _ Hs) as [_ Hpool Hparts _ Hsteps].
  pose proof (nobody_used _ (eq_trans (eq_sym (pool_count _ Hpool)) Hnone)) as Hfree.
  pose proof (pu_length _ _ _ _ _ _ Hpu) as Hlen.
  assert (Hnd : NoDup (assignments 0 infos).*1) by (rewrite assignments_ids; apply Hok).
  split; [split|simpl; rewrite length_prepare_all; apply Hpu|done].
  - simpl. rewrite length_prepare_all. apply Hpu.
  - apply migrated_pool_wf; try done; rewrite assignments_ids; [|done].
    intros x. by eapply infos_below.
  - rewrite Hlen. apply prepare_all_ok; [done|done|done|].
    intros x i (j & info & -> & Hj & _)%elem_of_assignments.
    pose proof (lookup_lt_Some _ _ _ Hj). pose proof (infos_places _ _ _ Hok). lia.
  - intros i party Hi Hu q Hq. pose proof (parties_until_done _ _ _ _ _ _ _ Hpu Hi) as Hw.
    destruct (infos !! i) as [info|] eqn:Hinfo; [|congruence].
    destruct (wh_references _ _ Hw) as (q' & Hq' & Hr). rewrite Hr in Hq.
    apply list_elem_of_singleton in Hq as ->. apply list_elem_of_lookup_2 in Hq'.
    destruct (lookup_lt_is_Some_2 (Pool.participants (Game.participants (Server.game self))) q')
      as [p Hp].
    { apply Nat2Z.inj_lt. rewrite (pool_length _ Hpool). eapply infos_below; [done|].
      apply elem_of_all_ids. by exists i, info. }
    exists (prepared p q' i stepId). split; [|done].
    apply lookup_prepared; [done| |done]. apply elem_of_assignments. by exists i, info.
  - done.
Qed.

Lemma parties_until_start npool self infos parties :
  parties_wf npool 64 parties -> Parties.partiesCount parties = 0 ->
  Parties.parties parties = nimbleServerLocalPartyReset <$> parties_of self ->
  parties_until npool 64 infos (length (Parties.parties parties)) 0 parties.
Proof.
  intros Hwf Hcount Hps. split; [done|done|done|]. intros i party Hi. simpl.
  rewrite Hps, list_lookup_fmap in Hi. destruct (parties_of self !! i); [|done].
  by injection Hi as <-.
Qed.

Lemma runs_host_migration {E} self infos :
  server_ok self -> Forall (fun party => Party.isUsed party = false) (parties_of self) ->
  Pool.participantCount (Game.participants (Server.game self)) = 0 ->
  infos_ok (length (parties_of self))
    (Pool.participantCapacity (Game.participants (Server.game self))) infos ->
  let stepId := u32 (expectedWriteId (Game.authoritativeSteps (Server.game self)) - 1) in
  sat E (nimbleServerHostMigration self infos (Z.of_nat (length infos)))
    (fun '(self', code) => exists parties freeList,
       self' = migrating self parties (migrated_pool stepId (assignments 0 infos)
                 (Game.participants (Server.game self)) freeList) /\
       parties_until (length (pool_of (Server.game self))) 64 infos (length (parties_of self))
         (length infos) parties /\
       cbuf_wf freeList /\
       contents freeList = left_ids (all_ids infos) (length (pool_of (Server.game self))) /\
       code = 0).
Proof.
  intros Hs Hunused Hnone Hok stepId. pose proof (sv_session _ Hs) as [_ Hpool _ _ _].
  pose proof (nobody_used _ (eq_trans (eq_sym (pool_count _ Hpool)) Hnone)) as Hfree.
  assert (Hzero : Parties.partiesCount (Server.localParties self) = 0).
  { by rewrite (parties_count _ _ _ (sv_parties _ Hs)), (proj2 (count_if_zero _ _) Hunused). }
  unfold nimbleServerHostMigration.
  eapply runs_bind_mono; [eapply runs_parties_reset, Hs|].
  intros parties (Hps & Hcount & _ & Hwf). rewrite Hzero in Hcount. specialize (Hwf Hzero (length (pool_of (Server.game self)))).
  assert (Hlen : length (Parties.parties parties) = length (parties_of self)).
  { by rewrite Hps, length_fmap. }
  rewrite <- Hlen in Hok |- *. cbn zeta. rewrite migrating_start.
  eapply runs_bind_mono.
  { apply (runs_migrate_parties _ self parties _ infos _ eq_refl Hpool Hfree Hnone
      eq_refl); [|done]. by apply (parties_until_start _ self). }
  intros [self'|[]]; simpl; [|done]. intros (parties' & -> & Hpu).
  eapply runs_bind_mono.
  { apply (runs_free_list (Pool.participantCapacity (Game.participants (Server.game self)))
      infos (Pool.freeList (Game.participants (Server.game self)))); apply Hok || apply Hpool. }
  intros freeList [Hfl Hcont]. rewrite <- (pool_length _ Hpool), Nat2Z.id in Hcont.
  run. by exists parties', freeList.
Qed.
End Migration.

(** ** Property *)
Section MigrationProperty.
Context `{Clog} `{OrderedDatagram} `{!BlobStream} `{NimbleSteps} `{!NimbleSerialize} `{Stats}.
Context `{!NimbleStepsLaws} `{!NimbleSerializeLaws}.
Implicit Types (self : NimbleServer) (infos : list NimbleSerializeLocalPartyInfo).

Abbreviation parties_of self := (Parties.parties (Server.localParties self)).
Abbreviation players_of self := (Game.participants (Server.game self)).

(** The entry that the participant with this id is in, if there is one. *)
Definition migrated_participant infos (before p : NimbleServerParticipant) (x : nat) : Prop :=
  ((x ∉ all_ids infos) /\ p = before) \/
  exists i info, infos !! i = Some info /\ x ∈ ids_of info /\
    Participant.isUsed p = true /\ Participant.inParty p = Some i /\
    Participant.state p = NimbleServerParticipantStateWaitingForRejoin.

(** C12. Host migration to a server on which nobody plays, with entries that fit
    it and name every participant once, succeeds and leaves a consistent server.
    The first parties are those of the entries, in order: each waits for its
    client, without a connection, and refers to the first participant of its
    entry (and to no other, whatever their number). Every participant named is
    in use, in the party of its entry, and waits to rejoin; the others are as
    before. The free ids are those of the others, in increasing order. *)
Theorem host_migration_correct self infos :
  server_ok self -> Forall (fun party => Party.isUsed party = false) (parties_of self) ->
  Pool.participantCount (players_of self) = 0 ->
  infos_ok (length (parties_of self)) (Pool.participantCapacity (players_of self)) infos ->
  runs (nimbleServerHostMigration self infos (Z.of_nat (length infos)))
    (fun '(self', code) =>
       server_ok self' /\ code = 0 /\
       Parties.partiesCount (Server.localParties self') = Z.of_nat (length infos) /\
       (forall i party, parties_of self' !! i = Some party ->
          match infos !! i with
          | Some info => waits_for_host info party
          | None => Party.isUsed party = false
          end) /\
       length (pool_of (Server.game self')) = length (pool_of (Server.game self)) /\
       (forall x before p, pool_of (Server.game self) !! x = Some before ->
          pool_of (Server.game self') !! x = Some p -> migrated_participant infos before p x) /\
       contents (Pool.freeList (players_of self'))
       = left_ids (all_ids infos) (Z.to_nat (Pool.participantCapacity (players_of self)))).
Proof.
  intros Hs Hunused Hnone Hok. pose proof (sv_session _ Hs) as [_ Hpool _ _ _].
  assert (Hnd : NoDup (assignments 0 infos).*1) by (rewrite assignments_ids; apply Hok).
  eapply runs_mono; [by apply runs_host_migration|].
  intros [self' code] (parties & freeList & -> & Hpu & Hfl & Hcont & ->).
  split; [|split; [done|split; [apply Hpu|split; [|split; [|split]]]]].
  - apply (session_after_ok self parties _ Hs).
    apply (migrated_session self _ (players_of self)); try done. apply u32_range.
  - intros i party. by apply (parties_until_done _ _ _ _ _ _ _ Hpu).
  - simpl. apply length_prepare_all.
  - intros x before p Hb Hp. simpl in Hp.
    destruct (prepare_all_inv _ _ _ _ _ Hnd Hp) as (p0 & Hp0 & Hcase). simplify_eq.
    rewrite assignments_ids in Hcase. destruct Hcase as [?|(i & Hi & ->)]; [by left|right].
    apply elem_of_assignments in Hi as (j & info & -> & Hj & Hx). by exists j, info.
  - simpl. by rewrite <- (pool_length _ Hpool), Nat2Z.id.
Qed.
End MigrationProperty.

(** ** Witness *)
Import Models.

(** The server of a new host: initialised, with a game at step 7. *)
Definition new_host : NimbleServer :=
  match
    '(self, w, _) ← nimbleServerInit (H := debug_build) cleared_server example_world example_setup;
    '(self, w, _) ← nimbleServerReInitWithGame (H := debug_build) self w 7 0;
    Ret (self, w)
  with
  | Ret (self, _) => self
  | Halt _ => cleared_server
  end.

Lemma new_host_ok : server_ok new_host /\ new_session new_host 7.
Proof.
  assert (Hrun : runs
    ('(self, w, _) ← nimbleServerInit (H := debug_build) cleared_server example_world
                       example_setup;
     '(self, w, _) ← nimbleServerReInitWithGame (H := debug_build) self w 7 0;
     Ret (self, w)) (fun '(self, w) => server_ok self /\ new_session self 7)).
  { eapply runs_bind_mono; [apply runs_init; [exact example_setup_ok|exact cleared_memory_ok]|].
    intros [[self1 w1] code1] (Hini & _).
    eapply runs_bind_mono; [apply (runs_reinit _ _ _ _ _ example_setup_ok Hini); lia|].
    intros [[self2 w2] code2] (Hrun & Hnew & _). split; [apply Hrun|done]. }
  destruct (runs_inv _ _ Hrun) as ([self w] & He & Hok). unfold new_host. by rewrite He.
Qed.

(** Two parties of the old host, that played participants 1 and 0. *)
Definition old_parties : list NimbleSerializeLocalPartyInfo :=
  [mkPartyInfo 1 [1; 0]; mkPartyInfo 1 [0; 0]].

Lemma old_parties_ok : infos_ok 2 2 old_parties.
Proof.
  split; [done| |].
  - repeat constructor; simpl; lia.
  - change (all_ids old_parties) with [1%nat; 0%nat].
    repeat (constructor; [rewrite ?elem_of_cons, elem_of_nil; intuition lia|]). constructor.
Qed.

Lemma host_migration_correct_witness :
  runs (nimbleServerHostMigration (H := debug_build) new_host old_parties 2)
    (fun '(self', code) => server_ok self' /\ code = 0 /\
       contents (Pool.freeList (Game.participants (Server.game self'))) = []).
Proof.
  destruct new_host_ok as [Hok Hnew].
  eapply runs_mono; [apply (host_migration_correct (H := debug_build) new_host old_parties)|].
  - exact Hok.
  - exact (ns_parties _ _ Hnew).
  - exact (ns_players _ _ Hnew).
  - replace (length _) with 2%nat by (vm_compute; reflexivity).
    replace (Pool.participantCapacity _) with 2 by (vm_compute; reflexivity).
    exact old_parties_ok.
  - intros [self' code] (Hok' & Hcode & _ & _ & _ & _ & Hfree).
    split; [exact Hok'|]. split; [exact Hcode|]. rewrite Hfree. vm_compute. reflexivity.
Defined.

(** The test of the repository (tests/test.c, verifyHostMigration): sixteen
    participants, four of them migrate. *)
Definition test_setup : Setup := mkSetup _ _ 0 true true 16 16 20 2 32 32 0 16.

Definition test_infos : list NimbleSerializeLocalPartyInfo :=
  (fun id => mkPartyInfo 1 [id]) <$> [2; 4; 1; 8].

Definition free_count (self : NimbleServer) : Z :=
  nimbleServerCircularBufferCount (Pool.freeList (Game.participants (Server.game self))).

Lemma verifyHostMigration :
  match
    '(self, w, initErr) ← nimbleServerInit (H := debug_build) cleared_server example_world test_setup;
    '(self, w, reInitErr) ← nimbleServerReInitWithGame (H := debug_build) self w 0 0;
    '(migrated, migrationErr) ← nimbleServerHostMigration (H := debug_build) self test_infos 4;
    Ret (initErr, reInitErr, free_count self, migrationErr, free_count migrated)
  with
  | Ret results => results = (0, 0, 16, 0, 12)
  | Halt _ => False
  end.
Proof. vm_compute. reflexivity. Qed.
